(** * poe-context-plugin: format adapters and the Gemini tool-output correlator

    A shallow embedding of the request-interception core of the plugin
    (lib/fetch-wrapper/index.ts, lib/fetch-wrapper/formats/*.ts, lib/state.ts,
    lib/hooks.ts, the interceptor of index.ts and [formatData] of
    lib/logger.ts) together with the properties its specification states
    about format detection, tool-output extraction, the mutation utilities
    and the position-based correlation table, and further properties read
    off the code: of the wrapped [fetch], of runs of the hooks, and of the
    utilities against the extraction.

    How the TypeScript is read:
    - a request body, of type [any] and obtained from [JSON.parse], is a
      [value]; strings are ASCII text and numbers are integers;
    - a JavaScript exception is the [Throw] constructor of [result];
    - a function that mutates the body in place returns the body as it
      stands after the call;
    - a [Map] is an association list in insertion order;
    - the calls to the host client made by the hooks are inputs of the
      handlers, which run without interleaving; so is [JSON.parse] in the
      wrapped [fetch]; the writing of log lines, which swallows its own
      errors, is left out. *)

From Stdlib Require Import String Ascii List ZArith Bool Arith Lia DecimalString.
From Stdlib Require DecimalNat DecimalFacts.
Import ListNotations.
Local Open Scope string_scope.

Set Implicit Arguments.
Set Warnings "-register-all".

(* ================================================================== *)
(** * Errors *)

Inductive exn : Type :=
| TypeError      (* property read on null/undefined, call of a non-function, ... *)
| HostError.     (* a rejected promise of the host client *)

Inductive result (A : Type) : Type :=
| Ok (a : A)
| Throw (e : exn).

Arguments Ok {A} a.
Arguments Throw {A} e.

Definition bind {A B : Type} (r : result A) (k : A -> result B) : result B :=
  match r with
  | Ok a => k a
  | Throw e => Throw e
  end.

Notation "x <- c1 ;; c2" := (bind c1 (fun x => c2))
  (at level 61, c1 at next level, right associativity).
Notation "' pat <- c1 ;; c2" := (bind c1 (fun x => match x with pat => c2 end))
  (at level 61, pat pattern, c1 at next level, right associativity).

(** [for (const x of xs) { acc = body(acc, x) }] with an exception aborting
    the loop. *)
Fixpoint forOf {A S : Type} (xs : list A) (acc : S) (body : S -> A -> result S)
  : result S :=
  match xs with
  | [] => Ok acc
  | x :: xs' => acc' <- body acc x ;; forOf xs' acc' body
  end.

(* ================================================================== *)
(** * JavaScript values and the primitives the code uses *)

Module JS.

(** Values produced by [JSON.parse], plus [undefined] (the result of
  reading an absent property).  Objects keep their keys in insertion
  order.  Numbers are represented by integers: the code only observes
  their truthiness and their decimal rendering. *)
Inductive value : Type :=
| VUndefined
| VNull
| VBool (b : bool)
| VNum (n : Z)
| VStr (s : string)
| VArr (items : list value)
| VObj (fields : list (string * value)).

(** ** Strings *)

(** [String.prototype.toLowerCase] on ASCII text: the letters [A]..[Z]
  are folded, every other character is kept. *)
Definition lower_ascii (c : ascii) : ascii :=
let n := nat_of_ascii c in
if ((65 <=? n) && (n <=? 90))%nat then ascii_of_nat (n + 32) else c.

Fixpoint toLowerCase (s : string) : string :=
match s with
| EmptyString => EmptyString
| String c s' => String (lower_ascii c) (toLowerCase s')
end.

(** Decimal rendering of a non-negative integer, as in a template literal
  [`${index}`]. *)
Definition decimal (n : nat) : string :=
NilZero.string_of_uint (Nat.to_uint n).

Definition decimalZ (z : Z) : string :=
NilZero.string_of_int (Z.to_int z).

(** ** Truthiness, type tests, comparison *)

Definition truthy (v : value) : bool :=
match v with
| VUndefined | VNull => false
| VBool b => b
| VNum n => negb (Z.eqb n 0)
| VStr s => negb (String.eqb s "")
| VArr _ | VObj _ => true
end.

Definition isArray (v : value) : bool :=
match v with VArr _ => true | _ => false end.

Definition isNullish (v : value) : bool :=
match v with VUndefined | VNull => true | _ => false end.

(** [v === 'lit'] for a string literal. *)
Definition eqStr (v : value) (lit : string) : bool :=
match v with VStr s => String.eqb s lit | _ => false end.

(** ** Property access *)

Fixpoint lookup (k : string) (fs : list (string * value)) : value :=
match fs with
| [] => VUndefined
| (k', v) :: fs' => if String.eqb k k' then v else lookup k fs'
end.

(** [v.k].  Reading a property of [null] or [undefined] is a TypeError;
  on an object it is the own property or [undefined]; none of the keys
  the code reads is a built-in property of a string, an array, a number
  or a boolean, so those give [undefined]. *)
Definition get (v : value) (k : string) : result value :=
match v with
| VUndefined | VNull => Throw TypeError
| VObj fs => Ok (lookup k fs)
| _ => Ok VUndefined
end.

(** [v?.k] *)
Definition getOpt (v : value) (k : string) : value :=
match v with
| VObj fs => lookup k fs
| _ => VUndefined
end.

(** [{ ...o, k: v }] on the field list of [o]: an existing key keeps its
  place, a new key goes last. *)
Fixpoint setField (k : string) (v : value) (fs : list (string * value))
: list (string * value) :=
match fs with
| [] => [(k, v)]
| (k', v') :: fs' =>
    if String.eqb k k' then (k, v) :: fs' else (k', v') :: setField k v fs'
end.

(** [{ ...o, k: v }] (and, on an object, the assignment [o.k = v]). Spreading
  a string would copy its characters as indexed keys; the code only
  spreads values it has read a non-[undefined] named property from, which
  are objects. *)
Definition spreadSet (o : value) (k : string) (v : value) : value :=
match o with
| VObj fs => VObj (setField k v fs)
| _ => VObj [(k, v)]
end.

(** [v.toLowerCase()]: only strings have the method. *)
Definition callToLowerCase (v : value) : result string :=
match v with
| VStr s => Ok (toLowerCase s)
| _ => Throw TypeError
end.

(** [v?.toLowerCase()]: [undefined] for [null]/[undefined], otherwise the
  call. *)
Definition optToLowerCase (v : value) : result value :=
match v with
| VUndefined | VNull => Ok VUndefined
| VStr s => Ok (VStr (toLowerCase s))
| _ => Throw TypeError
end.

(** ** Conversions to string *)

Definition boolText (b : bool) : string := if b then "true" else "false".

(** The one-character string holding a line feed (written ['\n'] in the
  source). *)
Definition newline : string := String (ascii_of_nat 10) "".

(** [String(v)], as applied by [Array.prototype.join] and by template
  literals. *)
Fixpoint toStringJS (v : value) : string :=
match v with
| VUndefined => "undefined"
| VNull => "null"
| VBool b => boolText b
| VNum n => decimalZ n
| VStr s => s
| VArr items =>
    (fix joinItems (l : list value) : string :=
       match l with
       | [] => ""
       | x :: l' =>
           let sx := match x with
                     | VUndefined | VNull => ""
                     | _ => toStringJS x
                     end in
           match l' with
           | [] => sx
           | _ :: _ => sx ++ "," ++ joinItems l'
           end
       end) items
| VObj _ => "[object Object]"
end.

(** [xs.join(sep)] *)
Fixpoint join (sep : string) (xs : list value) : string :=
match xs with
| [] => ""
| x :: xs' =>
    let sx := if isNullish x then "" else toStringJS x in
    match xs' with
    | [] => sx
    | _ :: _ => sx ++ sep ++ join sep xs'
    end
end.

Definition hexDigit (n : nat) : ascii :=
ascii_of_nat (if (n <? 10)%nat then 48 + n else 87 + n).

(** The escape of one character inside a JSON string literal. *)
Definition escapeChar (c : ascii) : string :=
let n := nat_of_ascii c in
if (n =? 34)%nat then "\" ++ String c ""
else if (n =? 92)%nat then "\\"
else if (n =? 8)%nat then "\b"
else if (n =? 12)%nat then "\f"
else if (n =? 10)%nat then "\n"
else if (n =? 13)%nat then "\r"
else if (n =? 9)%nat then "\t"
else if (n <? 32)%nat then "\u00" ++ String (hexDigit (n / 16)) (String (hexDigit (n mod 16)) "")
else String c "".

Fixpoint escapeString (s : string) : string :=
match s with
| EmptyString => ""
| String c s' => escapeChar c ++ escapeString s'
end.

Definition quote (s : string) : string :=
String (ascii_of_nat 34) (escapeString s ++ String (ascii_of_nat 34) "").

(** [JSON.stringify(v)] for a value that is not [undefined]. Inside an
  array [undefined] is written [null]; inside an object a key whose value
  is [undefined] is left out. *)
Fixpoint stringifyDefined (v : value) : string :=
match v with
| VUndefined | VNull => "null"
| VBool b => boolText b
| VNum n => decimalZ n
| VStr s => quote s
| VArr items =>
    "[" ++
    (fix elems (l : list value) : string :=
       match l with
       | [] => ""
       | x :: l' =>
           match l' with
           | [] => stringifyDefined x
           | _ :: _ => stringifyDefined x ++ "," ++ elems l'
           end
       end) items
    ++ "]"
| VObj fields =>
    "{" ++
    (fix members (first : bool) (l : list (string * value)) : string :=
       match l with
       | [] => ""
       | (k, x) :: l' =>
           match x with
           | VUndefined => members first l'
           | _ => (if first then "" else ",") ++ quote k ++ ":"
                  ++ stringifyDefined x ++ members false l'
           end
       end) true fields
    ++ "}"
end.

(** [JSON.stringify(v)]: [undefined] for [undefined]. *)
Definition JSON_stringify (v : value) : value :=
match v with
| VUndefined => VUndefined
| _ => VStr (stringifyDefined v)
end.

(** [typeof v === 'string' ? v : JSON.stringify(v)] *)
Definition stringOrStringify (v : value) : value :=
match v with
| VStr _ => v
| _ => JSON_stringify v
end.

(** [a || b] *)
Definition orElse (a b : value) : value := if truthy a then a else b.

End JS.
Import JS.

(* ================================================================== *)
(** * JavaScript [Map] with string keys

    A [Map] iterates in insertion order; [set] on a present key keeps the
    key's position. *)

Module JSMap.
Section WithValue.
Variable V : Type.

Definition t : Type := list (string * V).

Definition empty : t := [].

Fixpoint get (k : string) (m : t) : option V :=
  match m with
  | [] => None
  | (k', v) :: m' => if String.eqb k k' then Some v else get k m'
  end.

Definition has (k : string) (m : t) : bool :=
  match get k m with Some _ => true | None => false end.

Fixpoint set (k : string) (v : V) (m : t) : t :=
  match m with
  | [] => [(k, v)]
  | (k', v') :: m' =>
      if String.eqb k k' then (k, v) :: m' else (k', v') :: set k v m'
  end.

Definition size (m : t) : nat := length m.

Definition keys (m : t) : list string := map fst m.
End WithValue.
End JSMap.

Arguments JSMap.empty {V}.

(* ================================================================== *)
(** * Plugin state (lib/state.ts) *)

Record ModelInfo : Type := {
  providerID : value;
  modelID : value
}.

Record PluginState : Type := {
  model : JSMap.t ModelInfo;
  googleToolCallMapping : JSMap.t (JSMap.t string);
  checkedSessions : list string;
  subagentSessions : list string;
  lastSeenSessionId : option string
}.

Definition createPluginState : PluginState := {|
  model := JSMap.empty;
  googleToolCallMapping := JSMap.empty;
  checkedSessions := [];
  subagentSessions := [];
  lastSeenSessionId := None
|}.

(* ================================================================== *)
(** * Tool outputs and format descriptors (lib/fetch-wrapper/types.ts) *)

Record ToolOutput : Type := {
  id : string;
  toolName : value;
  content : value
}.

Record FormatDescriptor : Type := {
  name : string;
  detect : value -> result bool;
  getDataArray : value -> result value;
  extractToolOutputs : list value -> PluginState -> result (list ToolOutput);
  hasToolOutputs : list value -> result bool
}.

(** [outputs.push(o)] *)
Definition push {A : Type} (xs : list A) (x : A) : list A := (xs ++ [x])%list.

(** [xs.some(p)], and the loops that [return true] at the first hit. *)
Fixpoint some {A : Type} (p : A -> result bool) (xs : list A) : result bool :=
  match xs with
  | [] => Ok false
  | x :: xs' => b <- p x ;; if b then Ok true else some p xs'
  end.

(* ------------------------------------------------------------------ *)
(** ** OpenAI Chat Completions (formats/openai-chat.ts) *)

Module OpenaiChat.

Definition detect (body : value) : result bool :=
  messages <- get body "messages" ;;
  Ok (truthy messages && isArray messages).

Definition getDataArray (body : value) : result value := get body "messages".

(** The body of the inner loop over the parts of a [user] turn. *)
Definition extractPart (outputs : list ToolOutput) (part : value)
  : result (list ToolOutput) :=
  ty <- get part "type" ;;
  if eqStr ty "tool_result" then
    tool_use_id <- get part "tool_use_id" ;;
    if truthy tool_use_id then
      i <- callToLowerCase tool_use_id ;;
      c <- get part "content" ;;
      Ok (push outputs {| id := i; toolName := VUndefined;
                          content := stringOrStringify c |})
    else Ok outputs
  else Ok outputs.

(** The native shape: [role = 'tool'] with a [tool_call_id]. *)
Definition extractNative (outputs : list ToolOutput) (m : value)
  : result (list ToolOutput) :=
  role <- get m "role" ;;
  if eqStr role "tool" then
    tool_call_id <- get m "tool_call_id" ;;
    if truthy tool_call_id then
      i <- callToLowerCase tool_call_id ;;
      n <- get m "name" ;;
      c <- get m "content" ;;
      Ok (push outputs {| id := i; toolName := n;
                          content := stringOrStringify c |})
    else Ok outputs
  else Ok outputs.

(** The Anthropic shape: [role = 'user'] with [tool_result] parts. *)
Definition extractAnthropic (outputs : list ToolOutput) (m : value)
  : result (list ToolOutput) :=
  role <- get m "role" ;;
  if eqStr role "user" then
    c <- get m "content" ;;
    match c with
    | VArr parts => forOf parts outputs extractPart
    | _ => Ok outputs
    end
  else Ok outputs.

(** The body of the loop over the turns. *)
Definition extractTurn (outputs : list ToolOutput) (m : value)
  : result (list ToolOutput) :=
  outputs1 <- extractNative outputs m ;;
  extractAnthropic outputs1 m.

Definition extractToolOutputs (data : list value) (_ : PluginState)
  : result (list ToolOutput) :=
  forOf data [] extractTurn.

Definition hasToolOutputs (data : list value) : result bool :=
  some (fun m =>
    role <- get m "role" ;;
    if eqStr role "tool" then Ok true
    else if eqStr role "user" then
      c <- get m "content" ;;
      match c with
      | VArr parts =>
          some (fun part => ty <- get part "type" ;; Ok (eqStr ty "tool_result")) parts
      | _ => Ok false
      end
    else Ok false) data.

End OpenaiChat.

Definition openaiChatFormat : FormatDescriptor := {|
  name := "openai-chat";
  detect := OpenaiChat.detect;
  getDataArray := OpenaiChat.getDataArray;
  extractToolOutputs := OpenaiChat.extractToolOutputs;
  hasToolOutputs := OpenaiChat.hasToolOutputs
|}.

(* ------------------------------------------------------------------ *)
(** ** OpenAI Responses API (formats/openai-responses.ts) *)

Module OpenaiResponses.

Definition detect (body : value) : result bool :=
  input <- get body "input" ;;
  Ok (truthy input && isArray input).

Definition getDataArray (body : value) : result value := get body "input".

Definition extractItem (outputs : list ToolOutput) (item : value)
  : result (list ToolOutput) :=
  ty <- get item "type" ;;
  if eqStr ty "function_call_output" then
    call_id <- get item "call_id" ;;
    if truthy call_id then
      i <- callToLowerCase call_id ;;
      n <- get item "name" ;;
      o <- get item "output" ;;
      Ok (push outputs {| id := i; toolName := n;
                          content := stringOrStringify o |})
    else Ok outputs
  else Ok outputs.

Definition extractToolOutputs (data : list value) (_ : PluginState)
  : result (list ToolOutput) :=
  forOf data [] extractItem.

Definition hasToolOutputs (data : list value) : result bool :=
  some (fun item => ty <- get item "type" ;; Ok (eqStr ty "function_call_output")) data.

End OpenaiResponses.

Definition openaiResponsesFormat : FormatDescriptor := {|
  name := "openai-responses";
  detect := OpenaiResponses.detect;
  getDataArray := OpenaiResponses.getDataArray;
  extractToolOutputs := OpenaiResponses.extractToolOutputs;
  hasToolOutputs := OpenaiResponses.hasToolOutputs
|}.

(* ------------------------------------------------------------------ *)
(** ** AWS Bedrock Converse (formats/bedrock.ts) *)

Module Bedrock.

Definition detect (body : value) : result bool :=
  system <- get body "system" ;;
  if isArray system then
    inferenceConfig <- get body "inferenceConfig" ;;
    match inferenceConfig with
    | VUndefined => Ok false
    | _ => messages <- get body "messages" ;; Ok (isArray messages)
    end
  else Ok false.

Definition getDataArray (body : value) : result value := get body "messages".

(** [c.text || JSON.stringify(c)] *)
Definition blockText (c : value) : result value :=
  t <- get c "text" ;; Ok (orElse t (JSON_stringify c)).

(** [content.map(c => c.text || JSON.stringify(c))] *)
Fixpoint mapM {A B : Type} (f : A -> result B) (xs : list A) : result (list B) :=
  match xs with
  | [] => Ok []
  | x :: xs' => y <- f x ;; ys <- mapM f xs' ;; Ok (y :: ys)
  end.

Definition extractBlock (outputs : list ToolOutput) (block : value)
  : result (list ToolOutput) :=
  toolResult <- get block "toolResult" ;;
  if truthy toolResult then
    toolUseId0 <- get toolResult "toolUseId" ;;
    if truthy toolUseId0 then
      toolUseId <- callToLowerCase toolUseId0 ;;
      c <- get toolResult "content" ;;
      text <- match c with
              | VArr blocks => ts <- mapM blockText blocks ;; Ok (VStr (join newline ts))
              | _ => Ok (JSON_stringify c)
              end ;;
      Ok (push outputs {| id := toolUseId; toolName := VUndefined; content := text |})
    else Ok outputs
  else Ok outputs.

Definition extractTurn (outputs : list ToolOutput) (m : value)
  : result (list ToolOutput) :=
  role <- get m "role" ;;
  if eqStr role "user" then
    c <- get m "content" ;;
    match c with
    | VArr blocks => forOf blocks outputs extractBlock
    | _ => Ok outputs
    end
  else Ok outputs.

Definition extractToolOutputs (data : list value) (_ : PluginState)
  : result (list ToolOutput) :=
  forOf data [] extractTurn.

Definition hasToolOutputs (data : list value) : result bool :=
  some (fun m =>
    role <- get m "role" ;;
    if eqStr role "user" then
      c <- get m "content" ;;
      match c with
      | VArr blocks =>
          some (fun block => tr <- get block "toolResult" ;; Ok (truthy tr)) blocks
      | _ => Ok false
      end
    else Ok false) data.

End Bedrock.

Definition bedrockFormat : FormatDescriptor := {|
  name := "bedrock";
  detect := Bedrock.detect;
  getDataArray := Bedrock.getDataArray;
  extractToolOutputs := Bedrock.extractToolOutputs;
  hasToolOutputs := Bedrock.hasToolOutputs
|}.

(* ------------------------------------------------------------------ *)
(** ** Google Gemini (formats/gemini.ts) *)

Module Gemini.

Definition detect (body : value) : result bool :=
  contents <- get body "contents" ;;
  Ok (truthy contents && isArray contents).

Definition getDataArray (body : value) : result value := get body "contents".

(** The loop that picks the position mapping: the first entry of
    [state.googleToolCallMapping], in iteration order, whose table has a
    positive size.  The session key of the entry is bound to an unused
    variable. *)
Fixpoint findPositionMapping (entries : JSMap.t (JSMap.t string))
  : option (JSMap.t string) :=
  match entries with
  | [] => None
  | (_sessionId, mapping) :: rest =>
      if (0 <? JSMap.size mapping)%nat then Some mapping
      else findPositionMapping rest
  end.

(** [`gemini-${funcName}-${n}`] *)
Definition syntheticId (funcName : value) (n : nat) : string :=
  "gemini-" ++ toStringJS funcName ++ "-" ++ decimal n.

(** [response?.content || JSON.stringify(response)] *)
Definition responseContent (response : value) : value :=
  orElse (getOpt response "content") (JSON_stringify response).

(** *** Without a position mapping *)

Definition fallbackPart (outputs : list ToolOutput) (part : value)
  : result (list ToolOutput) :=
  functionResponse <- get part "functionResponse" ;;
  if truthy functionResponse then
    name0 <- get functionResponse "name" ;;
    funcName <- optToLowerCase name0 ;;
    response <- get functionResponse "response" ;;
    Ok (push outputs {| id := syntheticId funcName (length outputs);
                        toolName := funcName;
                        content := responseContent response |})
  else Ok outputs.

Definition fallbackContent (outputs : list ToolOutput) (c : value)
  : result (list ToolOutput) :=
  parts <- get c "parts" ;;
  match parts with
  | VArr ps => forOf ps outputs fallbackPart
  | _ => Ok outputs
  end.

(** *** With a position mapping *)

(** [toolCallId?.toLowerCase() || `gemini-${funcName}-${currentIndex}`] *)
Definition correlatedId (toolCallId : option string) (funcName : value)
           (currentIndex : nat) : string :=
  match toolCallId with
  | Some s =>
      if truthy (VStr (toLowerCase s)) then toLowerCase s
      else syntheticId funcName currentIndex
  | None => syntheticId funcName currentIndex
  end.

(** [toolPositionCounters.get(funcName) || 0] *)
Definition counterOf (counters : JSMap.t nat) (funcName : string) : nat :=
  match JSMap.get funcName counters with
  | Some n => n
  | None => 0
  end.

(** [`${funcName}:${currentIndex}`] *)
Definition positionKey (funcName : string) (currentIndex : nat) : string :=
  funcName ++ ":" ++ decimal currentIndex.

Definition correlatedPart (positionMapping : JSMap.t string)
           (acc : list ToolOutput * JSMap.t nat) (part : value)
  : result (list ToolOutput * JSMap.t nat) :=
  let (outputs, counters) := acc in
  functionResponse <- get part "functionResponse" ;;
  if truthy functionResponse then
    name0 <- get functionResponse "name" ;;
    funcName <- optToLowerCase name0 ;;
    match funcName with
    | VStr fn =>
        if truthy funcName then
          let currentIndex := counterOf counters fn in
          let counters' := JSMap.set fn (currentIndex + 1) counters in
          let toolCallId := JSMap.get (positionKey fn currentIndex) positionMapping in
          response <- get functionResponse "response" ;;
          Ok (push outputs {| id := correlatedId toolCallId funcName currentIndex;
                              toolName := funcName;
                              content := responseContent response |},
              counters')
        else Ok acc
    | _ => Ok acc
    end
  else Ok acc.

Definition correlatedContent (positionMapping : JSMap.t string)
           (acc : list ToolOutput * JSMap.t nat) (c : value)
  : result (list ToolOutput * JSMap.t nat) :=
  parts <- get c "parts" ;;
  match parts with
  | VArr ps => forOf ps acc (correlatedPart positionMapping)
  | _ => Ok acc
  end.

Definition extractToolOutputs (data : list value) (state : PluginState)
  : result (list ToolOutput) :=
  match findPositionMapping (googleToolCallMapping state) with
  | None => forOf data [] fallbackContent
  | Some positionMapping =>
      '(outputs, _) <- forOf data ([], JSMap.empty) (correlatedContent positionMapping) ;;
      Ok outputs
  end.

Definition hasToolOutputs (data : list value) : result bool :=
  some (fun c =>
    parts <- get c "parts" ;;
    match parts with
    | VArr ps =>
        some (fun part => fr <- get part "functionResponse" ;; Ok (truthy fr)) ps
    | _ => Ok false
    end) data.

End Gemini.

Definition geminiFormat : FormatDescriptor := {|
  name := "gemini";
  detect := Gemini.detect;
  getDataArray := Gemini.getDataArray;
  extractToolOutputs := Gemini.extractToolOutputs;
  hasToolOutputs := Gemini.hasToolOutputs
|}.

(** The four descriptors, in the order [detectFormat] tries them. *)
Definition formats : list FormatDescriptor :=
  [openaiResponsesFormat; bedrockFormat; openaiChatFormat; geminiFormat].

(* ================================================================== *)
(** * The detector (lib/fetch-wrapper/index.ts) *)

Definition detectFormat (body : value) : result (option FormatDescriptor) :=
  r <- detect openaiResponsesFormat body ;;
  if r then Ok (Some openaiResponsesFormat) else
  b <- detect bedrockFormat body ;;
  if b then Ok (Some bedrockFormat) else
  c <- detect openaiChatFormat body ;;
  if c then Ok (Some openaiChatFormat) else
  g <- detect geminiFormat body ;;
  if g then Ok (Some geminiFormat) else
  Ok None.

(* ================================================================== *)
(** * Mutation utilities (lib/fetch-wrapper/index.ts)

    [format.getDataArray] is declared to return [any[] | undefined].  The
    utilities return early on a falsy result.  The array is mutated in
    place, so the body holds the rewritten array afterwards: [storeData]
    writes it back under the key the format reads it from. *)

Definition storeData (body : value) (key : string) (data : list value) : value :=
  spreadSet body key (VArr data).

(** [for (let i = 0; i < dataArray.length; i++) { const m = dataArray[i]; ... }]
    where the loop body either leaves [dataArray[i]] alone ([None]) or
    assigns it and sets [replaced = true] ([Some]), and may thread a state
    of its own.  An exception leaves the assignments already made in place:
    the first component is the array as it stands when the loop ends. *)
Fixpoint assignLoop {S : Type} (step : S -> value -> result (S * option value))
         (s : S) (replaced : bool) (xs : list value) : list value * result bool :=
  match xs with
  | [] => ([], Ok replaced)
  | x :: xs' =>
      match step s x with
      | Throw e => (x :: xs', Throw e)
      | Ok (s', None) =>
          let (ys, r) := assignLoop step s' replaced xs' in (x :: ys, r)
      | Ok (s', Some x') =>
          let (ys, r) := assignLoop step s' true xs' in (x' :: ys, r)
      end
  end.

Module Replace.
Section WithTarget.
Variable toolIdLower : string.
Variable newContent : string.

(** [v?.toLowerCase() === toolIdLower] *)
Definition idMatches (v : value) : result bool :=
  l <- optToLowerCase v ;; Ok (eqStr l toolIdLower).

(** *** openai-chat *)

(** The callback of [m.content.map]; the flag is [modified]. *)
Definition chatPart (acc : list value * bool) (part : value)
  : result (list value * bool) :=
  let (newParts, modified) := acc in
  ty <- get part "type" ;;
  if eqStr ty "tool_result" then
    tool_use_id <- get part "tool_use_id" ;;
    hit <- idMatches tool_use_id ;;
    if hit then Ok (push newParts (spreadSet part "content" (VStr newContent)), true)
    else Ok (push newParts part, modified)
  else Ok (push newParts part, modified).

Definition chatNative (m : value) : result (option value) :=
  role <- get m "role" ;;
  if eqStr role "tool" then
    tool_call_id <- get m "tool_call_id" ;;
    hit <- idMatches tool_call_id ;;
    if hit then Ok (Some (spreadSet m "content" (VStr newContent))) else Ok None
  else Ok None.

Definition chatAnthropic (m : value) : result (option value) :=
  role <- get m "role" ;;
  if eqStr role "user" then
    c <- get m "content" ;;
    match c with
    | VArr parts =>
        '(newContentArray, modified) <- forOf parts ([], false) chatPart ;;
        if modified then Ok (Some (spreadSet m "content" (VArr newContentArray)))
        else Ok None
    | _ => Ok None
    end
  else Ok None.

(** One iteration: both tests read the element [m] fetched at the top of
    the iteration; a later assignment to [dataArray[i]] overwrites an
    earlier one. *)
Definition chatStep (_ : unit) (m : value) : result (unit * option value) :=
  a1 <- chatNative m ;;
  a2 <- chatAnthropic m ;;
  Ok (tt, match a2 with Some x => Some x | None => a1 end).

(** *** openai-responses *)

Definition responsesStep (_ : unit) (item : value) : result (unit * option value) :=
  ty <- get item "type" ;;
  if eqStr ty "function_call_output" then
    call_id <- get item "call_id" ;;
    hit <- idMatches call_id ;;
    if hit then Ok (tt, Some (spreadSet item "output" (VStr newContent)))
    else Ok (tt, None)
  else Ok (tt, None).

(** *** gemini *)

(** The part that replaces a matched one. *)
Definition geminiRewrite (part functionResponse name0 : value) : value :=
  spreadSet part "functionResponse"
    (spreadSet functionResponse "response"
       (VObj [("name", name0); ("content", VStr newContent)])).

(** The callback of [content.parts.map]; the state is the new array, the
    flag [contentModified] and [toolPositionCounters]. *)
Definition geminiPart (positionMapping : JSMap.t string)
           (acc : list value * bool * JSMap.t nat) (part : value)
  : result (list value * bool * JSMap.t nat) :=
  let '(newParts, contentModified, counters) := acc in
  functionResponse <- get part "functionResponse" ;;
  if truthy functionResponse then
    name0 <- get functionResponse "name" ;;
    funcName <- optToLowerCase name0 ;;
    match funcName with
    | VStr fn =>
        if truthy funcName then
          let currentIndex := Gemini.counterOf counters fn in
          let counters' := JSMap.set fn (currentIndex + 1) counters in
          let mappedToolId :=
            JSMap.get (Gemini.positionKey fn currentIndex) positionMapping in
          let hit := match mappedToolId with
                     | Some s => String.eqb (toLowerCase s) toolIdLower
                     | None => false
                     end in
          if hit then
            Ok (push newParts (geminiRewrite part functionResponse name0), true, counters')
          else Ok (push newParts part, contentModified, counters')
        else Ok (push newParts part, contentModified, counters)
    | _ => Ok (push newParts part, contentModified, counters)
    end
  else Ok (push newParts part, contentModified, counters).

Definition geminiStep (positionMapping : JSMap.t string)
           (counters : JSMap.t nat) (c : value)
  : result (JSMap.t nat * option value) :=
  parts <- get c "parts" ;;
  match parts with
  | VArr ps =>
      '(newParts, contentModified, counters') <-
        forOf ps ([], false, counters) (geminiPart positionMapping) ;;
      if contentModified then Ok (counters', Some (spreadSet c "parts" (VArr newParts)))
      else Ok (counters', None)
  | _ => Ok (counters, None)
  end.

(** *** bedrock *)

Definition bedrockBlock (acc : list value * bool) (block : value)
  : result (list value * bool) :=
  let (newBlocks, modified) := acc in
  toolResult <- get block "toolResult" ;;
  if truthy toolResult then
    toolUseId <- get toolResult "toolUseId" ;;
    hit <- idMatches toolUseId ;;
    if hit then
      Ok (push newBlocks
            (spreadSet block "toolResult"
               (spreadSet toolResult "content"
                  (VArr [VObj [("text", VStr newContent)]]))), true)
    else Ok (push newBlocks block, modified)
  else Ok (push newBlocks block, modified).

Definition bedrockStep (_ : unit) (m : value) : result (unit * option value) :=
  role <- get m "role" ;;
  if eqStr role "user" then
    c <- get m "content" ;;
    match c with
    | VArr blocks =>
        '(newContentArray, modified) <- forOf blocks ([], false) bedrockBlock ;;
        if modified then Ok (tt, Some (spreadSet m "content" (VArr newContentArray)))
        else Ok (tt, None)
    | _ => Ok (tt, None)
    end
  else Ok (tt, None).

End WithTarget.
End Replace.

(** [replaceToolOutput(body, format, toolId, newContent, state)]: the body
    after the call and what the call returns.  A truthy [dataArray] that
    is not an array has no element the loops could rewrite (array-like
    objects, which the declared type of [getDataArray] excludes, are not
    modelled). *)
Definition replaceToolOutput (body : value) (format : FormatDescriptor)
           (toolId newContent : string) (state : PluginState)
  : value * result bool :=
  match getDataArray format body with
  | Throw e => (body, Throw e)
  | Ok dataArray =>
      if negb (truthy dataArray) then (body, Ok false) else
      match dataArray with
      | VArr data =>
          let toolIdLower := toLowerCase toolId in
          if String.eqb (name format) "openai-chat" then
            let (data', r) := assignLoop (Replace.chatStep toolIdLower newContent) tt false data in
            (storeData body "messages" data', r)
          else if String.eqb (name format) "openai-responses" then
            let (data', r) := assignLoop (Replace.responsesStep toolIdLower newContent) tt false data in
            (storeData body "input" data', r)
          else if String.eqb (name format) "gemini" then
            match Gemini.findPositionMapping (googleToolCallMapping state) with
            | Some positionMapping =>
                let (data', r) :=
                  assignLoop (Replace.geminiStep toolIdLower newContent positionMapping)
                             JSMap.empty false data in
                (storeData body "contents" data', r)
            | None => (body, Ok false)
            end
          else if String.eqb (name format) "bedrock" then
            let (data', r) := assignLoop (Replace.bedrockStep toolIdLower newContent) tt false data in
            (storeData body "messages" data', r)
          else (body, Ok false)
      | _ => (body, Ok false)
      end
  end.

(** [dataArray[i] = x], for an index inside the array. *)
Fixpoint updateAt (i : nat) (x : value) (xs : list value) : list value :=
  match xs, i with
  | [], _ => []
  | _ :: xs', O => x :: xs'
  | y :: xs', S j => y :: updateAt j x xs'
  end.

Module Inject.
Section WithText.
Variable content : string.

(** [item.content = item.content + '\n\n' + content] for a string,
    [item.content.push(block)] for an array, nothing otherwise. *)
Definition appendToContent (item : value) (block : value) : result value :=
  c <- get item "content" ;;
  match c with
  | VStr s => Ok (spreadSet item "content" (VStr (s ++ newline ++ newline ++ content)))
  | VArr parts => Ok (spreadSet item "content" (VArr (push parts block)))
  | _ => Ok item
  end.

Definition textBlock (ty : string) : value :=
  VObj [("type", VStr ty); ("text", VStr content)].

(** The [switch] inside the loop: [Some item'] when the case returns
    [true] (with [item'] the turn after its in-place update), [None]
    when it falls out of the [switch]. *)
Definition injectItem (formatName : string) (item : value) : result (option value) :=
  if String.eqb formatName "openai-chat" then
    role <- get item "role" ;;
    if eqStr role "user" then
      item' <- appendToContent item (textBlock "text") ;; Ok (Some item')
    else Ok None
  else if String.eqb formatName "openai-responses" then
    ty <- get item "type" ;;
    if eqStr ty "message" then
      role <- get item "role" ;;
      if eqStr role "user" then
        item' <- appendToContent item (textBlock "input_text") ;; Ok (Some item')
      else Ok None
    else Ok None
  else if String.eqb formatName "gemini" then
    role <- get item "role" ;;
    if eqStr role "user" then
      parts <- get item "parts" ;;
      match parts with
      | VArr ps =>
          Ok (Some (spreadSet item "parts"
                      (VArr (push ps (VObj [("text", VStr content)])))))
      | _ => Ok None
      end
    else Ok None
  else if String.eqb formatName "bedrock" then
    role <- get item "role" ;;
    if eqStr role "user" then
      item' <- appendToContent item (textBlock "text") ;; Ok (Some item')
    else Ok None
  else Ok None.

(** [for (let i = n - 1; i >= 0; i--)]: the array after the update when
    the loop returns [true], [None] when it runs out. *)
Fixpoint scanFrom (formatName : string) (data : list value) (n : nat)
  : result (option (list value)) :=
  match n with
  | O => Ok None
  | S i =>
      r <- injectItem formatName (nth i data VUndefined) ;;
      match r with
      | Some item' => Ok (Some (updateAt i item' data))
      | None => scanFrom formatName data i
      end
  end.

End WithText.
End Inject.

(** The key under which each of the four formats keeps its turn array. *)
Definition dataKey (formatName : string) : string :=
  if String.eqb formatName "openai-responses" then "input"
  else if String.eqb formatName "gemini" then "contents"
  else "messages".

(** [injectIntoLastUserMessage(body, format, content)]: the body after the
    call and the returned flag.  Nothing is mutated before the turn is
    found, so an exception leaves the body as it was.  As in
    [replaceToolOutput], a truthy non-array [dataArray] has no turn the
    loop could recognize. *)
Definition injectIntoLastUserMessage (body : value) (format : FormatDescriptor)
           (content : string) : result (value * bool) :=
  dataArray <- getDataArray format body ;;
  if negb (truthy dataArray) then Ok (body, false) else
  match dataArray with
  | VArr data =>
      r <- Inject.scanFrom content (name format) data (length data) ;;
      match r with
      | Some data' => Ok (storeData body (dataKey (name format)) data', true)
      | None => Ok (body, false)
      end
  | _ => Ok (body, false)
  end.

Module Append.

(** The turn each case of the [switch] pushes. *)
Definition newTurn (formatName : string) (content : string) : option value :=
  if String.eqb formatName "openai-chat" || String.eqb formatName "bedrock" then
    Some (VObj [("role", VStr "user"); ("content", VStr content)])
  else if String.eqb formatName "openai-responses" then
    Some (VObj [("type", VStr "message"); ("role", VStr "user"); ("content", VStr content)])
  else if String.eqb formatName "gemini" then
    Some (VObj [("role", VStr "user"); ("parts", VArr [VObj [("text", VStr content)]])])
  else None.

End Append.

(** [appendUserMessage(body, format, content)].  [push] exists on arrays
    only: any other truthy [dataArray] makes the call a TypeError. *)
Definition appendUserMessage (body : value) (format : FormatDescriptor)
           (content : string) : result (value * bool) :=
  dataArray <- getDataArray format body ;;
  if negb (truthy dataArray) then Ok (body, false) else
  match Append.newTurn (name format) content with
  | Some turn =>
      match dataArray with
      | VArr data => Ok (storeData body (dataKey (name format)) (push data turn), true)
      | _ => Throw TypeError
      end
  | None => Ok (body, false)
  end.

(* ================================================================== *)
(** * The chat.params hook (lib/hooks.ts)

    The two calls to the host client are inputs of the model: what
    [client.session.get] and [client.session.messages] resolve to (or that
    they reject) for a session identifier.  One invocation of the handler
    is modelled as running without interleaving. *)

Module Hooks.

Record Client : Type := {
  sessionGet : string -> result value;
  sessionMessages : string -> result value
}.

(** The fields of the hook's [input] the handler reads. *)
Record ChatParamsInput : Type := {
  sessionID : string;
  provider : value;
  inputModel : value;
  message : value
}.

Definition isSubagentSession (client : Client) (sessionId : string) : bool :=
  match (r <- sessionGet client sessionId ;;
         d <- get r "data" ;;
         Ok (truthy (getOpt d "parentID"))) with
  | Ok b => b
  | Throw _ => false
  end.

(** [for (const part of v)]: arrays and strings are iterable. *)
Definition iterate (v : value) : result (list value) :=
  match v with
  | VArr items => Ok items
  | VStr s => Ok (map (fun c => VStr (String c "")) (list_ascii_of_string s))
  | _ => Throw TypeError
  end.

Definition recordPart (toolCallsByName : JSMap.t (list string)) (part : value)
  : result (JSMap.t (list string)) :=
  ty <- get part "type" ;;
  if eqStr ty "tool" then
    callID <- get part "callID" ;;
    if truthy callID then
      tool <- get part "tool" ;;
      if truthy tool then
        toolName <- callToLowerCase tool ;;
        callId <- callToLowerCase callID ;;
        let m := if JSMap.has toolName toolCallsByName then toolCallsByName
                 else JSMap.set toolName [] toolCallsByName in
        match JSMap.get toolName m with
        | Some callIds => Ok (JSMap.set toolName (push callIds callId) m)
        | None => Throw TypeError
        end
      else Ok toolCallsByName
    else Ok toolCallsByName
  else Ok toolCallsByName.

Definition recordMessage (toolCallsByName : JSMap.t (list string)) (msg : value)
  : result (JSMap.t (list string)) :=
  parts <- get msg "parts" ;;
  if truthy parts then
    ps <- iterate parts ;;
    forOf ps toolCallsByName recordPart
  else Ok toolCallsByName.

(** [callIds.forEach((callId, index) => positionMapping.set(`${toolName}:${index}`, callId))] *)
Fixpoint setPositions (toolName : string) (index : nat) (callIds : list string)
         (positionMapping : JSMap.t string) : JSMap.t string :=
  match callIds with
  | [] => positionMapping
  | callId :: rest =>
      setPositions toolName (S index) rest
        (JSMap.set (Gemini.positionKey toolName index) callId positionMapping)
  end.

Definition flatten (toolCallsByName : JSMap.t (list string)) : JSMap.t string :=
  fold_left (fun positionMapping entry =>
               setPositions (fst entry) 0 (snd entry) positionMapping)
            toolCallsByName JSMap.empty.

(** The table built from the transcript [messages] (an array). *)
Definition buildPositionMapping (messages : list value) : result (JSMap.t string) :=
  toolCallsByName <- forOf messages JSMap.empty recordMessage ;;
  Ok (flatten toolCallsByName).

(** The body of the [try] block: [Some table] when a table is stored. *)
Definition fetchPositionMapping (client : Client) (sessionId : string)
  : result (option (JSMap.t string)) :=
  messagesResponse <- sessionMessages client sessionId ;;
  d <- get messagesResponse "data" ;;
  match orElse d messagesResponse with
  | VArr messages => t <- buildPositionMapping messages ;; Ok (Some t)
  | _ => Ok None
  end.

Definition addToSet (x : string) (xs : list string) : list string :=
  if existsb (String.eqb x) xs then xs else push xs x.

(** [(input.provider as any)?.info?.id || input.provider?.id], replaced by
    [input.message.model.providerID] when it is falsy and that one is not. *)
Definition resolveProviderID (input : ChatParamsInput) : value :=
  let providerID :=
    orElse (getOpt (getOpt (provider input) "info") "id")
           (getOpt (provider input) "id") in
  let fromMessage := getOpt (getOpt (message input) "model") "providerID" in
  if negb (truthy providerID) && truthy fromMessage then fromMessage
  else providerID.

(** The store after the session-change test:
    [if (state.lastSeenSessionId && state.lastSeenSessionId !== sessionId)
       state.googleToolCallMapping.clear()]. *)
Definition afterSessionChange (state : PluginState) (sessionId : string)
  : JSMap.t (JSMap.t string) :=
  match lastSeenSessionId state with
  | Some last =>
      if negb (String.eqb last "") && negb (String.eqb last sessionId)
      then JSMap.empty
      else googleToolCallMapping state
  | None => googleToolCallMapping state
  end.

(** The store after the mapping for Gemini has been built (or not). *)
Definition afterMappingBuild (client : Client) (providerID : value)
           (sessionId : string) (store : JSMap.t (JSMap.t string))
  : JSMap.t (JSMap.t string) :=
  if eqStr providerID "google" || eqStr providerID "google-vertex" then
    match fetchPositionMapping client sessionId with
    | Ok (Some positionMapping) => JSMap.set sessionId positionMapping store
    | Ok None => store
    | Throw _ => store
    end
  else store.

Definition createChatParamsHandler (client : Client) (state : PluginState)
           (input : ChatParamsInput) : PluginState :=
  let sessionId := sessionID input in
  let providerID := resolveProviderID input in
  let modelID := getOpt (inputModel input) "id" in
  (* Detect session change *)
  let mapping1 := afterSessionChange state sessionId in
  (* Check if this is a subagent session *)
  let known := existsb (String.eqb sessionId) (checkedSessions state) in
  let checked1 := if known then checkedSessions state
                  else addToSet sessionId (checkedSessions state) in
  let subagents1 :=
    if known then subagentSessions state
    else if isSubagentSession client sessionId
         then addToSet sessionId (subagentSessions state)
         else subagentSessions state in
  (* Cache model info for the session *)
  let model1 :=
    if truthy providerID && truthy modelID
    then JSMap.set sessionId {| providerID := providerID; modelID := modelID |}
                   (model state)
    else model state in
  (* Build position-based mapping for Gemini *)
  let mapping2 := afterMappingBuild client providerID sessionId mapping1 in
  {| model := model1;
     googleToolCallMapping := mapping2;
     checkedSessions := checked1;
     subagentSessions := subagents1;
     lastSeenSessionId := Some sessionId |}.

End Hooks.

Unset Implicit Arguments.

(* ================================================================== *)
(** * Vocabulary of the specification *)

(** The first descriptor of [fs], in list order, whose [detect] holds. *)
Fixpoint firstMatch (fs : list FormatDescriptor) (body : value)
  : result (option FormatDescriptor) :=
  match fs with
  | [] => Ok None
  | f :: fs' => b <- detect f body ;; if b then Ok (Some f) else firstMatch fs' body
  end.

(** An identifier that is its own lower-casing. *)
Definition lowerCased (s : string) : Prop := toLowerCase s = s.

(** ** Function-response parts of a Gemini turn array *)

(** [f k x0; f (k+1) x1; ...] *)
Fixpoint indexFrom {A B : Type} (f : nat -> A -> B) (k : nat) (xs : list A) : list B :=
  match xs with
  | [] => []
  | x :: xs' => f k x :: indexFrom f (S k) xs'
  end.

Definition isFunctionResponse (part : value) : bool :=
  truthy (getOpt part "functionResponse").

(** The function-response parts of the body, in conversation order: the
    parts, with a [functionResponse], of the turns whose [parts] is an
    array. *)
Definition functionResponseParts (data : list value) : list value :=
  flat_map (fun c => match getOpt c "parts" with
                     | VArr ps => filter isFunctionResponse ps
                     | _ => []
                     end) data.

(** The lower-cased tool name of a function-response part ([undefined]
    when the part carries no name). *)
Definition partToolName (part : value) : value :=
  match getOpt (getOpt part "functionResponse") "name" with
  | VStr s => VStr (toLowerCase s)
  | _ => VUndefined
  end.

(** The output the fallback pass produces for the part of rank [k] among
    all function-response parts. *)
Definition fallbackOutput (k : nat) (part : value) : ToolOutput :=
  {| id := "gemini-" ++ toStringJS (partToolName part) ++ "-" ++ decimal k;
     toolName := partToolName part;
     content := Gemini.responseContent
                  (getOpt (getOpt part "functionResponse") "response") |}.

(** The identifiers as the specification words them: the counter of a part
    is its zero-based rank among the parts with the same tool name. *)
Definition perNameRank (names : list string) (k : nat) : nat :=
  count_occ string_dec (firstn k names) (nth k names "").

Definition perNameSyntheticIds (names : list string) : list string :=
  indexFrom (fun k n => "gemini-" ++ n ++ "-" ++ decimal (perNameRank names k)) 0 names.

(** ** Example bodies *)

Definition functionResponsePart (toolName : string) : value :=
  VObj [("functionResponse",
         VObj [("name", VStr toolName);
               ("response", VObj [("content", VStr "ok")])])].

(** A Gemini turn array whose function-response parts are, in order, for
    the tools [read], [write], [read]. *)
Definition readWriteReadContents : list value :=
  [VObj [("role", VStr "user"); ("parts", VArr [VObj [("text", VStr "go")]])];
   VObj [("role", VStr "user");
         ("parts", VArr [functionResponsePart "read"; functionResponsePart "write"])];
   VObj [("role", VStr "user"); ("parts", VArr [functionResponsePart "read"])]].

(** ** The correlation store *)

(** Every table of the entries is empty. *)
Definition allTablesEmpty (entries : JSMap.t (JSMap.t string)) : Prop :=
  Forall (fun e => JSMap.size (snd e) = 0) entries.

(** [table] is the first non-empty table of the store, in iteration order,
    stored under the session key [key]. *)
Definition firstNonEmptyTable (store : JSMap.t (JSMap.t string))
           (key : string) (table : JSMap.t string) : Prop :=
  exists before after,
    store = (before ++ (key, table) :: after)%list
    /\ allTablesEmpty before
    /\ 0 < JSMap.size table.

(** A state with a given store and last-seen session, nothing else cached. *)
Definition stateWith (store : JSMap.t (JSMap.t string)) (last : option string)
  : PluginState :=
  {| model := JSMap.empty;
     googleToolCallMapping := store;
     checkedSessions := [];
     subagentSessions := [];
     lastSeenSessionId := last |}.

(** A host client with no session: every call is rejected. *)
Definition offlineClient : Hooks.Client :=
  {| Hooks.sessionGet := fun _ => Throw HostError;
     Hooks.sessionMessages := fun _ => Throw HostError |}.

(** A hook input for [sessionId] with provider [providerId]. *)
Definition chatParamsFor (sessionId providerId : string) : Hooks.ChatParamsInput :=
  {| Hooks.sessionID := sessionId;
     Hooks.provider := VObj [("id", VStr providerId)];
     Hooks.inputModel := VObj [("id", VStr "some-model")];
     Hooks.message := VUndefined |}.

(** ** The authoritative transcript *)

(** The tool invocation a transcript part records: its tool name and call
    identifier, both case-folded, when the part has [type = 'tool'] and
    carries both. *)
Definition toolCallOf (part : value) : option (string * string) :=
  if eqStr (getOpt part "type") "tool" then
    match getOpt part "callID", getOpt part "tool" with
    | VStr callID, VStr tool =>
        if negb (String.eqb callID "") && negb (String.eqb tool "")
        then Some (toLowerCase tool, toLowerCase callID)
        else None
    | _, _ => None
    end
  else None.

Definition toolCallsOfParts (parts : list value) : list (string * string) :=
  flat_map (fun part => match toolCallOf part with
                        | Some call => [call]
                        | None => []
                        end) parts.

(** The tool invocations of a transcript, in transcript order. *)
Definition transcriptToolCalls (messages : list value) : list (string * string) :=
  flat_map (fun msg => match getOpt msg "parts" with
                       | VArr parts => toolCallsOfParts parts
                       | _ => []
                       end) messages.

(** Appending one call identifier to the list kept for its tool name. *)
Definition addCall (toolCallsByName : JSMap.t (list string)) (call : string * string)
  : JSMap.t (list string) :=
  let (toolName, callId) := call in
  let m := if JSMap.has toolName toolCallsByName then toolCallsByName
           else JSMap.set toolName [] toolCallsByName in
  match JSMap.get toolName m with
  | Some callIds => JSMap.set toolName (push callIds callId) m
  | None => m
  end.

(** The identifiers the correlated pass gives to a sequence of
    function-response tool names, threading the per-name counters. *)
Definition correlateName (table : JSMap.t string)
           (acc : list string * JSMap.t nat) (toolName : value)
  : list string * JSMap.t nat :=
  match toolName with
  | VStr fn =>
      if truthy toolName then
        let index := Gemini.counterOf (snd acc) fn in
        (push (fst acc)
              (Gemini.correlatedId (JSMap.get (Gemini.positionKey fn index) table)
                                   toolName index),
         JSMap.set fn (index + 1) (snd acc))
      else acc
  | _ => acc
  end.

(** The identifier the specification gives to the function response that
    is the [j]-th (from zero) for the tool [fn]: the entry of [table] under
    [fn:j], case-folded, when the table has one that is not empty, and the
    synthetic identifier [gemini-fn-j] otherwise. *)
Definition tableId (table : JSMap.t string) (fn : string) (j : nat) : string :=
  match JSMap.get (fn ++ ":" ++ decimal j) table with
  | Some s =>
      if String.eqb s "" then "gemini-" ++ fn ++ "-" ++ decimal j else toLowerCase s
  | None => "gemini-" ++ fn ++ "-" ++ decimal j
  end.

(** The identifiers resolved from [table] for a sequence of function-response
    tool names, after the responses for the names [earlier]: a response
    without a name is skipped, and the index of a response is the number
    of earlier responses for the same tool. *)
Fixpoint resolvedIds (table : JSMap.t string) (earlier : list string)
         (names : list value) : list string :=
  match names with
  | [] => []
  | VStr fn :: rest =>
      if String.eqb fn "" then resolvedIds table earlier rest
      else tableId table fn (count_occ string_dec earlier fn)
           :: resolvedIds table (fn :: earlier) rest
  | _ :: rest => resolvedIds table earlier rest
  end.

(** A transcript with the calls [read/id1], [write/id2], [read/id3], spread
    over two assistant messages next to text parts. *)
Definition readWriteReadTranscript : list value :=
  [VObj [("info", VObj [("role", VStr "user")]);
         ("parts", VArr [VObj [("type", VStr "text"); ("text", VStr "go")]])];
   VObj [("info", VObj [("role", VStr "assistant")]);
         ("parts", VArr [VObj [("type", VStr "tool"); ("callID", VStr "id1");
                               ("tool", VStr "read")];
                         VObj [("type", VStr "text"); ("text", VStr "...")];
                         VObj [("type", VStr "tool"); ("callID", VStr "id2");
                               ("tool", VStr "write")]])];
   VObj [("info", VObj [("role", VStr "assistant")]);
         ("parts", VArr [VObj [("type", VStr "tool"); ("callID", VStr "id3");
                               ("tool", VStr "read")]])]].

(** A host client whose sessions are top-level and whose transcript is
    [messages]. *)
Definition transcriptClient (messages : list value) : Hooks.Client :=
  {| Hooks.sessionGet := fun _ => Ok (VObj [("data", VObj [("id", VStr "ses")])]);
     Hooks.sessionMessages := fun _ => Ok (VObj [("data", VArr messages)]) |}.

(** ** User turns *)

(** The test by which the injection loop recognizes a user turn: [role] is
    [user]; for the Responses format [type] must be [message] as well; for
    Gemini the turn must hold an array of parts. *)
Definition userTurn (formatName : string) (item : value) : bool :=
  if String.eqb formatName "openai-responses" then
    eqStr (getOpt item "type") "message" && eqStr (getOpt item "role") "user"
  else if String.eqb formatName "gemini" then
    eqStr (getOpt item "role") "user" && isArray (getOpt item "parts")
  else eqStr (getOpt item "role") "user".

(** The block pushed onto an array content. *)
Definition injectedBlock (formatName text : string) : value :=
  VObj [("type", VStr (if String.eqb formatName "openai-responses"
                       then "input_text" else "text"));
        ("text", VStr text)].

(** A user turn with [text] injected: joined to a string content after a
    blank line, pushed as a block onto an array content, pushed as a part
    onto Gemini's parts; a content that is neither a string nor an array
    is left as it is. *)
Definition withInjectedText (formatName text : string) (item : value) : value :=
  if String.eqb formatName "gemini" then
    match getOpt item "parts" with
    | VArr ps => spreadSet item "parts" (VArr (ps ++ [VObj [("text", VStr text)]]))
    | _ => item
    end
  else
    match getOpt item "content" with
    | VStr s => spreadSet item "content" (VStr (s ++ newline ++ newline ++ text))
    | VArr parts =>
        spreadSet item "content" (VArr (parts ++ [injectedBlock formatName text]))
    | _ => item
    end.

(** The update as the specification words it, read off the turn [u] before
    and the turn [u'] after through their properties: the text is joined
    to a string content after a blank line, pushed as a text block onto an
    array content (for Gemini, as a text part onto the parts); a content
    that is neither a string nor an array leaves the turn as it is; no
    other property of the turn changes. *)
Definition textInjected (formatName text : string) (u u' : value) : Prop :=
  if String.eqb formatName "gemini" then
    (forall ps, getOpt u "parts" = VArr ps ->
                getOpt u' "parts" = VArr (ps ++ [VObj [("text", VStr text)]]))
    /\ (forall k, k <> "parts" -> getOpt u' k = getOpt u k)
  else
    (forall s, getOpt u "content" = VStr s ->
               getOpt u' "content" = VStr (s ++ newline ++ newline ++ text))
    /\ (forall parts, getOpt u "content" = VArr parts ->
          getOpt u' "content"
          = VArr (parts ++ [VObj [("type",
                                   VStr (if String.eqb formatName "openai-responses"
                                         then "input_text" else "text"));
                                  ("text", VStr text)]]))
    /\ ((forall s, getOpt u "content" <> VStr s) ->
        (forall parts, getOpt u "content" <> VArr parts) ->
        u' = u)
    /\ (forall k, k <> "content" -> getOpt u' k = getOpt u k).

(** A Chat body with the turns [user, assistant, tool]. *)
Definition chatUserTurn : value :=
  VObj [("role", VStr "user"); ("content", VStr "list the files")].

Definition chatAssistantTurn : value :=
  VObj [("role", VStr "assistant"); ("content", VNull);
        ("tool_calls", VArr [VObj [("id", VStr "Call_1")]])].

Definition chatToolTurn : value :=
  VObj [("role", VStr "tool"); ("tool_call_id", VStr "Call_1");
        ("content", VStr "a.txt b.txt")].

Definition chatBody : value :=
  VObj [("model", VStr "gpt");
        ("messages", VArr [chatUserTurn; chatAssistantTurn; chatToolTurn])].

(** ** What a replacement may change *)

(** [v] is a string equal to [toolId] up to case. *)
Definition sameId (toolId : string) (v : value) : Prop :=
  exists s, v = VStr s /\ toLowerCase s = toLowerCase toolId.

(** [xs'] is [xs] with some elements replaced along [R]. *)
Definition changedOnly (R : value -> value -> Prop) (xs xs' : list value) : Prop :=
  Forall2 (fun x x' => x' = x \/ R x x') xs xs'.

(** The same, for a relation that depends on what the walk has visited
    before the element ([visited x] is what visiting [x] adds). *)
Inductive changedOnlyAfter (visited : value -> list value)
          (R : list value -> value -> value -> Prop)
  : list value -> list value -> list value -> Prop :=
| changedOnlyAfter_nil (earlier : list value) :
    changedOnlyAfter visited R earlier [] []
| changedOnlyAfter_cons (earlier : list value) (x x' : value) (xs xs' : list value) :
    x' = x \/ R earlier x x' ->
    changedOnlyAfter visited R (earlier ++ visited x) xs xs' ->
    changedOnlyAfter visited R earlier (x :: xs) (x' :: xs').

(** The parts a Gemini turn contributes to the walk. *)
Definition turnParts (c : value) : list value :=
  match getOpt c "parts" with
  | VArr ps => ps
  | _ => []
  end.

(** The number of function-response parts for the tool [fn] among the
    parts visited so far: the occurrence index of the next one. *)
Definition occurrencesBefore (fn : string) (earlier : list value) : nat :=
  length (filter (fun p => isFunctionResponse p && eqStr (partToolName p) fn) earlier).

Section Frame.
Variable toolId : string.
Variable newContent : string.

(** Chat: the [content] of a [tool_result] part with the identifier. *)
Definition chatPartRewritten (part part' : value) : Prop :=
  eqStr (getOpt part "type") "tool_result" = true
  /\ sameId toolId (getOpt part "tool_use_id")
  /\ part' = spreadSet part "content" (VStr newContent).

(** Chat: the [content] of a [tool] turn with the identifier, or the
    [content] array of a [user] turn, changed in such parts only. *)
Definition chatTurnRewritten (m m' : value) : Prop :=
  (eqStr (getOpt m "role") "tool" = true
   /\ sameId toolId (getOpt m "tool_call_id")
   /\ m' = spreadSet m "content" (VStr newContent))
  \/ (eqStr (getOpt m "role") "user" = true
      /\ exists parts parts',
           getOpt m "content" = VArr parts
           /\ changedOnly chatPartRewritten parts parts'
           /\ m' = spreadSet m "content" (VArr parts')).

(** Responses: the [output] of a [function_call_output] item with the
    identifier. *)
Definition responsesItemRewritten (item item' : value) : Prop :=
  eqStr (getOpt item "type") "function_call_output" = true
  /\ sameId toolId (getOpt item "call_id")
  /\ item' = spreadSet item "output" (VStr newContent).

(** Bedrock: the [content] of a [toolResult] with the identifier, replaced
    by a single text block. *)
Definition bedrockBlockRewritten (block block' : value) : Prop :=
  truthy (getOpt block "toolResult") = true
  /\ sameId toolId (getOpt (getOpt block "toolResult") "toolUseId")
  /\ block' = spreadSet block "toolResult"
                (spreadSet (getOpt block "toolResult") "content"
                   (VArr [VObj [("text", VStr newContent)]])).

Definition bedrockTurnRewritten (m m' : value) : Prop :=
  eqStr (getOpt m "role") "user" = true
  /\ exists blocks blocks',
       getOpt m "content" = VArr blocks
       /\ changedOnly bedrockBlockRewritten blocks blocks'
       /\ m' = spreadSet m "content" (VArr blocks').

(** Gemini: the [response] of a function-response part whose tool name
    and occurrence index the table maps to the identifier. *)
Definition geminiPartRewritten (table : JSMap.t string) (earlier : list value)
           (part part' : value) : Prop :=
  isFunctionResponse part = true
  /\ exists n s,
       getOpt (getOpt part "functionResponse") "name" = VStr n
       /\ JSMap.get (Gemini.positionKey (toLowerCase n)
                       (occurrencesBefore (toLowerCase n) earlier)) table = Some s
       /\ toLowerCase s = toLowerCase toolId
       /\ part' = spreadSet part "functionResponse"
                    (spreadSet (getOpt part "functionResponse") "response"
                       (VObj [("name", VStr n); ("content", VStr newContent)])).

Definition geminiTurnRewritten (table : JSMap.t string) (earlier : list value)
           (c c' : value) : Prop :=
  exists ps ps',
    getOpt c "parts" = VArr ps
    /\ changedOnlyAfter (fun p => [p]) (geminiPartRewritten table) earlier ps ps'
    /\ c' = spreadSet c "parts" (VArr ps').

(** What [replaceToolOutput] may do to the turn array of a format. *)
Definition replacementFrame (formatName : string) (state : PluginState)
           (data data' : list value) : Prop :=
  if String.eqb formatName "openai-chat" then changedOnly chatTurnRewritten data data'
  else if String.eqb formatName "openai-responses" then
    changedOnly responsesItemRewritten data data'
  else if String.eqb formatName "bedrock" then changedOnly bedrockTurnRewritten data data'
  else
    match Gemini.findPositionMapping (googleToolCallMapping state) with
    | Some table => changedOnlyAfter turnParts (geminiTurnRewritten table) [] data data'
    | None => data' = data
    end.

End Frame.

(** ** Auxiliary notions of the proofs *)

(** Every output carries a lower-cased identifier. *)
Definition allLowerCased (outputs : list ToolOutput) : Prop :=
  Forall (fun o => lowerCased (id o)) outputs.

(** The counters agree with the parts visited so far. *)
Definition countersAgree (counters : JSMap.t nat) (earlier : list value) : Prop :=
  forall fn, fn <> "" -> Gemini.counterOf counters fn = occurrencesBefore fn earlier.

(** Whether a computation raises. *)
Definition raises {A : Type} (r : result A) : bool :=
  match r with
  | Throw _ => true
  | Ok _ => false
  end.

(** Two loop bodies raise on the same elements and, when they do not,
    leave the same state. *)
Definition stepsAgree {S : Type} (f g : S -> value -> result (S * option value)) : Prop :=
  forall s x,
    match f s x, g s x with
    | Ok (s1, _), Ok (s2, _) => s1 = s2
    | Throw _, Throw _ => True
    | _, _ => False
    end.

(** The outputs collected so far are kept by what follows. *)
Definition grows (outs outs' : list ToolOutput) : Prop :=
  exists new, outs' = (outs ++ new)%list.

(* ================================================================== *)
(** * The request pipeline (lib/fetch-wrapper/index.ts)

    [installFetchWrapper] replaces the global [fetch] by a function that
    parses the outgoing body, hands it to [processRequest] and writes the
    body back when the interceptor reports a modification.  The
    interceptor is the user's callback, [JSON.parse] is an input of the
    model, and what the wrapper passes on to the original [fetch] is the
    result. *)

Module FetchWrapper.

(** The callback receives the body, the detected format, the turn array,
the extracted tool outputs, the URL and the handler context, of which
the plugin state is kept; it resolves to an object read through its
[modified] and [body] properties, or rejects. *)
Definition RequestInterceptor : Type :=
value -> FormatDescriptor -> value -> list ToolOutput -> string -> PluginState
-> result value.

Record FetchHandlerResult : Type := {
modified : value;
body : value;
format : option FormatDescriptor;
toolOutputs : option (list ToolOutput);
dataArray : option value
}.

(** [{ modified: false, body }] *)
Definition unmodified (b : value) : FetchHandlerResult :=
{| modified := VBool false; body := b; format := None;
   toolOutputs := None; dataArray := None |}.

(** [for (const m of data)] at the head of every [extractToolOutputs],
applied to whatever [getDataArray] returned. *)
Definition processRequest (b : value) (state : PluginState) (inputUrl : string)
         (interceptor : RequestInterceptor) : result FetchHandlerResult :=
detected <- detectFormat b ;;
match detected with
| None => Ok (unmodified b)
| Some f =>
    arr <- getDataArray f b ;;
    if negb (truthy arr) then Ok (unmodified b) else
    data <- Hooks.iterate arr ;;
    outputs <- extractToolOutputs f data state ;;
    r <- interceptor b f arr outputs inputUrl state ;;
    m <- get r "modified" ;;
    b' <- get r "body" ;;
    Ok {| modified := m; body := b'; format := Some f;
          toolOutputs := Some outputs; dataArray := Some arr |}
end.

(** [state.lastSeenSessionId && state.subagentSessions.has(state.lastSeenSessionId)] *)
Definition skipsSession (state : PluginState) : bool :=
match lastSeenSessionId state with
| Some s => negb (String.eqb s "") && existsb (String.eqb s) (subagentSessions state)
| None => false
end.

(** [typeof input === 'string' ? input : 'URL object'] *)
Definition inputUrl (input : value) : string :=
match input with
| VStr s => s
| _ => "URL object"
end.

(** The wrapped [fetch]: the [init] that reaches the original [fetch]
([input] is passed on as it is).  Everything between [JSON.parse] and
the assignment to [init.body] sits in one [try] whose handler only
logs. *)
Definition wrappedFetch (JSON_parse : string -> result value)
         (interceptor : RequestInterceptor) (state : PluginState)
         (input init : value) : value :=
if skipsSession state then init else
match getOpt init "body" with
| VStr s =>
    if negb (String.eqb s "") then
      match (b <- JSON_parse s ;;
             processRequest b state (inputUrl input) interceptor) with
      | Ok r =>
          if truthy (modified r)
          then spreadSet init "body" (JSON_stringify (body r))
          else init
      | Throw _ => init
      end
    else init
| _ => init
end.

End FetchWrapper.

(** ** An example request *)

(** The text of the Chat body, a parser that knows this text only, the
    [init] of a request carrying it, and an interceptor that answers with
    another body and [modified: true]. *)
Definition chatBodyText : string :=
  match JSON_stringify chatBody with
  | VStr text => text
  | _ => EmptyString
  end.

Definition parseChatBody (text : string) : result value :=
  if String.eqb text chatBodyText then Ok chatBody else Throw TypeError.

Definition chatRequestInit : value :=
  VObj [("method", VStr "POST"); ("body", VStr chatBodyText)].

Definition replacingInterceptor : FetchWrapper.RequestInterceptor :=
  fun _body _format _dataArray _toolOutputs _url _state =>
    Ok (VObj [("modified", VBool true); ("body", VArr [VNum 1; VNum 2])]).

(** The interceptor the plugin ships with (index.ts): it logs and returns
    [{ body, modified: false }]. *)
Definition myRequestInterceptor : FetchWrapper.RequestInterceptor :=
  fun b _format _dataArray _toolOutputs _url _state =>
    Ok (VObj [("body", b); ("modified", VBool false)]).

(* ================================================================== *)
(** * Runs of the chat.params hook *)

(** The state after a sequence of chat.params events handled one after
    another, each with the answers the host client gives at that time:
    every invocation of the handler runs to its end before the next one
    starts.  The handler is [async] and gives up control at its two
    [await]s (the session lookup and the transcript request); invocations
    that overlap there are not runs of this model. *)
Definition handleAll (events : list (Hooks.Client * Hooks.ChatParamsInput))
           (state : PluginState) : PluginState :=
  fold_left (fun s e => Hooks.createChatParamsHandler (fst e) s (snd e)) events state.

(** ** The handler between its awaits

    One invocation of the chat.params handler in the three stretches that
    run without interruption: up to the session lookup it awaits (only
    for a session not checked before), from there to the transcript
    request it awaits (only for a Google provider), and from there to its
    end.  Each stretch reads the state as it is when the stretch runs. *)

(** Up to the first [await]: the session-change test, the assignment of
    [lastSeenSessionId] and [checkedSessions.add]; the flag tells whether
    the session had been checked before. *)
Definition enterHandler (state : PluginState) (input : Hooks.ChatParamsInput)
  : PluginState * bool :=
  let sessionId := Hooks.sessionID input in
  let known := existsb (String.eqb sessionId) (checkedSessions state) in
  ({| model := model state;
      googleToolCallMapping := Hooks.afterSessionChange state sessionId;
      checkedSessions := if known then checkedSessions state
                         else Hooks.addToSet sessionId (checkedSessions state);
      subagentSessions := subagentSessions state;
      lastSeenSessionId := Some sessionId |},
   known).

(** From the answer of the session lookup to the second [await]:
    [subagentSessions.add] and the model cache. *)
Definition afterSubagentCheck (client : Hooks.Client) (input : Hooks.ChatParamsInput)
           (known : bool) (state : PluginState) : PluginState :=
  let sessionId := Hooks.sessionID input in
  let providerID := Hooks.resolveProviderID input in
  let modelID := getOpt (Hooks.inputModel input) "id" in
  {| model := if truthy providerID && truthy modelID
              then JSMap.set sessionId {| providerID := providerID; modelID := modelID |}
                             (model state)
              else model state;
     googleToolCallMapping := googleToolCallMapping state;
     checkedSessions := checkedSessions state;
     subagentSessions :=
       if known then subagentSessions state
       else if Hooks.isSubagentSession client sessionId
            then Hooks.addToSet sessionId (subagentSessions state)
            else subagentSessions state;
     lastSeenSessionId := lastSeenSessionId state |}.

(** From the answer of the transcript request to the end: the table is
    built and stored under the session of this invocation. *)
Definition afterTranscript (client : Hooks.Client) (input : Hooks.ChatParamsInput)
           (state : PluginState) : PluginState :=
  {| model := model state;
     googleToolCallMapping :=
       Hooks.afterMappingBuild client (Hooks.resolveProviderID input)
                               (Hooks.sessionID input) (googleToolCallMapping state);
     checkedSessions := checkedSessions state;
     subagentSessions := subagentSessions state;
     lastSeenSessionId := lastSeenSessionId state |}.

(** Two invocations that overlap: the first, of a Google provider for the
    session [ses_a], waits for its transcript while the second, for the
    session [ses_b], runs from its start to its end; then the first one
    resumes. *)
Definition overlappedState : PluginState :=
  let clientA := transcriptClient readWriteReadTranscript in
  let inputA := chatParamsFor "ses_a" "google" in
  let clientB := transcriptClient [] in
  let inputB := chatParamsFor "ses_b" "openai" in
  let (a1, knownA) := enterHandler createPluginState inputA in
  let a2 := afterSubagentCheck clientA inputA knownA a1 in
  let (b1, knownB) := enterHandler a2 inputB in
  let b2 := afterSubagentCheck clientB inputB knownB b1 in
  let b3 := afterTranscript clientB inputB b2 in
  afterTranscript clientA inputA b3.

(** A transcript of the session [ses_b] with one call of [read]. *)
Definition otherTranscript : list value :=
  [VObj [("info", VObj [("role", VStr "assistant")]);
         ("parts", VArr [VObj [("type", VStr "tool"); ("callID", VStr "idb");
                               ("tool", VStr "read")]])]].

(** The store holds no table, or one table, kept under the session seen
    last. *)
Definition storeOfLastSession (state : PluginState) : Prop :=
  googleToolCallMapping state = []
  \/ exists sessionId table,
       lastSeenSessionId state = Some sessionId
       /\ googleToolCallMapping state = [(sessionId, table)].

(** The bookkeeping of sessions: the two sets hold no identifier twice,
    a subagent session has been checked, so has a session with cached
    model info, and so has the session seen last. *)
Definition sessionsConsistent (state : PluginState) : Prop :=
  NoDup (checkedSessions state)
  /\ NoDup (subagentSessions state)
  /\ incl (subagentSessions state) (checkedSessions state)
  /\ incl (JSMap.keys (model state)) (checkedSessions state)
  /\ (forall s, lastSeenSessionId state = Some s -> In s (checkedSessions state)).

(* ================================================================== *)
(** * Keys and synthetic identifiers *)

(** Whether the character [c] occurs in [s]. *)
Fixpoint occurs (c : ascii) (s : string) : bool :=
  match s with
  | EmptyString => false
  | String c' s' => Ascii.eqb c c' || occurs c s'
  end.

(** The call identifiers a transcript records for the tool [toolName], in
    transcript order. *)
Definition callIdsOf (toolName : string) (calls : list (string * string)) : list string :=
  map snd (filter (fun call => String.eqb (fst call) toolName) calls).

(* ================================================================== *)
(** * The correlated pass of the Gemini adapter *)

(** The parts of a Gemini body, in conversation order. *)
Definition allParts (data : list value) : list value := flat_map turnParts data.

(** A function-response part with a non-empty tool name: the parts the
    correlated pass turns into outputs. *)
Definition namedResponse (part : value) : bool :=
  isFunctionResponse part && truthy (partToolName part).

(** The output of the correlated pass for a response of the tool [fn]
    whose occurrence index is [j]. *)
Definition correlatedOutput (table : JSMap.t string) (j : nat) (fn : string)
           (part : value) : ToolOutput :=
  {| id := Gemini.correlatedId (JSMap.get (Gemini.positionKey fn j) table) (VStr fn) j;
     toolName := VStr fn;
     content := Gemini.responseContent
                  (getOpt (getOpt part "functionResponse") "response") |}.

(** The outputs of the parts [parts], met after the parts [earlier]. *)
Fixpoint correlatedOutputs (table : JSMap.t string) (earlier parts : list value)
  : list ToolOutput :=
  match parts with
  | [] => []
  | p :: ps =>
      (if isFunctionResponse p then
         match partToolName p with
         | VStr fn =>
             if negb (String.eqb fn "")
             then [correlatedOutput table (occurrencesBefore fn earlier) fn p]
             else []
         | _ => []
         end
       else [])
      ++ correlatedOutputs table (earlier ++ [p]) ps
  end.

(* ================================================================== *)
(** * Tool outputs before and after a replacement *)

(** An output, with its content replaced when it carries the identifier
    [tl]. *)
Definition withContent (tl newContent : string) (o : ToolOutput) : ToolOutput :=
  if String.eqb (id o) tl
  then {| id := id o; toolName := toolName o; content := VStr newContent |}
  else o.

(** Whether one of the outputs carries the identifier [tl]. *)
Definition hasId (tl : string) (outputs : list ToolOutput) : bool :=
  existsb (fun o => String.eqb (id o) tl) outputs.

(** The element a step of a rewriting loop leaves in the array. *)
Definition assigned (x : value) (o : option value) : value :=
  match o with
  | Some x' => x'
  | None => x
  end.

(** What a leaf of a rewriting loop must satisfy: the rewritten element
    yields the outputs [l'] of the old one's, [l], with the content
    replaced, and the flag [hit] of the loop tells whether one of them
    carries the identifier. *)
Definition leafOk (tl newContent : string) (l l' : list ToolOutput) (hit : bool) : Prop :=
  l' = map (withContent tl newContent) l /\ (tl <> "" -> hit = hasId tl l).

(** Whether a step assigned the element. *)
Definition isAssigned (o : option value) : bool :=
  match o with
  | Some _ => true
  | None => false
  end.

(** The text Bedrock extraction shows for the single block
    [{ text: newContent }] a replacement leaves:
    [content.map(c => c.text || JSON.stringify(c)).join('\n')]. *)
Definition bedrockText (newContent : string) : string :=
  join newline [orElse (VStr newContent)
                       (JSON_stringify (VObj [("text", VStr newContent)]))].

(* ================================================================== *)
(** * The session event hook (lib/hooks.ts)

    [createEventHandler] returns the handler of session events.  Its
    effect is the call of the [onIdle] callback: the model returns the
    arguments the callback is called with, in order.  The call sits in a
    [try] whose handler only logs, so what the callback returns or raises
    does not reach the caller (the handler reads [err.message]: the
    exceptions of the model are error objects, a thrown [null] is not
    modelled). *)

Definition createEventHandler (client : Hooks.Client)
           (onIdle : option (string -> result unit)) (arg : value)
  : result (list string) :=
  event <- get arg "event" ;;
  ty <- get event "type" ;;
  if eqStr ty "session.status" then
    properties <- get event "properties" ;;
    status <- get properties "status" ;;
    statusType <- get status "type" ;;
    if eqStr statusType "idle" then
      sessionId <- get properties "sessionID" ;;
      match sessionId with
      | VStr s =>
          if Hooks.isSubagentSession client s then Ok []
          else
            match onIdle with
            | Some callback =>
                match callback s with
                | Ok _ => Ok [s]
                | Throw _ => Ok [s]
                end
            | None => Ok []
            end
      | _ =>
          (* [sessionId.substring(0, 8)] in either branch *)
          Throw TypeError
      end
    else Ok []
  else Ok [].

(** The argument is an idle-status event of the session [s]. *)
Definition idleEventOf (s : string) (arg : value) : Prop :=
  eqStr (getOpt (getOpt arg "event") "type") "session.status" = true
  /\ eqStr (getOpt (getOpt (getOpt (getOpt arg "event") "properties") "status") "type")
           "idle" = true
  /\ getOpt (getOpt (getOpt arg "event") "properties") "sessionID" = VStr s.

(* ================================================================== *)
(** * The logger (lib/logger.ts)

    Of the logger only [formatData] computes something: the rest writes
    the line to a file and swallows every error. *)

Module Logger.

(** [Object.entries(data)] for a truthy [data]. *)
Definition entries (data : value) : list (string * value) :=
match data with
| VObj fs => fs
| VArr items => indexFrom (fun i x => (decimal i, x)) 0 items
| VStr s =>
    indexFrom (fun i c => (decimal i, VStr (String c ""))) 0 (list_ascii_of_string s)
| _ => []
end.

(** What one entry adds to [parts]: nothing ([None]) or one text. *)
Definition formatEntry (key : string) (v : value) : option string :=
match v with
| VUndefined | VNull => None
| VArr items =>
    match items with
    | [] => None
    | _ :: _ =>
        Some (key ++ "=[" ++ join "," (firstn 3 items)
                  ++ (if (3 <? length items)%nat
                      then "...+" ++ decimal (length items - 3) else "")
                  ++ "]")
    end
| VObj _ =>
    let str := stringifyDefined v in
    if (String.length str <? 50)%nat then Some (key ++ "=" ++ str) else None
| _ => Some (key ++ "=" ++ toStringJS v)
end.

Definition formatParts (es : list (string * value)) : list string :=
flat_map (fun e => match formatEntry (fst e) (snd e) with
                   | Some part => [part]
                   | None => []
                   end) es.

Definition formatData (data : value) : string :=
if negb (truthy data) then ""
else join " " (map VStr (formatParts (entries data))).

End Logger.

(** An output before and after a replacement in the Gemini format: the
    identifier and the tool name stay, and the output is as it was unless
    it carries the identifier [tl] and now shows the new content. *)
Definition kept (tl newContent : string) (o o' : ToolOutput) : Prop :=
  id o' = id o
  /\ toolName o' = toolName o
  /\ (o' = o \/ (id o = tl /\ content o' = VStr newContent)).

(** One of the outputs carries the identifier and shows the new content. *)
Definition showsNew (tl newContent : string) (outputs : list ToolOutput) : Prop :=
  exists o, In o outputs /\ id o = tl /\ content o = VStr newContent.

(** The outputs a stretch of a Gemini body yields, before ([l]) and after
    ([l']) a replacement; [hit] is the flag the replacement raised on the
    stretch. *)
Definition stretchOk (tl newContent : string) (l l' : list ToolOutput) (hit : bool) : Prop :=
  Forall2 (kept tl newContent) l l' /\ (hit = true -> showsNew tl newContent l').

(* ================================================================== *)
(** * Basic facts about the JavaScript layer *)

Example toLowerCase_mixed : toLowerCase "Call_ABC-xyz09" = "call_abc-xyz09".
Proof. reflexivity. Qed.

Example stringify_array :
  JSON_stringify (VArr [VNum 1; VNull; VBool true; VArr []]) = VStr "[1,null,true,[]]".
Proof. reflexivity. Qed.

Lemma lower_ascii_idem (c : ascii) : lower_ascii (lower_ascii c) = lower_ascii c.
Proof.
  destruct c as [[] [] [] [] [] [] [] []]; reflexivity.
Qed.

Lemma toLowerCase_idem (s : string) : toLowerCase (toLowerCase s) = toLowerCase s.
Proof.
  induction s as [|c s IH]; simpl; [reflexivity|].
  now rewrite lower_ascii_idem, IH.
Qed.

Lemma toLowerCase_app (s t : string) :
  toLowerCase (s ++ t) = toLowerCase s ++ toLowerCase t.
Proof.
  induction s as [|c s IH]; simpl; [reflexivity|]. now rewrite IH.
Qed.

Lemma toLowerCase_empty_iff (s : string) : toLowerCase s = "" <-> s = "".
Proof.
  destruct s; simpl; split; intros H; try reflexivity; discriminate.
Qed.

Lemma lowerCased_app (s t : string) : lowerCased s -> lowerCased t -> lowerCased (s ++ t).
Proof.
  unfold lowerCased; intros Hs Ht. now rewrite toLowerCase_app, Hs, Ht.
Qed.

Lemma lowerCased_uint (d : Decimal.uint) : lowerCased (NilEmpty.string_of_uint d).
Proof.
  unfold lowerCased. induction d; simpl; try reflexivity; now rewrite IHd.
Qed.

Lemma lowerCased_decimal (n : nat) : lowerCased (decimal n).
Proof.
  unfold decimal, NilZero.string_of_uint.
  destruct (Nat.to_uint n); try reflexivity; apply lowerCased_uint.
Qed.

Lemma forOf_invariant {A S : Type} (P : S -> Prop) (body : S -> A -> result S) :
  (forall s x s', P s -> body s x = Ok s' -> P s') ->
  forall xs acc r, P acc -> forOf xs acc body = Ok r -> P r.
Proof.
  intros Hstep xs; induction xs as [|x xs IH]; simpl; intros acc r Hacc H.
  - now inversion H; subst.
  - destruct (body acc x) as [acc'|e] eqn:E; simpl in H; [|discriminate].
    eapply IH; [|exact H]. eapply Hstep; eauto.
Qed.

Lemma forOf_app {A S : Type} (body : S -> A -> result S) (xs ys : list A) (acc : S) :
  forOf (xs ++ ys) acc body = (acc' <- forOf xs acc body ;; forOf ys acc' body).
Proof.
  revert acc; induction xs as [|x xs IH]; simpl; intros acc; [reflexivity|].
  destruct (body acc x); simpl; [apply IH | reflexivity].
Qed.

Lemma forOf_cons {A S : Type} (body : S -> A -> result S) (x : A) (xs : list A) (acc : S) :
  forOf (x :: xs) acc body = (acc' <- body acc x ;; forOf xs acc' body).
Proof. reflexivity. Qed.

(** Inversion of a successful [bind]. *)
Lemma bind_Ok {A B : Type} (r : result A) (k : A -> result B) (b : B) :
  bind r k = Ok b -> exists a, r = Ok a /\ k a = Ok b.
Proof.
  destruct r as [a|e]; simpl; intros H; [eauto | discriminate].
Qed.

Ltac inv_bind H :=
  let a := fresh "v" in
  let Ha := fresh "E" in
  apply bind_Ok in H; destruct H as (a & Ha & H).

Ltac bind_inv H a Ha :=
  apply bind_Ok in H; destruct H as (a & Ha & H).

Ltac inv_ok H := inversion H; subst; clear H.

(* ================================================================== *)
(** * The model on concrete bodies *)

Example extract_anthropic_shape :
  extractToolOutputs openaiChatFormat
    [VObj [("role", VStr "user");
           ("content",
            VArr [VObj [("type", VStr "text"); ("text", VStr "see")];
                  VObj [("type", VStr "tool_result"); ("tool_use_id", VStr "Toolu_01");
                        ("content", VArr [VNum 1; VNum 2])]])]]
    createPluginState
  = Ok [{| id := "toolu_01"; toolName := VUndefined; content := VStr "[1,2]" |}].
Proof. reflexivity. Qed.

Example extract_responses :
  extractToolOutputs openaiResponsesFormat
    [VObj [("type", VStr "message"); ("role", VStr "user"); ("content", VStr "go")];
     VObj [("type", VStr "function_call_output"); ("call_id", VStr "FC_9");
           ("output", VStr "done")]]
    createPluginState
  = Ok [{| id := "fc_9"; toolName := VUndefined; content := VStr "done" |}].
Proof. reflexivity. Qed.

Example extract_bedrock :
  extractToolOutputs bedrockFormat
    [VObj [("role", VStr "user");
           ("content",
            VArr [VObj [("toolResult",
                         VObj [("toolUseId", VStr "TU_1");
                               ("content", VArr [VObj [("text", VStr "a")];
                                                 VObj [("text", VStr "b")]])])]])]]
    createPluginState
  = Ok [{| id := "tu_1"; toolName := VUndefined;
           content := VStr ("a" ++ newline ++ "b") |}].
Proof. reflexivity. Qed.

Example extract_gemini_without_name :
  extractToolOutputs geminiFormat
    [VObj [("role", VStr "user");
           ("parts", VArr [VObj [("functionResponse", VObj [("response", VNull)])]])]]
    createPluginState
  = Ok [{| id := "gemini-undefined-0"; toolName := VUndefined; content := VStr "null" |}].
Proof. reflexivity. Qed.

Example extract_null_turn_raises :
  extractToolOutputs openaiChatFormat [VNull] createPluginState = Throw TypeError.
Proof. reflexivity. Qed.

Example detect_null_body_raises : detectFormat VNull = Throw TypeError.
Proof. reflexivity. Qed.

Example detect_gemini_body :
  (f <- detectFormat (VObj [("contents", VArr [])]) ;;
   Ok (match f with Some d => name d | None => "" end))
  = Ok "gemini".
Proof. reflexivity. Qed.

(* ================================================================== *)
(** * Format detection *)

Lemma name_in_formats (f : FormatDescriptor) :
  In f formats ->
  f = openaiResponsesFormat \/ f = bedrockFormat \/ f = openaiChatFormat \/ f = geminiFormat.
Proof.
  unfold formats; simpl; intuition.
Qed.

(** C2. The detector applies the four predicates in the order Responses,
    Bedrock, Chat, Gemini and returns the first descriptor that matches;
    a body whose [system] is an array, whose [inferenceConfig] is present
    and whose [messages] is an array, and whose [input] is not an array,
    is classified as Bedrock (so not as Chat), although Chat's predicate
    holds of it as well. *)
Theorem detectFormat_priority (body : value) :
  detectFormat body = firstMatch formats body
  /\ (isArray (getOpt body "system") = true ->
      getOpt body "inferenceConfig" <> VUndefined ->
      isArray (getOpt body "messages") = true ->
      isArray (getOpt body "input") = false ->
      detect openaiChatFormat body = Ok true
      /\ detectFormat body = Ok (Some bedrockFormat)
      /\ name bedrockFormat <> name openaiChatFormat).
Proof.
  split.
  - unfold detectFormat, formats, firstMatch.
    destruct (detect openaiResponsesFormat body) as [[]|]; simpl; reflexivity.
  - intros Hsys Hinf Hmsg Hinp.
    destruct body as [| | | | | |fs]; simpl in Hsys; try discriminate.
    simpl in Hinf, Hmsg, Hinp.
    unfold detectFormat; simpl.
    unfold OpenaiResponses.detect, Bedrock.detect, OpenaiChat.detect; simpl.
    replace (truthy (lookup "input" fs) && isArray (lookup "input" fs)) with false
      by (now rewrite Hinp, andb_false_r).
    rewrite Hsys.
    destruct (lookup "inferenceConfig" fs) eqn:Ec; try congruence;
      destruct (lookup "messages" fs); simpl in Hmsg; try discriminate;
      simpl; (split; [reflexivity | split; [reflexivity | discriminate]]).
Qed.

(** A Bedrock Converse body: classified as Bedrock. *)
Lemma detectFormat_priority_witness :
  detectFormat
    (VObj [("system", VArr [VObj [("text", VStr "be brief")]]);
           ("inferenceConfig", VObj [("maxTokens", VNum 512)]);
           ("messages", VArr [VObj [("role", VStr "user");
                                    ("content", VArr [VObj [("text", VStr "hi")]])]])])
  = Ok (Some bedrockFormat).
Proof.
  refine (proj1 (proj2 (proj2 (detectFormat_priority _) _ _ _ _)));
    solve [reflexivity | discriminate].
Defined.

(* ================================================================== *)
(** * Extracted identifiers are lower-cased *)

Lemma allLowerCased_push (outputs : list ToolOutput) (o : ToolOutput) :
  allLowerCased outputs -> lowerCased (id o) -> allLowerCased (push outputs o).
Proof.
  intros H Ho. apply Forall_app; split; [exact H | constructor; [exact Ho | constructor]].
Qed.

Lemma callToLowerCase_lowerCased (v : value) (s : string) :
  callToLowerCase v = Ok s -> lowerCased s.
Proof.
  destruct v; simpl; intros H; inv_ok H. apply toLowerCase_idem.
Qed.

Lemma optToLowerCase_cases (v w : value) :
  optToLowerCase v = Ok w ->
  w = VUndefined \/ exists s, v = VStr s /\ w = VStr (toLowerCase s).
Proof.
  destruct v; simpl; intros H; inv_ok H; eauto.
Qed.

Lemma syntheticId_lowerCased (funcName v : value) (n : nat) :
  optToLowerCase v = Ok funcName -> lowerCased (Gemini.syntheticId funcName n).
Proof.
  intros H. unfold Gemini.syntheticId.
  apply lowerCased_app; [reflexivity|].
  apply lowerCased_app; [|apply lowerCased_app; [reflexivity | apply lowerCased_decimal]].
  destruct (optToLowerCase_cases _ _ H) as [-> | (s & -> & ->)]; [reflexivity|].
  apply toLowerCase_idem.
Qed.

Lemma correlatedId_lowerCased (t : option string) (funcName v : value) (n : nat) :
  optToLowerCase v = Ok funcName -> lowerCased (Gemini.correlatedId t funcName n).
Proof.
  intros H. unfold Gemini.correlatedId.
  destruct t as [s|]; [|now apply syntheticId_lowerCased with v].
  destruct (truthy (VStr (toLowerCase s)));
    [apply toLowerCase_idem | now apply syntheticId_lowerCased with v].
Qed.

Section LowerCased.

Ltac step H :=
  match type of H with
  | bind _ _ = Ok _ => inv_bind H
  | (if ?b then _ else _) = Ok _ => destruct b eqn:?
  | match ?v with _ => _ end = Ok _ => destruct v eqn:?
  | Ok _ = Ok _ => inv_ok H
  end.

Lemma chat_extractPart_lower outputs part r :
  allLowerCased outputs -> OpenaiChat.extractPart outputs part = Ok r -> allLowerCased r.
Proof.
  unfold OpenaiChat.extractPart; intros Hl H.
  repeat step H; auto.
  apply allLowerCased_push; auto; simpl. eapply callToLowerCase_lowerCased; eauto.
Qed.

Lemma chat_extractTurn_lower outputs m r :
  allLowerCased outputs -> OpenaiChat.extractTurn outputs m = Ok r -> allLowerCased r.
Proof.
  unfold OpenaiChat.extractTurn; intros Hl H.
  inv_bind H.
  assert (H1 : allLowerCased v).
  { unfold OpenaiChat.extractNative in E. repeat step E; auto.
    apply allLowerCased_push; auto; simpl. eapply callToLowerCase_lowerCased; eauto. }
  unfold OpenaiChat.extractAnthropic in H. repeat step H; auto.
  eapply forOf_invariant with (P := allLowerCased); [| exact H1 | exact H].
  intros; eapply chat_extractPart_lower; eauto.
Qed.

Lemma responses_extractItem_lower outputs item r :
  allLowerCased outputs -> OpenaiResponses.extractItem outputs item = Ok r ->
  allLowerCased r.
Proof.
  unfold OpenaiResponses.extractItem; intros Hl H.
  repeat step H; auto.
  apply allLowerCased_push; auto; simpl. eapply callToLowerCase_lowerCased; eauto.
Qed.

Lemma bedrock_extractBlock_lower outputs block r :
  allLowerCased outputs -> Bedrock.extractBlock outputs block = Ok r -> allLowerCased r.
Proof.
  unfold Bedrock.extractBlock; intros Hl H.
  inv_bind H. destruct (truthy v); [|now inv_ok H].
  inv_bind H. destruct (truthy v0); [|now inv_ok H].
  inv_bind H. inv_bind H. inv_bind H. inv_ok H.
  apply allLowerCased_push; auto; simpl. eapply callToLowerCase_lowerCased; eauto.
Qed.

Lemma bedrock_extractTurn_lower outputs m r :
  allLowerCased outputs -> Bedrock.extractTurn outputs m = Ok r -> allLowerCased r.
Proof.
  unfold Bedrock.extractTurn; intros Hl H.
  repeat step H; auto.
  eapply forOf_invariant with (P := allLowerCased); [| exact Hl | exact H].
  intros; eapply bedrock_extractBlock_lower; eauto.
Qed.

Lemma gemini_fallbackContent_lower outputs c r :
  allLowerCased outputs -> Gemini.fallbackContent outputs c = Ok r -> allLowerCased r.
Proof.
  unfold Gemini.fallbackContent; intros Hl H.
  repeat step H; auto.
  eapply forOf_invariant with (P := allLowerCased); [| exact Hl | exact H].
  clear; intros s x s' Hs H. unfold Gemini.fallbackPart in H.
  repeat step H; auto.
  apply allLowerCased_push; auto; simpl. eapply syntheticId_lowerCased; eauto.
Qed.

Lemma gemini_correlatedContent_lower t acc c r :
  allLowerCased (fst acc) -> Gemini.correlatedContent t acc c = Ok r ->
  allLowerCased (fst r).
Proof.
  unfold Gemini.correlatedContent; intros Hl H.
  repeat step H; auto.
  eapply forOf_invariant with (P := fun a => allLowerCased (fst a)); [| exact Hl | exact H].
  clear; intros [outs cs] x s' Hs H. unfold Gemini.correlatedPart in H.
  inv_bind H. destruct (truthy v); [|now inv_ok H].
  inv_bind H. inv_bind H.
  destruct v1; try (now inv_ok H).
  destruct (truthy (VStr s)); [|now inv_ok H].
  inv_bind H. inv_ok H. simpl in *.
  apply allLowerCased_push; auto; simpl. eapply correlatedId_lowerCased; eauto.
Qed.

End LowerCased.

(** C9. Every tool output returned by [extractToolOutputs], for each of the
    four formats, any turn array and any plugin state, carries an [id]
    that equals its own lower-casing. *)
Theorem extractToolOutputs_ids_lowerCased
        (format : FormatDescriptor) (data : list value) (state : PluginState)
        (outputs : list ToolOutput) :
  In format formats ->
  extractToolOutputs format data state = Ok outputs ->
  forall o, In o outputs -> toLowerCase (id o) = id o.
Proof.
  intros Hf H. apply Forall_forall. change (allLowerCased outputs).
  destruct (name_in_formats _ Hf) as [-> | [-> | [-> | ->]]]; simpl in H.
  - eapply forOf_invariant with (P := allLowerCased); [| constructor | exact H].
    intros; eapply responses_extractItem_lower; eauto.
  - eapply forOf_invariant with (P := allLowerCased); [| constructor | exact H].
    intros; eapply bedrock_extractTurn_lower; eauto.
  - eapply forOf_invariant with (P := allLowerCased); [| constructor | exact H].
    intros; eapply chat_extractTurn_lower; eauto.
  - unfold Gemini.extractToolOutputs in H.
    destruct (Gemini.findPositionMapping (googleToolCallMapping state)) as [t|].
    + inv_bind H. destruct v as [outs cs]. inv_ok H.
      change (allLowerCased (fst (outputs, cs))).
      eapply forOf_invariant with (P := fun a => allLowerCased (fst a));
        [| | exact E]; [|constructor].
      intros; eapply gemini_correlatedContent_lower; eauto.
    + eapply forOf_invariant with (P := allLowerCased); [| constructor | exact H].
      intros; eapply gemini_fallbackContent_lower; eauto.
Qed.

(** A Chat turn array with a native tool turn whose identifier has capitals:
    the extracted identifier is its lower-casing. *)
Lemma extractToolOutputs_ids_lowerCased_witness :
  extractToolOutputs openaiChatFormat
    [VObj [("role", VStr "tool"); ("tool_call_id", VStr "Call_ABC");
           ("content", VStr "done")]]
    createPluginState
  = Ok [{| id := "call_abc"; toolName := VUndefined; content := VStr "done" |}]
  /\ toLowerCase "call_abc" = "call_abc".
Proof.
  split; [reflexivity|].
  exact (extractToolOutputs_ids_lowerCased openaiChatFormat
           [VObj [("role", VStr "tool"); ("tool_call_id", VStr "Call_ABC");
                  ("content", VStr "done")]]
           createPluginState _
           (or_intror (or_intror (or_introl eq_refl))) eq_refl
           {| id := "call_abc"; toolName := VUndefined; content := VStr "done" |}
           (or_introl eq_refl)).
Defined.

(* ================================================================== *)
(** * Gemini extraction without a position mapping *)

Lemma get_getOpt (v w : value) (k : string) : get v k = Ok w -> getOpt v k = w.
Proof.
  destruct v; simpl; intros H; inv_ok H; reflexivity.
Qed.

Lemma indexFrom_app {A B : Type} (f : nat -> A -> B) (xs ys : list A) (k : nat) :
  indexFrom f k (xs ++ ys) = (indexFrom f k xs ++ indexFrom f (k + length xs) ys)%list.
Proof.
  revert k; induction xs as [|x xs IH]; simpl; intros k.
  - now rewrite Nat.add_0_r.
  - rewrite IH. replace (S k + length xs) with (k + S (length xs)) by lia. reflexivity.
Qed.

Lemma indexFrom_length {A B : Type} (f : nat -> A -> B) (xs : list A) (k : nat) :
  length (indexFrom f k xs) = length xs.
Proof.
  revert k; induction xs; simpl; intros; [reflexivity | now rewrite IHxs].
Qed.

Lemma indexFrom_nth_error {A B : Type} (f : nat -> A -> B) (xs : list A) (k i : nat) (x : A) :
  nth_error xs i = Some x -> nth_error (indexFrom f k xs) i = Some (f (k + i) x).
Proof.
  revert k i; induction xs as [|y xs IH]; intros k [|i]; simpl; intros H; try discriminate.
  - inv_ok H. now rewrite Nat.add_0_r.
  - rewrite (IH (S k) i H). replace (S k + i) with (k + S i) by lia. reflexivity.
Qed.

Lemma optToLowerCase_partToolName (part fr name0 funcName : value) :
  get part "functionResponse" = Ok fr ->
  get fr "name" = Ok name0 ->
  optToLowerCase name0 = Ok funcName ->
  funcName = partToolName part.
Proof.
  intros Hfr Hn Hl. unfold partToolName.
  rewrite (get_getOpt _ _ _ Hfr), (get_getOpt _ _ _ Hn).
  destruct name0; simpl in Hl; inv_ok Hl; reflexivity.
Qed.

Lemma fallbackPart_spec (outputs r : list ToolOutput) (part : value) :
  Gemini.fallbackPart outputs part = Ok r ->
  r = (outputs ++ indexFrom fallbackOutput (length outputs)
                            (filter isFunctionResponse [part]))%list.
Proof.
  unfold Gemini.fallbackPart; intros H.
  inv_bind H. simpl. unfold isFunctionResponse. rewrite (get_getOpt _ _ _ E).
  destruct (truthy v); [|inv_ok H; now rewrite app_nil_r].
  inv_bind H. inv_bind H. inv_bind H. inv_ok H. simpl.
  unfold push, fallbackOutput, Gemini.syntheticId. do 3 f_equal.
  - now rewrite (optToLowerCase_partToolName _ _ _ _ E E0 E1).
  - now apply optToLowerCase_partToolName with v v0.
  - now rewrite (get_getOpt _ _ _ E), (get_getOpt _ _ _ E2).
Qed.

Lemma fallbackParts_spec (ps : list value) (outputs r : list ToolOutput) :
  forOf ps outputs Gemini.fallbackPart = Ok r ->
  r = (outputs ++ indexFrom fallbackOutput (length outputs)
                            (filter isFunctionResponse ps))%list.
Proof.
  revert outputs; induction ps as [|p ps IH]; simpl; intros outputs H.
  - inv_ok H. now rewrite app_nil_r.
  - inv_bind H. apply fallbackPart_spec in E. apply IH in H. subst r v.
    simpl. destruct (isFunctionResponse p); simpl.
    + rewrite length_app; simpl. rewrite <- app_assoc; simpl.
      now rewrite Nat.add_1_r.
    + now rewrite app_nil_r.
Qed.

Lemma fallbackContents_spec (data : list value) (outputs r : list ToolOutput) :
  forOf data outputs Gemini.fallbackContent = Ok r ->
  r = (outputs ++ indexFrom fallbackOutput (length outputs)
                            (functionResponseParts data))%list.
Proof.
  revert outputs; induction data as [|c data IH]; simpl; intros outputs H.
  - inv_ok H. now rewrite app_nil_r.
  - inv_bind H. apply IH in H. subst r.
    unfold Gemini.fallbackContent in E. inv_bind E.
    rewrite (get_getOpt _ _ _ E0).
    unfold functionResponseParts at 1.
    rewrite indexFrom_app.
    destruct v0; try (inv_ok E; simpl; rewrite Nat.add_0_r; reflexivity).
    apply fallbackParts_spec in E. subst v.
    rewrite length_app, indexFrom_length, <- app_assoc. reflexivity.
Qed.

(** C3 (as the code has it). With no non-empty table in the store, Gemini
    extraction gives the function-response part of rank [k] among all the
    function-response parts of the body the identifier
    [gemini-{toolName}-{k}], with [toolName] the lower-cased name of the
    part ([undefined] when it has none): the counter is the number of
    outputs collected so far, whatever their tool names. *)
Theorem gemini_fallback_ids_global_rank
        (data : list value) (state : PluginState) (outputs : list ToolOutput) :
  Gemini.findPositionMapping (googleToolCallMapping state) = None ->
  extractToolOutputs geminiFormat data state = Ok outputs ->
  outputs = indexFrom fallbackOutput 0 (functionResponseParts data)
  /\ forall k part,
       nth_error (functionResponseParts data) k = Some part ->
       nth_error (map id outputs) k
       = Some ("gemini-" ++ toStringJS (partToolName part) ++ "-" ++ decimal k).
Proof.
  intros Hnone H. simpl in H. unfold Gemini.extractToolOutputs in H.
  rewrite Hnone in H. apply fallbackContents_spec in H. simpl in H.
  split; [exact H|].
  intros k part Hk. subst outputs.
  rewrite nth_error_map, (indexFrom_nth_error _ _ 0 k part Hk). reflexivity.
Qed.

(** The general statement at the body [read, write, read] with an empty
    store. *)
Lemma gemini_fallback_ids_global_rank_witness :
  nth_error
    (map id (indexFrom fallbackOutput 0 (functionResponseParts readWriteReadContents))) 2
  = Some "gemini-read-2".
Proof.
  pose proof (gemini_fallback_ids_global_rank readWriteReadContents createPluginState
                (indexFrom fallbackOutput 0 (functionResponseParts readWriteReadContents))
                eq_refl eq_refl) as [_ H].
  exact (H 2 (functionResponsePart "read") eq_refl).
Defined.

(** C3, as stated, fails on the body whose function-response parts are
    [read, write, read], with an empty store: the code numbers the parts
    0, 1, 2 (the second [read] is [gemini-read-2]); numbering each tool
    name on its own would give 0, 0, 1 (the second [read] would be
    [gemini-read-1]). *)
Lemma gemini_fallback_ids_not_per_name :
  Gemini.findPositionMapping (googleToolCallMapping createPluginState) = None
  /\ (outputs <- extractToolOutputs geminiFormat readWriteReadContents createPluginState ;;
      Ok (map id outputs))
     = Ok ["gemini-read-0"; "gemini-write-1"; "gemini-read-2"]
  /\ perNameSyntheticIds ["read"; "write"; "read"]
     = ["gemini-read-0"; "gemini-write-0"; "gemini-read-1"]
  /\ ["gemini-read-0"; "gemini-write-1"; "gemini-read-2"]
     <> perNameSyntheticIds ["read"; "write"; "read"].
Proof.
  repeat split; try reflexivity. discriminate.
Qed.

(* ================================================================== *)
(** * The Gemini lookup and the session key *)

Lemma findPositionMapping_first (store : JSMap.t (JSMap.t string))
      (key : string) (table : JSMap.t string) :
  firstNonEmptyTable store key table ->
  Gemini.findPositionMapping store = Some table.
Proof.
  intros (before & after & -> & Hempty & Hpos).
  induction Hempty as [|[k t] before Ht _ IH]; simpl.
  - destruct (Nat.ltb_spec 0 (JSMap.size table)); [reflexivity | lia].
  - simpl in Ht. rewrite Ht. simpl. exact IH.
Qed.

Lemma findPositionMapping_none (store : JSMap.t (JSMap.t string)) :
  allTablesEmpty store <-> Gemini.findPositionMapping store = None.
Proof.
  induction store as [|[k t] store IH]; simpl.
  - split; [reflexivity | constructor].
  - destruct (Nat.ltb_spec 0 (JSMap.size t)) as [Hpos|Hz]; split; intros H.
    + inversion H; subst; simpl in *; lia.
    + discriminate.
    + apply IH. now inversion H.
    + constructor; [simpl; lia | now apply IH].
Qed.

(* ================================================================== *)
(** * Session change *)

Lemma JSMap_get_set_same {V : Type} (k : string) (v : V) (m : JSMap.t V) :
  JSMap.get k (JSMap.set k v m) = Some v.
Proof.
  induction m as [|[k' v'] m IH]; simpl.
  - now rewrite String.eqb_refl.
  - destruct (String.eqb k k') eqn:E; simpl; rewrite ?String.eqb_refl, ?E; auto.
Qed.

Lemma JSMap_get_set_other {V : Type} (k k' : string) (v : V) (m : JSMap.t V) :
  k <> k' -> JSMap.get k (JSMap.set k' v m) = JSMap.get k m.
Proof.
  intros Hne. induction m as [|[k0 v0] m IH]; simpl.
  - apply String.eqb_neq in Hne. now rewrite Hne.
  - destruct (String.eqb k' k0) eqn:E; simpl.
    + apply String.eqb_eq in E; subst k0.
      apply String.eqb_neq in Hne. now rewrite Hne.
    + destruct (String.eqb k k0); auto.
Qed.

(** The store after the handler, from the store the session-change test
    leaves. *)
Lemma handler_store_cases (client : Hooks.Client) (state : PluginState)
      (input : Hooks.ChatParamsInput) :
  googleToolCallMapping (Hooks.createChatParamsHandler client state input)
  = Hooks.afterSessionChange state (Hooks.sessionID input)
  \/ exists t,
       Hooks.fetchPositionMapping client (Hooks.sessionID input) = Ok (Some t)
       /\ googleToolCallMapping (Hooks.createChatParamsHandler client state input)
          = JSMap.set (Hooks.sessionID input) t
              (Hooks.afterSessionChange state (Hooks.sessionID input)).
Proof.
  unfold Hooks.createChatParamsHandler, Hooks.afterMappingBuild; simpl.
  destruct (eqStr (Hooks.resolveProviderID input) "google"
            || eqStr (Hooks.resolveProviderID input) "google-vertex"); [|now left].
  destruct (Hooks.fetchPositionMapping client (Hooks.sessionID input)) as [[t|]|];
    [right; exists t; split; reflexivity | now left | now left].
Qed.

Lemma afterSessionChange_changed (state : PluginState) (A B : string) :
  lastSeenSessionId state = Some A -> A <> "" -> A <> B ->
  Hooks.afterSessionChange state B = JSMap.empty.
Proof.
  intros Hlast HA HAB. unfold Hooks.afterSessionChange. rewrite Hlast.
  apply String.eqb_neq in HA, HAB. now rewrite HA, HAB.
Qed.

Lemma afterSessionChange_get_none (state : PluginState) (A B : string) :
  JSMap.get A (googleToolCallMapping state) = None ->
  JSMap.get A (Hooks.afterSessionChange state B) = None.
Proof.
  intros H. unfold Hooks.afterSessionChange.
  destruct (lastSeenSessionId state) as [last|]; [|exact H].
  destruct (negb (String.eqb last "") && negb (String.eqb last B)); [reflexivity | exact H].
Qed.

(** C4 (as the code has it). When the last-seen session is a non-empty
    identifier [A] and a chat-params event for a different session [B] is
    processed, the store is cleared: afterwards it holds no table under
    [A], and is either empty or holds the single table just built for [B];
    and when a later event returns to [A], a table found under [A] is the
    one built from the transcript fetched at that event. *)
Theorem session_change_clears_store
        (client : Hooks.Client) (state : PluginState)
        (input : Hooks.ChatParamsInput) (A : string) :
  lastSeenSessionId state = Some A ->
  A <> "" ->
  A <> Hooks.sessionID input ->
  JSMap.get A (googleToolCallMapping (Hooks.createChatParamsHandler client state input))
  = None
  /\ (googleToolCallMapping (Hooks.createChatParamsHandler client state input) = []
      \/ exists t,
           googleToolCallMapping (Hooks.createChatParamsHandler client state input)
           = [(Hooks.sessionID input, t)]
           /\ Hooks.fetchPositionMapping client (Hooks.sessionID input) = Ok (Some t))
  /\ forall (client2 : Hooks.Client) (input2 : Hooks.ChatParamsInput) (t : JSMap.t string),
       Hooks.sessionID input2 = A ->
       JSMap.get A (googleToolCallMapping
                      (Hooks.createChatParamsHandler client2
                         (Hooks.createChatParamsHandler client state input) input2))
       = Some t ->
       Hooks.fetchPositionMapping client2 A = Ok (Some t).
Proof.
  intros Hlast HA HAB.
  set (state' := Hooks.createChatParamsHandler client state input).
  assert (Hcases : googleToolCallMapping state' = []
                   \/ exists t,
                        googleToolCallMapping state' = [(Hooks.sessionID input, t)]
                        /\ Hooks.fetchPositionMapping client (Hooks.sessionID input)
                           = Ok (Some t)).
  { destruct (handler_store_cases client state input) as [H | (t & Ht & H)];
      fold state' in H;
      rewrite (afterSessionChange_changed state A _ Hlast HA HAB) in H;
      [now left | right; exists t; now split]. }
  assert (HgetA : JSMap.get A (googleToolCallMapping state') = None).
  { destruct Hcases as [-> | (t & -> & _)]; simpl; [reflexivity|].
    apply String.eqb_neq in HAB. now rewrite HAB. }
  split; [exact HgetA | split; [exact Hcases |]].
  intros client2 input2 t Hsid Hget.
  destruct (handler_store_cases client2 state' input2) as [H | (t' & Ht' & H)];
    rewrite H, Hsid in Hget.
  - rewrite (afterSessionChange_get_none state' A A HgetA) in Hget. discriminate.
  - rewrite JSMap_get_set_same in Hget. injection Hget as <-. now rewrite <- Hsid.
Qed.

(** The handler at a state whose last-seen session is [ses_a]: an event
    for [ses_b] leaves no table under [ses_a]. *)
Lemma session_change_clears_store_witness :
  JSMap.get "ses_a"
    (googleToolCallMapping
       (Hooks.createChatParamsHandler offlineClient
          (stateWith [("ses_a", [("read:0", "id1")])] (Some "ses_a"))
          (chatParamsFor "ses_b" "google")))
  = None.
Proof.
  refine (proj1 (session_change_clears_store offlineClient
                   (stateWith [("ses_a", [("read:0", "id1")])] (Some "ses_a"))
                   (chatParamsFor "ses_b" "google") "ses_a" eq_refl _ _));
    discriminate.
Defined.

(** C4, as stated, fails when the last-seen session identifier is the
    empty string, which the guard of the session-change test takes for
    no session: the state reached from the initial one by an event for the
    session [""] of a Google provider keeps the table of that session when
    the next event is for [ses_b]. *)
Lemma session_change_empty_id_keeps_store :
  lastSeenSessionId
    (Hooks.createChatParamsHandler (transcriptClient readWriteReadTranscript)
       createPluginState (chatParamsFor "" "google"))
  = Some ""
  /\ Hooks.sessionID (chatParamsFor "ses_b" "anthropic") = "ses_b"
  /\ JSMap.get ""
       (googleToolCallMapping
          (Hooks.createChatParamsHandler offlineClient
             (Hooks.createChatParamsHandler (transcriptClient readWriteReadTranscript)
                createPluginState (chatParamsFor "" "google"))
             (chatParamsFor "ses_b" "anthropic")))
     = Some [("read:0", "id1"); ("read:1", "id3"); ("write:0", "id2")].
Proof.
  repeat split.
Qed.

(* ================================================================== *)
(** * The correlation table and its use *)

Lemma callToLowerCase_inv (v : value) (s : string) :
  callToLowerCase v = Ok s -> exists s0, v = VStr s0 /\ s = toLowerCase s0.
Proof.
  destruct v; simpl; intros H; inv_ok H; eauto.
Qed.

Lemma recordPart_spec (acc r : JSMap.t (list string)) (part : value) :
  Hooks.recordPart acc part = Ok r ->
  r = fold_left addCall (toolCallsOfParts [part]) acc.
Proof.
  unfold Hooks.recordPart, toolCallsOfParts, toolCallOf; simpl; intros H.
  inv_bind H. rewrite (get_getOpt _ _ _ E).
  destruct (eqStr v "tool"); [|now inv_ok H].
  inv_bind H. rewrite (get_getOpt _ _ _ E0).
  destruct (truthy v0) eqn:Tc.
  - inv_bind H. rewrite (get_getOpt _ _ _ E1).
    destruct (truthy v1) eqn:Tt.
    + inv_bind H. inv_bind H.
      apply callToLowerCase_inv in E2, E3.
      destruct E2 as (tool & -> & ->), E3 as (callID & -> & ->).
      simpl in Tc, Tt. rewrite Tc, Tt. simpl.
      destruct (JSMap.get (toLowerCase tool)
                  (if JSMap.has (toLowerCase tool) acc then acc
                   else JSMap.set (toLowerCase tool) [] acc));
        [now inv_ok H | discriminate].
    + inv_ok H. destruct v0; try reflexivity.
      destruct v1; try reflexivity. simpl in Tt. rewrite Tt.
      now rewrite andb_false_r.
  - inv_ok H. destruct v0; try reflexivity. simpl in Tc. rewrite Tc. simpl.
    destruct (getOpt part "tool"); reflexivity.
Qed.

Lemma toolCallsOfParts_app (xs ys : list value) :
  toolCallsOfParts (xs ++ ys) = (toolCallsOfParts xs ++ toolCallsOfParts ys)%list.
Proof.
  apply flat_map_app.
Qed.

Lemma recordParts_spec (parts : list value) (acc r : JSMap.t (list string)) :
  forOf parts acc Hooks.recordPart = Ok r ->
  r = fold_left addCall (toolCallsOfParts parts) acc.
Proof.
  revert acc; induction parts as [|p parts IH]; intros acc H.
  - simpl in *. now inv_ok H.
  - simpl in H. inv_bind H. apply recordPart_spec in E. apply IH in H. subst r v.
    change (p :: parts) with ([p] ++ parts)%list.
    now rewrite toolCallsOfParts_app, fold_left_app.
Qed.

Lemma recordChars_spec (cs : list ascii) (acc : JSMap.t (list string)) :
  forOf (map (fun c => VStr (String c "")) cs) acc Hooks.recordPart = Ok acc.
Proof.
  induction cs as [|c cs IH]; simpl; [reflexivity | exact IH].
Qed.

Lemma recordMessages_spec (messages : list value) (acc r : JSMap.t (list string)) :
  forOf messages acc Hooks.recordMessage = Ok r ->
  r = fold_left addCall (transcriptToolCalls messages) acc.
Proof.
  revert acc; induction messages as [|msg messages IH]; simpl; intros acc H.
  - now inv_ok H.
  - inv_bind H. apply IH in H. subst r.
    unfold transcriptToolCalls; simpl. rewrite fold_left_app. f_equal.
    unfold Hooks.recordMessage in E. inv_bind E.
    rewrite (get_getOpt _ _ _ E0).
    destruct (truthy v0) eqn:T.
    + inv_bind E. destruct v0; simpl in E1; try discriminate; inv_ok E1.
      * rewrite recordChars_spec in E. now inv_ok E.
      * now apply recordParts_spec.
    + inv_ok E. destruct v0; simpl in T; try discriminate; reflexivity.
Qed.

Lemma buildPositionMapping_spec (messages : list value) (t : JSMap.t string) :
  Hooks.buildPositionMapping messages = Ok t ->
  t = Hooks.flatten (fold_left addCall (transcriptToolCalls messages) JSMap.empty).
Proof.
  unfold Hooks.buildPositionMapping; intros H.
  inv_bind H. inv_ok H. now rewrite (recordMessages_spec _ _ _ E).
Qed.

Lemma correlatedPart_spec (t : JSMap.t string) (acc r : list ToolOutput * JSMap.t nat)
      (part : value) :
  Gemini.correlatedPart t acc part = Ok r ->
  (map id (fst r), snd r)
  = fold_left (correlateName t) (map partToolName (filter isFunctionResponse [part]))
              (map id (fst acc), snd acc).
Proof.
  destruct acc as [outs cs]. unfold Gemini.correlatedPart; intros H.
  inv_bind H. simpl. unfold isFunctionResponse. rewrite (get_getOpt _ _ _ E).
  destruct (truthy v); [|now inv_ok H].
  inv_bind H. inv_bind H.
  simpl. rewrite <- (optToLowerCase_partToolName _ _ _ _ E E0 E1).
  unfold correlateName.
  destruct v1; try (now inv_ok H).
  destruct (truthy (VStr s)); [|now inv_ok H].
  inv_bind H. inv_ok H. simpl. unfold push. now rewrite map_app.
Qed.

Lemma correlatedParts_spec (t : JSMap.t string) (ps : list value)
      (acc r : list ToolOutput * JSMap.t nat) :
  forOf ps acc (Gemini.correlatedPart t) = Ok r ->
  (map id (fst r), snd r)
  = fold_left (correlateName t) (map partToolName (filter isFunctionResponse ps))
              (map id (fst acc), snd acc).
Proof.
  revert acc; induction ps as [|p ps IH]; simpl; intros acc H.
  - now inv_ok H.
  - inv_bind H. apply correlatedPart_spec in E. apply IH in H.
    rewrite H, E. simpl.
    destruct (isFunctionResponse p); reflexivity.
Qed.

Lemma correlatedContents_spec (t : JSMap.t string) (data : list value)
      (acc r : list ToolOutput * JSMap.t nat) :
  forOf data acc (Gemini.correlatedContent t) = Ok r ->
  (map id (fst r), snd r)
  = fold_left (correlateName t) (map partToolName (functionResponseParts data))
              (map id (fst acc), snd acc).
Proof.
  revert acc; induction data as [|c data IH]; simpl; intros acc H.
  - now inv_ok H.
  - inv_bind H. apply IH in H. rewrite H.
    unfold functionResponseParts; simpl. rewrite map_app, fold_left_app. f_equal.
    unfold Gemini.correlatedContent in E. inv_bind E.
    rewrite (get_getOpt _ _ _ E0).
    destruct v0; try (now inv_ok E).
    now apply correlatedParts_spec.
Qed.

(** The identifiers of a correlated extraction are those of the sequence
    of tool names of the body's function-response parts. *)
Lemma gemini_correlated_ids (state : PluginState) (t : JSMap.t string)
      (data : list value) (outputs : list ToolOutput) :
  Gemini.findPositionMapping (googleToolCallMapping state) = Some t ->
  extractToolOutputs geminiFormat data state = Ok outputs ->
  map id outputs
  = fst (fold_left (correlateName t) (map partToolName (functionResponseParts data))
                   ([], JSMap.empty)).
Proof.
  intros Ht H. simpl in H. unfold Gemini.extractToolOutputs in H. rewrite Ht in H.
  inv_bind H. destruct v as [outs cs]. inv_ok H.
  apply correlatedContents_spec in E. simpl in E. now rewrite <- E.
Qed.

(** C1. For a transcript whose tool invocations are, in transcript order,
    [read] with id [id1], [write] with id [id2] and [read] with id [id3],
    the builder's table maps [read:0] to [id1], [write:0] to [id2] and
    [read:1] to [id3] (and nothing else); the chat.params handler of a
    Google provider stores that table under the session; and a Gemini
    extraction that selects the table, on a body whose function-response
    parts are for [read], [write], [read] in that order, returns the
    identifiers [id1], [id2], [id3] in that order. *)
Theorem correlation_read_write_read (messages : list value) (t : JSMap.t string) :
  transcriptToolCalls messages = [("read", "id1"); ("write", "id2"); ("read", "id3")] ->
  Hooks.buildPositionMapping messages = Ok t ->
  (JSMap.get "read:0" t = Some "id1"
   /\ JSMap.get "write:0" t = Some "id2"
   /\ JSMap.get "read:1" t = Some "id3"
   /\ JSMap.size t = 3)
  /\ (forall (client : Hooks.Client) (state : PluginState)
             (input : Hooks.ChatParamsInput) (response : value),
        eqStr (Hooks.resolveProviderID input) "google"
        || eqStr (Hooks.resolveProviderID input) "google-vertex" = true ->
        Hooks.sessionMessages client (Hooks.sessionID input) = Ok response ->
        orElse (getOpt response "data") response = VArr messages ->
        JSMap.get (Hooks.sessionID input)
          (googleToolCallMapping (Hooks.createChatParamsHandler client state input))
        = Some t)
  /\ (forall (state : PluginState) (key : string) (data : list value)
             (outputs : list ToolOutput),
        firstNonEmptyTable (googleToolCallMapping state) key t ->
        map partToolName (functionResponseParts data)
        = [VStr "read"; VStr "write"; VStr "read"] ->
        extractToolOutputs geminiFormat data state = Ok outputs ->
        map id outputs = ["id1"; "id2"; "id3"]).
Proof.
  intros Hcalls Hbuild.
  pose proof (buildPositionMapping_spec _ _ Hbuild) as Ht.
  rewrite Hcalls in Ht. vm_compute in Ht.
  split; [subst t; repeat split|split].
  - intros client state input response Hprov Hresp Hdata.
    unfold Hooks.createChatParamsHandler, Hooks.afterMappingBuild; simpl.
    rewrite Hprov. unfold Hooks.fetchPositionMapping. rewrite Hresp; simpl.
    assert (Hget : get response "data" = Ok (getOpt response "data")).
    { destruct response; try reflexivity; simpl in Hdata; discriminate. }
    rewrite Hget; simpl. rewrite Hdata, Hbuild; simpl.
    apply JSMap_get_set_same.
  - intros state key data outputs Hfirst Hnames H.
    apply findPositionMapping_first in Hfirst.
    rewrite (gemini_correlated_ids _ _ _ _ Hfirst H), Hnames. subst t. reflexivity.
Qed.

(** The transcript [readWriteReadTranscript], handled for the session
    [ses_a] of a Google provider from the initial state, and the body
    [readWriteReadContents]. *)
Lemma correlation_read_write_read_witness :
  (JSMap.get "read:0" [("read:0", "id1"); ("read:1", "id3"); ("write:0", "id2")] = Some "id1"
   /\ JSMap.get "write:0" [("read:0", "id1"); ("read:1", "id3"); ("write:0", "id2")]
      = Some "id2"
   /\ JSMap.get "read:1" [("read:0", "id1"); ("read:1", "id3"); ("write:0", "id2")]
      = Some "id3"
   /\ JSMap.size [("read:0", "id1"); ("read:1", "id3"); ("write:0", "id2")] = 3)
  /\ JSMap.get "ses_a"
       (googleToolCallMapping
          (Hooks.createChatParamsHandler (transcriptClient readWriteReadTranscript)
             createPluginState (chatParamsFor "ses_a" "google")))
     = Some [("read:0", "id1"); ("read:1", "id3"); ("write:0", "id2")]
  /\ map id
       [{| id := "id1"; toolName := VStr "read"; content := VStr "ok" |};
        {| id := "id2"; toolName := VStr "write"; content := VStr "ok" |};
        {| id := "id3"; toolName := VStr "read"; content := VStr "ok" |}]
     = ["id1"; "id2"; "id3"].
Proof.
  pose proof (correlation_read_write_read readWriteReadTranscript
                [("read:0", "id1"); ("read:1", "id3"); ("write:0", "id2")]
                eq_refl eq_refl) as (Htable & Hstore & Hextract).
  split; [exact Htable | split].
  - exact (Hstore (transcriptClient readWriteReadTranscript) createPluginState
             (chatParamsFor "ses_a" "google")
             (VObj [("data", VArr readWriteReadTranscript)]) eq_refl eq_refl eq_refl).
  - refine (Hextract
              (Hooks.createChatParamsHandler (transcriptClient readWriteReadTranscript)
                 createPluginState (chatParamsFor "ses_a" "google"))
              "ses_a" readWriteReadContents _ _ eq_refl eq_refl).
    exists [], []. repeat split; [constructor | repeat constructor].
Defined.

Lemma counterOf_set (counters : JSMap.t nat) (n n' : string) (v : nat) :
  Gemini.counterOf (JSMap.set n v counters) n'
  = if String.eqb n' n then v else Gemini.counterOf counters n'.
Proof.
  unfold Gemini.counterOf.
  destruct (String.eqb_spec n' n) as [-> | Hne].
  - now rewrite JSMap_get_set_same.
  - now rewrite JSMap_get_set_other.
Qed.

Lemma correlatedId_tableId (table : JSMap.t string) (fn : string) (j : nat) :
  Gemini.correlatedId (JSMap.get (Gemini.positionKey fn j) table) (VStr fn) j
  = tableId table fn j.
Proof.
  unfold Gemini.correlatedId, tableId, Gemini.positionKey, Gemini.syntheticId.
  destruct (JSMap.get (fn ++ ":" ++ decimal j) table) as [s|]; [|reflexivity].
  destruct s; reflexivity.
Qed.

(** The counters of the correlated pass count the earlier responses of
    each tool. *)
Lemma correlateName_resolvedIds (table : JSMap.t string) (names : list value) :
  forall (acc : list string) (counters : JSMap.t nat) (earlier : list string),
    (forall fn, Gemini.counterOf counters fn = count_occ string_dec earlier fn) ->
    fst (fold_left (correlateName table) names (acc, counters))
    = (acc ++ resolvedIds table earlier names)%list.
Proof.
  induction names as [|n names IH]; intros acc counters earlier Hc; simpl.
  - now rewrite app_nil_r.
  - destruct n as [| |b|z|fn|l|fs]; try (now apply IH).
    simpl. destruct (String.eqb fn "") eqn:E; simpl; [now apply IH|].
    rewrite (IH _ _ (fn :: earlier)).
    + unfold push. rewrite <- app_assoc. simpl.
      now rewrite correlatedId_tableId, Hc.
    + intros fn'. rewrite counterOf_set. simpl.
      destruct (string_dec fn fn') as [-> | Hne].
      * rewrite String.eqb_refl, Hc. lia.
      * destruct (String.eqb_spec fn' fn) as [-> | _]; [now elim Hne | apply Hc].
Qed.

Lemma JSMap_get_In {V : Type} (k : string) (v : V) (m : JSMap.t V) :
  JSMap.get k m = Some v -> In (k, v) m.
Proof.
  induction m as [|[k' v'] m IH]; simpl; [discriminate|].
  destruct (String.eqb_spec k k') as [-> | _]; intros H.
  - inv_ok H. now left.
  - right. now apply IH.
Qed.

(** ** Only identifiers of the table can be replaced *)

Lemma assignLoop_never_assigns {S : Type} (step : S -> value -> result (S * option value)) :
  (forall s x s' o, step s x = Ok (s', o) -> o = None) ->
  forall data s b,
    fst (assignLoop step s b data) = data
    /\ (snd (assignLoop step s b data) = Ok b
        \/ exists e, snd (assignLoop step s b data) = Throw e).
Proof.
  intros Hstep data; induction data as [|x data IH]; intros s b; simpl; [auto|].
  destruct (step s x) as [[s' o]|e] eqn:E; [|simpl; eauto].
  rewrite (Hstep _ _ _ _ E).
  destruct (IH s' b) as [Hd Hr].
  destruct (assignLoop step s' b data) as [ys r]; simpl in *. subst ys. auto.
Qed.

Section GeminiTableOnly.
Variable tl : string.
Variable newContent : string.
Variable table : JSMap.t string.
Hypothesis no_entry : forall key s, JSMap.get key table = Some s -> toLowerCase s <> tl.

Lemma geminiPart_unchanged (np np' : list value) (cm cm' : bool)
      (cs cs' : JSMap.t nat) (part : value) :
  Replace.geminiPart tl newContent table (np, cm, cs) part = Ok (np', cm', cs') ->
  np' = (np ++ [part])%list /\ cm' = cm.
Proof.
  unfold Replace.geminiPart; intros H.
  bind_inv H fr Hfr. destruct (truthy fr); [|now inv_ok H].
  bind_inv H name0 Hn. bind_inv H funcName Hl.
  destruct funcName as [| | | |fn| |]; try (now inv_ok H).
  destruct (truthy (VStr fn)); [|now inv_ok H].
  destruct (JSMap.get (Gemini.positionKey fn (Gemini.counterOf cs fn)) table)
    as [s|] eqn:Eg; [|now inv_ok H].
  destruct (String.eqb (toLowerCase s) tl) eqn:E; [|now inv_ok H].
  apply String.eqb_eq in E. now elim (no_entry _ _ Eg).
Qed.

Lemma geminiParts_unchanged (ps np np' : list value) (cm cm' : bool)
      (cs cs' : JSMap.t nat) :
  forOf ps (np, cm, cs) (Replace.geminiPart tl newContent table) = Ok (np', cm', cs') ->
  np' = (np ++ ps)%list /\ cm' = cm.
Proof.
  revert np cm cs; induction ps as [|p ps IH]; intros np cm cs H.
  - simpl in H. inv_ok H. now rewrite app_nil_r.
  - rewrite forOf_cons in H. bind_inv H acc Hp. destruct acc as [[np1 cm1] cs1].
    destruct (geminiPart_unchanged _ _ _ _ _ _ _ Hp) as [-> ->].
    destruct (IH _ _ _ H) as [-> ->]. now rewrite <- app_assoc.
Qed.

Lemma geminiStep_never_assigns (cs cs' : JSMap.t nat) (c : value) (o : option value) :
  Replace.geminiStep tl newContent table cs c = Ok (cs', o) -> o = None.
Proof.
  unfold Replace.geminiStep; intros H.
  bind_inv H parts Hp. destruct parts; try (now inv_ok H).
  bind_inv H acc Hloop. destruct acc as [[np cm] cs1].
  destruct (geminiParts_unchanged _ _ _ _ _ _ _ Hloop) as [_ ->]. now inv_ok H.
Qed.

End GeminiTableOnly.

(** A Gemini replacement that returns [true] found the identifier, up to
    case, among the entries of the table the store selects. *)
Lemma gemini_replaced_id_in_table (body : value) (toolId newContent : string)
      (state : PluginState) (table : JSMap.t string) :
  Gemini.findPositionMapping (googleToolCallMapping state) = Some table ->
  snd (replaceToolOutput body geminiFormat toolId newContent state) = Ok true ->
  exists key s, In (key, s) table /\ toLowerCase s = toLowerCase toolId.
Proof.
  intros Ht H.
  destruct (existsb (fun e => String.eqb (toLowerCase (snd e)) (toLowerCase toolId)) table)
    eqn:Ex.
  - apply existsb_exists in Ex. destruct Ex as ([key s] & Hin & E).
    apply String.eqb_eq in E. now exists key, s.
  - exfalso.
    assert (Hno : forall key s, JSMap.get key table = Some s ->
                                toLowerCase s <> toLowerCase toolId).
    { intros key s Hg E. apply JSMap_get_In in Hg.
      assert (Hex : existsb (fun e => String.eqb (toLowerCase (snd e))
                                                 (toLowerCase toolId)) table = true).
      { apply existsb_exists. exists (key, s). split; [exact Hg|].
        now apply String.eqb_eq. }
      rewrite Hex in Ex. discriminate. }
    unfold replaceToolOutput in H.
    destruct (getDataArray geminiFormat body) as [dataArray|e]; [|discriminate].
    destruct (negb (truthy dataArray)); [discriminate|].
    destruct dataArray as [| | | | |data|]; try discriminate.
    simpl in H. rewrite Ht in H.
    destruct (assignLoop_never_assigns
                (Replace.geminiStep (toLowerCase toolId) newContent table)
                (fun s x s' o => geminiStep_never_assigns (toLowerCase toolId) newContent
                                   table Hno s s' x o)
                data JSMap.empty false) as [_ Hsnd].
    destruct (assignLoop _ JSMap.empty false data) as [ys r]; simpl in *.
    destruct Hsnd as [-> | [e ->]]; discriminate.
Qed.

(** C10. Gemini extraction and the Gemini branch of replacement read the
    store only through its first non-empty table: two states whose first
    non-empty table is the same give the same results, whatever session
    keys that table is stored under, whatever else the stores hold and
    whatever session was seen last.  The identifiers extracted are
    resolved from that table: a function response that is the [j]-th for
    its tool name [fn] gets the case-folded entry of the table under
    [fn:j], and the synthetic identifier when the table has none.  And an
    identifier that a replacement finds is, up to case, an entry of that
    table. *)
Theorem gemini_lookup_ignores_session_key
        (state1 state2 : PluginState) (key1 key2 : string) (table : JSMap.t string)
        (data : list value) (body : value) (toolId newContent : string) :
  firstNonEmptyTable (googleToolCallMapping state1) key1 table ->
  firstNonEmptyTable (googleToolCallMapping state2) key2 table ->
  extractToolOutputs geminiFormat data state1 = extractToolOutputs geminiFormat data state2
  /\ replaceToolOutput body geminiFormat toolId newContent state1
     = replaceToolOutput body geminiFormat toolId newContent state2
  /\ (forall outputs,
        extractToolOutputs geminiFormat data state1 = Ok outputs ->
        map id outputs
        = resolvedIds table [] (map partToolName (functionResponseParts data)))
  /\ (snd (replaceToolOutput body geminiFormat toolId newContent state1) = Ok true ->
      exists key s, In (key, s) table /\ toLowerCase s = toLowerCase toolId).
Proof.
  intros H1 H2.
  apply findPositionMapping_first in H1, H2.
  split; [|split; [|split]].
  - simpl. unfold Gemini.extractToolOutputs. now rewrite H1, H2.
  - unfold replaceToolOutput. simpl. now rewrite H1, H2.
  - intros outputs H.
    rewrite (gemini_correlated_ids state1 table data outputs H1 H).
    now rewrite (correlateName_resolvedIds table _ [] JSMap.empty []).
  - now apply gemini_replaced_id_in_table.
Qed.

(** Two stores that keep the same table under different keys, next to
    different other entries; in the second the session seen last has a
    table of its own, which is not consulted: the first response for
    [read] gets the entry [Id1] of the shared table, case-folded, the
    responses without an entry get synthetic identifiers, and the
    replacement of [ID1] finds its part. *)
Lemma gemini_lookup_ignores_session_key_witness :
  extractToolOutputs geminiFormat readWriteReadContents
    (stateWith [("ses_a", [("read:0", "Id1")])] (Some "ses_b"))
  = extractToolOutputs geminiFormat readWriteReadContents
      (stateWith [("ses_x", []); ("ses_y", [("read:0", "Id1")]); ("ses_b", [("read:0", "zz")])]
                 (Some "ses_b"))
  /\ replaceToolOutput (VObj [("contents", VArr readWriteReadContents)]) geminiFormat
       "ID1" "pruned" (stateWith [("ses_a", [("read:0", "Id1")])] (Some "ses_b"))
     = replaceToolOutput (VObj [("contents", VArr readWriteReadContents)]) geminiFormat
         "ID1" "pruned"
         (stateWith [("ses_x", []); ("ses_y", [("read:0", "Id1")]); ("ses_b", [("read:0", "zz")])]
                    (Some "ses_b"))
  /\ (exists outputs,
        extractToolOutputs geminiFormat readWriteReadContents
          (stateWith [("ses_x", []); ("ses_y", [("read:0", "Id1")]);
                      ("ses_b", [("read:0", "zz")])] (Some "ses_b"))
        = Ok outputs
        /\ map id outputs = ["id1"; "gemini-write-0"; "gemini-read-1"])
  /\ snd (replaceToolOutput (VObj [("contents", VArr readWriteReadContents)]) geminiFormat
            "ID1" "pruned"
            (stateWith [("ses_x", []); ("ses_y", [("read:0", "Id1")]);
                        ("ses_b", [("read:0", "zz")])] (Some "ses_b")))
     = Ok true.
Proof.
  destruct (gemini_lookup_ignores_session_key
              (stateWith [("ses_a", [("read:0", "Id1")])] (Some "ses_b"))
              (stateWith [("ses_x", []); ("ses_y", [("read:0", "Id1")]);
                          ("ses_b", [("read:0", "zz")])] (Some "ses_b"))
              "ses_a" "ses_y" [("read:0", "Id1")]
              readWriteReadContents (VObj [("contents", VArr readWriteReadContents)])
              "ID1" "pruned") as (Hextract & Hreplace & Hids & _).
  - exists [], []. repeat split; [constructor | apply Nat.lt_0_1].
  - exists [("ses_x", [])], [("ses_b", [("read:0", "zz")])].
    repeat split; [repeat constructor | apply Nat.lt_0_1].
  - split; [exact Hextract | split; [exact Hreplace | split]].
    + rewrite <- Hextract.
      exists [{| id := "id1"; toolName := VStr "read"; content := VStr "ok" |};
              {| id := "gemini-write-0"; toolName := VStr "write"; content := VStr "ok" |};
              {| id := "gemini-read-1"; toolName := VStr "read"; content := VStr "ok" |}].
      split; [reflexivity|].
      exact (Hids [{| id := "id1"; toolName := VStr "read"; content := VStr "ok" |};
                   {| id := "gemini-write-0"; toolName := VStr "write";
                      content := VStr "ok" |};
                   {| id := "gemini-read-1"; toolName := VStr "read";
                      content := VStr "ok" |}] eq_refl).
    + rewrite <- Hreplace. reflexivity.
Defined.


(* ================================================================== *)
(** * Injection into the last user turn *)

Lemma lookup_setField_same (k : string) (v : value) (fs : list (string * value)) :
  lookup k (setField k v fs) = v.
Proof.
  induction fs as [|[k' v'] fs IH]; simpl.
  - now rewrite String.eqb_refl.
  - destruct (String.eqb k k') eqn:E; simpl; rewrite ?String.eqb_refl, ?E; auto.
Qed.

Lemma lookup_setField_other (k k' : string) (v : value) (fs : list (string * value)) :
  k <> k' -> lookup k (setField k' v fs) = lookup k fs.
Proof.
  intros Hne. induction fs as [|[k0 v0] fs IH]; simpl.
  - apply String.eqb_neq in Hne. now rewrite Hne.
  - destruct (String.eqb k' k0) eqn:E; simpl.
    + apply String.eqb_eq in E; subst k0.
      apply String.eqb_neq in Hne. now rewrite Hne.
    + destruct (String.eqb k k0); auto.
Qed.

Lemma getOpt_spreadSet_other (o v : value) (k k' : string) :
  k <> k' -> getOpt (spreadSet o k' v) k = getOpt o k.
Proof.
  intros Hne. destruct o; simpl; try (apply String.eqb_neq in Hne; now rewrite Hne).
  now apply lookup_setField_other.
Qed.

Lemma getOpt_spreadSet_same (o v : value) (k : string) :
  getOpt (spreadSet o k v) k = v.
Proof.
  destruct o; simpl; try (now rewrite String.eqb_refl).
  now apply lookup_setField_same.
Qed.

Lemma setField_same (k : string) (fs : list (string * value)) :
  lookup k fs <> VUndefined -> setField k (lookup k fs) fs = fs.
Proof.
  induction fs as [|[k' v'] fs IH]; simpl; intros H; [congruence|].
  destruct (String.eqb k k') eqn:E.
  - apply String.eqb_eq in E. now subst.
  - now rewrite IH.
Qed.

Lemma setField_setField (k : string) (v w : value) (fs : list (string * value)) :
  setField k w (setField k v fs) = setField k w fs.
Proof.
  induction fs as [|[k' v'] fs IH]; simpl.
  - now rewrite String.eqb_refl.
  - destruct (String.eqb k k') eqn:E; simpl; rewrite ?String.eqb_refl, ?E; [|rewrite IH];
      reflexivity.
Qed.

(** A body whose turn array is an array is an object holding it. *)
Lemma getDataArray_array (format : FormatDescriptor) (body : value) (data : list value) :
  In format formats ->
  getDataArray format body = Ok (VArr data) ->
  exists fs, body = VObj fs /\ lookup (dataKey (name format)) fs = VArr data.
Proof.
  intros Hf H.
  destruct (name_in_formats _ Hf) as [-> | [-> | [-> | ->]]]; simpl in H;
    (destruct body; simpl in H; try discriminate; inv_ok H; eauto).
Qed.

Lemma storeData_same (format : FormatDescriptor) (body : value) (data : list value) :
  In format formats ->
  getDataArray format body = Ok (VArr data) ->
  storeData body (dataKey (name format)) data = body.
Proof.
  intros Hf H. destruct (getDataArray_array _ _ _ Hf H) as (fs & -> & Hl).
  unfold storeData; simpl. rewrite <- Hl. rewrite setField_same; [reflexivity|].
  rewrite Hl; discriminate.
Qed.

Lemma getDataArray_storeData (format : FormatDescriptor) (body : value)
      (data data' : list value) :
  In format formats ->
  getDataArray format body = Ok (VArr data) ->
  getDataArray format (storeData body (dataKey (name format)) data') = Ok (VArr data').
Proof.
  intros Hf H. destruct (getDataArray_array _ _ _ Hf H) as (fs & -> & Hl).
  destruct (name_in_formats _ Hf) as [-> | [-> | [-> | ->]]]; simpl;
    unfold OpenaiResponses.getDataArray, Bedrock.getDataArray,
           OpenaiChat.getDataArray, Gemini.getDataArray; simpl;
    now rewrite lookup_setField_same.
Qed.

Lemma storeData_storeData (body : value) (key : string) (d1 d2 : list value) :
  storeData (storeData body key d1) key d2 = storeData body key d2.
Proof.
  unfold storeData. destruct body; simpl; try (now rewrite String.eqb_refl).
  now rewrite setField_setField.
Qed.

Lemma updateAt_middle (pre post : list value) (x y : value) :
  updateAt (length pre) y (pre ++ x :: post) = (pre ++ y :: post)%list.
Proof.
  induction pre as [|p pre IH]; simpl; [reflexivity | now rewrite IH].
Qed.

(** On a turn that is not [null], the [switch] of the injection loop
    updates the turn exactly when it is a user turn. *)
Lemma injectItem_userTurn (format : FormatDescriptor) (text : string) (item : value) :
  In format formats ->
  isNullish item = false ->
  Inject.injectItem text (name format) item
  = Ok (if userTurn (name format) item
        then Some (withInjectedText (name format) text item) else None).
Proof.
  intros Hf Hnn.
  assert (Hget : forall k, get item k = Ok (getOpt item k))
    by (intros k; destruct item; simpl in *; try reflexivity; discriminate).
  destruct (name_in_formats _ Hf) as [-> | [-> | [-> | ->]]];
    unfold Inject.injectItem, userTurn, withInjectedText, Inject.appendToContent,
           injectedBlock, Inject.textBlock; simpl;
    rewrite ?Hget; simpl;
    repeat match goal with
           | |- context [eqStr ?v ?s] => destruct (eqStr v s); simpl; rewrite ?Hget; simpl
           end;
    try reflexivity;
    match goal with
    | |- context [getOpt item ?k] => destruct (getOpt item k); reflexivity
    end.
Qed.

Lemma scanFrom_skip (text formatName : string) (pre post rest : list value) :
  Forall (fun x => Inject.injectItem text formatName x = Ok None) post ->
  Inject.scanFrom text formatName (pre ++ post ++ rest) (length pre + length post)
  = Inject.scanFrom text formatName (pre ++ post ++ rest) (length pre).
Proof.
  revert rest. induction post as [|x post IH] using rev_ind; intros rest Hall.
  - simpl. now rewrite Nat.add_0_r.
  - apply Forall_app in Hall. destruct Hall as [Hpost Hx].
    inversion Hx as [|? ? Hx' _]; subst.
    rewrite length_app; simpl.
    replace (length pre + (length post + 1)) with (S (length pre + length post)) by lia.
    simpl.
    replace (nth (length pre + length post) (pre ++ (post ++ [x]) ++ rest) VUndefined)
      with x.
    + rewrite Hx'; simpl. rewrite <- app_assoc. simpl. now apply IH.
    + rewrite <- app_assoc, app_assoc. simpl.
      rewrite <- length_app. now rewrite nth_middle.
Qed.

Lemma scanFrom_none (text formatName : string) (data : list value) :
  Forall (fun x => Inject.injectItem text formatName x = Ok None) data ->
  Inject.scanFrom text formatName data (length data) = Ok None.
Proof.
  intros H. pose proof (scanFrom_skip text formatName [] data [] H) as E.
  simpl in E. rewrite app_nil_r in E. exact E.
Qed.

Lemma scanFrom_last (text formatName : string) (pre post : list value) (u u' : value) :
  Inject.injectItem text formatName u = Ok (Some u') ->
  Forall (fun x => Inject.injectItem text formatName x = Ok None) post ->
  Inject.scanFrom text formatName (pre ++ u :: post) (length (pre ++ u :: post))
  = Ok (Some (pre ++ u' :: post)%list).
Proof.
  intros Hu Hpost.
  pose proof (scanFrom_skip text formatName (pre ++ [u]) post [] Hpost) as E.
  rewrite app_nil_r, <- app_assoc in E. simpl in E.
  rewrite length_app in *. simpl in *.
  replace (length pre + S (length post)) with (length pre + 1 + length post) by lia.
  rewrite E. rewrite Nat.add_1_r. simpl.
  rewrite nth_middle, Hu. simpl. now rewrite updateAt_middle.
Qed.

Lemma injectItem_not_user (format : FormatDescriptor) (text : string) (items : list value) :
  In format formats ->
  Forall (fun x => isNullish x = false /\ userTurn (name format) x = false) items ->
  Forall (fun x => Inject.injectItem text (name format) x = Ok None) items.
Proof.
  intros Hf. apply Forall_impl. intros x [Hnn Hu].
  now rewrite (injectItem_userTurn _ _ _ Hf Hnn), Hu.
Qed.

Lemma userTurn_not_nullish (formatName : string) (item : value) :
  userTurn formatName item = true -> isNullish item = false.
Proof.
  unfold userTurn. destruct item; try reflexivity; simpl;
    destruct (String.eqb formatName "openai-responses");
    try destruct (String.eqb formatName "gemini"); simpl; discriminate.
Qed.

(** The last user turn is the one updated. *)
Lemma inject_updates_last_user_turn
      (format : FormatDescriptor) (body : value) (text : string)
      (before after : list value) (u : value) :
  In format formats ->
  getDataArray format body = Ok (VArr (before ++ u :: after)) ->
  userTurn (name format) u = true ->
  Forall (fun x => isNullish x = false /\ userTurn (name format) x = false) after ->
  injectIntoLastUserMessage body format text
  = Ok (storeData body (dataKey (name format))
          (before ++ withInjectedText (name format) text u :: after), true).
Proof.
  intros Hf Hdata Hu Hafter.
  unfold injectIntoLastUserMessage. rewrite Hdata; simpl.
  rewrite (scanFrom_last text (name format) before after u
             (withInjectedText (name format) text u)); [reflexivity | |].
  - rewrite (injectItem_userTurn _ _ _ Hf (userTurn_not_nullish _ _ Hu)).
    now rewrite Hu.
  - now apply injectItem_not_user.
Qed.

(** The turn [withInjectedText] gives is the update the specification
    describes. *)
Lemma withInjectedText_textInjected (format : FormatDescriptor) (text : string) (u : value) :
  In format formats ->
  textInjected (name format) text u (withInjectedText (name format) text u).
Proof.
  intros Hf. unfold textInjected, withInjectedText.
  destruct (name_in_formats _ Hf) as [-> | [-> | [-> | ->]]]; simpl.
  1-3: (repeat split;
        [ intros s Hs; rewrite Hs; apply getOpt_spreadSet_same
        | intros parts Hp; rewrite Hp; apply getOpt_spreadSet_same
        | intros Hs Hp; destruct (getOpt u "content") as [| |b|z|s|l|fs] eqn:E;
          try reflexivity; [now elim (Hs s) | now elim (Hp l)]
        | intros k Hk; destruct (getOpt u "content"); try reflexivity;
          now apply getOpt_spreadSet_other ]).
  split.
  - intros ps Hp. rewrite Hp. apply getOpt_spreadSet_same.
  - intros k Hk. destruct (getOpt u "parts"); try reflexivity.
    now apply getOpt_spreadSet_other.
Qed.

(** The body after a write-back, read through the format's [getDataArray]
    and through its other properties. *)
Lemma storeData_observed (format : FormatDescriptor) (body : value)
      (data data' : list value) :
  In format formats ->
  getDataArray format body = Ok (VArr data) ->
  getDataArray format (storeData body (dataKey (name format)) data') = Ok (VArr data')
  /\ forall k, k <> dataKey (name format) ->
               getOpt (storeData body (dataKey (name format)) data') k = getOpt body k.
Proof.
  intros Hf Hd. split; [now apply getDataArray_storeData with data|].
  intros k Hk. unfold storeData. now apply getOpt_spreadSet_other.
Qed.

(** C6. [injectIntoLastUserMessage] scans the turn array from the end and
    updates the first turn it recognizes as a user turn of the format (for
    Responses, [type = message] and [role = user]): it returns [true], and
    the body then holds, under the format's key, the turn array in which
    that turn has the text appended (joined to a string content after a
    blank line, pushed as a block onto an array content) and every other
    turn is as before; nothing else of the body changes.  It returns
    [false], with the body unchanged, when no turn is a user turn.  For a
    Chat body with the turns [user, assistant, tool] it updates the user
    turn and returns [true].  The turns the scan visits are turn objects
    (not [null]). *)
Theorem injectIntoLastUserMessage_targets_last_user_turn
        (format : FormatDescriptor) (body : value) (data : list value) (text : string) :
  In format formats ->
  getDataArray format body = Ok (VArr data) ->
  (Forall (fun x => isNullish x = false /\ userTurn (name format) x = false) data ->
   injectIntoLastUserMessage body format text = Ok (body, false))
  /\ (forall (before after : list value) (u : value),
        data = (before ++ u :: after)%list ->
        userTurn (name format) u = true ->
        Forall (fun x => isNullish x = false /\ userTurn (name format) x = false) after ->
        exists body' u',
          injectIntoLastUserMessage body format text = Ok (body', true)
          /\ getDataArray format body' = Ok (VArr (before ++ u' :: after))
          /\ (forall k, k <> dataKey (name format) -> getOpt body' k = getOpt body k)
          /\ textInjected (name format) text u u')
  /\ (forall (u a t : value),
        format = openaiChatFormat ->
        data = [u; a; t] ->
        getOpt u "role" = VStr "user" ->
        getOpt a "role" = VStr "assistant" ->
        getOpt t "role" = VStr "tool" ->
        exists body' u',
          injectIntoLastUserMessage body format text = Ok (body', true)
          /\ getDataArray format body' = Ok (VArr [u'; a; t])
          /\ (forall k, k <> "messages" -> getOpt body' k = getOpt body k)
          /\ textInjected "openai-chat" text u u').
Proof.
  intros Hf Hdata.
  assert (Hlast : forall (before after : list value) (u : value),
        data = (before ++ u :: after)%list ->
        userTurn (name format) u = true ->
        Forall (fun x => isNullish x = false /\ userTurn (name format) x = false) after ->
        exists body' u',
          injectIntoLastUserMessage body format text = Ok (body', true)
          /\ getDataArray format body' = Ok (VArr (before ++ u' :: after))
          /\ (forall k, k <> dataKey (name format) -> getOpt body' k = getOpt body k)
          /\ textInjected (name format) text u u').
  { intros before after u E Hu Hafter.
    pose proof Hdata as Hd. rewrite E in Hd.
    destruct (storeData_observed format body data
                (before ++ withInjectedText (name format) text u :: after) Hf Hdata)
      as [Hget Hother].
    exists (storeData body (dataKey (name format))
              (before ++ withInjectedText (name format) text u :: after)),
           (withInjectedText (name format) text u).
    split; [now apply inject_updates_last_user_turn|].
    split; [exact Hget|]. split; [exact Hother|].
    now apply withInjectedText_textInjected. }
  split; [|split; [exact Hlast|]].
  - intros Hnone. unfold injectIntoLastUserMessage. rewrite Hdata; simpl.
    rewrite scanFrom_none; [reflexivity | now apply injectItem_not_user].
  - intros u a t E -> Hu Ha Ht. subst format.
    apply (Hlast [] [a; t] u eq_refl).
    + unfold userTurn; simpl. now rewrite Hu.
    + repeat constructor;
        try (unfold userTurn; simpl; rewrite ?Ha, ?Ht; reflexivity);
        [destruct a | destruct t]; simpl in *; try reflexivity; discriminate.
Qed.

(** A Chat body with the turns [user, assistant, tool]: the text goes into
    the user turn, after a blank line; the turn keeps its role, the other
    turns and the model stay. *)
Lemma injectIntoLastUserMessage_targets_last_user_turn_witness :
  exists body' u',
    injectIntoLastUserMessage chatBody openaiChatFormat "be brief" = Ok (body', true)
    /\ getDataArray openaiChatFormat body'
       = Ok (VArr [u'; chatAssistantTurn; chatToolTurn])
    /\ getOpt body' "model" = VStr "gpt"
    /\ getOpt u' "content" = VStr ("list the files" ++ newline ++ newline ++ "be brief")
    /\ getOpt u' "role" = VStr "user".
Proof.
  destruct (proj2 (proj2
              (injectIntoLastUserMessage_targets_last_user_turn openaiChatFormat chatBody
                 [chatUserTurn; chatAssistantTurn; chatToolTurn]
                 "be brief" (or_intror (or_intror (or_introl eq_refl))) eq_refl))
              chatUserTurn chatAssistantTurn chatToolTurn
              eq_refl eq_refl eq_refl eq_refl eq_refl)
    as (body' & u' & Hcall & Hdata & Hbody & Hstr & _ & _ & Hkeys).
  exists body', u'.
  split; [exact Hcall|]. split; [exact Hdata|].
  split; [apply (Hbody "model"); discriminate|].
  split; [exact (Hstr "list the files" eq_refl)|].
  apply (Hkeys "role"); discriminate.
Defined.

Example inject_chat_example :
  injectIntoLastUserMessage
    (VObj [("messages",
            VArr [VObj [("role", VStr "user"); ("content", VStr "hi")];
                  VObj [("role", VStr "assistant"); ("content", VStr "yes")];
                  VObj [("role", VStr "tool"); ("tool_call_id", VStr "c1")]])])
    openaiChatFormat "more"
  = Ok (VObj [("messages",
               VArr [VObj [("role", VStr "user");
                           ("content", VStr ("hi" ++ newline ++ newline ++ "more"))];
                     VObj [("role", VStr "assistant"); ("content", VStr "yes")];
                     VObj [("role", VStr "tool"); ("tool_call_id", VStr "c1")]])],
        true).
Proof. reflexivity. Qed.

(* ================================================================== *)
(** * Appending a user turn *)

Lemma newTurn_userTurn (format : FormatDescriptor) (text : string) :
  In format formats ->
  exists turn,
    Append.newTurn (name format) text = Some turn
    /\ userTurn (name format) turn = true.
Proof.
  intros Hf.
  destruct (name_in_formats _ Hf) as [-> | [-> | [-> | ->]]]; simpl;
    eexists; split; reflexivity.
Qed.

(** C8. For each of the four formats and every body whose turn array is an
    array, [appendUserMessage] returns [true] and appends one turn; the
    format's own user-turn test holds of that turn; and an
    [injectIntoLastUserMessage] on the resulting body returns [true] and
    updates the appended, now last, turn, leaving the earlier turns as
    they were. *)
Theorem appendUserMessage_then_inject
        (format : FormatDescriptor) (body : value) (data : list value)
        (text text2 : string) :
  In format formats ->
  getDataArray format body = Ok (VArr data) ->
  exists turn,
    Append.newTurn (name format) text = Some turn
    /\ userTurn (name format) turn = true
    /\ appendUserMessage body format text
       = Ok (storeData body (dataKey (name format)) (data ++ [turn]), true)
    /\ getDataArray format (storeData body (dataKey (name format)) (data ++ [turn]))
       = Ok (VArr (data ++ [turn]))
    /\ injectIntoLastUserMessage
         (storeData body (dataKey (name format)) (data ++ [turn])) format text2
       = Ok (storeData body (dataKey (name format))
               (data ++ [withInjectedText (name format) text2 turn]), true).
Proof.
  intros Hf Hdata.
  destruct (newTurn_userTurn format text Hf) as (turn & Hnew & Huser).
  exists turn. split; [exact Hnew | split; [exact Huser | split; [|split]]].
  - unfold appendUserMessage. rewrite Hdata; simpl. now rewrite Hnew.
  - now apply getDataArray_storeData with data.
  - pose proof (getDataArray_storeData format body data (data ++ [turn]) Hf Hdata) as Hd'.
    rewrite (inject_updates_last_user_turn format _ text2 data [] turn Hf Hd' Huser
               (Forall_nil _)).
    now rewrite storeData_storeData.
Qed.

(** A Gemini body: the appended turn takes the injected part. *)
Lemma appendUserMessage_then_inject_witness :
  exists turn,
    Append.newTurn "gemini" "continue" = Some turn
    /\ userTurn "gemini" turn = true
    /\ appendUserMessage (VObj [("contents", VArr readWriteReadContents)]) geminiFormat
         "continue"
       = Ok (storeData (VObj [("contents", VArr readWriteReadContents)]) "contents"
               (readWriteReadContents ++ [turn]), true)
    /\ getDataArray geminiFormat
         (storeData (VObj [("contents", VArr readWriteReadContents)]) "contents"
            (readWriteReadContents ++ [turn]))
       = Ok (VArr (readWriteReadContents ++ [turn]))
    /\ injectIntoLastUserMessage
         (storeData (VObj [("contents", VArr readWriteReadContents)]) "contents"
            (readWriteReadContents ++ [turn])) geminiFormat "be brief"
       = Ok (storeData (VObj [("contents", VArr readWriteReadContents)]) "contents"
               (readWriteReadContents ++ [withInjectedText "gemini" "be brief" turn]),
             true).
Proof.
  exact (appendUserMessage_then_inject geminiFormat
           (VObj [("contents", VArr readWriteReadContents)]) readWriteReadContents
           "continue" "be brief"
           (or_intror (or_intror (or_intror (or_introl eq_refl)))) eq_refl).
Defined.

Example append_then_inject_gemini :
  (r <- appendUserMessage (VObj [("contents", VArr [])]) geminiFormat "continue" ;;
   injectIntoLastUserMessage (fst r) geminiFormat "be brief")
  = Ok (VObj [("contents",
               VArr [VObj [("role", VStr "user");
                           ("parts", VArr [VObj [("text", VStr "continue")];
                                           VObj [("text", VStr "be brief")]])]])],
        true).
Proof. reflexivity. Qed.

(* ================================================================== *)
(** * The frame of a replacement *)

Lemma changedOnly_refl (R : value -> value -> Prop) (xs : list value) :
  changedOnly R xs xs.
Proof.
  induction xs; constructor; auto.
Qed.

Lemma changedOnly_app (R : value -> value -> Prop) (xs xs' ys ys' : list value) :
  changedOnly R xs xs' -> changedOnly R ys ys' -> changedOnly R (xs ++ ys) (xs' ++ ys').
Proof.
  apply Forall2_app.
Qed.

Lemma changedOnlyAfter_refl (visited : value -> list value)
      (R : list value -> value -> value -> Prop) (xs earlier : list value) :
  changedOnlyAfter visited R earlier xs xs.
Proof.
  revert earlier; induction xs; constructor; auto.
Qed.

Lemma assignLoop_changedOnly {S : Type} (step : S -> value -> result (S * option value))
      (R : value -> value -> Prop) :
  (forall s x s' x', step s x = Ok (s', Some x') -> R x x') ->
  forall data s b, changedOnly R data (fst (assignLoop step s b data)).
Proof.
  intros Hstep data; induction data as [|x data IH]; intros s b; simpl.
  - constructor.
  - destruct (step s x) as [[s' [x'|]]|e] eqn:E.
    + specialize (IH s' true). destruct (assignLoop step s' true data); simpl in *.
      constructor; [right; eapply Hstep; eauto | exact IH].
    + specialize (IH s' b). destruct (assignLoop step s' b data); simpl in *.
      constructor; [now left | exact IH].
    + simpl. apply changedOnly_refl.
Qed.

Lemma assignLoop_changedOnlyAfter {S : Type}
      (step : S -> value -> result (S * option value))
      (visited : value -> list value) (R : list value -> value -> value -> Prop)
      (I : S -> list value -> Prop) :
  (forall s earlier x s' o,
     I s earlier -> step s x = Ok (s', o) ->
     I s' (earlier ++ visited x)%list /\ forall x', o = Some x' -> R earlier x x') ->
  forall data s b earlier,
    I s earlier ->
    changedOnlyAfter visited R earlier data (fst (assignLoop step s b data)).
Proof.
  intros Hstep data; induction data as [|x data IH]; intros s b earlier HI; simpl.
  - constructor.
  - destruct (step s x) as [[s' o]|e] eqn:E.
    + destruct (Hstep _ _ _ _ _ HI E) as [HI' HR].
      destruct o as [x'|].
      * specialize (IH s' true _ HI'). destruct (assignLoop step s' true data); simpl in *.
        constructor; [right; now apply HR | exact IH].
      * specialize (IH s' b _ HI'). destruct (assignLoop step s' b data); simpl in *.
        constructor; [now left | exact IH].
    + simpl. apply changedOnlyAfter_refl.
Qed.

Lemma idMatches_true (tl : string) (v : value) :
  Replace.idMatches tl v = Ok true -> exists s, v = VStr s /\ toLowerCase s = tl.
Proof.
  unfold Replace.idMatches. destruct v; simpl; intros H; try discriminate.
  exists s. split; [reflexivity|]. inv_ok H. now apply String.eqb_eq.
Qed.

Section FrameProofs.
Variable toolId : string.
Variable newContent : string.

Let tl := toLowerCase toolId.

Lemma idMatches_sameId (v : value) :
  Replace.idMatches tl v = Ok true -> sameId toolId v.
Proof.
  intros H. destruct (idMatches_true _ _ H) as (s & -> & Hs). now exists s.
Qed.

(** *** openai-chat *)

Lemma chatPart_frame (np np' : list value) (m m' : bool) (part : value) :
  Replace.chatPart tl newContent (np, m) part = Ok (np', m') ->
  exists p', np' = (np ++ [p'])%list
             /\ (p' = part \/ chatPartRewritten toolId newContent part p').
Proof.
  unfold Replace.chatPart; intros H.
  inv_bind H. destruct (eqStr v "tool_result") eqn:Ety.
  - inv_bind H. inv_bind H. destruct v1; inv_ok H; eexists; split; try reflexivity; auto.
    right. unfold chatPartRewritten.
    rewrite (get_getOpt _ _ _ E), (get_getOpt _ _ _ E0).
    repeat split; auto. now apply idMatches_sameId.
  - inv_ok H. eexists; split; [reflexivity | now left].
Qed.

Lemma chatParts_frame (parts np np' : list value) (m m' : bool) :
  forOf parts (np, m) (Replace.chatPart tl newContent) = Ok (np', m') ->
  exists ps', np' = (np ++ ps')%list
              /\ changedOnly (chatPartRewritten toolId newContent) parts ps'.
Proof.
  revert np m; induction parts as [|p parts IH]; simpl; intros np m H.
  - inv_ok H. exists []. split; [now rewrite app_nil_r | constructor].
  - inv_bind H. destruct v as [np1 m1].
    apply chatPart_frame in E. destruct E as (p' & -> & Hp).
    apply IH in H. destruct H as (ps' & -> & Hps).
    exists (p' :: ps'). split; [now rewrite <- app_assoc | now constructor].
Qed.

Lemma chatStep_frame (s s' : unit) (m m' : value) :
  Replace.chatStep tl newContent s m = Ok (s', Some m') ->
  chatTurnRewritten toolId newContent m m'.
Proof.
  unfold Replace.chatStep; intros H.
  inv_bind H. inv_bind H. inv_ok H.
  destruct v0 as [x|].
  - (* the Anthropic shape *)
    match goal with H : _ = Some m' |- _ => inv_ok H end.
    unfold Replace.chatAnthropic in E0. inv_bind E0.
    destruct (eqStr v0 "user") eqn:Er; [|discriminate].
    inv_bind E0. destruct v1; try discriminate.
    inv_bind E0. destruct v1 as [newParts modified].
    destruct modified; inv_ok E0.
    apply chatParts_frame in E3. destruct E3 as (ps' & -> & Hps).
    right. rewrite (get_getOpt _ _ _ E1), (get_getOpt _ _ _ E2).
    split; [exact Er|]. exists items, ps'. simpl. auto.
  - (* the native shape *)
    match goal with H : _ = Some m' |- _ => rename H into Hv end. subst v.
    unfold Replace.chatNative in E. inv_bind E.
    destruct (eqStr v "tool") eqn:Er; [|discriminate].
    inv_bind E. inv_bind E. destruct v1; inv_ok E.
    left. rewrite (get_getOpt _ _ _ E1), (get_getOpt _ _ _ E2).
    repeat split; auto. now apply idMatches_sameId.
Qed.

(** *** openai-responses *)

Lemma responsesStep_frame (s s' : unit) (item item' : value) :
  Replace.responsesStep tl newContent s item = Ok (s', Some item') ->
  responsesItemRewritten toolId newContent item item'.
Proof.
  unfold Replace.responsesStep; intros H.
  inv_bind H. destruct (eqStr v "function_call_output") eqn:Ety; [|discriminate].
  inv_bind H. inv_bind H. destruct v1; inv_ok H.
  unfold responsesItemRewritten.
  rewrite (get_getOpt _ _ _ E), (get_getOpt _ _ _ E0).
  repeat split; auto. now apply idMatches_sameId.
Qed.

(** *** bedrock *)

Lemma bedrockBlock_frame (np np' : list value) (m m' : bool) (block : value) :
  Replace.bedrockBlock tl newContent (np, m) block = Ok (np', m') ->
  exists b', np' = (np ++ [b'])%list
             /\ (b' = block \/ bedrockBlockRewritten toolId newContent block b').
Proof.
  unfold Replace.bedrockBlock; intros H.
  inv_bind H. destruct (truthy v) eqn:Etr.
  - inv_bind H. inv_bind H. destruct v1; inv_ok H; eexists; split; try reflexivity; auto.
    right. unfold bedrockBlockRewritten.
    rewrite (get_getOpt _ _ _ E), (get_getOpt _ _ _ E0).
    repeat split; auto. now apply idMatches_sameId.
  - inv_ok H. eexists; split; [reflexivity | now left].
Qed.

Lemma bedrockBlocks_frame (blocks np np' : list value) (m m' : bool) :
  forOf blocks (np, m) (Replace.bedrockBlock tl newContent) = Ok (np', m') ->
  exists bs', np' = (np ++ bs')%list
              /\ changedOnly (bedrockBlockRewritten toolId newContent) blocks bs'.
Proof.
  revert np m; induction blocks as [|b blocks IH]; simpl; intros np m H.
  - inv_ok H. exists []. split; [now rewrite app_nil_r | constructor].
  - inv_bind H. destruct v as [np1 m1].
    apply bedrockBlock_frame in E. destruct E as (b' & -> & Hb).
    apply IH in H. destruct H as (bs' & -> & Hbs).
    exists (b' :: bs'). split; [now rewrite <- app_assoc | now constructor].
Qed.

Lemma bedrockStep_frame (s s' : unit) (m m' : value) :
  Replace.bedrockStep tl newContent s m = Ok (s', Some m') ->
  bedrockTurnRewritten toolId newContent m m'.
Proof.
  unfold Replace.bedrockStep; intros H.
  inv_bind H. destruct (eqStr v "user") eqn:Er; [|discriminate].
  inv_bind H. destruct v0; try discriminate.
  inv_bind H. destruct v0 as [newBlocks modified].
  destruct modified; inv_ok H.
  apply bedrockBlocks_frame in E1. destruct E1 as (bs' & -> & Hbs).
  unfold bedrockTurnRewritten.
  rewrite (get_getOpt _ _ _ E), (get_getOpt _ _ _ E0).
  split; [exact Er|]. exists items, bs'. simpl. auto.
Qed.

End FrameProofs.

(** *** gemini *)

Lemma occurrencesBefore_snoc (fn : string) (earlier : list value) (p : value) :
  occurrencesBefore fn (earlier ++ [p])
  = occurrencesBefore fn earlier
    + (if isFunctionResponse p && eqStr (partToolName p) fn then 1 else 0).
Proof.
  unfold occurrencesBefore. rewrite filter_app, length_app. simpl.
  destruct (isFunctionResponse p && eqStr (partToolName p) fn); reflexivity.
Qed.

Lemma countersAgree_skip (counters : JSMap.t nat) (earlier : list value) (p : value) :
  countersAgree counters earlier ->
  (forall fn, fn <> "" -> isFunctionResponse p && eqStr (partToolName p) fn = false) ->
  countersAgree counters (earlier ++ [p]).
Proof.
  intros HI Hp fn Hfn. rewrite occurrencesBefore_snoc, (Hp fn Hfn), Nat.add_0_r.
  now apply HI.
Qed.

Lemma countersAgree_count (counters : JSMap.t nat) (earlier : list value)
      (p : value) (fn : string) :
  countersAgree counters earlier ->
  fn <> "" ->
  isFunctionResponse p = true ->
  partToolName p = VStr fn ->
  countersAgree (JSMap.set fn (Gemini.counterOf counters fn + 1) counters)
                (earlier ++ [p]).
Proof.
  intros HI Hfn Hfr Hname fn' Hfn'.
  rewrite occurrencesBefore_snoc, Hfr, Hname. simpl.
  unfold Gemini.counterOf at 1.
  destruct (String.eqb fn fn') eqn:E.
  - apply String.eqb_eq in E; subst fn'.
    rewrite JSMap_get_set_same. now rewrite (HI fn Hfn).
  - apply String.eqb_neq in E.
    rewrite JSMap_get_set_other by congruence.
    rewrite Nat.add_0_r. now apply HI.
Qed.

Section GeminiFrame.
Variable toolId : string.
Variable newContent : string.
Variable table : JSMap.t string.

Let tl := toLowerCase toolId.

Lemma geminiPart_frame (np np' : list value) (cm cm' : bool)
      (counters counters' : JSMap.t nat) (earlier : list value) (part : value) :
  countersAgree counters earlier ->
  Replace.geminiPart tl newContent table (np, cm, counters) part = Ok (np', cm', counters') ->
  countersAgree counters' (earlier ++ [part])
  /\ exists p', np' = (np ++ [p'])%list
                /\ (p' = part \/ geminiPartRewritten toolId newContent table earlier part p').
Proof.
  intros HI H. unfold Replace.geminiPart in H.
  bind_inv H fr Efr.
  pose proof (get_getOpt _ _ _ Efr) as Hfr.
  assert (HisFR : truthy fr = isFunctionResponse part)
    by (unfold isFunctionResponse; now rewrite Hfr).
  destruct (truthy fr) eqn:Tfr.
  - bind_inv H name0 Ename. bind_inv H funcName Elow.
    pose proof (optToLowerCase_partToolName _ _ _ _ Efr Ename Elow) as Hname.
    destruct funcName as [| | | |fn| |];
      try (inv_ok H; split;
           [apply countersAgree_skip; auto; intros fn' _;
            rewrite <- Hname; simpl; apply andb_false_r
           | eexists; split; [reflexivity | now left]]).
    destruct (truthy (VStr fn)) eqn:Tfn.
    + assert (Hfn : fn <> "").
      { simpl in Tfn. intros ->. discriminate. }
      assert (HI' : countersAgree
                      (JSMap.set fn (Gemini.counterOf counters fn + 1) counters)
                      (earlier ++ [part]))
        by (apply countersAgree_count; auto).
      destruct (optToLowerCase_cases _ _ Elow) as [Hu | (n & Hn & Hl)]; [discriminate|].
      injection Hl as Hl.
      destruct (JSMap.get (Gemini.positionKey fn (Gemini.counterOf counters fn)) table)
        as [s|] eqn:Eget.
      * destruct (String.eqb (toLowerCase s) tl) eqn:Ehit; inv_ok H;
          (split; [exact HI'|]); eexists; (split; [reflexivity|]); [right | now left].
        unfold geminiPartRewritten. split; [now symmetry|].
        exists n, s. rewrite (get_getOpt _ _ _ Ename).
        rewrite <- (HI (toLowerCase n)) by assumption.
        repeat split; auto. now apply String.eqb_eq.
      * inv_ok H. split; [exact HI'|]. eexists; split; [reflexivity | now left].
    + inv_ok H. split.
      * apply countersAgree_skip; auto. intros fn' Hfn'.
        rewrite <- Hname. simpl. simpl in Tfn.
        destruct (String.eqb fn "") eqn:E2; [|discriminate].
        apply String.eqb_eq in E2; subst fn.
        apply String.eqb_neq in Hfn'. rewrite String.eqb_sym, Hfn'. apply andb_false_r.
      * eexists; split; [reflexivity | now left].
  - inv_ok H. split.
    + apply countersAgree_skip; auto. intros fn' _.
      now rewrite <- HisFR.
    + eexists; split; [reflexivity | now left].
Qed.

Lemma geminiParts_frame (ps np np' : list value) (cm cm' : bool)
      (counters counters' : JSMap.t nat) (earlier : list value) :
  countersAgree counters earlier ->
  forOf ps (np, cm, counters) (Replace.geminiPart tl newContent table)
  = Ok (np', cm', counters') ->
  countersAgree counters' (earlier ++ ps)
  /\ exists ps', np' = (np ++ ps')%list
                 /\ changedOnlyAfter (fun p => [p])
                      (geminiPartRewritten toolId newContent table) earlier ps ps'.
Proof.
  revert np cm counters earlier; induction ps as [|p ps IH]; simpl;
    intros np cm counters earlier HI H.
  - inv_ok H. rewrite !app_nil_r. split; [exact HI|].
    exists []. split; [now rewrite app_nil_r | constructor].
  - inv_bind H. destruct v as [[np1 cm1] cs1].
    destruct (geminiPart_frame _ _ _ _ _ _ _ _ HI E) as (HI1 & p' & -> & Hp).
    destruct (IH _ _ _ _ HI1 H) as (HI2 & ps' & -> & Hps).
    rewrite <- app_assoc in HI2. simpl in HI2.
    split; [exact HI2|].
    exists (p' :: ps'). split; [now rewrite <- app_assoc | now constructor].
Qed.

Lemma geminiStep_frame (counters counters' : JSMap.t nat) (earlier : list value)
      (c : value) (o : option value) :
  countersAgree counters earlier ->
  Replace.geminiStep tl newContent table counters c = Ok (counters', o) ->
  countersAgree counters' (earlier ++ turnParts c)
  /\ forall c', o = Some c' -> geminiTurnRewritten toolId newContent table earlier c c'.
Proof.
  intros HI H. unfold Replace.geminiStep in H.
  inv_bind H. unfold turnParts. rewrite (get_getOpt _ _ _ E).
  destruct v; try (inv_ok H; rewrite app_nil_r; split; [exact HI | discriminate]).
  inv_bind H. destruct v as [[newParts cm] cs].
  destruct (geminiParts_frame _ _ _ _ _ _ _ _ HI E0) as (HI' & ps' & Hnp & Hps).
  simpl in Hnp. subst newParts.
  destruct cm; inv_ok H; (split; [exact HI'|]); [|discriminate].
  intros c' Hc'. inv_ok Hc'. exists items, ps'.
  rewrite (get_getOpt _ _ _ E). auto.
Qed.

End GeminiFrame.

(** The body after a replacement is the body with its turn array
    rewritten within the frame of the format. *)
Lemma replaceToolOutput_body (format : FormatDescriptor) (body : value)
      (toolId newContent : string) (state : PluginState) (data : list value) :
  In format formats ->
  getDataArray format body = Ok (VArr data) ->
  exists data',
    fst (replaceToolOutput body format toolId newContent state)
    = storeData body (dataKey (name format)) data'
    /\ replacementFrame toolId newContent (name format) state data data'.
Proof.
  intros Hf Hd. pose proof (storeData_same format body data Hf Hd) as Hsame.
  unfold replaceToolOutput. rewrite Hd. simpl.
  destruct (name_in_formats _ Hf) as [-> | [-> | [-> | ->]]];
    cbv [dataKey name openaiResponsesFormat bedrockFormat openaiChatFormat
         geminiFormat] in Hsame;
    simpl in *.
  - pose proof (assignLoop_changedOnly _ _
                  (fun s x s' x' => responsesStep_frame toolId newContent s s' x x')
                  data tt false) as Hfr.
    destruct (assignLoop _ tt false data) as [data' r]; simpl in *.
    exists data'. auto.
  - pose proof (assignLoop_changedOnly _ _
                  (fun s x s' x' => bedrockStep_frame toolId newContent s s' x x')
                  data tt false) as Hfr.
    destruct (assignLoop _ tt false data) as [data' r]; simpl in *.
    exists data'. auto.
  - pose proof (assignLoop_changedOnly _ _
                  (fun s x s' x' => chatStep_frame toolId newContent s s' x x')
                  data tt false) as Hfr.
    destruct (assignLoop _ tt false data) as [data' r]; simpl in *.
    exists data'. auto.
  - unfold replacementFrame; simpl.
    destruct (Gemini.findPositionMapping (googleToolCallMapping state)) as [t|];
      [|exists data; split; [symmetry; exact Hsame | reflexivity]].
    pose proof (assignLoop_changedOnlyAfter
                  (Replace.geminiStep (toLowerCase toolId) newContent t)
                  turnParts (geminiTurnRewritten toolId newContent t) countersAgree
                  (fun s earlier x s' o HI H =>
                     geminiStep_frame toolId newContent t s s' earlier x o HI H)
                  data JSMap.empty false []) as Hfr.
    destruct (assignLoop _ JSMap.empty false data) as [data' r]; simpl in *.
    exists data'. split; [reflexivity|].
    apply Hfr. intros fn _. reflexivity.
Qed.

Lemma replacementFrame_length (format : FormatDescriptor) (toolId newContent : string)
      (state : PluginState) (data data' : list value) :
  In format formats ->
  replacementFrame toolId newContent (name format) state data data' ->
  length data' = length data.
Proof.
  intros Hf Hframe. unfold replacementFrame in Hframe.
  destruct (name_in_formats _ Hf) as [-> | [-> | [-> | ->]]]; simpl in Hframe;
    try (symmetry; eapply Forall2_length; exact Hframe).
  destruct (Gemini.findPositionMapping (googleToolCallMapping state)); [|now subst].
  clear -Hframe. induction Hframe; simpl; auto.
Qed.

(** C7. On a body whose turn array is an array, [replaceToolOutput]
    rewrites that array within the frame of the format and touches nothing
    else: the array keeps its length; a turn is kept, or it is a turn (or
    holds a part) whose identifier equals the given id up to case and only
    its tool-result content is replaced (Chat: the [content] of the [tool]
    turn or of the [tool_result] part; Responses: the [output] of the
    [function_call_output] item; Gemini: the [response] of the
    function-response part the table maps, by tool name and occurrence
    index, to the id; Bedrock: the [toolResult.content], replaced by one
    text block); every top-level field of the body other than the turn
    array keeps its value.  This holds as well of the body a call that
    raises leaves behind.  A body without a turn array, or on which
    reading it raises, is left as it is. *)
Theorem replaceToolOutput_frame
        (format : FormatDescriptor) (body : value) (toolId newContent : string)
        (state : PluginState) :
  In format formats ->
  (forall data,
     getDataArray format body = Ok (VArr data) ->
     (exists data',
        fst (replaceToolOutput body format toolId newContent state)
        = storeData body (dataKey (name format)) data'
        /\ length data' = length data
        /\ replacementFrame toolId newContent (name format) state data data')
     /\ forall k, k <> dataKey (name format) ->
          getOpt (fst (replaceToolOutput body format toolId newContent state)) k
          = getOpt body k)
  /\ (forall d, getDataArray format body = Ok d -> truthy d = false ->
        fst (replaceToolOutput body format toolId newContent state) = body)
  /\ (forall e, getDataArray format body = Throw e ->
        fst (replaceToolOutput body format toolId newContent state) = body).
Proof.
  intros Hf. split; [|split].
  - intros data Hd.
    destruct (replaceToolOutput_body format body toolId newContent state data Hf Hd)
      as (data' & Hbody & Hframe).
    split.
    + exists data'. repeat split; auto.
      now apply replacementFrame_length with format toolId newContent state.
    + intros k Hk. rewrite Hbody. unfold storeData.
      now apply getOpt_spreadSet_other.
  - intros d Hd Hfalsy. unfold replaceToolOutput. now rewrite Hd, Hfalsy.
  - intros e Hd. unfold replaceToolOutput. now rewrite Hd.
Qed.

(** Replacing the output of [call_1] in the Chat body: the [model] field
    keeps its value. *)
Lemma replaceToolOutput_frame_witness :
  getOpt (fst (replaceToolOutput chatBody openaiChatFormat "CALL_1" "pruned"
                 createPluginState)) "model"
  = getOpt chatBody "model".
Proof.
  refine (proj2 (proj1 (replaceToolOutput_frame openaiChatFormat chatBody "CALL_1"
                          "pruned" createPluginState
                          (or_intror (or_intror (or_introl eq_refl))))
                   [chatUserTurn; chatAssistantTurn; chatToolTurn] eq_refl)
            "model" _).
  discriminate.
Defined.

Example replace_chat_example :
  replaceToolOutput chatBody openaiChatFormat "CALL_1" "pruned" createPluginState
  = (VObj [("model", VStr "gpt");
           ("messages",
            VArr [chatUserTurn; chatAssistantTurn;
                  VObj [("role", VStr "tool"); ("tool_call_id", VStr "Call_1");
                        ("content", VStr "pruned")]])],
     Ok true).
Proof. reflexivity. Qed.

Example replace_gemini_example :
  replaceToolOutput (VObj [("contents", VArr readWriteReadContents)]) geminiFormat
    "ID3" "pruned"
    (stateWith [("ses_a", [("read:0", "id1"); ("read:1", "id3"); ("write:0", "id2")])]
               (Some "ses_a"))
  = (VObj [("contents",
            VArr [VObj [("role", VStr "user"); ("parts", VArr [VObj [("text", VStr "go")]])];
                  VObj [("role", VStr "user");
                        ("parts", VArr [functionResponsePart "read";
                                        functionResponsePart "write"])];
                  VObj [("role", VStr "user");
                        ("parts",
                         VArr [VObj [("functionResponse",
                                      VObj [("name", VStr "read");
                                            ("response",
                                             VObj [("name", VStr "read");
                                                   ("content", VStr "pruned")])])]])]])],
     Ok true).
Proof. reflexivity. Qed.

Example replace_bedrock_example :
  replaceToolOutput
    (VObj [("system", VArr []); ("inferenceConfig", VObj []);
           ("messages",
            VArr [VObj [("role", VStr "user");
                        ("content",
                         VArr [VObj [("toolResult",
                                      VObj [("toolUseId", VStr "TU_1");
                                            ("content", VArr [VObj [("text", VStr "a")];
                                                              VObj [("text", VStr "b")]])])];
                               VObj [("text", VStr "next")]])]])])
    bedrockFormat "tu_1" "pruned" createPluginState
  = (VObj [("system", VArr []); ("inferenceConfig", VObj []);
           ("messages",
            VArr [VObj [("role", VStr "user");
                        ("content",
                         VArr [VObj [("toolResult",
                                      VObj [("toolUseId", VStr "TU_1");
                                            ("content",
                                             VArr [VObj [("text", VStr "pruned")]])])];
                               VObj [("text", VStr "next")]])]])],
     Ok true).
Proof. reflexivity. Qed.

(* ================================================================== *)
(** * Replacing an identifier no extracted output carries *)

Lemma grows_refl (outs : list ToolOutput) : grows outs outs.
Proof. exists []. now rewrite app_nil_r. Qed.

Lemma grows_push (outs : list ToolOutput) (o : ToolOutput) : grows outs (push outs o).
Proof. now exists [o]. Qed.

Lemma grows_trans (a b c : list ToolOutput) : grows a b -> grows b c -> grows a c.
Proof.
  intros [x ->] [y ->]. exists (x ++ y)%list. now rewrite app_assoc.
Qed.

Lemma grows_In (a b : list ToolOutput) (i : string) :
  grows a b -> In i (map id a) -> In i (map id b).
Proof.
  intros [x ->] H. rewrite map_app. apply in_or_app. now left.
Qed.

Lemma In_push_id (outs : list ToolOutput) (o : ToolOutput) :
  In (id o) (map id (push outs o)).
Proof.
  unfold push. rewrite map_app. apply in_or_app. right. now left.
Qed.

Lemma forOf_grows {A : Type} (body : list ToolOutput -> A -> result (list ToolOutput)) :
  (forall s x s', body s x = Ok s' -> grows s s') ->
  forall xs acc r, forOf xs acc body = Ok r -> grows acc r.
Proof.
  intros Hstep xs acc r H.
  apply (forOf_invariant (fun s => grows acc s) body) with xs acc; auto.
  - intros s x s' Hs Hb. eapply grows_trans; eauto.
  - apply grows_refl.
Qed.

(** An identifier that matches the non-empty [tl] is a non-empty string
    whose lower-casing is [tl]. *)
Lemma idMatches_truthy (tl : string) (v : value) :
  tl <> "" ->
  Replace.idMatches tl v = Ok true ->
  truthy v = true /\ callToLowerCase v = Ok tl.
Proof.
  intros Hne H. destruct (idMatches_true _ _ H) as (s & -> & Hs).
  simpl. split; [|now rewrite Hs].
  destruct s; [simpl in Hs; congruence | reflexivity].
Qed.

Lemma assignLoop_no_hit {S : Type} (step : S -> value -> result (S * option value))
      (ext : list ToolOutput -> value -> result (list ToolOutput)) (tl : string) :
  (forall a x a', ext a x = Ok a' -> grows a a') ->
  (forall a x a' s s' x',
     ext a x = Ok a' -> step s x = Ok (s', Some x') -> In tl (map id a')) ->
  forall data acc outs s b,
    forOf data acc ext = Ok outs ->
    ~ In tl (map id outs) ->
    fst (assignLoop step s b data) = data
    /\ (snd (assignLoop step s b data) = Ok b
        \/ exists e, snd (assignLoop step s b data) = Throw e).
Proof.
  intros Hmono Hhit data; induction data as [|x data IH]; intros acc outs s b H Hnot.
  - simpl. auto.
  - simpl in H. bind_inv H acc1 E1.
    assert (Hg : grows acc1 outs) by (eapply forOf_grows; eauto).
    simpl. destruct (step s x) as [[s' [x'|]]|e] eqn:Es.
    + exfalso. apply Hnot. eapply grows_In; [exact Hg|]. eapply Hhit; eauto.
    + destruct (IH acc1 outs s' b H Hnot) as [Hd Hr].
      destruct (assignLoop step s' b data) as [ys r]; simpl in *. subst ys. auto.
    + simpl. eauto.
Qed.

Section NoHit.
Variable tl : string.
Variable newContent : string.
Hypothesis tl_nonempty : tl <> "".

(** *** openai-chat *)

Lemma chat_extractPart_grows outs part outs' :
  OpenaiChat.extractPart outs part = Ok outs' -> grows outs outs'.
Proof.
  unfold OpenaiChat.extractPart; intros H.
  bind_inv H ty Ety. destruct (eqStr ty "tool_result"); [|inv_ok H; apply grows_refl].
  bind_inv H i0 Eid. destruct (truthy i0); [|inv_ok H; apply grows_refl].
  bind_inv H i Ei. bind_inv H c Ec. inv_ok H. apply grows_push.
Qed.

Lemma chat_part_hit outs outs' np np' (m m' : bool) part :
  OpenaiChat.extractPart outs part = Ok outs' ->
  Replace.chatPart tl newContent (np, m) part = Ok (np', m') ->
  m' = m \/ In tl (map id outs').
Proof.
  unfold OpenaiChat.extractPart, Replace.chatPart; intros He Hr.
  bind_inv Hr ty Ety. rewrite Ety in He; simpl in He.
  destruct (eqStr ty "tool_result"); [|inv_ok Hr; now left].
  bind_inv Hr i0 Eid. rewrite Eid in He; simpl in He.
  bind_inv Hr hit Ehit. destruct hit; [|inv_ok Hr; now left].
  destruct (idMatches_truthy _ _ tl_nonempty Ehit) as [Ht Hl].
  rewrite Ht, Hl in He; simpl in He.
  bind_inv He c Ec. inv_ok He. right.
  apply (In_push_id outs {| id := tl; toolName := VUndefined;
                            content := stringOrStringify c |}).
Qed.

Lemma chat_parts_hit parts outs outs' np np' (m m' : bool) :
  forOf parts outs OpenaiChat.extractPart = Ok outs' ->
  forOf parts (np, m) (Replace.chatPart tl newContent) = Ok (np', m') ->
  m' = m \/ In tl (map id outs').
Proof.
  revert outs np m; induction parts as [|p parts IH]; simpl; intros outs np m He Hr.
  - inv_ok Hr. now left.
  - bind_inv He outs1 E1. bind_inv Hr acc1 R1. destruct acc1 as [np1 m1].
    destruct (IH _ _ _ He Hr) as [-> | Hin]; [|now right].
    destruct (chat_part_hit _ _ _ _ _ _ _ E1 R1) as [-> | Hin]; [now left | right].
    eapply grows_In; [|exact Hin].
    eapply forOf_grows; [|exact He]. apply chat_extractPart_grows.
Qed.

Lemma chat_extractTurn_grows outs m outs' :
  OpenaiChat.extractTurn outs m = Ok outs' -> grows outs outs'.
Proof.
  unfold OpenaiChat.extractTurn, OpenaiChat.extractNative, OpenaiChat.extractAnthropic.
  intros H. bind_inv H outs1 E1.
  assert (H1 : grows outs outs1).
  { bind_inv E1 role Er. destruct (eqStr role "tool"); [|inv_ok E1; apply grows_refl].
    bind_inv E1 i0 Eid. destruct (truthy i0); [|inv_ok E1; apply grows_refl].
    bind_inv E1 i Ei. bind_inv E1 n En. bind_inv E1 c Ec. inv_ok E1. apply grows_push. }
  apply grows_trans with outs1; [exact H1|].
  bind_inv H role Er. destruct (eqStr role "user"); [|inv_ok H; apply grows_refl].
  bind_inv H c Ec. destruct c; try (inv_ok H; apply grows_refl).
  eapply forOf_grows; [|exact H]. apply chat_extractPart_grows.
Qed.

Lemma chat_turn_hit outs m outs' (s s' : unit) m' :
  OpenaiChat.extractTurn outs m = Ok outs' ->
  Replace.chatStep tl newContent s m = Ok (s', Some m') ->
  In tl (map id outs').
Proof.
  unfold OpenaiChat.extractTurn, Replace.chatStep; intros He Hr.
  bind_inv He outs1 E1. bind_inv Hr a1 R1. bind_inv Hr a2 R2.
  destruct a2 as [x|]; inv_ok Hr.
  - clear R1.
    unfold OpenaiChat.extractAnthropic in He. unfold Replace.chatAnthropic in R2.
    bind_inv R2 role Er. rewrite Er in He; simpl in He.
    destruct (eqStr role "user"); [|discriminate].
    bind_inv R2 c Ec. rewrite Ec in He; simpl in He.
    destruct c; try discriminate.
    bind_inv R2 acc Eacc. destruct acc as [np modified].
    destruct modified; [|discriminate].
    destruct (chat_parts_hit _ _ _ _ _ _ _ He Eacc) as [Hm | Hin];
      [discriminate | exact Hin].
  - assert (Hg : grows outs1 outs').
    { clear -He. unfold OpenaiChat.extractAnthropic in He.
      bind_inv He role Er. destruct (eqStr role "user"); [|inv_ok He; apply grows_refl].
      bind_inv He c Ec. destruct c; try (inv_ok He; apply grows_refl).
      eapply forOf_grows; [|exact He]. apply chat_extractPart_grows. }
    eapply grows_In; [exact Hg|]. clear He R2 Hg.
    unfold OpenaiChat.extractNative in E1. unfold Replace.chatNative in R1.
    bind_inv R1 role Er. rewrite Er in E1; simpl in E1.
    destruct (eqStr role "tool"); [|discriminate].
    bind_inv R1 i0 Eid. rewrite Eid in E1; simpl in E1.
    bind_inv R1 hit Ehit. destruct hit; [|discriminate].
    destruct (idMatches_truthy _ _ tl_nonempty Ehit) as [Ht Hl].
    rewrite Ht, Hl in E1; simpl in E1.
    bind_inv E1 n En. bind_inv E1 c Ec. inv_ok E1.
    apply (In_push_id outs {| id := tl; toolName := n; content := stringOrStringify c |}).
Qed.

(** *** openai-responses *)

Lemma responses_extractItem_grows outs item outs' :
  OpenaiResponses.extractItem outs item = Ok outs' -> grows outs outs'.
Proof.
  unfold OpenaiResponses.extractItem; intros H.
  bind_inv H ty Ety. destruct (eqStr ty "function_call_output");
    [|inv_ok H; apply grows_refl].
  bind_inv H i0 Eid. destruct (truthy i0); [|inv_ok H; apply grows_refl].
  bind_inv H i Ei. bind_inv H n En. bind_inv H o Eo. inv_ok H. apply grows_push.
Qed.

Lemma responses_item_hit outs item outs' (s s' : unit) item' :
  OpenaiResponses.extractItem outs item = Ok outs' ->
  Replace.responsesStep tl newContent s item = Ok (s', Some item') ->
  In tl (map id outs').
Proof.
  unfold OpenaiResponses.extractItem, Replace.responsesStep; intros He Hr.
  bind_inv Hr ty Ety. rewrite Ety in He; simpl in He.
  destruct (eqStr ty "function_call_output"); [|discriminate].
  bind_inv Hr i0 Eid. rewrite Eid in He; simpl in He.
  bind_inv Hr hit Ehit. destruct hit; [|discriminate].
  destruct (idMatches_truthy _ _ tl_nonempty Ehit) as [Ht Hl].
  rewrite Ht, Hl in He; simpl in He.
  bind_inv He n En. bind_inv He o Eo. inv_ok He.
  apply (In_push_id outs {| id := tl; toolName := n; content := stringOrStringify o |}).
Qed.

(** *** bedrock *)

Lemma bedrock_extractBlock_grows outs block outs' :
  Bedrock.extractBlock outs block = Ok outs' -> grows outs outs'.
Proof.
  unfold Bedrock.extractBlock; intros H.
  bind_inv H tr Etr. destruct (truthy tr); [|inv_ok H; apply grows_refl].
  bind_inv H i0 Eid. destruct (truthy i0); [|inv_ok H; apply grows_refl].
  bind_inv H i Ei. bind_inv H c Ec. bind_inv H text Et. inv_ok H. apply grows_push.
Qed.

Lemma bedrock_block_hit outs outs' np np' (m m' : bool) block :
  Bedrock.extractBlock outs block = Ok outs' ->
  Replace.bedrockBlock tl newContent (np, m) block = Ok (np', m') ->
  m' = m \/ In tl (map id outs').
Proof.
  unfold Bedrock.extractBlock, Replace.bedrockBlock; intros He Hr.
  bind_inv Hr tr Etr. rewrite Etr in He; simpl in He.
  destruct (truthy tr); [|inv_ok Hr; now left].
  bind_inv Hr i0 Eid. rewrite Eid in He; simpl in He.
  bind_inv Hr hit Ehit. destruct hit; [|inv_ok Hr; now left].
  destruct (idMatches_truthy _ _ tl_nonempty Ehit) as [Ht Hl].
  rewrite Ht, Hl in He; simpl in He.
  bind_inv He c Ec. bind_inv He text Et. inv_ok He. right.
  apply (In_push_id outs {| id := tl; toolName := VUndefined; content := text |}).
Qed.

Lemma bedrock_blocks_hit blocks outs outs' np np' (m m' : bool) :
  forOf blocks outs Bedrock.extractBlock = Ok outs' ->
  forOf blocks (np, m) (Replace.bedrockBlock tl newContent) = Ok (np', m') ->
  m' = m \/ In tl (map id outs').
Proof.
  revert outs np m; induction blocks as [|b blocks IH]; simpl; intros outs np m He Hr.
  - inv_ok Hr. now left.
  - bind_inv He outs1 E1. bind_inv Hr acc1 R1. destruct acc1 as [np1 m1].
    destruct (IH _ _ _ He Hr) as [-> | Hin]; [|now right].
    destruct (bedrock_block_hit _ _ _ _ _ _ _ E1 R1) as [-> | Hin]; [now left | right].
    eapply grows_In; [|exact Hin].
    eapply forOf_grows; [|exact He]. apply bedrock_extractBlock_grows.
Qed.

Lemma bedrock_extractTurn_grows outs m outs' :
  Bedrock.extractTurn outs m = Ok outs' -> grows outs outs'.
Proof.
  unfold Bedrock.extractTurn; intros H.
  bind_inv H role Er. destruct (eqStr role "user"); [|inv_ok H; apply grows_refl].
  bind_inv H c Ec. destruct c; try (inv_ok H; apply grows_refl).
  eapply forOf_grows; [|exact H]. apply bedrock_extractBlock_grows.
Qed.

Lemma bedrock_turn_hit outs m outs' (s s' : unit) m' :
  Bedrock.extractTurn outs m = Ok outs' ->
  Replace.bedrockStep tl newContent s m = Ok (s', Some m') ->
  In tl (map id outs').
Proof.
  unfold Bedrock.extractTurn, Replace.bedrockStep; intros He Hr.
  bind_inv Hr role Er. rewrite Er in He; simpl in He.
  destruct (eqStr role "user"); [|discriminate].
  bind_inv Hr c Ec. rewrite Ec in He; simpl in He.
  destruct c; try discriminate.
  bind_inv Hr acc Eacc. destruct acc as [np modified].
  destruct modified; [|discriminate].
  destruct (bedrock_blocks_hit _ _ _ _ _ _ _ He Eacc) as [Hm | Hin];
    [discriminate | exact Hin].
Qed.

End NoHit.

(** *** gemini: the two walks keep the same counters *)

Section GeminiNoHit.
Variable tl : string.
Variable newContent : string.
Variable table : JSMap.t string.
Hypothesis tl_nonempty : tl <> "".

Lemma gemini_correlatedPart_grows acc part acc' :
  Gemini.correlatedPart table acc part = Ok acc' -> grows (fst acc) (fst acc').
Proof.
  destruct acc as [outs cs]. unfold Gemini.correlatedPart; intros H.
  bind_inv H fr Efr. destruct (truthy fr); [|inv_ok H; apply grows_refl].
  bind_inv H name0 En. bind_inv H funcName El.
  destruct funcName; try (inv_ok H; apply grows_refl).
  destruct (truthy (VStr s)); [|inv_ok H; apply grows_refl].
  bind_inv H response Er. inv_ok H. apply grows_push.
Qed.

Lemma gemini_correlatedParts_grows ps acc acc' :
  forOf ps acc (Gemini.correlatedPart table) = Ok acc' -> grows (fst acc) (fst acc').
Proof.
  intros H.
  apply (forOf_invariant (fun a => grows (fst acc) (fst a))
           (Gemini.correlatedPart table)) with ps acc; auto.
  - intros s x s' Hs Hb. eapply grows_trans; [exact Hs|].
    eapply gemini_correlatedPart_grows; eauto.
  - apply grows_refl.
Qed.

Lemma gemini_correlatedContent_grows acc c acc' :
  Gemini.correlatedContent table acc c = Ok acc' -> grows (fst acc) (fst acc').
Proof.
  unfold Gemini.correlatedContent; intros H.
  bind_inv H parts Ep. destruct parts; try (inv_ok H; apply grows_refl).
  eapply gemini_correlatedParts_grows; eauto.
Qed.

Lemma gemini_correlatedContents_grows data acc acc' :
  forOf data acc (Gemini.correlatedContent table) = Ok acc' -> grows (fst acc) (fst acc').
Proof.
  intros H.
  apply (forOf_invariant (fun a => grows (fst acc) (fst a))
           (Gemini.correlatedContent table)) with data acc; auto.
  - intros s x s' Hs Hb. eapply grows_trans; [exact Hs|].
    eapply gemini_correlatedContent_grows; eauto.
  - apply grows_refl.
Qed.

Lemma gemini_part_sync outs cs outs' cs' np (cm : bool) part :
  Gemini.correlatedPart table (outs, cs) part = Ok (outs', cs') ->
  ~ In tl (map id outs') ->
  Replace.geminiPart tl newContent table (np, cm, cs) part = Ok (push np part, cm, cs').
Proof.
  unfold Gemini.correlatedPart, Replace.geminiPart; intros He Hnot.
  bind_inv He fr Efr. rewrite Efr; simpl.
  destruct (truthy fr); [|now inv_ok He].
  bind_inv He name0 En. rewrite En; simpl.
  bind_inv He funcName El. rewrite El; simpl.
  destruct funcName as [| | | |fn| |]; try (now inv_ok He).
  destruct (truthy (VStr fn)) eqn:Tfn; [|now inv_ok He].
  bind_inv He response Er. inv_ok He.
  destruct (JSMap.get (Gemini.positionKey fn (Gemini.counterOf cs fn)) table)
    as [s|] eqn:Eget; [|reflexivity].
  destruct (String.eqb (toLowerCase s) tl) eqn:Ehit; [|reflexivity].
  exfalso. apply Hnot. apply String.eqb_eq in Ehit.
  match goal with
  | |- In _ (map id (push _ ?o)) => replace tl with (id o); [apply In_push_id|]
  end.
  simpl. unfold Gemini.correlatedId. rewrite Ehit. simpl.
  destruct (String.eqb tl "") eqn:E0; [|reflexivity].
  apply String.eqb_eq in E0. contradiction.
Qed.

Lemma gemini_parts_sync ps outs cs outs' cs' np (cm : bool) :
  forOf ps (outs, cs) (Gemini.correlatedPart table) = Ok (outs', cs') ->
  ~ In tl (map id outs') ->
  forOf ps (np, cm, cs) (Replace.geminiPart tl newContent table)
  = Ok ((np ++ ps)%list, cm, cs').
Proof.
  revert outs cs np; induction ps as [|p ps IH]; intros outs cs np He Hnot.
  - simpl in *. inv_ok He. now rewrite app_nil_r.
  - rewrite forOf_cons in *. bind_inv He acc1 E1. destruct acc1 as [outs1 cs1].
    rewrite (gemini_part_sync _ _ _ _ np cm _ E1); simpl.
    + rewrite (IH _ _ (push np p) He Hnot). unfold push. now rewrite <- app_assoc.
    + intros Hin. apply Hnot.
      apply (grows_In outs1 outs'); [|exact Hin].
      apply (gemini_correlatedParts_grows _ _ _ He).
Qed.

Lemma gemini_content_sync outs cs outs' cs' c :
  Gemini.correlatedContent table (outs, cs) c = Ok (outs', cs') ->
  ~ In tl (map id outs') ->
  Replace.geminiStep tl newContent table cs c = Ok (cs', None).
Proof.
  unfold Gemini.correlatedContent, Replace.geminiStep; intros He Hnot.
  bind_inv He parts Ep. rewrite Ep; simpl.
  destruct parts; try (now inv_ok He).
  now rewrite (gemini_parts_sync _ _ _ _ _ [] false He Hnot).
Qed.

Lemma gemini_data_sync data outs cs outs' cs' (b : bool) :
  forOf data (outs, cs) (Gemini.correlatedContent table) = Ok (outs', cs') ->
  ~ In tl (map id outs') ->
  assignLoop (Replace.geminiStep tl newContent table) cs b data = (data, Ok b).
Proof.
  revert outs cs; induction data as [|c data IH]; intros outs cs He Hnot.
  - reflexivity.
  - rewrite forOf_cons in He. bind_inv He acc1 E1. destruct acc1 as [outs1 cs1].
    cbn [assignLoop].
    rewrite (gemini_content_sync _ _ _ _ _ E1).
    + now rewrite (IH _ _ He Hnot).
    + intros Hin. apply Hnot.
      apply (grows_In outs1 outs'); [|exact Hin].
      apply (gemini_correlatedContents_grows _ _ _ He).
Qed.

End GeminiNoHit.

(** *** Whether a replacement raises does not depend on the id *)

Lemma forOf_raises_eq {A S S' : Type} (f : S -> A -> result S) (g : S' -> A -> result S') :
  (forall s s' x, raises (f s x) = raises (g s' x)) ->
  forall xs s s', raises (forOf xs s f) = raises (forOf xs s' g).
Proof.
  intros Hfg xs; induction xs as [|x xs IH]; intros s s'; simpl; [reflexivity|].
  specialize (Hfg s s' x).
  destruct (f s x), (g s' x); simpl in *; try discriminate; auto.
Qed.

Lemma assignLoop_raises_eq {S : Type} (f g : S -> value -> result (S * option value)) :
  stepsAgree f g ->
  forall data s b b',
    raises (snd (assignLoop f s b data)) = raises (snd (assignLoop g s b' data)).
Proof.
  intros Hfg data; induction data as [|x data IH]; intros s b b'; simpl; [reflexivity|].
  specialize (Hfg s x).
  destruct (f s x) as [[s1 o1]|e1], (g s x) as [[s2 o2]|e2]; try contradiction;
    [|reflexivity].
  subst s2.
  destruct o1, o2;
    match goal with
    | |- context [assignLoop f s1 ?c data] =>
        match goal with
        | |- context [assignLoop g s1 ?d data] =>
            specialize (IH s1 c d);
            destruct (assignLoop f s1 c data), (assignLoop g s1 d data); exact IH
        end
    end.
Qed.

Lemma stepsAgree_unit (f g : unit -> value -> result (unit * option value)) :
  (forall s x, raises (f s x) = raises (g s x)) -> stepsAgree f g.
Proof.
  intros H s x. specialize (H s x).
  destruct (f s x) as [[[] o1]|e1], (g s x) as [[[] o2]|e2]; simpl in *;
    try discriminate; auto.
Qed.

Section RaisesSame.
Variables tl tl' : string.
Variables new new' : string.

Ltac crunch :=
  repeat match goal with
         | |- context [bind ?r _] =>
             lazymatch r with
             | bind _ _ => fail
             | _ => destruct r; simpl
             end
         | |- context [if ?b then _ else _] => destruct b; simpl
         | |- context [match ?v with VUndefined => _ | _ => _ end] => destruct v; simpl
         end;
  try reflexivity.

Lemma idMatches_raises (v : value) :
  raises (Replace.idMatches tl v) = raises (Replace.idMatches tl' v).
Proof.
  unfold Replace.idMatches. destruct (optToLowerCase v); reflexivity.
Qed.

Lemma chatPart_raises (acc acc' : list value * bool) (part : value) :
  raises (Replace.chatPart tl new acc part) = raises (Replace.chatPart tl' new' acc' part).
Proof.
  destruct acc, acc'. unfold Replace.chatPart, Replace.idMatches. crunch.
Qed.

Lemma chatStep_raises (s : unit) (m : value) :
  raises (Replace.chatStep tl new s m) = raises (Replace.chatStep tl' new' s m).
Proof.
  unfold Replace.chatStep.
  assert (H1 : raises (Replace.chatNative tl new m)
               = raises (Replace.chatNative tl' new' m))
    by (unfold Replace.chatNative, Replace.idMatches; crunch).
  assert (H2 : raises (Replace.chatAnthropic tl new m)
               = raises (Replace.chatAnthropic tl' new' m)).
  { unfold Replace.chatAnthropic.
    destruct (get m "role"); simpl; [|reflexivity].
    destruct (eqStr a "user"); [|reflexivity].
    destruct (get m "content"); simpl; [|reflexivity].
    destruct a0; try reflexivity.
    pose proof (forOf_raises_eq (Replace.chatPart tl new) (Replace.chatPart tl' new')
                  chatPart_raises items ([], false) ([], false)) as H.
    destruct (forOf items ([], false) (Replace.chatPart tl new)) as [[? []]|],
             (forOf items ([], false) (Replace.chatPart tl' new')) as [[? []]|];
      simpl in *; try discriminate; reflexivity. }
  destruct (Replace.chatNative tl new m), (Replace.chatNative tl' new' m);
    simpl in *; try discriminate; try reflexivity.
  destruct (Replace.chatAnthropic tl new m), (Replace.chatAnthropic tl' new' m);
    simpl in *; try discriminate; reflexivity.
Qed.

Lemma responsesStep_raises (s : unit) (item : value) :
  raises (Replace.responsesStep tl new s item)
  = raises (Replace.responsesStep tl' new' s item).
Proof.
  unfold Replace.responsesStep, Replace.idMatches. crunch.
Qed.

Lemma bedrockBlock_raises (acc acc' : list value * bool) (block : value) :
  raises (Replace.bedrockBlock tl new acc block)
  = raises (Replace.bedrockBlock tl' new' acc' block).
Proof.
  destruct acc, acc'. unfold Replace.bedrockBlock, Replace.idMatches. crunch.
Qed.

Lemma bedrockStep_raises (s : unit) (m : value) :
  raises (Replace.bedrockStep tl new s m) = raises (Replace.bedrockStep tl' new' s m).
Proof.
  unfold Replace.bedrockStep.
  destruct (get m "role"); simpl; [|reflexivity].
  destruct (eqStr a "user"); [|reflexivity].
  destruct (get m "content"); simpl; [|reflexivity].
  destruct a0; try reflexivity.
  pose proof (forOf_raises_eq (Replace.bedrockBlock tl new) (Replace.bedrockBlock tl' new')
                bedrockBlock_raises items ([], false) ([], false)) as H.
  destruct (forOf items ([], false) (Replace.bedrockBlock tl new)) as [[? []]|],
           (forOf items ([], false) (Replace.bedrockBlock tl' new')) as [[? []]|];
    simpl in *; try discriminate; reflexivity.
Qed.

(** The two Gemini walks raise together and keep the same counters. *)
Lemma geminiPart_agree (table : JSMap.t string) (np np' : list value) (cm cm' : bool)
      (cs : JSMap.t nat) (part : value) :
  match Replace.geminiPart tl new table (np, cm, cs) part,
        Replace.geminiPart tl' new' table (np', cm', cs) part with
  | Ok (_, _, c1), Ok (_, _, c2) => c1 = c2
  | Throw _, Throw _ => True
  | _, _ => False
  end.
Proof.
  unfold Replace.geminiPart.
  destruct (get part "functionResponse") as [fr|]; simpl; [|exact I].
  destruct (truthy fr); [|reflexivity].
  destruct (get fr "name") as [name0|]; simpl; [|exact I].
  destruct (optToLowerCase name0) as [funcName|]; simpl; [|exact I].
  destruct funcName; try reflexivity.
  destruct (truthy (VStr s)); [|reflexivity].
  destruct (JSMap.get (Gemini.positionKey s (Gemini.counterOf cs s)) table) as [i|];
    [|reflexivity].
  destruct (String.eqb (toLowerCase i) tl), (String.eqb (toLowerCase i) tl'); reflexivity.
Qed.

Lemma geminiParts_agree (table : JSMap.t string) (ps np np' : list value) (cm cm' : bool)
      (cs : JSMap.t nat) :
  match forOf ps (np, cm, cs) (Replace.geminiPart tl new table),
        forOf ps (np', cm', cs) (Replace.geminiPart tl' new' table) with
  | Ok (_, _, c1), Ok (_, _, c2) => c1 = c2
  | Throw _, Throw _ => True
  | _, _ => False
  end.
Proof.
  revert np np' cm cm' cs; induction ps as [|p ps IH]; intros np np' cm cm' cs.
  - reflexivity.
  - rewrite !forOf_cons.
    pose proof (geminiPart_agree table np np' cm cm' cs p) as H.
    destruct (Replace.geminiPart tl new table (np, cm, cs) p) as [[[n1 m1] c1]|],
             (Replace.geminiPart tl' new' table (np', cm', cs) p) as [[[n2 m2] c2]|];
      simpl; try contradiction; [|exact I].
    subst c2. apply IH.
Qed.

Lemma geminiStep_agree (table : JSMap.t string) :
  stepsAgree (Replace.geminiStep tl new table) (Replace.geminiStep tl' new' table).
Proof.
  intros cs c. unfold Replace.geminiStep.
  destruct (get c "parts") as [parts|]; simpl; [|exact I].
  destruct parts; try reflexivity.
  pose proof (geminiParts_agree table items [] [] false false cs) as H.
  destruct (forOf items ([], false, cs) (Replace.geminiPart tl new table))
    as [[[n1 m1] c1]|],
           (forOf items ([], false, cs) (Replace.geminiPart tl' new' table))
    as [[[n2 m2] c2]|];
    simpl; try contradiction; [|exact I].
  subst c2. destruct m1, m2; reflexivity.
Qed.

End RaisesSame.

Lemma snd_let_pair {A B C : Type} (p : A * B) (f : A -> C) :
  snd (let (a, b) := p in (f a, b)) = snd p.
Proof. now destruct p. Qed.

(** Whether [replaceToolOutput] raises depends on the body, the format and
    the state only. *)
Lemma replaceToolOutput_raises_same (format : FormatDescriptor) (body : value)
      (toolId toolId' newContent newContent' : string) (state : PluginState) :
  raises (snd (replaceToolOutput body format toolId newContent state))
  = raises (snd (replaceToolOutput body format toolId' newContent' state)).
Proof.
  unfold replaceToolOutput.
  destruct (getDataArray format body) as [dataArray|]; [|reflexivity].
  destruct (truthy dataArray); simpl; [|reflexivity].
  destruct dataArray; try reflexivity.
  destruct (String.eqb (name format) "openai-chat").
  { rewrite !snd_let_pair. apply assignLoop_raises_eq, stepsAgree_unit.
    apply chatStep_raises. }
  destruct (String.eqb (name format) "openai-responses").
  { rewrite !snd_let_pair. apply assignLoop_raises_eq, stepsAgree_unit.
    apply responsesStep_raises. }
  destruct (String.eqb (name format) "gemini").
  { destruct (Gemini.findPositionMapping (googleToolCallMapping state)); [|reflexivity].
    rewrite !snd_let_pair. apply assignLoop_raises_eq, geminiStep_agree. }
  destruct (String.eqb (name format) "bedrock"); [|reflexivity].
  rewrite !snd_let_pair. apply assignLoop_raises_eq, stepsAgree_unit.
  apply bedrockStep_raises.
Qed.

(** C5 (as the code has it). For each of the four formats, a body whose
    turn array is an array and a non-empty tool id whose case-folding is
    the [id] of none of the tool outputs extracted from that array:
    [replaceToolOutput] leaves the body as it is and returns [false],
    unless a malformed turn makes the call raise, in which case the body
    is left as it is as well.  A body without a turn array is left as it
    is, with [false] returned.  Whether a call raises does not depend on
    the id it is given: not finding the id is never what makes it
    raise. *)
Theorem replaceToolOutput_absent_id
        (format : FormatDescriptor) (body : value) (toolId newContent : string)
        (state : PluginState) :
  In format formats ->
  (forall d, getDataArray format body = Ok d -> truthy d = false ->
             replaceToolOutput body format toolId newContent state = (body, Ok false))
  /\ (forall (data : list value) (outputs : list ToolOutput),
        getDataArray format body = Ok (VArr data) ->
        extractToolOutputs format data state = Ok outputs ->
        toolId <> "" ->
        ~ In (toLowerCase toolId) (map id outputs) ->
        fst (replaceToolOutput body format toolId newContent state) = body
        /\ (snd (replaceToolOutput body format toolId newContent state) = Ok false
            \/ exists e,
                 snd (replaceToolOutput body format toolId newContent state) = Throw e))
  /\ (forall toolId' newContent',
        raises (snd (replaceToolOutput body format toolId newContent state))
        = raises (snd (replaceToolOutput body format toolId' newContent' state))).
Proof.
  intros Hf. split; [|split].
  3: { intros toolId' newContent'. apply replaceToolOutput_raises_same. }
  - intros d Hd Hfalsy. unfold replaceToolOutput. now rewrite Hd, Hfalsy.
  - intros data outputs Hd Hext Hne Hnot.
    assert (Htl : toLowerCase toolId <> "")
      by (intros H; apply Hne; now apply toLowerCase_empty_iff).
    pose proof (storeData_same format body data Hf Hd) as Hsame.
    unfold replaceToolOutput. rewrite Hd; simpl.
    destruct (name_in_formats _ Hf) as [-> | [-> | [-> | ->]]];
      cbv [dataKey name openaiResponsesFormat bedrockFormat openaiChatFormat
           geminiFormat] in Hsame;
      simpl in *.
    + destruct (assignLoop_no_hit
                  (Replace.responsesStep (toLowerCase toolId) newContent)
                  OpenaiResponses.extractItem (toLowerCase toolId)
                  responses_extractItem_grows
                  (fun a x a' s s' x' => responses_item_hit _ newContent Htl a x a' s s' x')
                  data [] outputs tt false Hext Hnot) as [Hfst Hsnd].
      destruct (assignLoop _ tt false data) as [data' r]; simpl in *. subst data'.
      now rewrite Hsame.
    + destruct (assignLoop_no_hit
                  (Replace.bedrockStep (toLowerCase toolId) newContent)
                  Bedrock.extractTurn (toLowerCase toolId)
                  bedrock_extractTurn_grows
                  (fun a x a' s s' x' => bedrock_turn_hit _ newContent Htl a x a' s s' x')
                  data [] outputs tt false Hext Hnot) as [Hfst Hsnd].
      destruct (assignLoop _ tt false data) as [data' r]; simpl in *. subst data'.
      now rewrite Hsame.
    + destruct (assignLoop_no_hit
                  (Replace.chatStep (toLowerCase toolId) newContent)
                  OpenaiChat.extractTurn (toLowerCase toolId)
                  chat_extractTurn_grows
                  (fun a x a' s s' x' => chat_turn_hit _ newContent Htl a x a' s s' x')
                  data [] outputs tt false Hext Hnot) as [Hfst Hsnd].
      destruct (assignLoop _ tt false data) as [data' r]; simpl in *. subst data'.
      now rewrite Hsame.
    + unfold Gemini.extractToolOutputs in Hext.
      destruct (Gemini.findPositionMapping (googleToolCallMapping state)) as [t|];
        [|simpl; auto].
      bind_inv Hext acc Eacc. destruct acc as [outs cs]. inv_ok Hext.
      rewrite (gemini_data_sync _ newContent t Htl data [] JSMap.empty outputs cs false
                 Eacc Hnot).
      simpl. rewrite Hsame. auto.
Qed.

(** The Chat body holds the single tool output [call_1]: replacing
    [CALL_2] leaves it as it is. *)
Lemma replaceToolOutput_absent_id_witness :
  fst (replaceToolOutput chatBody openaiChatFormat "CALL_2" "pruned" createPluginState)
  = chatBody
  /\ (snd (replaceToolOutput chatBody openaiChatFormat "CALL_2" "pruned" createPluginState)
      = Ok false
      \/ exists e,
           snd (replaceToolOutput chatBody openaiChatFormat "CALL_2" "pruned"
                  createPluginState) = Throw e).
Proof.
  refine (proj1 (proj2 (replaceToolOutput_absent_id openaiChatFormat chatBody "CALL_2"
                          "pruned" createPluginState
                          (or_intror (or_intror (or_introl eq_refl)))))
            [chatUserTurn; chatAssistantTurn; chatToolTurn]
            [{| id := "call_1"; toolName := VUndefined; content := VStr "a.txt b.txt" |}]
            eq_refl eq_refl _ _).
  - discriminate.
  - simpl. intros [H | []]. discriminate.
Defined.

Example replace_absent_chat_example :
  replaceToolOutput chatBody openaiChatFormat "CALL_2" "pruned" createPluginState
  = (chatBody, Ok false).
Proof. reflexivity. Qed.

(** C5, as stated, fails for the empty id.  A tool turn whose identifier
    is the empty string yields no tool output (the extraction skips a
    falsy identifier), so the id [""] matches no tool output of the body;
    yet replacing it rewrites the turn and returns [true]. *)
Lemma replaceToolOutput_empty_id_replaced :
  getDataArray openaiChatFormat
    (VObj [("messages",
            VArr [VObj [("role", VStr "tool"); ("tool_call_id", VStr "");
                        ("content", VStr "old")]])])
  = Ok (VArr [VObj [("role", VStr "tool"); ("tool_call_id", VStr "");
                    ("content", VStr "old")]])
  /\ extractToolOutputs openaiChatFormat
       [VObj [("role", VStr "tool"); ("tool_call_id", VStr ""); ("content", VStr "old")]]
       createPluginState
     = Ok []
  /\ replaceToolOutput
       (VObj [("messages",
               VArr [VObj [("role", VStr "tool"); ("tool_call_id", VStr "");
                           ("content", VStr "old")]])])
       openaiChatFormat "" "new" createPluginState
     = (VObj [("messages",
               VArr [VObj [("role", VStr "tool"); ("tool_call_id", VStr "");
                           ("content", VStr "new")]])],
        Ok true).
Proof.
  repeat split.
Qed.

(** A tool turn whose identifier is the number 0 is skipped by the
    extraction, and makes every replacement raise. *)
Example replace_numeric_id_raises :
  extractToolOutputs openaiChatFormat
    [VObj [("role", VStr "tool"); ("tool_call_id", VNum 0); ("content", VStr "old")]]
    createPluginState
  = Ok []
  /\ replaceToolOutput
       (VObj [("messages",
               VArr [VObj [("role", VStr "tool"); ("tool_call_id", VNum 0);
                           ("content", VStr "old")]])])
       openaiChatFormat "call_1" "new" createPluginState
     = (VObj [("messages",
               VArr [VObj [("role", VStr "tool"); ("tool_call_id", VNum 0);
                           ("content", VStr "old")]])],
        Throw TypeError).
Proof.
  repeat split.
Qed.

(* ================================================================== *)
(** * Outcomes of the detector *)

Lemma get_not_nullish (v : value) (k : string) :
  isNullish v = false -> get v k = Ok (getOpt v k).
Proof.
  destruct v; simpl; intros H; try discriminate; reflexivity.
Qed.

Lemma get_nullish (v : value) (k : string) :
  isNullish v = true -> get v k = Throw TypeError.
Proof.
  destruct v; simpl; intros H; try discriminate; reflexivity.
Qed.

Lemma truthy_isArray (v : value) : truthy v && isArray v = isArray v.
Proof.
  destruct v; simpl; try reflexivity; now rewrite andb_false_r.
Qed.

(** The detector on a body that is neither [null] nor [undefined]: no
    predicate raises, and the outcome is decided by which of the three turn
    arrays exist. *)
Lemma detectFormat_not_nullish (body : value) :
  isNullish body = false ->
  detectFormat body
  = Ok (if isArray (getOpt body "input") then Some openaiResponsesFormat
        else if isArray (getOpt body "system")
                && negb (match getOpt body "inferenceConfig" with
                         | VUndefined => true | _ => false end)
                && isArray (getOpt body "messages")
             then Some bedrockFormat
        else if isArray (getOpt body "messages") then Some openaiChatFormat
        else if isArray (getOpt body "contents") then Some geminiFormat
        else None).
Proof.
  intros Hb. unfold detectFormat; simpl.
  unfold OpenaiResponses.detect, Bedrock.detect, OpenaiChat.detect, Gemini.detect.
  rewrite !(get_not_nullish _ _ Hb); simpl. rewrite !truthy_isArray.
  destruct (isArray (getOpt body "input")); [reflexivity|].
  destruct (isArray (getOpt body "system")); simpl;
    [destruct (getOpt body "inferenceConfig"); simpl|];
    (destruct (isArray (getOpt body "messages")); simpl; [reflexivity|]);
    destruct (isArray (getOpt body "contents")); reflexivity.
Qed.

(** X1. The detector raises exactly on a body that is [null] or [undefined],
    and then a TypeError; it answers [null] exactly for a body none of
    whose properties [input], [messages], [contents] is an array. *)
Theorem detectFormat_outcomes (body : value) :
  (forall e, detectFormat body = Throw e <-> isNullish body = true /\ e = TypeError)
  /\ (detectFormat body = Ok None
      <-> isNullish body = false
          /\ isArray (getOpt body "input") = false
          /\ isArray (getOpt body "messages") = false
          /\ isArray (getOpt body "contents") = false).
Proof.
  destruct (isNullish body) eqn:Hb.
  - assert (H : detectFormat body = Throw TypeError).
    { unfold detectFormat; simpl. unfold OpenaiResponses.detect.
      now rewrite (get_nullish _ _ Hb). }
    rewrite H. split.
    + intros e; split; [intros E; inv_ok E; auto | intros [_ ->]; reflexivity].
    + split; [discriminate | intros [E _]; discriminate].
  - rewrite (detectFormat_not_nullish _ Hb). split.
    + intros e; split; [discriminate | intros [E _]; discriminate].
    + destruct (isArray (getOpt body "input")).
      { split; [discriminate | intros (_ & E & _); discriminate]. }
      destruct (isArray (getOpt body "messages")).
      { rewrite andb_true_r.
        destruct (isArray (getOpt body "system")
                  && negb match getOpt body "inferenceConfig" with
                          | VUndefined => true | _ => false end);
          (split; [discriminate | intros (_ & _ & E & _); discriminate]). }
      rewrite andb_false_r.
      destruct (isArray (getOpt body "contents")).
      { split; [discriminate | intros (_ & _ & _ & E); discriminate]. }
      split; auto.
Qed.

Lemma isArray_inv (v : value) : isArray v = true -> exists items, v = VArr items.
Proof.
  destruct v; simpl; intros H; try discriminate; eauto.
Qed.

(** A detected format is one of the four, and the body holds its turn
    array. *)
Lemma detectFormat_some (body : value) (f : FormatDescriptor) :
  detectFormat body = Ok (Some f) ->
  In f formats /\ exists data, getDataArray f body = Ok (VArr data).
Proof.
  intros H.
  destruct (isNullish body) eqn:Hb.
  { unfold detectFormat in H; simpl in H. unfold OpenaiResponses.detect in H.
    rewrite (get_nullish _ _ Hb) in H. discriminate. }
  rewrite (detectFormat_not_nullish _ Hb) in H.
  destruct (isArray (getOpt body "input")) eqn:Hi.
  { inv_ok H. split; [simpl; auto|]. simpl. unfold OpenaiResponses.getDataArray.
    rewrite (get_not_nullish _ _ Hb). destruct (isArray_inv _ Hi) as [d ->]; eauto. }
  destruct (isArray (getOpt body "messages")) eqn:Hm.
  { destruct (isArray_inv _ Hm) as [d Hd].
    destruct (isArray (getOpt body "system")
              && negb match getOpt body "inferenceConfig" with
                      | VUndefined => true | _ => false end); simpl in H; inv_ok H;
      (split; [simpl; auto|]); simpl;
      unfold Bedrock.getDataArray, OpenaiChat.getDataArray;
      rewrite (get_not_nullish _ _ Hb), Hd; eauto. }
  rewrite andb_false_r in H.
  destruct (isArray (getOpt body "contents")) eqn:Hc; [|discriminate].
  inv_ok H. split; [simpl; auto|]. simpl. unfold Gemini.getDataArray.
  rewrite (get_not_nullish _ _ Hb). destruct (isArray_inv _ Hc) as [d ->]; eauto.
Qed.

(** X2. Whatever body the detector accepts, the chosen descriptor is one of
    the four and its [getDataArray] returns an array on that body: after a
    detection the turn array is never missing and never of another type. *)
Theorem detectFormat_dataArray_is_array (body : value) (f : FormatDescriptor) :
  detectFormat body = Ok (Some f) ->
  In f formats
  /\ exists data,
       getDataArray f body = Ok (VArr data)
       /\ getOpt body (dataKey (name f)) = VArr data.
Proof.
  intros H. destruct (detectFormat_some _ _ H) as (Hf & data & Hd).
  split; [exact Hf|]. exists data. split; [exact Hd|].
  destruct (getDataArray_array _ _ _ Hf Hd) as (fs & -> & Hl). exact Hl.
Qed.

Lemma detectFormat_dataArray_is_array_witness :
  In bedrockFormat formats
  /\ exists data,
       getDataArray bedrockFormat
         (VObj [("system", VArr []); ("inferenceConfig", VObj []);
                ("messages", VArr [VObj [("role", VStr "user")]])])
       = Ok (VArr data)
       /\ getOpt (VObj [("system", VArr []); ("inferenceConfig", VObj []);
                        ("messages", VArr [VObj [("role", VStr "user")]])])
                 (dataKey (name bedrockFormat)) = VArr data.
Proof.
  apply (detectFormat_dataArray_is_array
           (VObj [("system", VArr []); ("inferenceConfig", VObj []);
                  ("messages", VArr [VObj [("role", VStr "user")]])])
           bedrockFormat).
  reflexivity.
Defined.

(* ================================================================== *)
(** * The wrapped fetch *)

(** What [processRequest] returns with a truthy [modified]. *)
Lemma processRequest_modified (b : value) (state : PluginState) (url : string)
      (icpt : FetchWrapper.RequestInterceptor) (r : FetchWrapper.FetchHandlerResult) :
  FetchWrapper.processRequest b state url icpt = Ok r ->
  truthy (FetchWrapper.modified r) = true ->
  exists f data outputs o,
    detectFormat b = Ok (Some f)
    /\ getDataArray f b = Ok (VArr data)
    /\ extractToolOutputs f data state = Ok outputs
    /\ icpt b f (VArr data) outputs url state = Ok o
    /\ FetchWrapper.modified r = getOpt o "modified"
    /\ FetchWrapper.body r = getOpt o "body".
Proof.
  unfold FetchWrapper.processRequest; intros H Hm.
  bind_inv H detected Hd.
  destruct detected as [f|]; [|inv_ok H; discriminate].
  destruct (detectFormat_some _ _ Hd) as (_ & data & Ha).
  rewrite Ha in H; simpl in H.
  bind_inv H outputs Ho. bind_inv H o Hi. bind_inv H m Hgm. bind_inv H b' Hgb.
  inv_ok H. simpl in *.
  exists f, data, outputs, o. repeat split; auto.
  - symmetry; eapply get_getOpt; eauto.
  - symmetry; eapply get_getOpt; eauto.
Qed.

(** What [processRequest] returns when the interceptor resolves. *)
Lemma processRequest_resolved (b : value) (state : PluginState) (url : string)
      (icpt : FetchWrapper.RequestInterceptor) (f : FormatDescriptor)
      (data : list value) (outputs : list ToolOutput) (o : value) :
  detectFormat b = Ok (Some f) ->
  getDataArray f b = Ok (VArr data) ->
  extractToolOutputs f data state = Ok outputs ->
  icpt b f (VArr data) outputs url state = Ok o ->
  isNullish o = false ->
  exists r,
    FetchWrapper.processRequest b state url icpt = Ok r
    /\ FetchWrapper.modified r = getOpt o "modified"
    /\ FetchWrapper.body r = getOpt o "body".
Proof.
  intros Hd Ha Ho Hi Hn. unfold FetchWrapper.processRequest.
  rewrite Hd; cbn [bind]. rewrite Ha; cbn [bind]. simpl.
  rewrite Ho; cbn [bind]. rewrite Hi; cbn [bind].
  rewrite !(get_not_nullish _ _ Hn); cbn [bind].
  eexists; split; [reflexivity|]. split; reflexivity.
Qed.

(** X3. The wrapped [fetch] rewrites [init.body], and nothing else of [init],
    exactly when the session is not skipped, [init.body] is a non-empty
    string that parses to a body of a detected format whose tool outputs
    are extracted, and the interceptor resolves to an object with a truthy
    [modified]: then the [init] that reaches the original [fetch] has the
    serialisation of the object's [body] as its [body] and every other
    property as the caller gave it; in every other case (a parse error, an
    undetected format, an exception of the extraction, a rejection of the
    interceptor among them) the request is the caller's. *)
Theorem wrappedFetch_changes_only_on_modified
        (JSON_parse : string -> result value)
        (icpt : FetchWrapper.RequestInterceptor) (state : PluginState)
        (input init : value) :
  (forall s b f data outputs o,
      FetchWrapper.skipsSession state = false ->
      getOpt init "body" = VStr s ->
      s <> "" ->
      JSON_parse s = Ok b ->
      detectFormat b = Ok (Some f) ->
      getDataArray f b = Ok (VArr data) ->
      extractToolOutputs f data state = Ok outputs ->
      icpt b f (VArr data) outputs (FetchWrapper.inputUrl input) state = Ok o ->
      truthy (getOpt o "modified") = true ->
      getOpt (FetchWrapper.wrappedFetch JSON_parse icpt state input init) "body"
      = JSON_stringify (getOpt o "body")
      /\ forall k, k <> "body" ->
           getOpt (FetchWrapper.wrappedFetch JSON_parse icpt state input init) k
           = getOpt init k)
  /\ (FetchWrapper.wrappedFetch JSON_parse icpt state input init = init
      \/ exists s b f data outputs o,
           FetchWrapper.skipsSession state = false
           /\ getOpt init "body" = VStr s
           /\ s <> ""
           /\ JSON_parse s = Ok b
           /\ detectFormat b = Ok (Some f)
           /\ getDataArray f b = Ok (VArr data)
           /\ extractToolOutputs f data state = Ok outputs
           /\ icpt b f (VArr data) outputs (FetchWrapper.inputUrl input) state = Ok o
           /\ truthy (getOpt o "modified") = true).
Proof.
  split.
  - intros s b f data outputs o Hs Hb Hne Hp Hd Ha Ho Hi Hm.
    assert (Hn : isNullish o = false) by (destruct o; simpl in *; try discriminate; reflexivity).
    destruct (processRequest_resolved _ _ _ _ _ _ _ _ Hd Ha Ho Hi Hn) as (r & Hr & Em & Eb).
    unfold FetchWrapper.wrappedFetch. rewrite Hs, Hb.
    apply String.eqb_neq in Hne. rewrite Hne; simpl.
    rewrite Hp; cbn [bind]. rewrite Hr, Em, Hm, Eb.
    split; [apply getOpt_spreadSet_same|].
    intros k Hk. now apply getOpt_spreadSet_other.
  - unfold FetchWrapper.wrappedFetch.
    destruct (FetchWrapper.skipsSession state) eqn:Hs; [now left|].
    destruct (getOpt init "body") eqn:Hb; try (now left).
    destruct (String.eqb_spec s "") as [->|Hne]; simpl; [now left|].
    destruct (JSON_parse s) as [b|e] eqn:Hp; simpl; [|now left].
    destruct (FetchWrapper.processRequest b state (FetchWrapper.inputUrl input) icpt)
      as [r|e] eqn:Hr; [|now left].
    destruct (truthy (FetchWrapper.modified r)) eqn:Hm; [|now left].
    right.
    destruct (processRequest_modified _ _ _ _ _ Hr Hm)
      as (f & data & outputs & o & Hd & Ha & Ho & Hi & Em & Eb).
    exists s, b, f, data, outputs, o.
    rewrite Em in Hm. repeat split; auto.
Qed.

(** A request whose body text parses to the Chat body, with an interceptor
    that answers with another body and [modified: true]: the body that
    reaches the original [fetch] is the text of the interceptor's body,
    the method is the caller's. *)
Lemma wrappedFetch_changes_only_on_modified_witness :
  getOpt (FetchWrapper.wrappedFetch parseChatBody replacingInterceptor createPluginState
            (VStr "https://api.example/v1/chat") chatRequestInit) "body"
  = VStr "[1,2]"
  /\ getOpt (FetchWrapper.wrappedFetch parseChatBody replacingInterceptor createPluginState
               (VStr "https://api.example/v1/chat") chatRequestInit) "method"
     = VStr "POST".
Proof.
  destruct (proj1 (wrappedFetch_changes_only_on_modified parseChatBody replacingInterceptor
                     createPluginState (VStr "https://api.example/v1/chat") chatRequestInit)
              chatBodyText chatBody openaiChatFormat
              [chatUserTurn; chatAssistantTurn; chatToolTurn]
              [{| id := "call_1"; toolName := VUndefined; content := VStr "a.txt b.txt" |}]
              (VObj [("modified", VBool true); ("body", VArr [VNum 1; VNum 2])])
              eq_refl eq_refl) as [Hbody Hkeys];
    try reflexivity.
  - discriminate.
  - split; [exact Hbody|]. apply (Hkeys "method"). discriminate.
Defined.

(** X4. With the interceptor the plugin ships with, every request reaches the
    original [fetch] as the caller made it. *)
Theorem wrappedFetch_shipped_interceptor_is_identity
        (JSON_parse : string -> result value) (state : PluginState)
        (input init : value) :
  FetchWrapper.wrappedFetch JSON_parse myRequestInterceptor state input init = init.
Proof.
  unfold FetchWrapper.wrappedFetch.
  destruct (FetchWrapper.skipsSession state); [reflexivity|].
  destruct (getOpt init "body"); try reflexivity.
  destruct (negb (s =? "")); [|reflexivity].
  destruct (JSON_parse s) as [b|e]; simpl; [|reflexivity].
  destruct (FetchWrapper.processRequest b state (FetchWrapper.inputUrl input)
              myRequestInterceptor) as [r|e] eqn:Hr; [|reflexivity].
  destruct (truthy (FetchWrapper.modified r)) eqn:Hm; [|reflexivity].
  destruct (processRequest_modified _ _ _ _ _ Hr Hm)
    as (f & data & outputs & o & _ & _ & _ & Hi & Em & _).
  unfold myRequestInterceptor in Hi. inv_ok Hi.
  rewrite Em in Hm. discriminate.
Qed.

(* ================================================================== *)
(** * Runs of the chat.params hook *)

Lemma existsb_eqb_In (x : string) (xs : list string) :
  existsb (String.eqb x) xs = true <-> In x xs.
Proof.
  rewrite existsb_exists. split.
  - intros (y & Hy & E). apply String.eqb_eq in E. now subst.
  - intros H. exists x. split; [exact H | apply String.eqb_refl].
Qed.

Lemma existsb_eqb_not_In (x : string) (xs : list string) :
  existsb (String.eqb x) xs = false <-> ~ In x xs.
Proof.
  split.
  - intros H Hin. apply existsb_eqb_In in Hin. congruence.
  - intros H. destruct (existsb (String.eqb x) xs) eqn:E; [|reflexivity].
    apply existsb_eqb_In in E. now elim H.
Qed.

Lemma In_addToSet (x y : string) (xs : list string) :
  In y (Hooks.addToSet x xs) <-> y = x \/ In y xs.
Proof.
  unfold Hooks.addToSet, push.
  destruct (existsb (String.eqb x) xs) eqn:E.
  - apply existsb_eqb_In in E. split; [auto | intros [-> | H]; auto].
  - rewrite in_app_iff; simpl. intuition.
Qed.

Lemma NoDup_addToSet (x : string) (xs : list string) :
  NoDup xs -> NoDup (Hooks.addToSet x xs).
Proof.
  unfold Hooks.addToSet, push; intros H.
  destruct (existsb (String.eqb x) xs) eqn:E; [exact H|].
  apply existsb_eqb_not_In in E.
  apply NoDup_rev in H. rewrite <- (rev_involutive (xs ++ [x])).
  apply NoDup_rev. rewrite rev_app_distr; simpl. constructor; [|exact H].
  now rewrite <- in_rev.
Qed.

Lemma JSMap_keys_set {V : Type} (k : string) (v : V) (m : JSMap.t V) (k' : string) :
  In k' (JSMap.keys (JSMap.set k v m)) <-> k' = k \/ In k' (JSMap.keys m).
Proof.
  unfold JSMap.keys. induction m as [|[k0 v0] m IH]; simpl.
  - intuition.
  - destruct (String.eqb k k0) eqn:E; simpl.
    + apply String.eqb_eq in E; subst. intuition.
    + rewrite IH. intuition.
Qed.

Lemma JSMap_set_set {V : Type} (k : string) (v w : V) (m : JSMap.t V) :
  JSMap.set k w (JSMap.set k v m) = JSMap.set k w m.
Proof.
  induction m as [|[k0 v0] m IH]; simpl.
  - now rewrite String.eqb_refl.
  - destruct (String.eqb k k0) eqn:E; simpl;
      [now rewrite String.eqb_refl | now rewrite E, IH].
Qed.

(** The sets of sessions after one event. *)
Lemma handler_checkedSessions (client : Hooks.Client) (state : PluginState)
      (input : Hooks.ChatParamsInput) (s : string) :
  In s (checkedSessions (Hooks.createChatParamsHandler client state input))
  <-> s = Hooks.sessionID input \/ In s (checkedSessions state).
Proof.
  unfold Hooks.createChatParamsHandler; simpl.
  destruct (existsb (String.eqb (Hooks.sessionID input)) (checkedSessions state)) eqn:E.
  - apply existsb_eqb_In in E. split; [auto | intros [-> | H]; auto].
  - apply In_addToSet.
Qed.

Lemma handler_subagentSessions (client : Hooks.Client) (state : PluginState)
      (input : Hooks.ChatParamsInput) (s : string) :
  In s (subagentSessions (Hooks.createChatParamsHandler client state input))
  <-> In s (subagentSessions state)
      \/ (s = Hooks.sessionID input
          /\ ~ In s (checkedSessions state)
          /\ Hooks.isSubagentSession client s = true).
Proof.
  unfold Hooks.createChatParamsHandler; simpl.
  destruct (existsb (String.eqb (Hooks.sessionID input)) (checkedSessions state)) eqn:E.
  - apply existsb_eqb_In in E. split; [auto|].
    intros [H | (-> & Hn & _)]; [exact H | now elim Hn].
  - apply existsb_eqb_not_In in E.
    destruct (Hooks.isSubagentSession client (Hooks.sessionID input)) eqn:Hs.
    + rewrite In_addToSet. split.
      * intros [-> | H]; auto.
      * intros [H | (-> & _)]; auto.
    + split; [auto|]. intros [H | (-> & _ & H)]; [exact H | congruence].
Qed.

(** X5. From the moment the hook has handled an event of a session that the
    host reports as a subagent at its first sighting (or that the state
    already lists as one), and as long as that session stays the one seen
    last, the wrapped [fetch] hands every request on as it is, whatever the
    interceptor; the empty session identifier is the exception the guard
    makes. *)
Theorem subagent_session_requests_untouched
        (client : Hooks.Client) (state : PluginState) (event : Hooks.ChatParamsInput)
        (JSON_parse : string -> result value)
        (icpt : FetchWrapper.RequestInterceptor) (input init : value) :
  Hooks.sessionID event <> "" ->
  In (Hooks.sessionID event) (subagentSessions state)
  \/ (~ In (Hooks.sessionID event) (checkedSessions state)
      /\ Hooks.isSubagentSession client (Hooks.sessionID event) = true) ->
  FetchWrapper.wrappedFetch JSON_parse icpt
    (Hooks.createChatParamsHandler client state event) input init
  = init.
Proof.
  intros Hne Hsub. unfold FetchWrapper.wrappedFetch.
  assert (Hskip : FetchWrapper.skipsSession
                    (Hooks.createChatParamsHandler client state event) = true).
  { unfold FetchWrapper.skipsSession.
    change (lastSeenSessionId (Hooks.createChatParamsHandler client state event))
      with (Some (Hooks.sessionID event)).
    apply andb_true_intro. split.
    - apply negb_true_iff. now apply String.eqb_neq.
    - apply existsb_eqb_In. apply handler_subagentSessions.
      destruct Hsub as [H | [Hn Hs]]; auto. }
  now rewrite Hskip.
Qed.

Lemma subagent_session_requests_untouched_witness :
  FetchWrapper.wrappedFetch (fun _ => Ok chatBody)
    (fun b _ _ _ _ _ => Ok (VObj [("body", VNull); ("modified", VBool true)]))
    (Hooks.createChatParamsHandler
       {| Hooks.sessionGet :=
            fun _ => Ok (VObj [("data", VObj [("parentID", VStr "ses_parent")])]);
          Hooks.sessionMessages := fun _ => Throw HostError |}
       createPluginState (chatParamsFor "ses_child" "openai"))
    (VStr "https://api.example/v1/chat")
    (VObj [("method", VStr "POST"); ("body", VStr "{}")])
  = VObj [("method", VStr "POST"); ("body", VStr "{}")].
Proof.
  apply (subagent_session_requests_untouched
           {| Hooks.sessionGet :=
                fun _ => Ok (VObj [("data", VObj [("parentID", VStr "ses_parent")])]);
              Hooks.sessionMessages := fun _ => Throw HostError |}
           createPluginState (chatParamsFor "ses_child" "openai")).
  - discriminate.
  - right. split; [simpl; tauto | reflexivity].
Defined.

(** ** Invariants of a run *)

Lemma handler_sessionsConsistent (client : Hooks.Client) (state : PluginState)
      (input : Hooks.ChatParamsInput) :
  sessionsConsistent state ->
  sessionsConsistent (Hooks.createChatParamsHandler client state input).
Proof.
  intros (Hc & Hs & Hsc & Hm & Hl).
  repeat split.
  - unfold Hooks.createChatParamsHandler; simpl.
    destruct (existsb _ (checkedSessions state)); [exact Hc | now apply NoDup_addToSet].
  - unfold Hooks.createChatParamsHandler; simpl.
    destruct (existsb _ (checkedSessions state)); [exact Hs|].
    destruct (Hooks.isSubagentSession client (Hooks.sessionID input));
      [now apply NoDup_addToSet | exact Hs].
  - intros s H. apply handler_checkedSessions.
    apply handler_subagentSessions in H. destruct H as [H | (-> & _)]; auto.
  - intros s H. apply handler_checkedSessions.
    unfold Hooks.createChatParamsHandler in H; simpl in H.
    destruct (truthy (Hooks.resolveProviderID input)
              && truthy (getOpt (Hooks.inputModel input) "id")).
    + apply JSMap_keys_set in H. destruct H as [-> | H]; auto.
    + auto.
  - intros s H. apply handler_checkedSessions.
    unfold Hooks.createChatParamsHandler in H; simpl in H. inv_ok H. auto.
Qed.

(** X6. Along every run of the hook from the initial state, whatever the host
    answers: no session identifier is listed twice, every session listed
    as a subagent has been checked, every session with cached model info
    has been checked, and so has the session seen last. *)
Theorem handleAll_sessionsConsistent
        (events : list (Hooks.Client * Hooks.ChatParamsInput)) :
  sessionsConsistent (handleAll events createPluginState).
Proof.
  unfold handleAll.
  assert (H0 : sessionsConsistent createPluginState).
  { unfold sessionsConsistent; simpl.
    repeat split; try constructor; intros s H; inversion H. }
  revert H0. generalize createPluginState.
  induction events as [|e events IH]; simpl; intros s Hs; [exact Hs|].
  apply IH. now apply handler_sessionsConsistent.
Qed.

(** The store the session-change test leaves, when the store was that of
    the session seen last. *)
Lemma afterSessionChange_cases (state : PluginState) (sessionId : string) :
  storeOfLastSession state ->
  lastSeenSessionId state <> Some "" ->
  Hooks.afterSessionChange state sessionId = []
  \/ exists t, Hooks.afterSessionChange state sessionId = [(sessionId, t)].
Proof.
  intros Hst Hlast. unfold Hooks.afterSessionChange.
  destruct (lastSeenSessionId state) as [last|] eqn:El.
  - destruct (String.eqb last "") eqn:E0.
    { apply String.eqb_eq in E0; subst. now elim Hlast. }
    destruct (String.eqb last sessionId) eqn:E1; simpl; [|now left].
    apply String.eqb_eq in E1; subst last.
    destruct Hst as [-> | (s & t & Hs & ->)]; [now left|].
    rewrite El in Hs. inv_ok Hs. right; eauto.
  - destruct Hst as [-> | (s & t & Hs & _)]; [now left | congruence].
Qed.

Lemma handler_storeOfLastSession (client : Hooks.Client) (state : PluginState)
      (input : Hooks.ChatParamsInput) :
  storeOfLastSession state ->
  lastSeenSessionId state <> Some "" ->
  storeOfLastSession (Hooks.createChatParamsHandler client state input).
Proof.
  intros Hst Hlast.
  pose proof (afterSessionChange_cases state (Hooks.sessionID input) Hst Hlast) as H1.
  unfold storeOfLastSession.
  change (lastSeenSessionId (Hooks.createChatParamsHandler client state input))
    with (Some (Hooks.sessionID input)).
  destruct (handler_store_cases client state input) as [-> | (t & _ & ->)].
  - destruct H1 as [-> | (t & ->)]; [now left | right; eauto].
  - right. exists (Hooks.sessionID input), t. split; [reflexivity|].
    destruct H1 as [-> | (t0 & ->)]; simpl; [reflexivity|].
    now rewrite String.eqb_refl.
Qed.

(** What holds of the store along a run whose events carry non-empty
    session identifiers. *)
Lemma handleAll_store_invariant
      (events : list (Hooks.Client * Hooks.ChatParamsInput)) (state : PluginState) :
  Forall (fun e => Hooks.sessionID (snd e) <> "") events ->
  storeOfLastSession state /\ lastSeenSessionId state <> Some "" ->
  storeOfLastSession (handleAll events state)
  /\ lastSeenSessionId (handleAll events state) <> Some "".
Proof.
  unfold handleAll. intros Hev. revert state.
  induction Hev as [|e events He Hev IH]; simpl; intros s [Hs Hl]; [now split|].
  apply IH. split.
  - now apply handler_storeOfLastSession.
  - simpl. intros E. inv_ok E. now elim He.
Qed.

Lemma createPluginState_store_invariant :
  storeOfLastSession createPluginState /\ lastSeenSessionId createPluginState <> Some "".
Proof.
  split; [now left | discriminate].
Qed.

(** X7. When the invocations of the hook do not overlap (each one runs to its
    end before the next starts): along every such run from the initial
    state in which every event carries a non-empty session identifier, the
    correlation store holds at most one table, filed under the session
    seen last; so the table the Gemini adapter selects, the first
    non-empty one under any key, is the one stored for that session. *)
Theorem handleAll_store_of_last_session
        (events : list (Hooks.Client * Hooks.ChatParamsInput)) :
  Forall (fun e => Hooks.sessionID (snd e) <> "") events ->
  storeOfLastSession (handleAll events createPluginState)
  /\ lastSeenSessionId (handleAll events createPluginState) <> Some ""
  /\ forall table,
       Gemini.findPositionMapping
         (googleToolCallMapping (handleAll events createPluginState)) = Some table ->
       exists sessionId,
         lastSeenSessionId (handleAll events createPluginState) = Some sessionId
         /\ JSMap.get sessionId (googleToolCallMapping (handleAll events createPluginState))
            = Some table.
Proof.
  intros Hev.
  pose proof (handleAll_store_invariant events createPluginState Hev
                createPluginState_store_invariant) as H.
  destruct H as [Hst Hlast]. split; [exact Hst|]. split; [exact Hlast|].
  intros table Hf.
  destruct Hst as [E | (s & t & Hl & E)]; rewrite E in Hf; simpl in Hf; [discriminate|].
  exists s. split; [exact Hl|]. rewrite E; simpl. rewrite String.eqb_refl.
  destruct (0 <? JSMap.size t)%nat; [exact Hf | discriminate].
Qed.

(** Three invocations one after another: a Google session, another
    session, and that session with a Google provider.  The store ends
    with the one table of [ses_b]. *)
Lemma handleAll_store_of_last_session_witness :
  lastSeenSessionId
    (handleAll [(transcriptClient readWriteReadTranscript, chatParamsFor "ses_a" "google");
                (transcriptClient [], chatParamsFor "ses_b" "openai");
                (transcriptClient otherTranscript, chatParamsFor "ses_b" "google-vertex")]
               createPluginState) = Some "ses_b"
  /\ googleToolCallMapping
       (handleAll [(transcriptClient readWriteReadTranscript, chatParamsFor "ses_a" "google");
                   (transcriptClient [], chatParamsFor "ses_b" "openai");
                   (transcriptClient otherTranscript, chatParamsFor "ses_b" "google-vertex")]
                  createPluginState) = [("ses_b", [("read:0", "idb")])]
  /\ storeOfLastSession
       (handleAll [(transcriptClient readWriteReadTranscript, chatParamsFor "ses_a" "google");
                   (transcriptClient [], chatParamsFor "ses_b" "openai");
                   (transcriptClient otherTranscript, chatParamsFor "ses_b" "google-vertex")]
                  createPluginState).
Proof.
  split; [reflexivity|]. split; [reflexivity|].
  apply (handleAll_store_of_last_session
           [(transcriptClient readWriteReadTranscript, chatParamsFor "ses_a" "google");
            (transcriptClient [], chatParamsFor "ses_b" "openai");
            (transcriptClient otherTranscript, chatParamsFor "ses_b" "google-vertex")]).
  repeat constructor; discriminate.
Defined.

(** ** Invocations that overlap *)

(** The three stretches of an invocation, run with nothing in between,
    are the invocation. *)
Lemma handler_in_stretches (client : Hooks.Client) (state : PluginState)
      (input : Hooks.ChatParamsInput) :
  afterTranscript client input
    (afterSubagentCheck client input (snd (enterHandler state input))
       (fst (enterHandler state input)))
  = Hooks.createChatParamsHandler client state input.
Proof.
  reflexivity.
Qed.

(** When an invocation for another session runs while the first one waits
    for its transcript, the first one stores its table after the session
    change: the store then holds a table of [ses_a] although the session
    seen last is [ses_b].  The invariant of the runs without overlap does
    not hold of such a state. *)
Example overlapping_invocations_leave_stale_table :
  lastSeenSessionId overlappedState = Some "ses_b"
  /\ googleToolCallMapping overlappedState
     = [("ses_a", [("read:0", "id1"); ("read:1", "id3"); ("write:0", "id2")])]
  /\ ~ storeOfLastSession overlappedState.
Proof.
  split; [reflexivity|]. split; [reflexivity|].
  intros [E | (s & t & Hl & E)]; [discriminate|].
  vm_compute in Hl, E. inv_ok Hl. discriminate.
Qed.

(** ** Replaying an event, and the cached subagent check *)

(** X8. Handling the same event a second time, with the host answering as
    before, changes nothing: the hook is idempotent. *)
Theorem createChatParamsHandler_idempotent
        (client : Hooks.Client) (state : PluginState) (input : Hooks.ChatParamsInput) :
  Hooks.createChatParamsHandler client
    (Hooks.createChatParamsHandler client state input) input
  = Hooks.createChatParamsHandler client state input.
Proof.
  assert (Hk : existsb (String.eqb (Hooks.sessionID input))
                 (checkedSessions (Hooks.createChatParamsHandler client state input))
               = true).
  { apply existsb_eqb_In, handler_checkedSessions. now left. }
  unfold Hooks.createChatParamsHandler at 1.
  rewrite Hk.
  unfold Hooks.createChatParamsHandler; simpl.
  f_equal.
  - destruct (truthy (Hooks.resolveProviderID input)
              && truthy (getOpt (Hooks.inputModel input) "id"));
      [apply JSMap_set_set | reflexivity].
  - unfold Hooks.afterSessionChange at 1; simpl.
    rewrite String.eqb_refl, andb_false_r.
    unfold Hooks.afterMappingBuild.
    destruct (eqStr (Hooks.resolveProviderID input) "google"
              || eqStr (Hooks.resolveProviderID input) "google-vertex"); [|reflexivity].
    destruct (Hooks.fetchPositionMapping client (Hooks.sessionID input)) as [[t|]|];
      [apply JSMap_set_set | reflexivity | reflexivity].
Qed.

(** X9. The subagent check is made once per session: after a session has been
    checked, no later event changes whether it is listed as a subagent,
    whatever the host then reports. *)
Theorem subagent_status_is_cached
        (events : list (Hooks.Client * Hooks.ChatParamsInput))
        (state : PluginState) (sessionId : string) :
  In sessionId (checkedSessions state) ->
  In sessionId (checkedSessions (handleAll events state))
  /\ (In sessionId (subagentSessions (handleAll events state))
      <-> In sessionId (subagentSessions state)).
Proof.
  unfold handleAll. revert state.
  induction events as [|e events IH]; simpl; intros state Hc; [tauto|].
  assert (Hc' : In sessionId
                  (checkedSessions (Hooks.createChatParamsHandler (fst e) state (snd e)))).
  { apply handler_checkedSessions. now right. }
  destruct (IH _ Hc') as [H1 H2]. split; [exact H1|].
  rewrite H2, handler_subagentSessions. split; [|auto].
  intros [H | (_ & Hn & _)]; [exact H | now elim Hn].
Qed.

Lemma subagent_status_is_cached_witness :
  In "ses_a"
     (checkedSessions
        (handleAll [(transcriptClient [], chatParamsFor "ses_b" "openai");
                    ({| Hooks.sessionGet :=
                          fun _ => Ok (VObj [("data", VObj [("parentID", VStr "p")])]);
                        Hooks.sessionMessages := fun _ => Throw HostError |},
                     chatParamsFor "ses_a" "openai")]
           (Hooks.createChatParamsHandler (transcriptClient [])
              createPluginState (chatParamsFor "ses_a" "openai"))))
  /\ (In "ses_a"
         (subagentSessions
            (handleAll [(transcriptClient [], chatParamsFor "ses_b" "openai");
                        ({| Hooks.sessionGet :=
                              fun _ => Ok (VObj [("data", VObj [("parentID", VStr "p")])]);
                            Hooks.sessionMessages := fun _ => Throw HostError |},
                         chatParamsFor "ses_a" "openai")]
               (Hooks.createChatParamsHandler (transcriptClient [])
                  createPluginState (chatParamsFor "ses_a" "openai"))))
      <-> In "ses_a"
             (subagentSessions
                (Hooks.createChatParamsHandler (transcriptClient [])
                   createPluginState (chatParamsFor "ses_a" "openai")))).
Proof.
  apply (subagent_status_is_cached
           [(transcriptClient [], chatParamsFor "ses_b" "openai");
            ({| Hooks.sessionGet :=
                  fun _ => Ok (VObj [("data", VObj [("parentID", VStr "p")])]);
                Hooks.sessionMessages := fun _ => Throw HostError |},
             chatParamsFor "ses_a" "openai")]
           (Hooks.createChatParamsHandler (transcriptClient [])
              createPluginState (chatParamsFor "ses_a" "openai"))
           "ses_a").
  simpl. auto.
Defined.

(* ================================================================== *)
(** * The quick test [hasToolOutputs] against the extraction *)

(** A loop that collects and a test that stops at the first hit, over the
    same elements: when every element that makes the collection grow
    passes the test, a collection that grew means the test holds. *)
Lemma some_of_forOf {A S : Type} (size : S -> nat)
      (step : S -> A -> result S) (p : A -> result bool) :
  (forall acc x acc', step acc x = Ok acc' ->
     size acc <= size acc'
     /\ exists b, p x = Ok b /\ (size acc < size acc' -> b = true)) ->
  forall xs acc r, forOf xs acc step = Ok r ->
    size acc <= size r
    /\ exists b, some p xs = Ok b /\ (size acc < size r -> b = true).
Proof.
  intros Hstep xs; induction xs as [|x xs IH]; simpl; intros acc r H.
  - inv_ok H. split; [lia|]. exists false. split; [reflexivity | lia].
  - bind_inv H acc' Hx.
    destruct (Hstep _ _ _ Hx) as (Hle & b & Hp & Hb).
    destruct (IH _ _ H) as (Hle' & b' & Hp' & Hb').
    split; [lia|]. rewrite Hp; simpl.
    destruct b; [exists true; auto|].
    exists b'. split; [exact Hp'|]. intros Hlt. apply Hb'.
    destruct (Nat.lt_ge_cases (size acc) (size acc')) as [Hl|Hg]; [|lia].
    apply Hb in Hl. discriminate.
Qed.

Section HasToolOutputs.

Lemma chat_part_has acc part acc' :
  OpenaiChat.extractPart acc part = Ok acc' ->
  length acc <= length acc'
  /\ exists b, (ty <- get part "type" ;; Ok (eqStr ty "tool_result")) = Ok b
               /\ (length acc < length acc' -> b = true).
Proof.
  unfold OpenaiChat.extractPart; intros H.
  bind_inv H ty Ht. rewrite Ht; simpl.
  destruct (eqStr ty "tool_result").
  - bind_inv H i Hi. destruct (truthy i).
    + bind_inv H l Hl. bind_inv H c Hc. inv_ok H.
      unfold push; rewrite length_app; simpl. split; [lia | eauto].
    + inv_ok H. split; [lia | eauto].
  - inv_ok H. split; [lia|]. exists false; split; [reflexivity | lia].
Qed.

Lemma chat_turn_has acc m acc' :
  OpenaiChat.extractTurn acc m = Ok acc' ->
  length acc <= length acc'
  /\ exists b,
       (role <- get m "role" ;;
        if eqStr role "tool" then Ok true
        else if eqStr role "user" then
          c <- get m "content" ;;
          match c with
          | VArr parts =>
              some (fun part => ty <- get part "type" ;; Ok (eqStr ty "tool_result")) parts
          | _ => Ok false
          end
        else Ok false) = Ok b
       /\ (length acc < length acc' -> b = true).
Proof.
  unfold OpenaiChat.extractTurn, OpenaiChat.extractNative, OpenaiChat.extractAnthropic.
  intros H. bind_inv H acc1 H1. bind_inv H1 role Hr. rewrite Hr in *; simpl in *.
  destruct (eqStr role "tool") eqn:Et.
  - assert (Eu : eqStr role "user" = false).
    { destruct role; simpl in *; try reflexivity.
      apply String.eqb_eq in Et; subst; reflexivity. }
    rewrite Eu in H. inv_ok H.
    bind_inv H1 i Hi. destruct (truthy i).
    + bind_inv H1 l Hl. bind_inv H1 n Hn. bind_inv H1 c Hc. inv_ok H1.
      unfold push; rewrite length_app; simpl. split; [lia | eauto].
    + inv_ok H1. split; [lia | eauto].
  - inv_ok H1. destruct (eqStr role "user").
    + bind_inv H c Hc. rewrite Hc; simpl.
      destruct c; try (inv_ok H; split; [lia|]; exists false; split; [reflexivity | lia]).
      eapply (some_of_forOf (@length ToolOutput)); [|exact H].
      intros; now apply chat_part_has.
    + inv_ok H. split; [lia|]. exists false; split; [reflexivity | lia].
Qed.

Lemma responses_item_has acc item acc' :
  OpenaiResponses.extractItem acc item = Ok acc' ->
  length acc <= length acc'
  /\ exists b, (ty <- get item "type" ;; Ok (eqStr ty "function_call_output")) = Ok b
               /\ (length acc < length acc' -> b = true).
Proof.
  unfold OpenaiResponses.extractItem; intros H.
  bind_inv H ty Ht. rewrite Ht; simpl.
  destruct (eqStr ty "function_call_output").
  - bind_inv H i Hi. destruct (truthy i).
    + bind_inv H l Hl. bind_inv H n Hn. bind_inv H c Hc. inv_ok H.
      unfold push; rewrite length_app; simpl. split; [lia | eauto].
    + inv_ok H. split; [lia | eauto].
  - inv_ok H. split; [lia|]. exists false; split; [reflexivity | lia].
Qed.

Lemma bedrock_block_has acc block acc' :
  Bedrock.extractBlock acc block = Ok acc' ->
  length acc <= length acc'
  /\ exists b, (tr <- get block "toolResult" ;; Ok (truthy tr)) = Ok b
               /\ (length acc < length acc' -> b = true).
Proof.
  unfold Bedrock.extractBlock; intros H.
  bind_inv H tr Ht. rewrite Ht; simpl.
  destruct (truthy tr).
  - bind_inv H i Hi. destruct (truthy i).
    + bind_inv H l Hl. bind_inv H c Hc. bind_inv H t Htx. inv_ok H.
      unfold push; rewrite length_app; simpl. split; [lia | eauto].
    + inv_ok H. split; [lia | eauto].
  - inv_ok H. split; [lia|]. exists false; split; [reflexivity | lia].
Qed.

Lemma bedrock_turn_has acc m acc' :
  Bedrock.extractTurn acc m = Ok acc' ->
  length acc <= length acc'
  /\ exists b,
       (role <- get m "role" ;;
        if eqStr role "user" then
          c <- get m "content" ;;
          match c with
          | VArr blocks =>
              some (fun block => tr <- get block "toolResult" ;; Ok (truthy tr)) blocks
          | _ => Ok false
          end
        else Ok false) = Ok b
       /\ (length acc < length acc' -> b = true).
Proof.
  unfold Bedrock.extractTurn; intros H.
  bind_inv H role Hr. rewrite Hr; simpl.
  destruct (eqStr role "user").
  - bind_inv H c Hc. rewrite Hc; simpl.
    destruct c; try (inv_ok H; split; [lia|]; exists false; split; [reflexivity | lia]).
    eapply (some_of_forOf (@length ToolOutput)); [|exact H].
    intros; now apply bedrock_block_has.
  - inv_ok H. split; [lia|]. exists false; split; [reflexivity | lia].
Qed.

Lemma gemini_fallbackPart_has acc part acc' :
  Gemini.fallbackPart acc part = Ok acc' ->
  length acc <= length acc'
  /\ exists b, (fr <- get part "functionResponse" ;; Ok (truthy fr)) = Ok b
               /\ (length acc < length acc' -> b = true).
Proof.
  unfold Gemini.fallbackPart; intros H.
  bind_inv H fr Hf. rewrite Hf; simpl.
  destruct (truthy fr).
  - bind_inv H n Hn. bind_inv H l Hl. bind_inv H r Hr. inv_ok H.
    unfold push; rewrite length_app; simpl. split; [lia | eauto].
  - inv_ok H. split; [lia|]. exists false; split; [reflexivity | lia].
Qed.

Lemma gemini_correlatedPart_has t (acc acc' : list ToolOutput * JSMap.t nat) part :
  Gemini.correlatedPart t acc part = Ok acc' ->
  length (fst acc) <= length (fst acc')
  /\ exists b, (fr <- get part "functionResponse" ;; Ok (truthy fr)) = Ok b
               /\ (length (fst acc) < length (fst acc') -> b = true).
Proof.
  destruct acc as [outs cs]. unfold Gemini.correlatedPart; intros H.
  bind_inv H fr Hf. rewrite Hf; simpl.
  destruct (truthy fr).
  - split; [|eauto].
    bind_inv H n Hn. bind_inv H l Hl.
    destruct l; try (inv_ok H; simpl; lia).
    destruct (truthy (VStr s)); [|inv_ok H; simpl; lia].
    bind_inv H r Hr. inv_ok H. simpl. unfold push; rewrite length_app; simpl. lia.
  - inv_ok H. split; [simpl; lia|]. exists false; split; [reflexivity | simpl; lia].
Qed.

Lemma gemini_content_has {S : Type} (size : S -> nat)
      (partStep : S -> value -> result S) acc c acc' :
  (forall a p a', partStep a p = Ok a' ->
     size a <= size a'
     /\ exists b, (fr <- get p "functionResponse" ;; Ok (truthy fr)) = Ok b
                  /\ (size a < size a' -> b = true)) ->
  (parts <- get c "parts" ;;
   match parts with
   | VArr ps => forOf ps acc partStep
   | _ => Ok acc
   end) = Ok acc' ->
  size acc <= size acc'
  /\ exists b,
       (parts <- get c "parts" ;;
        match parts with
        | VArr ps =>
            some (fun part => fr <- get part "functionResponse" ;; Ok (truthy fr)) ps
        | _ => Ok false
        end) = Ok b
       /\ (size acc < size acc' -> b = true).
Proof.
  intros Hp H. bind_inv H parts Hg. rewrite Hg; simpl.
  destruct parts; try (inv_ok H; split; [lia|]; exists false; split; [reflexivity | lia]).
  eapply (some_of_forOf size); [exact Hp | exact H].
Qed.

End HasToolOutputs.

(** X10. For each of the four formats, on every turn array on which the
    extraction returns, [hasToolOutputs] returns as well, and it answers
    [true] whenever the extraction found a tool output: the quick test has
    no false negative. *)
Theorem hasToolOutputs_sound
        (format : FormatDescriptor) (data : list value) (state : PluginState)
        (outputs : list ToolOutput) :
  In format formats ->
  extractToolOutputs format data state = Ok outputs ->
  exists b, hasToolOutputs format data = Ok b /\ (outputs <> [] -> b = true).
Proof.
  intros Hf H.
  assert (Hgoal : forall acc0 r : list ToolOutput,
            length acc0 = 0 -> length acc0 <= length r
            /\ (exists b, hasToolOutputs format data = Ok b
                          /\ (length acc0 < length r -> b = true)) ->
            r = outputs ->
            exists b, hasToolOutputs format data = Ok b /\ (outputs <> [] -> b = true)).
  { intros acc0 r H0 (_ & b & Hb & Hlt) ->. exists b. split; [exact Hb|].
    intros Hne. apply Hlt. rewrite H0. destruct outputs; [now elim Hne | simpl; lia]. }
  destruct (name_in_formats _ Hf) as [-> | [-> | [-> | ->]]]; simpl in *.
  - apply (Hgoal [] outputs eq_refl); [|reflexivity].
    eapply (some_of_forOf (@length ToolOutput)); [|exact H].
    intros; now apply responses_item_has.
  - apply (Hgoal [] outputs eq_refl); [|reflexivity].
    eapply (some_of_forOf (@length ToolOutput)); [|exact H].
    intros; now apply bedrock_turn_has.
  - apply (Hgoal [] outputs eq_refl); [|reflexivity].
    eapply (some_of_forOf (@length ToolOutput)); [|exact H].
    intros; now apply chat_turn_has.
  - unfold Gemini.extractToolOutputs in H.
    destruct (Gemini.findPositionMapping (googleToolCallMapping state)) as [t|].
    + bind_inv H r Hr. destruct r as [outs cs]. inv_ok H.
      destruct (some_of_forOf (fun a : list ToolOutput * JSMap.t nat => length (fst a))
                  (Gemini.correlatedContent t)
                  (fun c => parts <- get c "parts" ;;
                            match parts with
                            | VArr ps =>
                                some (fun part => fr <- get part "functionResponse" ;;
                                                  Ok (truthy fr)) ps
                            | _ => Ok false
                            end)) with (xs := data) (acc := (@nil ToolOutput, @JSMap.empty nat))
                                       (r := (outputs, cs))
        as (_ & b & Hb & Hlt); [|exact Hr|].
      * intros acc x acc' Hx.
        apply (gemini_content_has (fun a : list ToolOutput * JSMap.t nat => length (fst a))
                 (Gemini.correlatedPart t)); [|exact Hx].
        intros; eapply gemini_correlatedPart_has; eassumption.
      * exists b. split; [exact Hb|]. intros Hne. apply Hlt. simpl.
        destruct outputs; [now elim Hne | simpl; lia].
    + apply (Hgoal [] outputs eq_refl); [|reflexivity].
      eapply (some_of_forOf (@length ToolOutput)); [|exact H].
      intros acc x acc' Hx.
      apply (gemini_content_has (@length ToolOutput) Gemini.fallbackPart); [|exact Hx].
      intros; now apply gemini_fallbackPart_has.
Qed.

Lemma hasToolOutputs_sound_witness :
  exists b, hasToolOutputs openaiChatFormat [chatUserTurn; chatAssistantTurn; chatToolTurn]
            = Ok b
            /\ ([{| id := "call_1"; toolName := VUndefined; content := VStr "a.txt b.txt" |}]
                <> [] -> b = true).
Proof.
  apply (hasToolOutputs_sound openaiChatFormat
           [chatUserTurn; chatAssistantTurn; chatToolTurn] createPluginState
           [{| id := "call_1"; toolName := VUndefined; content := VStr "a.txt b.txt" |}]).
  - simpl; auto.
  - reflexivity.
Defined.

(** The converse fails: a tool turn without an identifier passes the
    quick test and yields no tool output. *)
Example hasToolOutputs_without_outputs :
  hasToolOutputs openaiChatFormat [VObj [("role", VStr "tool"); ("content", VStr "x")]]
  = Ok true
  /\ extractToolOutputs openaiChatFormat
       [VObj [("role", VStr "tool"); ("content", VStr "x")]] createPluginState
     = Ok [].
Proof. split; reflexivity. Qed.

(* ================================================================== *)
(** * Extraction turn by turn *)

(** A collecting loop whose body only appends to what it is given can be
    run from the empty collection. *)
Lemma forOf_collect {A B : Type} (step : list B -> A -> result (list B)) :
  (forall acc x, step acc x = (n <- step [] x ;; Ok (acc ++ n)%list)) ->
  forall xs acc, forOf xs acc step = (n <- forOf xs [] step ;; Ok (acc ++ n)%list).
Proof.
  intros Hstep xs; induction xs as [|x xs IH]; intros acc; simpl.
  - now rewrite app_nil_r.
  - rewrite (Hstep acc x). destruct (step [] x) as [n|e]; simpl; [|reflexivity].
    rewrite (IH (acc ++ n)%list), (IH n).
    destruct (forOf xs [] step) as [m|e]; simpl; [|reflexivity].
    now rewrite app_assoc.
Qed.

(** Case analysis on the computations a loop body chains. *)
Ltac by_cases :=
  repeat match goal with
         | |- context [if ?b then _ else _] => destruct b; simpl
         | |- context [bind ?r _] =>
             lazymatch r with
             | bind _ _ => fail
             | forOf _ _ _ => fail
             | _ => destruct r; simpl
             end
         end;
  try reflexivity; try (unfold push; now rewrite ?app_nil_r).

Lemma chat_extractPart_collect acc part :
  OpenaiChat.extractPart acc part
  = (n <- OpenaiChat.extractPart [] part ;; Ok (acc ++ n)%list).
Proof.
  unfold OpenaiChat.extractPart. by_cases.
Qed.

Lemma chat_extractTurn_collect acc m :
  OpenaiChat.extractTurn acc m
  = (n <- OpenaiChat.extractTurn [] m ;; Ok (acc ++ n)%list).
Proof.
  unfold OpenaiChat.extractTurn, OpenaiChat.extractNative, OpenaiChat.extractAnthropic.
  destruct (get m "role") as [role|e]; simpl; [|reflexivity].
  destruct (eqStr role "tool") eqn:Et.
  - assert (Eu : eqStr role "user" = false).
    { destruct role; simpl in *; try reflexivity.
      apply String.eqb_eq in Et; subst; reflexivity. }
    rewrite Eu. by_cases.
  - simpl. destruct (eqStr role "user"); simpl; [|now rewrite app_nil_r].
    destruct (get m "content") as [c|e]; simpl; [|reflexivity].
    destruct c; simpl; try (now rewrite app_nil_r).
    apply forOf_collect. apply chat_extractPart_collect.
Qed.

Lemma responses_extractItem_collect acc item :
  OpenaiResponses.extractItem acc item
  = (n <- OpenaiResponses.extractItem [] item ;; Ok (acc ++ n)%list).
Proof.
  unfold OpenaiResponses.extractItem. by_cases.
Qed.

Lemma bedrock_extractBlock_collect acc block :
  Bedrock.extractBlock acc block
  = (n <- Bedrock.extractBlock [] block ;; Ok (acc ++ n)%list).
Proof.
  unfold Bedrock.extractBlock.
  destruct (get block "toolResult") as [tr|e]; simpl; [|reflexivity].
  destruct (truthy tr); simpl; [|now rewrite app_nil_r].
  destruct (get tr "toolUseId") as [i|e]; simpl; [|reflexivity].
  destruct (truthy i); simpl; [|now rewrite app_nil_r].
  destruct (callToLowerCase i); simpl; [|reflexivity].
  destruct (get tr "content") as [c|e]; simpl; [|reflexivity].
  destruct c; simpl; try reflexivity.
  destruct (Bedrock.mapM Bedrock.blockText items); reflexivity.
Qed.

Lemma bedrock_extractTurn_collect acc m :
  Bedrock.extractTurn acc m
  = (n <- Bedrock.extractTurn [] m ;; Ok (acc ++ n)%list).
Proof.
  unfold Bedrock.extractTurn.
  destruct (get m "role") as [role|e]; simpl; [|reflexivity].
  destruct (eqStr role "user"); simpl; [|now rewrite app_nil_r].
  destruct (get m "content") as [c|e]; simpl; [|reflexivity].
  destruct c; simpl; try (now rewrite app_nil_r).
  apply forOf_collect. apply bedrock_extractBlock_collect.
Qed.

(** The tool outputs of the three formats that carry identifiers are
    collected turn by turn. *)
Lemma extractToolOutputs_collect (format : FormatDescriptor) :
  In format [openaiResponsesFormat; bedrockFormat; openaiChatFormat] ->
  exists step : list ToolOutput -> value -> result (list ToolOutput),
    (forall data state, extractToolOutputs format data state = forOf data [] step)
    /\ (forall acc x, step acc x = (n <- step [] x ;; Ok (acc ++ n)%list)).
Proof.
  intros [<- | [<- | [<- | []]]].
  - exists OpenaiResponses.extractItem. split; [reflexivity|].
    apply responses_extractItem_collect.
  - exists Bedrock.extractTurn. split; [reflexivity|]. apply bedrock_extractTurn_collect.
  - exists OpenaiChat.extractTurn. split; [reflexivity|]. apply chat_extractTurn_collect.
Qed.

(** X11. For the Chat, Responses and Bedrock formats the extraction distributes
    over the concatenation of turn arrays: the tool outputs of [d1 ++ d2]
    are those of [d1] followed by those of [d2], and the call raises when
    the call on [d1] does or else when the call on [d2] does.  So the
    output a turn yields depends on no other turn. *)
Theorem extractToolOutputs_app
        (format : FormatDescriptor) (d1 d2 : list value) (state : PluginState) :
  In format [openaiResponsesFormat; bedrockFormat; openaiChatFormat] ->
  extractToolOutputs format (d1 ++ d2) state
  = (o1 <- extractToolOutputs format d1 state ;;
     o2 <- extractToolOutputs format d2 state ;;
     Ok (o1 ++ o2)%list).
Proof.
  intros Hf. destruct (extractToolOutputs_collect _ Hf) as (step & Hs & Hc).
  rewrite !Hs, forOf_app.
  destruct (forOf d1 [] step) as [o1|e]; simpl; [|reflexivity].
  apply forOf_collect, Hc.
Qed.

Lemma extractToolOutputs_app_witness :
  extractToolOutputs openaiChatFormat
    ([chatUserTurn; chatAssistantTurn] ++ [chatToolTurn]) createPluginState
  = (o1 <- extractToolOutputs openaiChatFormat [chatUserTurn; chatAssistantTurn]
             createPluginState ;;
     o2 <- extractToolOutputs openaiChatFormat [chatToolTurn] createPluginState ;;
     Ok (o1 ++ o2)%list).
Proof.
  apply (extractToolOutputs_app openaiChatFormat
           [chatUserTurn; chatAssistantTurn] [chatToolTurn] createPluginState).
  simpl; auto.
Defined.

(** Gemini is the exception: the identifier of an output counts the
    outputs before it. *)
Example gemini_extraction_depends_on_earlier_turns :
  extractToolOutputs geminiFormat
    [VObj [("parts", VArr [functionResponsePart "read"])]] createPluginState
  = Ok [{| id := "gemini-read-0"; toolName := VStr "read"; content := VStr "ok" |}]
  /\ extractToolOutputs geminiFormat
       ([VObj [("parts", VArr [functionResponsePart "write"])]]
        ++ [VObj [("parts", VArr [functionResponsePart "read"])]]) createPluginState
     = Ok [{| id := "gemini-write-0"; toolName := VStr "write"; content := VStr "ok" |};
           {| id := "gemini-read-1"; toolName := VStr "read"; content := VStr "ok" |}].
Proof. split; reflexivity. Qed.

(* ================================================================== *)
(** * Keys of the correlation table and synthetic identifiers *)

Lemma to_uint_not_Nil (n : nat) : Nat.to_uint n <> Decimal.Nil.
Proof.
  rewrite <- (DecimalNat.Unsigned.of_to n) at 1. rewrite DecimalNat.Unsigned.to_of.
  apply DecimalFacts.unorm_nonnil.
Qed.

Lemma decimal_inj (n m : nat) : decimal n = decimal m -> n = m.
Proof.
  unfold decimal; intros H.
  apply (f_equal NilZero.uint_of_string) in H.
  rewrite !NilZero.usu in H by apply to_uint_not_Nil.
  inv_ok H. now apply DecimalNat.Unsigned.to_uint_inj.
Qed.

(** The decimal rendering of an index holds digits only: neither of the
    separators [:] and [-] occurs in it. *)
Lemma occurs_uint (c : ascii) (d : Decimal.uint) :
  c = ":"%char \/ c = "-"%char -> occurs c (NilEmpty.string_of_uint d) = false.
Proof.
  intros [-> | ->]; induction d; simpl; auto.
Qed.

Lemma occurs_decimal (c : ascii) (n : nat) :
  c = ":"%char \/ c = "-"%char -> occurs c (decimal n) = false.
Proof.
  intros Hc. unfold decimal, NilZero.string_of_uint.
  destruct (Nat.to_uint n) eqn:E; try (rewrite <- E; now apply occurs_uint).
  destruct Hc as [-> | ->]; reflexivity.
Qed.

Lemma occurs_app_sep (c : ascii) (s t : string) : occurs c (s ++ String c t) = true.
Proof.
  induction s as [|a s IH]; simpl.
  - now rewrite Ascii.eqb_refl.
  - rewrite IH. apply orb_true_r.
Qed.

(** A text is split in one way only at the last occurrence of a
    separator. *)
Lemma split_at_last (c : ascii) (s s' d d' : string) :
  occurs c d = false -> occurs c d' = false ->
  s ++ String c d = s' ++ String c d' -> s = s' /\ d = d'.
Proof.
  intros Hd Hd'. revert s'. induction s as [|a s IH]; intros [|a' s'] H; simpl in H.
  - inv_ok H. auto.
  - inv_ok H. rewrite occurs_app_sep in Hd. discriminate.
  - inv_ok H. rewrite occurs_app_sep in Hd'. discriminate.
  - inv_ok H. destruct (IH _ H2) as [-> ->]. auto.
Qed.

Lemma positionKey_inj (n n' : string) (k k' : nat) :
  Gemini.positionKey n k = Gemini.positionKey n' k' -> n = n' /\ k = k'.
Proof.
  unfold Gemini.positionKey. simpl. intros H.
  apply split_at_last in H; try (apply occurs_decimal; auto).
  destruct H as [-> H]. apply decimal_inj in H. auto.
Qed.

(** X12. The key [`${toolName}:${index}`] determines the tool name and the
    index: no two (tool, occurrence) pairs share an entry of the
    correlation table, also for tool names that hold colons or digits. *)
Theorem positionKey_injective (toolName toolName' : string) (index index' : nat) :
  Gemini.positionKey toolName index = Gemini.positionKey toolName' index' ->
  toolName = toolName' /\ index = index'.
Proof.
  apply positionKey_inj.
Qed.

Lemma positionKey_injective_witness : "fs:read" = "fs:read" /\ 10 = 10.
Proof.
  apply (positionKey_injective "fs:read" "fs:read" 10 10). reflexivity.
Defined.

Example positionKey_with_colon : Gemini.positionKey "fs:read" 10 = "fs:read:10".
Proof. reflexivity. Qed.

Lemma syntheticId_inj (f f' : value) (k k' : nat) :
  Gemini.syntheticId f k = Gemini.syntheticId f' k' ->
  toStringJS f = toStringJS f' /\ k = k'.
Proof.
  unfold Gemini.syntheticId. intros H.
  change ("gemini-" ++ toStringJS f ++ "-" ++ decimal k)
    with ("gemini-" ++ (toStringJS f ++ String "-"%char (decimal k))) in H.
  change ("gemini-" ++ toStringJS f' ++ "-" ++ decimal k')
    with ("gemini-" ++ (toStringJS f' ++ String "-"%char (decimal k'))) in H.
  simpl in H. inv_ok H.
  apply split_at_last in H1; try (apply occurs_decimal; auto).
  destruct H1 as [-> H]. apply decimal_inj in H. auto.
Qed.

Lemma fallback_ids_from (k : nat) (parts : list value) (i : string) :
  In i (map id (indexFrom fallbackOutput k parts)) ->
  exists f j, k <= j /\ i = Gemini.syntheticId f j.
Proof.
  revert k; induction parts as [|p parts IH]; simpl; intros k H; [contradiction|].
  destruct H as [<- | H].
  - exists (partToolName p), k. split; [lia | reflexivity].
  - destruct (IH _ H) as (f & j & Hj & ->). exists f, j. split; [lia | reflexivity].
Qed.

Lemma fallback_ids_NoDup (k : nat) (parts : list value) :
  NoDup (map id (indexFrom fallbackOutput k parts)).
Proof.
  revert k; induction parts as [|p parts IH]; simpl; intros k; constructor.
  - intros H. apply fallback_ids_from in H. destruct H as (f & j & Hj & E).
    change ("gemini-" ++ toStringJS (partToolName p) ++ "-" ++ decimal k)
      with (Gemini.syntheticId (partToolName p) k) in E.
    apply syntheticId_inj in E. lia.
  - apply IH.
Qed.

(** X13. Without a correlation table, the identifiers Gemini extraction makes
    up are pairwise distinct within a body, whatever the tool names (also
    names that end in digits or hold dashes): the running index alone
    tells them apart. *)
Theorem gemini_fallback_ids_distinct
        (data : list value) (state : PluginState) (outputs : list ToolOutput) :
  Gemini.findPositionMapping (googleToolCallMapping state) = None ->
  extractToolOutputs geminiFormat data state = Ok outputs ->
  NoDup (map id outputs).
Proof.
  intros Hnone H. simpl in H. unfold Gemini.extractToolOutputs in H.
  rewrite Hnone in H. apply fallbackContents_spec in H. subst outputs.
  apply fallback_ids_NoDup.
Qed.

Lemma gemini_fallback_ids_distinct_witness :
  NoDup (map id [{| id := "gemini-read-0"; toolName := VStr "read"; content := VStr "ok" |};
                 {| id := "gemini-write-1"; toolName := VStr "write"; content := VStr "ok" |};
                 {| id := "gemini-read-2"; toolName := VStr "read"; content := VStr "ok" |}]).
Proof.
  apply (gemini_fallback_ids_distinct readWriteReadContents createPluginState).
  - reflexivity.
  - reflexivity.
Defined.

(* ================================================================== *)
(** * The correlation table of an arbitrary transcript *)

Lemma JSMap_get_None_keys {V : Type} (k : string) (m : JSMap.t V) :
  JSMap.get k m = None <-> ~ In k (JSMap.keys m).
Proof.
  unfold JSMap.keys. induction m as [|[k0 v0] m IH]; simpl.
  - tauto.
  - destruct (String.eqb_spec k k0) as [-> | Hne].
    + split; [discriminate | intros H; elim H; auto].
    + rewrite IH. split; [intros H [E | E]; [now elim Hne | now elim H] | tauto].
Qed.

Lemma JSMap_set_NoDup {V : Type} (k : string) (v : V) (m : JSMap.t V) :
  NoDup (JSMap.keys m) -> NoDup (JSMap.keys (JSMap.set k v m)).
Proof.
  unfold JSMap.keys. induction m as [|[k0 v0] m IH]; simpl; intros H.
  - constructor; [tauto | constructor].
  - inversion H as [|? ? Hn Hd]; subst.
    destruct (String.eqb_spec k k0) as [-> | Hne]; simpl; constructor; auto.
    intros Hin. apply (JSMap_keys_set k v m k0) in Hin.
    destruct Hin as [-> | Hin]; [now elim Hne | now elim Hn].
Qed.

(** ** Grouping the calls by tool name *)

Lemma addCall_get (acc : JSMap.t (list string)) (n c n' : string) :
  JSMap.get n' (addCall acc (n, c))
  = if String.eqb n' n
    then Some (match JSMap.get n acc with Some l => l ++ [c] | None => [c] end)%list
    else JSMap.get n' acc.
Proof.
  unfold addCall, JSMap.has, push.
  destruct (JSMap.get n acc) as [l|] eqn:E.
  - rewrite E. destruct (String.eqb_spec n' n) as [-> | Hne].
    + apply JSMap_get_set_same.
    + now apply JSMap_get_set_other.
  - rewrite JSMap_get_set_same. rewrite JSMap_set_set.
    destruct (String.eqb_spec n' n) as [-> | Hne].
    + apply JSMap_get_set_same.
    + now apply JSMap_get_set_other.
Qed.

Lemma addCall_NoDup (acc : JSMap.t (list string)) (call : string * string) :
  NoDup (JSMap.keys acc) -> NoDup (JSMap.keys (addCall acc call)).
Proof.
  destruct call as [n c]. unfold addCall, JSMap.has; intros H.
  destruct (JSMap.get n acc) as [l|] eqn:E.
  - rewrite E. now apply JSMap_set_NoDup.
  - rewrite JSMap_get_set_same. now apply JSMap_set_NoDup, JSMap_set_NoDup.
Qed.

Lemma callIdsOf_app (n : string) (a b : list (string * string)) :
  callIdsOf n (a ++ b) = (callIdsOf n a ++ callIdsOf n b)%list.
Proof.
  unfold callIdsOf. now rewrite filter_app, map_app.
Qed.

Lemma callIdsOf_cons (n' n i : string) (cs : list (string * string)) :
  callIdsOf n' ((n, i) :: cs)
  = if String.eqb n' n then i :: callIdsOf n' cs else callIdsOf n' cs.
Proof.
  unfold callIdsOf; simpl. rewrite (String.eqb_sym n n').
  destruct (String.eqb n' n); reflexivity.
Qed.

Lemma grouped_get (cs : list (string * string)) (acc : JSMap.t (list string)) (n : string) :
  JSMap.get n (fold_left addCall cs acc)
  = match JSMap.get n acc, callIdsOf n cs with
    | None, [] => None
    | None, l => Some l
    | Some l0, l => Some (l0 ++ l)%list
    end.
Proof.
  revert acc; induction cs as [|[n0 c0] cs IH]; intros acc.
  - simpl. destruct (JSMap.get n acc); [now rewrite app_nil_r | reflexivity].
  - cbn [fold_left]. rewrite IH, addCall_get. unfold callIdsOf; simpl.
    rewrite (String.eqb_sym n0 n).
    destruct (String.eqb_spec n n0) as [-> | Hne]; simpl.
    + fold (callIdsOf n0 cs).
      destruct (JSMap.get n0 acc) as [l|]; [now rewrite <- app_assoc | reflexivity].
    + reflexivity.
Qed.

Lemma grouped_NoDup (cs : list (string * string)) (acc : JSMap.t (list string)) :
  NoDup (JSMap.keys acc) -> NoDup (JSMap.keys (fold_left addCall cs acc)).
Proof.
  revert acc; induction cs as [|c cs IH]; simpl; intros acc H; [exact H|].
  apply IH. now apply addCall_NoDup.
Qed.

(** ** Flattening the groups *)

Lemma setPositions_get (n : string) (l : list string) (i : nat) (pm : JSMap.t string)
      (n' : string) (k : nat) :
  JSMap.get (Gemini.positionKey n' k) (Hooks.setPositions n i l pm)
  = if String.eqb n' n && (i <=? k)%nat && (k <? i + length l)%nat
    then nth_error l (k - i)
    else JSMap.get (Gemini.positionKey n' k) pm.
Proof.
  revert i pm; induction l as [|c l IH]; intros i pm.
  - cbn [Hooks.setPositions length].
    destruct (String.eqb n' n); cbn [andb]; [|reflexivity].
    destruct (Nat.leb_spec i k); cbn [andb]; [|reflexivity].
    destruct (Nat.ltb_spec k (i + 0)); [lia | reflexivity].
  - cbn [Hooks.setPositions length]. rewrite IH.
    destruct (String.eqb_spec n' n) as [-> | Hne]; cbn [andb].
    + destruct (Nat.leb_spec (S i) k), (Nat.leb_spec i k),
        (Nat.ltb_spec k (S i + length l)), (Nat.ltb_spec k (i + S (length l)));
        cbn [andb];
        first [ lia
              | replace (k - i) with (S (k - S i)) by lia; reflexivity
              | assert (k = i) by lia; subst k; rewrite Nat.sub_diag;
                apply JSMap_get_set_same
              | apply JSMap_get_set_other; intros E; apply positionKey_inj in E; lia ].
    + apply JSMap_get_set_other. intros E. apply positionKey_inj in E.
      now elim Hne.
Qed.

Lemma flatten_fold_get (G : JSMap.t (list string)) (pm : JSMap.t string)
      (n : string) (k : nat) :
  NoDup (JSMap.keys G) ->
  JSMap.get (Gemini.positionKey n k)
    (fold_left (fun positionMapping entry =>
                  Hooks.setPositions (fst entry) 0 (snd entry) positionMapping) G pm)
  = match JSMap.get n G with
    | Some l => if (k <? length l)%nat then nth_error l k
                else JSMap.get (Gemini.positionKey n k) pm
    | None => JSMap.get (Gemini.positionKey n k) pm
    end.
Proof.
  revert pm; induction G as [|[n0 l0] G IH]; intros pm Hd; simpl; [reflexivity|].
  unfold JSMap.keys in Hd; simpl in Hd. inversion Hd as [|? ? Hn Hd']; subst.
  rewrite (IH _ Hd'), setPositions_get. simpl. rewrite Nat.sub_0_r.
  destruct (String.eqb_spec n n0) as [-> | Hne]; simpl.
  - apply JSMap_get_None_keys in Hn. rewrite Hn. reflexivity.
  - reflexivity.
Qed.

(** The table of a transcript, read at a key. *)
Lemma table_lookup (cs : list (string * string)) (n : string) (k : nat) :
  JSMap.get (Gemini.positionKey n k) (Hooks.flatten (fold_left addCall cs JSMap.empty))
  = nth_error (callIdsOf n cs) k.
Proof.
  unfold Hooks.flatten. rewrite flatten_fold_get.
  - rewrite grouped_get. simpl.
    destruct (callIdsOf n cs) as [|c l] eqn:E.
    + now destruct k.
    + destruct (Nat.ltb_spec k (length (c :: l))); [reflexivity|].
      symmetry. now apply nth_error_None.
  - apply grouped_NoDup. constructor.
Qed.

(** X14. For every transcript on which the builder completes, the table holds
    under the key of the tool [toolName] and the index [k] the identifier
    of the call of rank [k] among the transcript's calls of that tool, and
    nothing under that key when the transcript has no such call. *)
Theorem buildPositionMapping_lookup
        (messages : list value) (table : JSMap.t string) (toolName : string) (k : nat) :
  Hooks.buildPositionMapping messages = Ok table ->
  JSMap.get (Gemini.positionKey toolName k) table
  = nth_error (callIdsOf toolName (transcriptToolCalls messages)) k.
Proof.
  intros H. rewrite (buildPositionMapping_spec _ _ H). apply table_lookup.
Qed.

Lemma buildPositionMapping_lookup_witness :
  JSMap.get (Gemini.positionKey "read" 1)
            [("read:0", "id1"); ("read:1", "id3"); ("write:0", "id2")]
  = nth_error (callIdsOf "read" (transcriptToolCalls readWriteReadTranscript)) 1.
Proof.
  apply (buildPositionMapping_lookup readWriteReadTranscript
           [("read:0", "id1"); ("read:1", "id3"); ("write:0", "id2")] "read" 1).
  reflexivity.
Defined.

(* ================================================================== *)
(** * Replaying a transcript *)

Lemma toolCallsOfParts_wf (parts : list value) (c : string * string) :
  In c (toolCallsOfParts parts) ->
  fst c <> "" /\ snd c <> "" /\ toLowerCase (snd c) = snd c.
Proof.
  unfold toolCallsOfParts. rewrite in_flat_map. intros (p & _ & H).
  unfold toolCallOf in H.
  destruct (eqStr (getOpt p "type") "tool"); [|contradiction].
  destruct (getOpt p "callID") as [| | | |callID| |]; try contradiction.
  destruct (getOpt p "tool") as [| | | |tool| |]; try contradiction.
  destruct (String.eqb_spec callID ""); simpl in H; [contradiction|].
  destruct (String.eqb_spec tool ""); simpl in H; [contradiction|].
  destruct H as [<- | []]. simpl. repeat split.
  - now rewrite toLowerCase_empty_iff.
  - now rewrite toLowerCase_empty_iff.
  - apply toLowerCase_idem.
Qed.

Lemma transcriptToolCalls_wf (messages : list value) (c : string * string) :
  In c (transcriptToolCalls messages) ->
  fst c <> "" /\ snd c <> "" /\ toLowerCase (snd c) = snd c.
Proof.
  unfold transcriptToolCalls. rewrite in_flat_map. intros (m & _ & H).
  destruct (getOpt m "parts"); try contradiction.
  now apply toolCallsOfParts_wf with items.
Qed.

Lemma replay_fold (t : JSMap.t string) (cs : list (string * string)) :
  (forall n k, JSMap.get (Gemini.positionKey n k) t = nth_error (callIdsOf n cs) k) ->
  (forall c, In c cs -> fst c <> "" /\ snd c <> "" /\ toLowerCase (snd c) = snd c) ->
  forall pre done post acc counters,
    cs = (done ++ pre ++ post)%list ->
    (forall n, Gemini.counterOf counters n = length (callIdsOf n done)) ->
    fst (fold_left (correlateName t) (map (fun c => VStr (fst c)) pre) (acc, counters))
    = (acc ++ map snd pre)%list.
Proof.
  intros Ht Hwf pre; induction pre as [|[n i] pre IH]; intros done post acc counters Hcs Hc.
  - simpl. now rewrite app_nil_r.
  - assert (Hin : In (n, i) cs).
    { rewrite Hcs. apply in_or_app; right. now left. }
    destruct (Hwf _ Hin) as (Hn & Hi & Hl); simpl in Hn, Hi, Hl.
    simpl. apply String.eqb_neq in Hn. rewrite Hn; simpl.
    rewrite Ht, Hc, Hcs, callIdsOf_app.
    rewrite nth_error_app2 by lia. rewrite Nat.sub_diag.
    change (((n, i) :: pre) ++ post)%list with ((n, i) :: pre ++ post)%list.
    rewrite callIdsOf_cons, String.eqb_refl; simpl.
    unfold Gemini.correlatedId. rewrite Hl. simpl.
    apply String.eqb_neq in Hi. rewrite Hi; simpl.
    rewrite (IH (done ++ [(n, i)])%list post).
    + unfold push. now rewrite <- app_assoc.
    + rewrite Hcs, <- app_assoc. reflexivity.
    + intros n'. rewrite counterOf_set, callIdsOf_app, length_app, callIdsOf_cons.
      destruct (String.eqb n' n) eqn:E; simpl.
      * apply String.eqb_eq in E. subst n'. lia.
      * rewrite Hc. unfold callIdsOf; simpl. lia.
Qed.

(** X15. The correlation is right for every transcript: when the selected
    table is the one built from a transcript and the function responses of
    the body carry, in order, the tool names of the transcript's first
    calls, the extraction gives each response the identifier of its call. *)
Theorem gemini_correlation_replays_transcript
        (messages : list value) (table : JSMap.t string) (state : PluginState)
        (data : list value) (outputs : list ToolOutput)
        (replayed later : list (string * string)) :
  Hooks.buildPositionMapping messages = Ok table ->
  Gemini.findPositionMapping (googleToolCallMapping state) = Some table ->
  transcriptToolCalls messages = (replayed ++ later)%list ->
  map partToolName (functionResponseParts data) = map (fun c => VStr (fst c)) replayed ->
  extractToolOutputs geminiFormat data state = Ok outputs ->
  map id outputs = map snd replayed.
Proof.
  intros Hb Hf Hcs Hnames Hx.
  rewrite (gemini_correlated_ids _ _ _ _ Hf Hx), Hnames.
  rewrite (replay_fold table (transcriptToolCalls messages)) with (done := []) (post := later).
  - reflexivity.
  - intros n k. rewrite (buildPositionMapping_spec _ _ Hb). apply table_lookup.
  - apply transcriptToolCalls_wf.
  - exact Hcs.
  - intros n. reflexivity.
Qed.

Lemma gemini_correlation_replays_transcript_witness :
  map id [{| id := "id1"; toolName := VStr "read"; content := VStr "ok" |};
          {| id := "id2"; toolName := VStr "write"; content := VStr "ok" |}]
  = map snd [("read", "id1"); ("write", "id2")].
Proof.
  apply (gemini_correlation_replays_transcript
           readWriteReadTranscript
           [("read:0", "id1"); ("read:1", "id3"); ("write:0", "id2")]
           (stateWith [("ses_old", []);
                       ("ses", [("read:0", "id1"); ("read:1", "id3"); ("write:0", "id2")])]
                      None)
           [VObj [("role", VStr "user");
                  ("parts", VArr [functionResponsePart "Read"; functionResponsePart "write"])]]
           [{| id := "id1"; toolName := VStr "read"; content := VStr "ok" |};
            {| id := "id2"; toolName := VStr "write"; content := VStr "ok" |}]
           [("read", "id1"); ("write", "id2")] [("read", "id3")]);
    reflexivity.
Defined.

(* ================================================================== *)
(** * From the hook to the adapter *)

Lemma table_empty_no_calls (cs : list (string * string)) :
  Hooks.flatten (fold_left addCall cs JSMap.empty) = [] -> cs = [].
Proof.
  destruct cs as [|[n i] cs]; [reflexivity|]. intros H.
  pose proof (table_lookup ((n, i) :: cs) n 0) as E.
  rewrite H, callIdsOf_cons, String.eqb_refl in E. discriminate.
Qed.

Lemma map_eq_nil_inv {A B : Type} (f : A -> B) (l : list A) : map f l = [] -> l = [].
Proof.
  destruct l; [reflexivity | discriminate].
Qed.

(** X16. End to end, for an invocation that no other invocation overlaps, from
    a state whose store is empty or holds one table filed under the
    session seen last (the empty identifier apart), as every run of
    invocations that do not overlap leaves it: let the hook handle an
    event of a Google provider for which the host returns a transcript.
    Then, on every Gemini body whose function responses carry in order the
    tool names of the transcript's first calls, the extraction returns the
    identifiers of those calls, whatever table the store held before. *)
Theorem gemini_correlation_end_to_end
        (state0 : PluginState)
        (client : Hooks.Client) (event : Hooks.ChatParamsInput)
        (response : value) (messages : list value) (table : JSMap.t string)
        (data : list value) (outputs : list ToolOutput)
        (replayed later : list (string * string)) :
  storeOfLastSession state0 ->
  lastSeenSessionId state0 <> Some "" ->
  eqStr (Hooks.resolveProviderID event) "google"
  || eqStr (Hooks.resolveProviderID event) "google-vertex" = true ->
  Hooks.sessionMessages client (Hooks.sessionID event) = Ok response ->
  response = VArr messages \/ getOpt response "data" = VArr messages ->
  Hooks.buildPositionMapping messages = Ok table ->
  transcriptToolCalls messages = (replayed ++ later)%list ->
  map partToolName (functionResponseParts data) = map (fun c => VStr (fst c)) replayed ->
  extractToolOutputs geminiFormat data
    (Hooks.createChatParamsHandler client state0 event)
  = Ok outputs ->
  map id outputs = map snd replayed.
Proof.
  intros Hst Hlast Hprov Hresp Hshape Hbuild Hcs Hnames Hx.
  assert (Hfetch : Hooks.fetchPositionMapping client (Hooks.sessionID event)
                   = Ok (Some table)).
  { unfold Hooks.fetchPositionMapping. rewrite Hresp; simpl.
    destruct Hshape as [-> | Hd].
    - simpl. now rewrite Hbuild.
    - destruct response; simpl in Hd; try discriminate.
      simpl. rewrite Hd. simpl. now rewrite Hbuild. }
  assert (Hstore : googleToolCallMapping
                     (Hooks.createChatParamsHandler client state0 event)
                   = [(Hooks.sessionID event, table)]).
  { unfold Hooks.createChatParamsHandler, Hooks.afterMappingBuild; simpl.
    rewrite Hprov, Hfetch.
    destruct (afterSessionChange_cases state0 (Hooks.sessionID event) Hst Hlast)
      as [-> | (t0 & ->)]; simpl; [reflexivity|].
    now rewrite String.eqb_refl. }
  destruct (0 <? JSMap.size table)%nat eqn:Hsize.
  - assert (Hf : Gemini.findPositionMapping
                   (googleToolCallMapping
                      (Hooks.createChatParamsHandler client state0 event))
                 = Some table).
    { rewrite Hstore; simpl. now rewrite Hsize. }
    rewrite (gemini_correlated_ids _ _ _ _ Hf Hx), Hnames.
    rewrite (replay_fold table (transcriptToolCalls messages))
      with (done := []) (post := later).
    + reflexivity.
    + intros n k. rewrite (buildPositionMapping_spec _ _ Hbuild). apply table_lookup.
    + apply transcriptToolCalls_wf.
    + exact Hcs.
    + intros n. reflexivity.
  - assert (Ht : table = []).
    { destruct table; [reflexivity | discriminate]. }
    subst table.
    pose proof (buildPositionMapping_spec _ _ Hbuild) as Et.
    symmetry in Et. apply table_empty_no_calls in Et.
    rewrite Et in Hcs. symmetry in Hcs. apply app_eq_nil in Hcs. destruct Hcs as [-> _].
    simpl in Hnames. apply map_eq_nil_inv in Hnames.
    simpl in Hx. unfold Gemini.extractToolOutputs in Hx. rewrite Hstore in Hx; simpl in Hx.
    apply fallbackContents_spec in Hx. rewrite Hnames in Hx. subst outputs. reflexivity.
Qed.

(** From a state that holds the table of an earlier session [ses_a], seen
    last: an event of the session [ses_b] replaces it, and the body's
    responses get the identifiers of the new transcript. *)
Lemma gemini_correlation_end_to_end_witness :
  map id [{| id := "id1"; toolName := VStr "read"; content := VStr "ok" |};
          {| id := "id2"; toolName := VStr "write"; content := VStr "ok" |};
          {| id := "id3"; toolName := VStr "read"; content := VStr "ok" |}]
  = map snd [("read", "id1"); ("write", "id2"); ("read", "id3")].
Proof.
  apply (gemini_correlation_end_to_end
           (stateWith [("ses_a", [("read:0", "old1")])] (Some "ses_a"))
           (transcriptClient readWriteReadTranscript)
           (chatParamsFor "ses_b" "google-vertex")
           (VObj [("data", VArr readWriteReadTranscript)])
           readWriteReadTranscript
           [("read:0", "id1"); ("read:1", "id3"); ("write:0", "id2")]
           readWriteReadContents
           [{| id := "id1"; toolName := VStr "read"; content := VStr "ok" |};
            {| id := "id2"; toolName := VStr "write"; content := VStr "ok" |};
            {| id := "id3"; toolName := VStr "read"; content := VStr "ok" |}]
           [("read", "id1"); ("write", "id2"); ("read", "id3")] []).
  - right. exists "ses_a", [("read:0", "old1")]. split; reflexivity.
  - discriminate.
  - reflexivity.
  - reflexivity.
  - right; reflexivity.
  - reflexivity.
  - reflexivity.
  - reflexivity.
  - reflexivity.
Defined.

(** The hypothesis on the store is needed: from the state two overlapping
    invocations left, with a table of [ses_a] while [ses_b] was seen
    last, an event of [ses_b] clears nothing, its table is stored behind
    the stale one, and the body's response for [read] gets the identifier
    [id1] of the stale table, not [idb] of the transcript just read. *)
Example stale_table_wins :
  googleToolCallMapping
    (Hooks.createChatParamsHandler (transcriptClient otherTranscript) overlappedState
       (chatParamsFor "ses_b" "google"))
  = [("ses_a", [("read:0", "id1"); ("read:1", "id3"); ("write:0", "id2")]);
     ("ses_b", [("read:0", "idb")])]
  /\ (outputs <- extractToolOutputs geminiFormat
                   [VObj [("role", VStr "user");
                          ("parts", VArr [functionResponsePart "read"])]]
                   (Hooks.createChatParamsHandler (transcriptClient otherTranscript)
                      overlappedState (chatParamsFor "ses_b" "google")) ;;
      Ok (map id outputs))
     = Ok ["id1"].
Proof. split; reflexivity. Qed.

(* ================================================================== *)
(** * The correlated pass of the Gemini adapter *)

Lemma partToolName_cases (p : value) :
  partToolName p = VUndefined \/ exists fn, partToolName p = VStr fn.
Proof.
  unfold partToolName.
  destruct (getOpt (getOpt p "functionResponse") "name"); eauto.
Qed.

Lemma correlatedOutputs_app (t : JSMap.t string) (earlier a b : list value) :
  correlatedOutputs t earlier (a ++ b)
  = (correlatedOutputs t earlier a ++ correlatedOutputs t (earlier ++ a) b)%list.
Proof.
  revert earlier; induction a as [|p a IH]; intros earlier; simpl.
  - now rewrite app_nil_r.
  - rewrite IH, <- !app_assoc. reflexivity.
Qed.

Lemma correlatedOutputs_length (t : JSMap.t string) (earlier parts : list value) :
  length (correlatedOutputs t earlier parts) = length (filter namedResponse parts).
Proof.
  revert earlier; induction parts as [|p parts IH]; intros earlier; simpl; [reflexivity|].
  rewrite length_app, IH. unfold namedResponse.
  destruct (isFunctionResponse p); simpl; [|reflexivity].
  destruct (partToolName_cases p) as [-> | (fn & ->)]; simpl; [reflexivity|].
  destruct (String.eqb fn ""); reflexivity.
Qed.

Lemma correlatedPart_outputs (t : JSMap.t string) (outs outs' : list ToolOutput)
      (cs cs' : JSMap.t nat) (earlier : list value) (part : value) :
  countersAgree cs earlier ->
  Gemini.correlatedPart t (outs, cs) part = Ok (outs', cs') ->
  outs' = (outs ++ correlatedOutputs t earlier [part])%list
  /\ countersAgree cs' (earlier ++ [part]).
Proof.
  intros HI H. unfold Gemini.correlatedPart in H. simpl.
  bind_inv H fr Hfr. unfold isFunctionResponse at 1.
  rewrite (get_getOpt _ _ _ Hfr).
  destruct (truthy fr) eqn:Tfr.
  - bind_inv H name0 Hn. bind_inv H funcName Hl.
    pose proof (optToLowerCase_partToolName _ _ _ _ Hfr Hn Hl) as Ep.
    assert (Hisfr : isFunctionResponse part = true).
    { unfold isFunctionResponse. now rewrite (get_getOpt _ _ _ Hfr). }
    rewrite <- Ep.
    destruct funcName as [| | | |fn| |];
      try (inv_ok H; rewrite !app_nil_r; split; [reflexivity|];
           apply countersAgree_skip; [exact HI|];
           intros fn' _; rewrite <- Ep; simpl; apply andb_false_r).
    simpl in H. destruct (String.eqb fn "") eqn:E0; simpl in H.
    + inv_ok H. simpl. rewrite !app_nil_r. split; [reflexivity|].
      apply countersAgree_skip; [exact HI|].
      intros fn' Hfn'. rewrite <- Ep; simpl.
      apply String.eqb_eq in E0; subst fn.
      apply String.eqb_neq in Hfn'. rewrite String.eqb_sym in Hfn'. rewrite Hfn'.
      apply andb_false_r.
    + bind_inv H response Hr. inv_ok H. simpl.
      apply String.eqb_neq in E0. split.
      * unfold push, correlatedOutput. do 3 f_equal.
        -- now rewrite (HI fn E0).
        -- now rewrite (get_getOpt _ _ _ Hfr), (get_getOpt _ _ _ Hr).
      * now apply countersAgree_count.
  - inv_ok H. rewrite !app_nil_r. split; [reflexivity|].
    apply countersAgree_skip; [exact HI|].
    intros fn' _. unfold isFunctionResponse. rewrite (get_getOpt _ _ _ Hfr), Tfr.
    reflexivity.
Qed.

Lemma correlatedParts_outputs (t : JSMap.t string) (ps : list value)
      (outs outs' : list ToolOutput) (cs cs' : JSMap.t nat) (earlier : list value) :
  countersAgree cs earlier ->
  forOf ps (outs, cs) (Gemini.correlatedPart t) = Ok (outs', cs') ->
  outs' = (outs ++ correlatedOutputs t earlier ps)%list
  /\ countersAgree cs' (earlier ++ ps).
Proof.
  revert outs cs earlier; induction ps as [|p ps IH]; intros outs cs earlier HI H.
  - simpl in H. inv_ok H. simpl. rewrite !app_nil_r. auto.
  - rewrite forOf_cons in H. bind_inv H acc Hp. destruct acc as [outs1 cs1].
    destruct (correlatedPart_outputs _ _ _ _ _ _ _ HI Hp) as [-> HI1].
    destruct (IH _ _ _ HI1 H) as [-> HI2].
    split.
    + change (p :: ps) with ([p] ++ ps)%list.
      now rewrite correlatedOutputs_app, app_assoc.
    + now rewrite <- app_assoc in HI2.
Qed.

Lemma correlatedContents_outputs (t : JSMap.t string) (data : list value)
      (outs outs' : list ToolOutput) (cs cs' : JSMap.t nat) (earlier : list value) :
  countersAgree cs earlier ->
  forOf data (outs, cs) (Gemini.correlatedContent t) = Ok (outs', cs') ->
  outs' = (outs ++ correlatedOutputs t earlier (allParts data))%list
  /\ countersAgree cs' (earlier ++ allParts data).
Proof.
  revert outs cs earlier; induction data as [|c data IH]; intros outs cs earlier HI H.
  - simpl in H. inv_ok H. simpl. rewrite !app_nil_r. auto.
  - rewrite forOf_cons in H. bind_inv H acc Hc. destruct acc as [outs1 cs1].
    assert (H1 : outs1 = (outs ++ correlatedOutputs t earlier (turnParts c))%list
                 /\ countersAgree cs1 (earlier ++ turnParts c)).
    { unfold Gemini.correlatedContent in Hc. bind_inv Hc parts Hp.
      unfold turnParts. rewrite (get_getOpt _ _ _ Hp).
      destruct parts; try (inv_ok Hc; simpl; rewrite !app_nil_r; auto).
      exact (correlatedParts_outputs _ _ _ _ _ _ _ HI Hc). }
    destruct H1 as [-> HI1].
    destruct (IH _ _ _ HI1 H) as [-> HI2].
    unfold allParts; simpl. fold (allParts data). split.
    + now rewrite correlatedOutputs_app, app_assoc.
    + now rewrite <- app_assoc in HI2.
Qed.

Lemma countersAgree_empty : countersAgree JSMap.empty [].
Proof.
  intros fn _. reflexivity.
Qed.

(** X17. With a correlation table, Gemini extraction yields one output for
    each function-response part that has a non-empty tool name, in
    conversation order, and none for the others.  The identifier of the
    response of a tool [fn] that has [j] earlier responses of the same
    tool in the body is the table's entry for [fn] and [j], lower-cased,
    and when the table has no entry there (or an empty one) it is
    [gemini-{fn}-{j}]: here the counter is the per-tool one. *)
Theorem gemini_correlated_outputs
        (state : PluginState) (table : JSMap.t string)
        (data : list value) (outputs : list ToolOutput) :
  Gemini.findPositionMapping (googleToolCallMapping state) = Some table ->
  extractToolOutputs geminiFormat data state = Ok outputs ->
  length outputs = length (filter namedResponse (allParts data))
  /\ forall before part after fn,
       allParts data = (before ++ part :: after)%list ->
       isFunctionResponse part = true ->
       partToolName part = VStr fn ->
       fn <> "" ->
       nth_error outputs (length (filter namedResponse before))
       = Some (correlatedOutput table (occurrencesBefore fn before) fn part).
Proof.
  intros Hf H. simpl in H. unfold Gemini.extractToolOutputs in H. rewrite Hf in H.
  bind_inv H r Hr. destruct r as [outs cs]. inv_ok H.
  destruct (correlatedContents_outputs _ _ _ _ _ _ _ countersAgree_empty Hr) as [-> _].
  simpl. split; [apply correlatedOutputs_length|].
  intros before part after fn Hparts Hfr Hname Hfn.
  rewrite Hparts, correlatedOutputs_app.
  rewrite nth_error_app2 by (rewrite correlatedOutputs_length; lia).
  rewrite correlatedOutputs_length, Nat.sub_diag. simpl.
  rewrite Hfr, Hname. apply String.eqb_neq in Hfn. rewrite Hfn. reflexivity.
Qed.

Lemma gemini_correlated_outputs_witness :
  length [{| id := "id1"; toolName := VStr "read"; content := VStr "ok" |};
          {| id := "gemini-read-1"; toolName := VStr "read"; content := VStr "ok" |}]
  = length (filter namedResponse
              (allParts [VObj [("parts",
                                VArr [functionResponsePart "read";
                                      VObj [("functionResponse", VObj [("response", VNull)])];
                                      functionResponsePart "READ"])]]))
  /\ forall before part after fn,
       allParts [VObj [("parts",
                        VArr [functionResponsePart "read";
                              VObj [("functionResponse", VObj [("response", VNull)])];
                              functionResponsePart "READ"])]]
       = (before ++ part :: after)%list ->
       isFunctionResponse part = true ->
       partToolName part = VStr fn ->
       fn <> "" ->
       nth_error [{| id := "id1"; toolName := VStr "read"; content := VStr "ok" |};
                  {| id := "gemini-read-1"; toolName := VStr "read"; content := VStr "ok" |}]
                 (length (filter namedResponse before))
       = Some (correlatedOutput [("read:0", "ID1")] (occurrencesBefore fn before) fn part).
Proof.
  apply (gemini_correlated_outputs
           (stateWith [("ses", [("read:0", "ID1")])] None)
           [("read:0", "ID1")]
           [VObj [("parts",
                   VArr [functionResponsePart "read";
                         VObj [("functionResponse", VObj [("response", VNull)])];
                         functionResponsePart "READ"])]]
           [{| id := "id1"; toolName := VStr "read"; content := VStr "ok" |};
            {| id := "gemini-read-1"; toolName := VStr "read"; content := VStr "ok" |}]);
    reflexivity.
Defined.

(* ================================================================== *)
(** * Extraction after a replacement *)

Lemma get_Ok_not_nullish (o v : value) (k : string) :
  get o k = Ok v -> isNullish o = false.
Proof.
  destruct o; simpl; intros H; try discriminate; reflexivity.
Qed.

Lemma get_spreadSet_same (o v : value) (k : string) :
  get (spreadSet o k v) k = Ok v.
Proof.
  destruct o; simpl; try (now rewrite String.eqb_refl).
  now rewrite lookup_setField_same.
Qed.

Lemma get_spreadSet_other (o v : value) (k k' : string) :
  isNullish o = false -> k <> k' -> get (spreadSet o k' v) k = get o k.
Proof.
  intros Ho Hne. destruct o; simpl in *; try discriminate;
    try (apply String.eqb_neq in Hne; now rewrite Hne).
  now rewrite lookup_setField_other.
Qed.

Lemma withContent_id (tl new : string) (o : ToolOutput) : id (withContent tl new o) = id o.
Proof.
  unfold withContent. destruct (String.eqb (id o) tl); reflexivity.
Qed.

Lemma hasId_app (tl : string) (a b : list ToolOutput) :
  hasId tl (a ++ b) = hasId tl a || hasId tl b.
Proof.
  apply existsb_app.
Qed.

Lemma idMatches_Ok_cases (tl : string) (v : value) (b : bool) :
  Replace.idMatches tl v = Ok b ->
  (isNullish v = true /\ b = false)
  \/ exists s, v = VStr s /\ b = String.eqb (toLowerCase s) tl.
Proof.
  unfold Replace.idMatches.
  destruct v; simpl; intros H; try discriminate; inv_ok H; eauto.
Qed.

Lemma truthy_callToLowerCase (v : value) (i : string) :
  truthy v = true -> callToLowerCase v = Ok i ->
  exists s, v = VStr s /\ s <> "" /\ i = toLowerCase s.
Proof.
  destruct v; simpl; intros Ht H; try discriminate. inv_ok H.
  exists s. repeat split. intros ->. discriminate.
Qed.

Lemma falsy_hit (tl : string) (v : value) :
  truthy v = false -> Replace.idMatches tl v = Ok true -> tl = "".
Proof.
  intros Hf H. destruct (idMatches_true _ _ H) as (s & -> & <-).
  simpl in Hf. apply negb_false_iff, String.eqb_eq in Hf. now subst.
Qed.

Section RoundTrip.
Variable tl : string.
Variable newContent : string.

(** *** openai-responses *)

Lemma responses_item_roundtrip (item : value) (l : list ToolOutput) (o : option value) :
  OpenaiResponses.extractItem [] item = Ok l ->
  Replace.responsesStep tl newContent tt item = Ok (tt, o) ->
  exists l', OpenaiResponses.extractItem [] (assigned item o) = Ok l'
             /\ leafOk tl newContent l l' (isAssigned o).
Proof.
  unfold OpenaiResponses.extractItem, Replace.responsesStep. intros Hx Hr.
  bind_inv Hx ty Hty. rewrite Hty in Hr; cbn [bind] in Hr.
  pose proof (get_Ok_not_nullish _ _ _ Hty) as Hobj.
  destruct (eqStr ty "function_call_output") eqn:Ety.
  - bind_inv Hx cid Hcid. rewrite Hcid in Hr; cbn [bind] in Hr.
    bind_inv Hr hit Hhit.
    assert (Hnew : forall k, k <> "output" ->
              get (spreadSet item "output" (VStr newContent)) k = get item k).
    { intros k Hk. now apply get_spreadSet_other. }
    destruct (truthy cid) eqn:Tcid.
    + bind_inv Hx i Hi. bind_inv Hx n Hn. bind_inv Hx out Hout. inv_ok Hx.
      destruct (truthy_callToLowerCase _ _ Tcid Hi) as (s & -> & Hs & ->).
      destruct (idMatches_Ok_cases _ _ _ Hhit) as [[Hnull _] | (s' & Es & ->)];
        [discriminate|]. inv_ok Es.
      destruct (String.eqb (toLowerCase s') tl) eqn:E; inv_ok Hr; cbn [assigned isAssigned].
      * rewrite !Hnew by discriminate. rewrite Hty; cbn [bind]. rewrite Ety, Hcid; cbn [bind].
        rewrite Tcid, Hi; cbn [bind]. rewrite Hn; cbn [bind].
        rewrite get_spreadSet_same; cbn [bind].
        eexists; split; [reflexivity|]. unfold leafOk, withContent, hasId, push; simpl.
        rewrite E. simpl. auto.
      * rewrite Hty; cbn [bind]. rewrite Ety, Hcid; cbn [bind].
        rewrite Tcid, Hi; cbn [bind]. rewrite Hn, Hout; cbn [bind].
        eexists; split; [reflexivity|]. unfold leafOk, withContent, hasId, push; simpl.
        rewrite E. simpl. auto.
    + inv_ok Hx. destruct hit; inv_ok Hr; cbn [assigned isAssigned].
      * rewrite !Hnew by discriminate. rewrite Hty; cbn [bind].
        rewrite Ety, Hcid; cbn [bind]. rewrite Tcid.
        eexists; split; [reflexivity|]. split; [reflexivity|].
        intros Hne. elim Hne. eapply falsy_hit; eauto.
      * rewrite Hty; cbn [bind]. rewrite Ety, Hcid; cbn [bind]. rewrite Tcid.
        eexists; split; [reflexivity|]. split; auto.
  - inv_ok Hx. inv_ok Hr. cbn [assigned isAssigned]. rewrite Hty; cbn [bind]. rewrite Ety.
    eexists; split; [reflexivity|]. split; auto.
Qed.

(** *** The loops *)

Lemma leafOk_app (c : string) (l1 l1' l2 l2' : list ToolOutput) (h1 h2 : bool) :
  leafOk tl c l1 l1' h1 -> leafOk tl c l2 l2' h2 ->
  leafOk tl c (l1 ++ l2) (l1' ++ l2') (h1 || h2).
Proof.
  intros [-> H1] [-> H2]. split; [now rewrite map_app|].
  intros Hne. now rewrite hasId_app, (H1 Hne), (H2 Hne).
Qed.

Lemma leafOk_nil (c : string) : leafOk tl c [] [] false.
Proof.
  split; [reflexivity | intros _; reflexivity].
Qed.

Lemma forOf_cons_collect {A B : Type} (step : list B -> A -> result (list B))
      (x : A) (xs : list A) (l : list B) :
  (forall acc y, step acc y = (n <- step [] y ;; Ok (acc ++ n)%list)) ->
  forOf (x :: xs) [] step = Ok l ->
  exists l1 l2, step [] x = Ok l1 /\ forOf xs [] step = Ok l2 /\ l = (l1 ++ l2)%list.
Proof.
  intros Hc H. rewrite forOf_cons in H. bind_inv H l1 H1.
  rewrite (forOf_collect step Hc) in H. bind_inv H l2 H2. inv_ok H. eauto.
Qed.

Lemma forOf_cons_collect_Ok {A B : Type} (step : list B -> A -> result (list B))
      (x : A) (xs : list A) (l1 l2 : list B) :
  (forall acc y, step acc y = (n <- step [] y ;; Ok (acc ++ n)%list)) ->
  step [] x = Ok l1 -> forOf xs [] step = Ok l2 ->
  forOf (x :: xs) [] step = Ok (l1 ++ l2)%list.
Proof.
  intros Hc H1 H2. rewrite forOf_cons, H1; cbn [bind].
  rewrite (forOf_collect step Hc), H2. reflexivity.
Qed.

(** A [map] whose callback raises a flag, against the collecting loop
    over the same elements. *)
Lemma flagged_map_roundtrip (c : string)
      (xstep : list ToolOutput -> value -> result (list ToolOutput))
      (pstep : list value * bool -> value -> result (list value * bool)) :
  (forall acc y, xstep acc y = (n <- xstep [] y ;; Ok (acc ++ n)%list)) ->
  (forall part l np md np' md',
      xstep [] part = Ok l -> pstep (np, md) part = Ok (np', md') ->
      exists part' hit,
        np' = (np ++ [part'])%list /\ md' = md || hit
        /\ (hit = false -> part' = part)
        /\ exists l', xstep [] part' = Ok l' /\ leafOk tl c l l' hit) ->
  forall parts l np md np' md',
    forOf parts [] xstep = Ok l -> forOf parts (np, md) pstep = Ok (np', md') ->
    exists ps' hit,
      np' = (np ++ ps')%list /\ md' = md || hit
      /\ (hit = false -> ps' = parts)
      /\ exists l', forOf ps' [] xstep = Ok l' /\ leafOk tl c l l' hit.
Proof.
  intros Hc Hleaf parts; induction parts as [|p parts IH]; intros l np md np' md' Hx Hp.
  - simpl in Hx, Hp. inv_ok Hx. inv_ok Hp. exists [], false.
    rewrite app_nil_r, orb_false_r. repeat split; auto.
    exists []. split; [reflexivity | apply leafOk_nil].
  - destruct (forOf_cons_collect _ _ _ _ Hc Hx) as (l1 & l2 & H1 & H2 & ->).
    rewrite forOf_cons in Hp. bind_inv Hp acc Hp1. destruct acc as [np1 md1].
    destruct (Hleaf _ _ _ _ _ _ H1 Hp1) as (p' & h1 & -> & -> & Hsame1 & l1' & Hx1 & Hl1).
    destruct (IH _ _ _ _ _ H2 Hp) as (ps' & h2 & -> & -> & Hsame2 & l2' & Hx2 & Hl2).
    exists (p' :: ps'), (h1 || h2). split; [|split; [|split]].
    + now rewrite <- app_assoc.
    + now rewrite orb_assoc.
    + intros Hh. apply orb_false_elim in Hh. destruct Hh as [Hh1 Hh2].
      now rewrite (Hsame1 Hh1), (Hsame2 Hh2).
    + exists (l1' ++ l2')%list. split; [now apply forOf_cons_collect_Ok|].
      now apply leafOk_app.
Qed.

(** The loop over the turns, against the extraction. *)
Lemma assignLoop_roundtrip (c : string)
      (xstep : list ToolOutput -> value -> result (list ToolOutput))
      (rstep : unit -> value -> result (unit * option value)) :
  (forall acc y, xstep acc y = (n <- xstep [] y ;; Ok (acc ++ n)%list)) ->
  (forall x l o,
      xstep [] x = Ok l -> rstep tt x = Ok (tt, o) ->
      exists l', xstep [] (assigned x o) = Ok l' /\ leafOk tl c l l' (isAssigned o)) ->
  forall data b data' b' outs,
    assignLoop rstep tt b data = (data', Ok b') ->
    forOf data [] xstep = Ok outs ->
    exists outs' hit,
      forOf data' [] xstep = Ok outs' /\ b' = b || hit /\ leafOk tl c outs outs' hit.
Proof.
  intros Hc Hleaf data; induction data as [|x data IH]; intros b data' b' outs Ha Hx.
  - simpl in Ha, Hx. inv_ok Ha. inv_ok Hx. exists [], false.
    rewrite orb_false_r. repeat split; auto.
  - destruct (forOf_cons_collect _ _ _ _ Hc Hx) as (l1 & l2 & H1 & H2 & ->).
    cbn [assignLoop] in Ha.
    destruct (rstep tt x) as [[[] o]|e] eqn:Hr; [|inv_ok Ha].
    destruct (Hleaf _ _ _ H1 Hr) as (l1' & Hx1 & Hl1).
    destruct o as [x'|]; cbn [assigned isAssigned] in *.
    + destruct (assignLoop rstep tt true data) as [ys r] eqn:Hrest. inv_ok Ha.
      destruct (IH _ _ _ _ Hrest H2) as (l2' & h2 & Hx2 & -> & Hl2).
      exists (l1' ++ l2')%list, true. split; [|split].
      * now apply forOf_cons_collect_Ok.
      * now rewrite orb_true_r.
      * apply (leafOk_app c _ _ _ _ true h2); assumption.
    + destruct (assignLoop rstep tt b data) as [ys r] eqn:Hrest. inv_ok Ha.
      destruct (IH _ _ _ _ Hrest H2) as (l2' & h2 & Hx2 & -> & Hl2).
      exists (l1' ++ l2')%list, h2. split; [|split].
      * now apply forOf_cons_collect_Ok.
      * reflexivity.
      * apply (leafOk_app c _ _ _ _ false h2); assumption.
Qed.

(** *** openai-chat *)

Lemma chat_part_roundtrip (part : value) (l : list ToolOutput)
      (np : list value) (md : bool) (np' : list value) (md' : bool) :
  OpenaiChat.extractPart [] part = Ok l ->
  Replace.chatPart tl newContent (np, md) part = Ok (np', md') ->
  exists part' hit,
    np' = (np ++ [part'])%list /\ md' = md || hit
    /\ (hit = false -> part' = part)
    /\ exists l', OpenaiChat.extractPart [] part' = Ok l' /\ leafOk tl newContent l l' hit.
Proof.
  unfold OpenaiChat.extractPart, Replace.chatPart. intros Hx Hr.
  bind_inv Hx ty Hty. rewrite Hty in Hr; cbn [bind] in Hr.
  pose proof (get_Ok_not_nullish _ _ _ Hty) as Hobj.
  assert (Hkeep : exists l', (ty0 <- get part "type" ;;
                              if eqStr ty0 "tool_result" then
                                tool_use_id <- get part "tool_use_id" ;;
                                if truthy tool_use_id then
                                  i <- callToLowerCase tool_use_id ;;
                                  c <- get part "content" ;;
                                  Ok (push [] {| id := i; toolName := VUndefined;
                                                 content := stringOrStringify c |})
                                else Ok []
                              else Ok []) = Ok l' /\ l' = l).
  { exists l. split; [|reflexivity]. rewrite Hty; cbn [bind]. exact Hx. }
  destruct Hkeep as (l0 & Hkeep & ->).
  destruct (eqStr ty "tool_result") eqn:Ety.
  - bind_inv Hx uid Huid. rewrite Huid in Hr; cbn [bind] in Hr.
    bind_inv Hr hit Hhit.
    assert (Hnew : forall k, k <> "content" ->
              get (spreadSet part "content" (VStr newContent)) k = get part k).
    { intros k Hk. now apply get_spreadSet_other. }
    destruct (truthy uid) eqn:Tuid.
    + bind_inv Hx i Hi. bind_inv Hx c Hc. inv_ok Hx.
      destruct (truthy_callToLowerCase _ _ Tuid Hi) as (s & -> & Hs & ->).
      destruct (idMatches_Ok_cases _ _ _ Hhit) as [[Hnull _] | (s' & Es & ->)];
        [discriminate|]. inv_ok Es.
      destruct (String.eqb (toLowerCase s') tl) eqn:E; inv_ok Hr.
      * exists (spreadSet part "content" (VStr newContent)), true.
        rewrite orb_true_r. split; [reflexivity|]. split; [reflexivity|].
        split; [discriminate|].
        rewrite !Hnew by discriminate. rewrite Hty; cbn [bind].
        rewrite Ety, Huid; cbn [bind]. rewrite Tuid, Hi; cbn [bind].
        rewrite get_spreadSet_same; cbn [bind].
        eexists; split; [reflexivity|]. unfold leafOk, withContent, hasId, push; simpl.
        rewrite E. simpl. auto.
      * exists part, false. rewrite orb_false_r.
        split; [reflexivity|]. split; [reflexivity|]. split; [reflexivity|].
        eexists; split; [exact Hkeep|]. unfold leafOk, withContent, hasId, push; simpl.
        rewrite E. simpl. auto.
    + inv_ok Hx. destruct hit; inv_ok Hr.
      * exists (spreadSet part "content" (VStr newContent)), true.
        rewrite orb_true_r. split; [reflexivity|]. split; [reflexivity|].
        split; [discriminate|].
        rewrite !Hnew by discriminate. rewrite Hty; cbn [bind].
        rewrite Ety, Huid; cbn [bind]. rewrite Tuid.
        eexists; split; [reflexivity|]. split; [reflexivity|].
        intros Hne. elim Hne. eapply falsy_hit; eauto.
      * exists part, false. rewrite orb_false_r.
        split; [reflexivity|]. split; [reflexivity|]. split; [reflexivity|].
        eexists; split; [exact Hkeep|]. apply leafOk_nil.
  - inv_ok Hx. inv_ok Hr. exists part, false. rewrite orb_false_r.
    split; [reflexivity|]. split; [reflexivity|]. split; [reflexivity|].
    eexists; split; [exact Hkeep|]. apply leafOk_nil.
Qed.

Lemma role_tool_not_user (role : value) :
  eqStr role "tool" = true -> eqStr role "user" = false.
Proof.
  destruct role; simpl; try discriminate. intros E.
  apply String.eqb_eq in E. now subst.
Qed.

Lemma chat_turn_roundtrip (m : value) (l : list ToolOutput) (o : option value) :
  OpenaiChat.extractTurn [] m = Ok l ->
  Replace.chatStep tl newContent tt m = Ok (tt, o) ->
  exists l', OpenaiChat.extractTurn [] (assigned m o) = Ok l'
             /\ leafOk tl newContent l l' (isAssigned o).
Proof.
  intros Hx Hr. pose proof Hx as Hkeep.
  unfold OpenaiChat.extractTurn, OpenaiChat.extractNative, OpenaiChat.extractAnthropic
    in Hx |- *.
  unfold Replace.chatStep, Replace.chatNative, Replace.chatAnthropic in Hr.
  bind_inv Hx outs1 Hn. bind_inv Hn role Hrole.
  rewrite Hrole in Hx, Hr; cbn [bind] in Hx, Hr.
  pose proof (get_Ok_not_nullish _ _ _ Hrole) as Hobj.
  assert (Hnew : forall v k, k <> "content" ->
            get (spreadSet m "content" v) k = get m k).
  { intros v k Hk. now apply get_spreadSet_other. }
  destruct (eqStr role "tool") eqn:Et.
  - pose proof (role_tool_not_user _ Et) as Eu.
    rewrite Eu in Hx, Hr. inv_ok Hx.
    bind_inv Hr a1 Ha1. cbn [bind] in Hr. inv_ok Hr.
    bind_inv Ha1 cid Hcid. bind_inv Ha1 hit Hhit.
    bind_inv Hn cid' Hcid'. rewrite Hcid in Hcid'. inv_ok Hcid'.
    destruct (truthy cid') eqn:Tcid.
    + bind_inv Hn i Hi. bind_inv Hn n Hname. bind_inv Hn c Hc. inv_ok Hn.
      destruct (truthy_callToLowerCase _ _ Tcid Hi) as (s & -> & Hs & ->).
      destruct (idMatches_Ok_cases _ _ _ Hhit) as [[Hnull _] | (s' & Es & ->)];
        [discriminate|]. inv_ok Es.
      destruct (String.eqb (toLowerCase s') tl) eqn:E; inv_ok Ha1; cbn [assigned isAssigned].
      * rewrite !Hnew by discriminate. rewrite Hrole; cbn [bind].
        rewrite Et, Hcid; cbn [bind]. rewrite Tcid, Hi; cbn [bind].
        rewrite Hname; cbn [bind]. rewrite get_spreadSet_same; cbn [bind].
        rewrite Eu.
        eexists; split; [reflexivity|]. unfold leafOk, withContent, hasId, push; simpl.
        rewrite E. simpl. auto.
      * eexists; split; [exact Hkeep|]. unfold leafOk, withContent, hasId, push; simpl.
        rewrite E. simpl. auto.
    + inv_ok Hn. destruct hit; inv_ok Ha1; cbn [assigned isAssigned].
      * rewrite !Hnew by discriminate. rewrite Hrole; cbn [bind].
        rewrite Et, Hcid; cbn [bind]. rewrite Tcid; cbn [bind]. rewrite Eu.
        eexists; split; [reflexivity|]. split; [reflexivity|].
        intros Hne. elim Hne. eapply falsy_hit; eauto.
      * eexists; split; [exact Hkeep|]. apply leafOk_nil.
  - inv_ok Hn. cbn [bind] in Hr.
    destruct (eqStr role "user") eqn:Eu.
    + bind_inv Hx c Hc. rewrite Hc in Hr; cbn [bind] in Hr.
      destruct c as [| | | | |parts|];
        try (inv_ok Hx; cbn [bind] in Hr; inv_ok Hr; cbn [assigned isAssigned];
             eexists; split; [exact Hkeep | apply leafOk_nil]).
      bind_inv Hr a2 Ha2. inv_ok Hr.
      bind_inv Ha2 acc Hloop. destruct acc as [newParts modified].
      destruct (flagged_map_roundtrip newContent OpenaiChat.extractPart
                  (Replace.chatPart tl newContent)
                  chat_extractPart_collect chat_part_roundtrip
                  _ _ _ _ _ _ Hx Hloop)
        as (ps' & hit & Enp & Emd & Hsame & l' & Hx' & Hl).
      simpl in Enp, Emd. subst newParts modified.
      destruct hit; inv_ok Ha2; cbn [assigned isAssigned].
      * rewrite !Hnew by discriminate. rewrite Hrole; cbn [bind].
        rewrite Et, Eu. rewrite get_spreadSet_same; cbn [bind].
        exists l'. split; [exact Hx' | exact Hl].
      * exists l. split; [exact Hkeep|].
        rewrite (Hsame eq_refl) in Hx'. rewrite Hx in Hx'. inv_ok Hx'. exact Hl.
    + inv_ok Hx. cbn [bind] in Hr. inv_ok Hr. cbn [assigned isAssigned].
      eexists; split; [exact Hkeep | apply leafOk_nil].
Qed.

(** *** bedrock *)

Lemma truthy_not_nullish (v : value) : truthy v = true -> isNullish v = false.
Proof.
  destruct v; simpl; intros H; try discriminate; reflexivity.
Qed.

Lemma truthy_spreadSet (o v : value) (k : string) : truthy (spreadSet o k v) = true.
Proof.
  destruct o; reflexivity.
Qed.

Lemma bedrock_block_roundtrip (block : value) (l : list ToolOutput)
      (np : list value) (md : bool) (np' : list value) (md' : bool) :
  Bedrock.extractBlock [] block = Ok l ->
  Replace.bedrockBlock tl newContent (np, md) block = Ok (np', md') ->
  exists block' hit,
    np' = (np ++ [block'])%list /\ md' = md || hit
    /\ (hit = false -> block' = block)
    /\ exists l', Bedrock.extractBlock [] block' = Ok l'
                  /\ leafOk tl (bedrockText newContent) l l' hit.
Proof.
  intros Hx Hr. pose proof Hx as Hkeep.
  unfold Bedrock.extractBlock in Hx |- *. unfold Replace.bedrockBlock in Hr.
  bind_inv Hx tr Htr. rewrite Htr in Hr; cbn [bind] in Hr.
  pose proof (get_Ok_not_nullish _ _ _ Htr) as Hobj.
  destruct (truthy tr) eqn:Ttr.
  - bind_inv Hx uid Huid. rewrite Huid in Hr; cbn [bind] in Hr.
    bind_inv Hr hit Hhit.
    pose proof (truthy_not_nullish _ Ttr) as Htrobj.
    set (tr' := spreadSet tr "content" (VArr [VObj [("text", VStr newContent)]])) in *.
    assert (Hblock' : get (spreadSet block "toolResult" tr') "toolResult" = Ok tr')
      by apply get_spreadSet_same.
    assert (Huid' : get tr' "toolUseId" = Ok uid).
    { unfold tr'. rewrite get_spreadSet_other; [exact Huid | exact Htrobj | discriminate]. }
    assert (Hc' : get tr' "content" = Ok (VArr [VObj [("text", VStr newContent)]]))
      by apply get_spreadSet_same.
    assert (Ttr' : truthy tr' = true) by apply truthy_spreadSet.
    destruct (truthy uid) eqn:Tuid.
    + bind_inv Hx i Hi. bind_inv Hx c Hc. bind_inv Hx text Htext. inv_ok Hx.
      destruct (truthy_callToLowerCase _ _ Tuid Hi) as (s & -> & Hs & ->).
      destruct (idMatches_Ok_cases _ _ _ Hhit) as [[Hnull _] | (s' & Es & ->)];
        [discriminate|]. inv_ok Es.
      destruct (String.eqb (toLowerCase s') tl) eqn:E; inv_ok Hr.
      * exists (spreadSet block "toolResult" tr'), true.
        rewrite orb_true_r. split; [reflexivity|]. split; [reflexivity|].
        split; [discriminate|].
        rewrite Hblock'; cbn [bind]. rewrite Ttr', Huid'; cbn [bind].
        rewrite Tuid, Hi; cbn [bind]. rewrite Hc'; cbn [bind].
        eexists; split; [reflexivity|]. unfold leafOk, withContent, hasId, push; simpl.
        rewrite E. simpl. split; [reflexivity | auto].
      * exists block, false. rewrite orb_false_r.
        split; [reflexivity|]. split; [reflexivity|]. split; [reflexivity|].
        eexists; split; [exact Hkeep|]. unfold leafOk, withContent, hasId, push; simpl.
        rewrite E. simpl. auto.
    + inv_ok Hx. destruct hit; inv_ok Hr.
      * exists (spreadSet block "toolResult" tr'), true.
        rewrite orb_true_r. split; [reflexivity|]. split; [reflexivity|].
        split; [discriminate|].
        rewrite Hblock'; cbn [bind]. rewrite Ttr', Huid'; cbn [bind]. rewrite Tuid.
        eexists; split; [reflexivity|]. split; [reflexivity|].
        intros Hne. elim Hne. eapply falsy_hit; eauto.
      * exists block, false. rewrite orb_false_r.
        split; [reflexivity|]. split; [reflexivity|]. split; [reflexivity|].
        eexists; split; [exact Hkeep|]. apply leafOk_nil.
  - inv_ok Hx. inv_ok Hr. exists block, false. rewrite orb_false_r.
    split; [reflexivity|]. split; [reflexivity|]. split; [reflexivity|].
    eexists; split; [exact Hkeep|]. apply leafOk_nil.
Qed.

Lemma bedrock_turn_roundtrip (m : value) (l : list ToolOutput) (o : option value) :
  Bedrock.extractTurn [] m = Ok l ->
  Replace.bedrockStep tl newContent tt m = Ok (tt, o) ->
  exists l', Bedrock.extractTurn [] (assigned m o) = Ok l'
             /\ leafOk tl (bedrockText newContent) l l' (isAssigned o).
Proof.
  intros Hx Hr. pose proof Hx as Hkeep.
  unfold Bedrock.extractTurn in Hx |- *. unfold Replace.bedrockStep in Hr.
  bind_inv Hx role Hrole. rewrite Hrole in Hr; cbn [bind] in Hr.
  pose proof (get_Ok_not_nullish _ _ _ Hrole) as Hobj.
  destruct (eqStr role "user") eqn:Eu.
  - bind_inv Hx c Hc. rewrite Hc in Hr; cbn [bind] in Hr.
    destruct c as [| | | | |blocks|];
      try (inv_ok Hx; inv_ok Hr; cbn [assigned isAssigned];
           eexists; split; [exact Hkeep | apply leafOk_nil]).
    bind_inv Hr acc Hloop. destruct acc as [newBlocks modified].
    destruct (flagged_map_roundtrip (bedrockText newContent) Bedrock.extractBlock
                (Replace.bedrockBlock tl newContent)
                bedrock_extractBlock_collect bedrock_block_roundtrip
                _ _ _ _ _ _ Hx Hloop)
      as (bs' & hit & Enp & Emd & Hsame & l' & Hx' & Hl).
    simpl in Enp, Emd. subst newBlocks modified.
    destruct hit; inv_ok Hr; cbn [assigned isAssigned].
    + rewrite get_spreadSet_other by (auto; discriminate).
      rewrite Hrole; cbn [bind]. rewrite Eu. rewrite get_spreadSet_same; cbn [bind].
      exists l'. split; [exact Hx' | exact Hl].
    + exists l. split; [exact Hkeep|].
      rewrite (Hsame eq_refl) in Hx'. rewrite Hx in Hx'. inv_ok Hx'. exact Hl.
  - inv_ok Hx. inv_ok Hr. cbn [assigned isAssigned].
    eexists; split; [exact Hkeep | apply leafOk_nil].
Qed.

End RoundTrip.

Lemma bedrockText_nonempty (newContent : string) :
  newContent <> "" -> bedrockText newContent = newContent.
Proof.
  intros H. unfold bedrockText, orElse; simpl.
  apply String.eqb_neq in H. now rewrite H.
Qed.

Lemma hasId_In (tl : string) (l : list ToolOutput) :
  hasId tl l = true <-> In tl (map id l).
Proof.
  unfold hasId. rewrite existsb_exists, in_map_iff. split.
  - intros (o & Ho & E). apply String.eqb_eq in E. eauto.
  - intros (o & E & Ho). exists o. split; [exact Ho | now apply String.eqb_eq].
Qed.

(** A replacement that returns, in one of the three formats that carry
    identifiers, against the extraction before and after it. *)
Lemma replaceToolOutput_roundtrip (format : FormatDescriptor) (body : value)
      (toolId newContent : string) (state : PluginState)
      (data : list value) (outputs : list ToolOutput) (body' : value) (replaced : bool) :
  In format [openaiResponsesFormat; bedrockFormat; openaiChatFormat] ->
  getDataArray format body = Ok (VArr data) ->
  extractToolOutputs format data state = Ok outputs ->
  replaceToolOutput body format toolId newContent state = (body', Ok replaced) ->
  exists data' outputs' shown,
    getDataArray format body' = Ok (VArr data')
    /\ extractToolOutputs format data' state = Ok outputs'
    /\ (newContent <> "" -> shown = newContent)
    /\ leafOk (toLowerCase toolId) shown outputs outputs' replaced.
Proof.
  intros Hf Hd Hx Hr.
  assert (Hf4 : In format formats).
  { unfold formats. simpl in *. intuition. }
  unfold replaceToolOutput in Hr. rewrite Hd in Hr. simpl in Hr.
  destruct Hf as [<- | [<- | [<- | []]]]; simpl in Hr, Hx.
  - destruct (assignLoop (Replace.responsesStep (toLowerCase toolId) newContent)
                tt false data) as [data' r] eqn:Ha.
    inv_ok Hr.
    destruct (assignLoop_roundtrip (toLowerCase toolId) newContent
                OpenaiResponses.extractItem
                (Replace.responsesStep (toLowerCase toolId) newContent)
                responses_extractItem_collect
                (responses_item_roundtrip (toLowerCase toolId) newContent)
                _ _ _ _ _ Ha Hx) as (outs' & hit & Hx' & -> & Hl).
    exists data', outs', newContent. split; [|split; [exact Hx' | split; [auto | exact Hl]]].
    apply (getDataArray_storeData openaiResponsesFormat _ _ _ Hf4 Hd).
  - destruct (assignLoop (Replace.bedrockStep (toLowerCase toolId) newContent)
                tt false data) as [data' r] eqn:Ha.
    inv_ok Hr.
    destruct (assignLoop_roundtrip (toLowerCase toolId) (bedrockText newContent)
                Bedrock.extractTurn
                (Replace.bedrockStep (toLowerCase toolId) newContent)
                bedrock_extractTurn_collect
                (bedrock_turn_roundtrip (toLowerCase toolId) newContent)
                _ _ _ _ _ Ha Hx) as (outs' & hit & Hx' & -> & Hl).
    exists data', outs', (bedrockText newContent).
    split; [|split; [exact Hx' | split; [apply bedrockText_nonempty | exact Hl]]].
    apply (getDataArray_storeData bedrockFormat _ _ _ Hf4 Hd).
  - destruct (assignLoop (Replace.chatStep (toLowerCase toolId) newContent)
                tt false data) as [data' r] eqn:Ha.
    inv_ok Hr.
    destruct (assignLoop_roundtrip (toLowerCase toolId) newContent
                OpenaiChat.extractTurn
                (Replace.chatStep (toLowerCase toolId) newContent)
                chat_extractTurn_collect
                (chat_turn_roundtrip (toLowerCase toolId) newContent)
                _ _ _ _ _ Ha Hx) as (outs' & hit & Hx' & -> & Hl).
    exists data', outs', newContent. split; [|split; [exact Hx' | split; [auto | exact Hl]]].
    apply (getDataArray_storeData openaiChatFormat _ _ _ Hf4 Hd).
Qed.

(** X18. In the Chat, Responses and Bedrock formats, after a replacement that
    returns, with a non-empty new content, the body still holds a turn
    array, and its tool outputs are those of the body before the call,
    with the same identifiers and tool names in the same order, where
    every output carrying the case-folded identifier shows the new
    content and every other output is as before. *)
Theorem replaceToolOutput_then_extract
        (format : FormatDescriptor) (body : value) (toolId newContent : string)
        (state : PluginState) (data : list value) (outputs : list ToolOutput)
        (body' : value) (replaced : bool) :
  In format [openaiResponsesFormat; bedrockFormat; openaiChatFormat] ->
  newContent <> "" ->
  getDataArray format body = Ok (VArr data) ->
  extractToolOutputs format data state = Ok outputs ->
  replaceToolOutput body format toolId newContent state = (body', Ok replaced) ->
  exists data',
    getDataArray format body' = Ok (VArr data')
    /\ extractToolOutputs format data' state
       = Ok (map (withContent (toLowerCase toolId) newContent) outputs).
Proof.
  intros Hf Hnew Hd Hx Hr.
  destruct (replaceToolOutput_roundtrip _ _ _ _ _ _ _ _ _ Hf Hd Hx Hr)
    as (data' & outs' & shown & Hd' & Hx' & Hshown & [-> _]).
  exists data'. split; [exact Hd'|]. now rewrite <- (Hshown Hnew).
Qed.

Lemma replaceToolOutput_then_extract_witness :
  exists data',
    getDataArray openaiChatFormat
      (VObj [("model", VStr "gpt");
             ("messages", VArr [chatUserTurn; chatAssistantTurn;
                                VObj [("role", VStr "tool"); ("tool_call_id", VStr "Call_1");
                                      ("content", VStr "[pruned]")]])])
    = Ok (VArr data')
    /\ extractToolOutputs openaiChatFormat data' createPluginState
       = Ok (map (withContent (toLowerCase "CALL_1") "[pruned]")
                 [{| id := "call_1"; toolName := VUndefined;
                     content := VStr "a.txt b.txt" |}]).
Proof.
  apply (replaceToolOutput_then_extract openaiChatFormat chatBody "CALL_1" "[pruned]"
           createPluginState [chatUserTurn; chatAssistantTurn; chatToolTurn]
           [{| id := "call_1"; toolName := VUndefined; content := VStr "a.txt b.txt" |}]
           (VObj [("model", VStr "gpt");
                  ("messages", VArr [chatUserTurn; chatAssistantTurn;
                                     VObj [("role", VStr "tool");
                                           ("tool_call_id", VStr "Call_1");
                                           ("content", VStr "[pruned]")]])])
           true).
  - simpl; auto.
  - discriminate.
  - reflexivity.
  - reflexivity.
  - reflexivity.
Defined.

(** With an empty new content the Bedrock adapter shows the JSON text of
    the block the replacement wrote, not the empty string. *)
Example replace_bedrock_empty_content :
  bedrockText "" = stringifyDefined (VObj [("text", VStr "")]).
Proof. reflexivity. Qed.

(** X19. In the Chat, Responses and Bedrock formats, on a body on which the
    extraction returns: a replacement of a non-empty identifier that
    returns tells whether the identifier was among the extracted outputs;
    it returns [true] exactly when one of them carries the case-folded
    identifier.  (Where the extraction raises, the replacement may still
    return [true]: it does not read the content it replaces.) *)
Theorem replaceToolOutput_returns_presence
        (format : FormatDescriptor) (body : value) (toolId newContent : string)
        (state : PluginState) (data : list value) (outputs : list ToolOutput)
        (body' : value) (replaced : bool) :
  In format [openaiResponsesFormat; bedrockFormat; openaiChatFormat] ->
  toolId <> "" ->
  getDataArray format body = Ok (VArr data) ->
  extractToolOutputs format data state = Ok outputs ->
  replaceToolOutput body format toolId newContent state = (body', Ok replaced) ->
  replaced = true <-> In (toLowerCase toolId) (map id outputs).
Proof.
  intros Hf Hid Hd Hx Hr.
  destruct (replaceToolOutput_roundtrip _ _ _ _ _ _ _ _ _ Hf Hd Hx Hr)
    as (data' & outs' & shown & _ & _ & _ & [_ Hhit]).
  rewrite Hhit; [apply hasId_In|].
  now rewrite toLowerCase_empty_iff.
Qed.

Lemma replaceToolOutput_returns_presence_witness :
  true = true
  <-> In (toLowerCase "CALL_1")
         (map id [{| id := "call_1"; toolName := VUndefined;
                     content := VStr "a.txt b.txt" |}]).
Proof.
  apply (replaceToolOutput_returns_presence openaiChatFormat chatBody "CALL_1" "[pruned]"
           createPluginState [chatUserTurn; chatAssistantTurn; chatToolTurn]
           [{| id := "call_1"; toolName := VUndefined; content := VStr "a.txt b.txt" |}]
           (VObj [("model", VStr "gpt");
                  ("messages", VArr [chatUserTurn; chatAssistantTurn;
                                     VObj [("role", VStr "tool");
                                           ("tool_call_id", VStr "Call_1");
                                           ("content", VStr "[pruned]")]])])
           true).
  - simpl; auto.
  - discriminate.
  - reflexivity.
  - reflexivity.
  - reflexivity.
Defined.

(** A Bedrock tool result whose content is [[null]]: the extraction reads
    [c.text] of [null] and raises, the replacement of its identifier
    returns [true]. *)
Example replace_returns_true_where_extraction_raises :
  extractToolOutputs bedrockFormat
    [VObj [("role", VStr "user");
           ("content", VArr [VObj [("toolResult",
                                    VObj [("toolUseId", VStr "t1");
                                          ("content", VArr [VNull])])]])]]
    createPluginState
  = Throw TypeError
  /\ snd (replaceToolOutput
            (VObj [("messages",
                    VArr [VObj [("role", VStr "user");
                                ("content",
                                 VArr [VObj [("toolResult",
                                              VObj [("toolUseId", VStr "t1");
                                                    ("content", VArr [VNull])])]])]])])
            bedrockFormat "t1" "[pruned]" createPluginState)
     = Ok true.
Proof. split; reflexivity. Qed.

(* ================================================================== *)
(** * Injection and appending leave the tool outputs alone *)

Lemma forOf_replace_equiv {A S : Type} (step : S -> A -> result S) (x x' : A)
      (pre post : list A) (acc : S) :
  (forall a, step a x' = step a x) ->
  forOf (pre ++ x' :: post) acc step = forOf (pre ++ x :: post) acc step.
Proof.
  intros H. rewrite !forOf_app. destruct (forOf pre acc step) as [a|e]; simpl; [|reflexivity].
  now rewrite H.
Qed.

Lemma forOf_snoc_skip {A S : Type} (step : S -> A -> result S) (x : A)
      (xs : list A) (acc : S) :
  (forall a, step a x = Ok a) ->
  forOf (xs ++ [x]) acc step = forOf xs acc step.
Proof.
  intros H. rewrite forOf_app. destruct (forOf xs acc step) as [a|e]; simpl; [|reflexivity].
  now rewrite H.
Qed.

(** The injected blocks and the appended turns are no tool outputs. *)
Lemma chat_extractPart_text (ty text : string) (acc : list ToolOutput) :
  ty <> "tool_result" ->
  OpenaiChat.extractPart acc (VObj [("type", VStr ty); ("text", VStr text)]) = Ok acc.
Proof.
  intros H. unfold OpenaiChat.extractPart; simpl.
  apply String.eqb_neq in H. now rewrite H.
Qed.

Lemma getOpt_get (v : value) (k : string) :
  isNullish v = false -> get v k = Ok (getOpt v k).
Proof.
  apply get_not_nullish.
Qed.

Lemma eqStr_true (v : value) (s : string) : eqStr v s = true -> v = VStr s.
Proof.
  destruct v; simpl; try discriminate. intros H. apply String.eqb_eq in H. now subst.
Qed.

Lemma chat_turn_injected (text : string) (item : value) (acc : list ToolOutput) :
  userTurn "openai-chat" item = true ->
  OpenaiChat.extractTurn acc (withInjectedText "openai-chat" text item)
  = OpenaiChat.extractTurn acc item.
Proof.
  intros Hu. pose proof (userTurn_not_nullish _ _ Hu) as Hnn.
  unfold userTurn in Hu; simpl in Hu. apply eqStr_true in Hu.
  unfold withInjectedText; simpl.
  destruct (getOpt item "content") as [| | | |s|parts|] eqn:Ec; try reflexivity;
    unfold OpenaiChat.extractTurn, OpenaiChat.extractNative, OpenaiChat.extractAnthropic;
    rewrite !get_spreadSet_other by (auto; discriminate);
    rewrite !get_spreadSet_same;
    rewrite !(getOpt_get _ _ Hnn), Hu, Ec; simpl; [reflexivity|].
  apply forOf_snoc_skip. intros a. now apply chat_extractPart_text.
Qed.

Lemma responses_item_injected (text : string) (item : value) (acc : list ToolOutput) :
  userTurn "openai-responses" item = true ->
  OpenaiResponses.extractItem acc (withInjectedText "openai-responses" text item)
  = OpenaiResponses.extractItem acc item.
Proof.
  intros Hu. pose proof (userTurn_not_nullish _ _ Hu) as Hnn.
  unfold userTurn in Hu; simpl in Hu. apply andb_prop in Hu. destruct Hu as [Hty _].
  apply eqStr_true in Hty.
  unfold withInjectedText; simpl.
  destruct (getOpt item "content") as [| | | |s|parts|] eqn:Ec; try reflexivity;
    unfold OpenaiResponses.extractItem;
    rewrite !get_spreadSet_other by (auto; discriminate);
    rewrite !(getOpt_get _ _ Hnn), Hty; reflexivity.
Qed.

Lemma bedrock_turn_injected (text : string) (item : value) (acc : list ToolOutput) :
  userTurn "bedrock" item = true ->
  Bedrock.extractTurn acc (withInjectedText "bedrock" text item)
  = Bedrock.extractTurn acc item.
Proof.
  intros Hu. pose proof (userTurn_not_nullish _ _ Hu) as Hnn.
  unfold userTurn in Hu; simpl in Hu. apply eqStr_true in Hu.
  unfold withInjectedText; simpl.
  destruct (getOpt item "content") as [| | | |s|parts|] eqn:Ec; try reflexivity;
    unfold Bedrock.extractTurn;
    rewrite !get_spreadSet_other by (auto; discriminate);
    rewrite !get_spreadSet_same;
    rewrite !(getOpt_get _ _ Hnn), Hu, Ec; simpl; [reflexivity|].
  apply forOf_snoc_skip. intros a. reflexivity.
Qed.

Lemma gemini_turn_injected_parts (text : string) (item : value) :
  userTurn "gemini" item = true ->
  exists ps,
    get item "parts" = Ok (VArr ps)
    /\ get (withInjectedText "gemini" text item) "parts"
       = Ok (VArr (ps ++ [VObj [("text", VStr text)]])).
Proof.
  intros Hu. pose proof (userTurn_not_nullish _ _ Hu) as Hnn.
  unfold userTurn in Hu; simpl in Hu. apply andb_prop in Hu. destruct Hu as [_ Hp].
  apply isArray_inv in Hp. destruct Hp as [ps Hp].
  exists ps. unfold withInjectedText; simpl. rewrite Hp.
  split; [now rewrite (getOpt_get _ _ Hnn), Hp | apply get_spreadSet_same].
Qed.

Lemma gemini_fallbackContent_injected (text : string) (item : value)
      (acc : list ToolOutput) :
  userTurn "gemini" item = true ->
  Gemini.fallbackContent acc (withInjectedText "gemini" text item)
  = Gemini.fallbackContent acc item.
Proof.
  intros Hu. destruct (gemini_turn_injected_parts text item Hu) as (ps & H1 & H2).
  unfold Gemini.fallbackContent. rewrite H1, H2; simpl.
  apply forOf_snoc_skip. intros a. reflexivity.
Qed.

Lemma gemini_correlatedContent_injected (t : JSMap.t string) (text : string) (item : value)
      (acc : list ToolOutput * JSMap.t nat) :
  userTurn "gemini" item = true ->
  Gemini.correlatedContent t acc (withInjectedText "gemini" text item)
  = Gemini.correlatedContent t acc item.
Proof.
  intros Hu. destruct (gemini_turn_injected_parts text item Hu) as (ps & H1 & H2).
  unfold Gemini.correlatedContent. rewrite H1, H2; simpl.
  apply forOf_snoc_skip. intros [outs cs]. reflexivity.
Qed.

Lemma extract_injected (format : FormatDescriptor) (text : string) (state : PluginState)
      (pre post : list value) (item : value) :
  In format formats ->
  userTurn (name format) item = true ->
  extractToolOutputs format (pre ++ withInjectedText (name format) text item :: post) state
  = extractToolOutputs format (pre ++ item :: post) state.
Proof.
  intros Hf Hu.
  destruct (name_in_formats _ Hf) as [-> | [-> | [-> | ->]]]; simpl in *.
  - apply forOf_replace_equiv. intros a. now apply responses_item_injected.
  - apply forOf_replace_equiv. intros a. now apply bedrock_turn_injected.
  - apply forOf_replace_equiv. intros a. now apply chat_turn_injected.
  - unfold Gemini.extractToolOutputs.
    destruct (Gemini.findPositionMapping (googleToolCallMapping state)) as [t|].
    + rewrite (forOf_replace_equiv (Gemini.correlatedContent t)
                 item (withInjectedText "gemini" text item)); [reflexivity|].
      intros a. now apply gemini_correlatedContent_injected.
    + apply forOf_replace_equiv. intros a. now apply gemini_fallbackContent_injected.
Qed.

(** What a successful scan did. *)
Lemma scanFrom_some (text formatName : string) (data data' : list value) (n : nat) :
  n <= length data ->
  Inject.scanFrom text formatName data n = Ok (Some data') ->
  exists pre item item' post,
    data = (pre ++ item :: post)%list
    /\ Inject.injectItem text formatName item = Ok (Some item')
    /\ data' = (pre ++ item' :: post)%list.
Proof.
  induction n as [|i IH]; intros Hn H; [discriminate|].
  simpl in H. bind_inv H r Hr. destruct r as [item'|].
  - inv_ok H.
    destruct (nth_split data VUndefined (n := i)) as (pre & post & Hd & Hl); [lia|].
    exists pre, (nth i data VUndefined), item', post.
    split; [exact Hd|]. split; [exact Hr|].
    rewrite Hd at 1. rewrite <- Hl. apply updateAt_middle.
  - apply IH; [lia | exact H].
Qed.

Lemma injectItem_some_user (format : FormatDescriptor) (text : string) (item item' : value) :
  In format formats ->
  Inject.injectItem text (name format) item = Ok (Some item') ->
  userTurn (name format) item = true
  /\ item' = withInjectedText (name format) text item.
Proof.
  intros Hf H.
  assert (Hnn : isNullish item = false).
  { destruct item; try reflexivity;
      destruct (name_in_formats _ Hf) as [-> | [-> | [-> | ->]]]; discriminate. }
  rewrite (injectItem_userTurn _ _ _ Hf Hnn) in H.
  destruct (userTurn (name format) item); inv_ok H. auto.
Qed.

(** X20. For each of the four formats and every body with a turn array, an
    injection that returns leaves the body with a turn array of the same
    length on which the extraction gives what it gave before, tool output
    for tool output (and raises where it raised): injected text is never
    read as a tool output and shifts no identifier. *)
Theorem injectIntoLastUserMessage_keeps_tool_outputs
        (format : FormatDescriptor) (body : value) (text : string) (state : PluginState)
        (data : list value) (body' : value) (injected : bool) :
  In format formats ->
  getDataArray format body = Ok (VArr data) ->
  injectIntoLastUserMessage body format text = Ok (body', injected) ->
  exists data',
    getDataArray format body' = Ok (VArr data')
    /\ length data' = length data
    /\ extractToolOutputs format data' state = extractToolOutputs format data state.
Proof.
  intros Hf Hd H. unfold injectIntoLastUserMessage in H. rewrite Hd in H; simpl in H.
  bind_inv H r Hscan. destruct r as [data'|]; inv_ok H.
  - destruct (scanFrom_some _ _ _ _ _ (Nat.le_refl _) Hscan)
      as (pre & item & item' & post & -> & Hitem & ->).
    destruct (injectItem_some_user _ _ _ _ Hf Hitem) as [Hu ->].
    eexists. split; [now apply (getDataArray_storeData format body _ _ Hf Hd)|].
    split; [rewrite !length_app; reflexivity|].
    now apply extract_injected.
  - exists data. auto.
Qed.

Lemma injectIntoLastUserMessage_keeps_tool_outputs_witness :
  exists data',
    getDataArray openaiChatFormat
      (VObj [("model", VStr "gpt");
             ("messages",
              VArr [VObj [("role", VStr "user");
                          ("content",
                           VStr ("list the files" ++ newline ++ newline ++ "Be brief."))];
                    chatAssistantTurn; chatToolTurn])])
    = Ok (VArr data')
    /\ length data' = length [chatUserTurn; chatAssistantTurn; chatToolTurn]
    /\ extractToolOutputs openaiChatFormat data' createPluginState
       = extractToolOutputs openaiChatFormat
           [chatUserTurn; chatAssistantTurn; chatToolTurn] createPluginState.
Proof.
  apply (injectIntoLastUserMessage_keeps_tool_outputs openaiChatFormat chatBody "Be brief."
           createPluginState [chatUserTurn; chatAssistantTurn; chatToolTurn]
           (VObj [("model", VStr "gpt");
                  ("messages",
                   VArr [VObj [("role", VStr "user");
                               ("content",
                                VStr ("list the files" ++ newline ++ newline ++ "Be brief."))];
                         chatAssistantTurn; chatToolTurn])])
           true).
  - simpl; auto.
  - reflexivity.
  - reflexivity.
Defined.

(** ** Appending *)

Lemma extract_appended (format : FormatDescriptor) (text : string) (state : PluginState)
      (data : list value) (turn : value) :
  In format formats ->
  Append.newTurn (name format) text = Some turn ->
  extractToolOutputs format (data ++ [turn]) state = extractToolOutputs format data state.
Proof.
  intros Hf Ht.
  destruct (name_in_formats _ Hf) as [-> | [-> | [-> | ->]]]; simpl in *; inv_ok Ht.
  - apply forOf_snoc_skip. intros a. reflexivity.
  - apply forOf_snoc_skip. intros a. reflexivity.
  - apply forOf_snoc_skip. intros a. reflexivity.
  - unfold Gemini.extractToolOutputs.
    destruct (Gemini.findPositionMapping (googleToolCallMapping state)) as [t|].
    + rewrite (forOf_snoc_skip (Gemini.correlatedContent t)); [reflexivity|].
      intros [outs cs]. reflexivity.
    + apply forOf_snoc_skip. intros a. reflexivity.
Qed.

(** X21. For each of the four formats and every body with a turn array,
    [appendUserMessage] returns [true] and leaves a turn array one turn
    longer on which the extraction gives what it gave before: the appended
    turn is no tool output and shifts no identifier. *)
Theorem appendUserMessage_keeps_tool_outputs
        (format : FormatDescriptor) (body : value) (text : string) (state : PluginState)
        (data : list value) :
  In format formats ->
  getDataArray format body = Ok (VArr data) ->
  exists body' data',
    appendUserMessage body format text = Ok (body', true)
    /\ getDataArray format body' = Ok (VArr data')
    /\ length data' = S (length data)
    /\ extractToolOutputs format data' state = extractToolOutputs format data state.
Proof.
  intros Hf Hd. unfold appendUserMessage. rewrite Hd; simpl.
  assert (Ht : exists turn, Append.newTurn (name format) text = Some turn).
  { destruct (name_in_formats _ Hf) as [-> | [-> | [-> | ->]]]; eexists; reflexivity. }
  destruct Ht as [turn Ht]. rewrite Ht.
  eexists; eexists. split; [reflexivity|].
  split; [now apply (getDataArray_storeData format body _ _ Hf Hd)|].
  split.
  - unfold push. rewrite length_app; simpl. lia.
  - now apply extract_appended with text.
Qed.

Lemma appendUserMessage_keeps_tool_outputs_witness :
  exists body' data',
    appendUserMessage (VObj [("contents", VArr readWriteReadContents)]) geminiFormat "next"
    = Ok (body', true)
    /\ getDataArray geminiFormat body' = Ok (VArr data')
    /\ length data' = S (length readWriteReadContents)
    /\ extractToolOutputs geminiFormat data' createPluginState
       = extractToolOutputs geminiFormat readWriteReadContents createPluginState.
Proof.
  apply (appendUserMessage_keeps_tool_outputs geminiFormat
           (VObj [("contents", VArr readWriteReadContents)]) "next" createPluginState
           readWriteReadContents).
  - simpl; auto.
  - reflexivity.
Defined.

(* ================================================================== *)
(** * The utilities and the detector *)

Lemma detectFormat_storeData (body : value) (f : FormatDescriptor) (data' : list value) :
  detectFormat body = Ok (Some f) ->
  detectFormat (storeData body (dataKey (name f)) data') = Ok (Some f).
Proof.
  intros H. destruct (detectFormat_some _ _ H) as (Hf & data & Hd).
  destruct (getDataArray_array _ _ _ Hf Hd) as (fs & -> & Hl).
  rewrite detectFormat_not_nullish in H by reflexivity.
  rewrite detectFormat_not_nullish by reflexivity.
  rewrite <- H. unfold storeData; simpl.
  assert (Hk : forall k, isArray (lookup k (setField (dataKey (name f)) (VArr data') fs))
                         = isArray (lookup k fs)).
  { intros k. destruct (String.eqb_spec k (dataKey (name f))) as [-> | Hne].
    - now rewrite lookup_setField_same, Hl.
    - now rewrite lookup_setField_other. }
  assert (Hic : lookup "inferenceConfig" (setField (dataKey (name f)) (VArr data') fs)
                = lookup "inferenceConfig" fs).
  { apply lookup_setField_other.
    destruct (name_in_formats _ Hf) as [-> | [-> | [-> | ->]]]; discriminate. }
  now rewrite !Hk, Hic.
Qed.

(** X22. None of the three utilities changes which format a body is detected
    as: after a replacement (also one that raises midway), an injection or
    an appending on a body detected as the format [f], the body is still
    detected as [f]. *)
Theorem utilities_keep_detected_format
        (body : value) (f : FormatDescriptor) (toolId newContent text : string)
        (state : PluginState) :
  detectFormat body = Ok (Some f) ->
  detectFormat (fst (replaceToolOutput body f toolId newContent state)) = Ok (Some f)
  /\ (forall body' injected,
        injectIntoLastUserMessage body f text = Ok (body', injected) ->
        detectFormat body' = Ok (Some f))
  /\ (forall body' appended,
        appendUserMessage body f text = Ok (body', appended) ->
        detectFormat body' = Ok (Some f)).
Proof.
  intros H. destruct (detectFormat_some _ _ H) as (Hf & data & Hd).
  split; [|split].
  - destruct (replaceToolOutput_body f body toolId newContent state data Hf Hd)
      as (data' & -> & _).
    now apply detectFormat_storeData.
  - intros body' injected Hi. unfold injectIntoLastUserMessage in Hi.
    rewrite Hd in Hi; simpl in Hi. bind_inv Hi r Hr.
    destruct r; inv_ok Hi; [now apply detectFormat_storeData | exact H].
  - intros body' appended Ha. unfold appendUserMessage in Ha.
    rewrite Hd in Ha; simpl in Ha.
    destruct (Append.newTurn (name f) text); inv_ok Ha;
      [now apply detectFormat_storeData | exact H].
Qed.

Lemma utilities_keep_detected_format_witness :
  detectFormat (fst (replaceToolOutput chatBody openaiChatFormat "call_1" "x"
                       createPluginState))
  = Ok (Some openaiChatFormat)
  /\ (forall body' injected,
        injectIntoLastUserMessage chatBody openaiChatFormat "Be brief."
        = Ok (body', injected) ->
        detectFormat body' = Ok (Some openaiChatFormat))
  /\ (forall body' appended,
        appendUserMessage chatBody openaiChatFormat "Be brief." = Ok (body', appended) ->
        detectFormat body' = Ok (Some openaiChatFormat)).
Proof.
  apply (utilities_keep_detected_format chatBody openaiChatFormat "call_1" "x" "Be brief."
           createPluginState).
  reflexivity.
Defined.

(* ================================================================== *)
(** * Gemini: only identifiers of the table can be replaced *)

(** X23. In the Gemini format a replacement reaches only identifiers the
    selected table holds: when no entry of the table equals the identifier
    up to case, and so whenever the store selects no table, the call
    leaves the body as it is and returns [false] (or raises, on a
    malformed turn).  The synthetic identifiers the extraction makes up
    are of this kind unless the table holds them by coincidence. *)
Theorem gemini_replace_needs_table_entry
        (body : value) (toolId newContent : string) (state : PluginState)
        (data : list value) :
  getDataArray geminiFormat body = Ok (VArr data) ->
  (forall table key s,
      Gemini.findPositionMapping (googleToolCallMapping state) = Some table ->
      JSMap.get key table = Some s ->
      toLowerCase s <> toLowerCase toolId) ->
  fst (replaceToolOutput body geminiFormat toolId newContent state) = body
  /\ (snd (replaceToolOutput body geminiFormat toolId newContent state) = Ok false
      \/ exists e,
           snd (replaceToolOutput body geminiFormat toolId newContent state) = Throw e).
Proof.
  intros Hd Hno.
  assert (Hf : In geminiFormat formats) by (simpl; auto).
  pose proof (storeData_same geminiFormat body data Hf Hd) as Hsame.
  unfold replaceToolOutput. rewrite Hd. simpl.
  destruct (Gemini.findPositionMapping (googleToolCallMapping state)) as [t|] eqn:Et;
    [|simpl; auto].
  destruct (assignLoop_never_assigns
              (Replace.geminiStep (toLowerCase toolId) newContent t)
              (fun s x s' o => geminiStep_never_assigns (toLowerCase toolId) newContent t
                                 (fun key v => Hno t key v eq_refl) s s' x o)
              data JSMap.empty false) as [Hfst Hsnd].
  destruct (assignLoop _ JSMap.empty false data) as [ys r]; simpl in *. subst ys.
  split; [exact Hsame | exact Hsnd].
Qed.

Lemma gemini_replace_needs_table_entry_witness :
  fst (replaceToolOutput (VObj [("contents", VArr readWriteReadContents)]) geminiFormat
         "gemini-read-0" "[pruned]" createPluginState)
  = VObj [("contents", VArr readWriteReadContents)]
  /\ (snd (replaceToolOutput (VObj [("contents", VArr readWriteReadContents)]) geminiFormat
             "gemini-read-0" "[pruned]" createPluginState) = Ok false
      \/ exists e,
           snd (replaceToolOutput (VObj [("contents", VArr readWriteReadContents)])
                  geminiFormat "gemini-read-0" "[pruned]" createPluginState) = Throw e).
Proof.
  apply (gemini_replace_needs_table_entry
           (VObj [("contents", VArr readWriteReadContents)]) "gemini-read-0" "[pruned]"
           createPluginState readWriteReadContents).
  - reflexivity.
  - intros table key s H. discriminate.
Defined.

(** The identifier [gemini-read-0] is one the extraction returns on this
    body, and the replacement does not find it. *)
Example gemini_synthetic_id_not_replaced :
  (outputs <- extractToolOutputs geminiFormat readWriteReadContents createPluginState ;;
   Ok (map id outputs))
  = Ok ["gemini-read-0"; "gemini-write-1"; "gemini-read-2"]
  /\ replaceToolOutput (VObj [("contents", VArr readWriteReadContents)]) geminiFormat
       "gemini-read-0" "[pruned]" createPluginState
     = (VObj [("contents", VArr readWriteReadContents)], Ok false).
Proof. split; reflexivity. Qed.

(* ================================================================== *)
(** * The session event hook *)

Lemma eqStr_getOpt_obj (v : value) (k s : string) :
  eqStr (getOpt v k) s = true -> isNullish v = false.
Proof.
  destruct v; simpl; intros H; try discriminate; reflexivity.
Qed.

Lemma getOpt_VStr_obj (v : value) (k s : string) :
  getOpt v k = VStr s -> isNullish v = false.
Proof.
  destruct v; simpl; intros H; try discriminate; reflexivity.
Qed.

Lemma getOpt_not_nullish_up (v : value) (k : string) :
  isNullish (getOpt v k) = false -> isNullish v = false.
Proof.
  destruct v; simpl; intros H; try discriminate; reflexivity.
Qed.

Lemma isSubagentSession_rejected (client : Hooks.Client) (s : string) (e : exn) :
  Hooks.sessionGet client s = Throw e -> Hooks.isSubagentSession client s = false.
Proof.
  intros H. unfold Hooks.isSubagentSession. now rewrite H.
Qed.

Lemma createEventHandler_idle (client : Hooks.Client)
      (onIdle : option (string -> result unit)) (arg : value) (s : string) :
  idleEventOf s arg ->
  createEventHandler client onIdle arg
  = Ok (if Hooks.isSubagentSession client s then []
        else match onIdle with Some _ => [s] | None => [] end).
Proof.
  intros (Hty & Hst & Hid).
  pose proof (getOpt_VStr_obj _ _ _ Hid) as Hprops.
  pose proof (getOpt_not_nullish_up _ _ Hprops) as Hevent.
  pose proof (getOpt_not_nullish_up _ _ Hevent) as Harg.
  pose proof (eqStr_getOpt_obj _ _ _ Hst) as Hstatus.
  unfold createEventHandler.
  rewrite (get_not_nullish _ _ Harg); cbn [bind].
  rewrite (get_not_nullish _ _ Hevent); cbn [bind]. rewrite Hty.
  rewrite (get_not_nullish _ _ Hevent); cbn [bind].
  rewrite (get_not_nullish _ _ Hprops); cbn [bind].
  rewrite (get_not_nullish _ _ Hstatus); cbn [bind]. rewrite Hst.
  rewrite (get_not_nullish _ _ Hprops); cbn [bind]. rewrite Hid.
  destruct (Hooks.isSubagentSession client s); [reflexivity|].
  destruct onIdle as [callback|]; [|reflexivity].
  destruct (callback s); reflexivity.
Qed.

Lemma createEventHandler_called (client : Hooks.Client)
      (onIdle : option (string -> result unit)) (arg : value)
      (s : string) (rest : list string) :
  createEventHandler client onIdle arg = Ok (s :: rest) ->
  rest = [] /\ onIdle <> None /\ idleEventOf s arg
  /\ Hooks.isSubagentSession client s = false.
Proof.
  unfold createEventHandler, idleEventOf. intros H.
  bind_inv H event He. rewrite (get_getOpt _ _ _ He).
  bind_inv H ty Hty. rewrite (get_getOpt _ _ _ Hty).
  destruct (eqStr ty "session.status") eqn:E1; [|discriminate].
  bind_inv H props Hp. rewrite (get_getOpt _ _ _ Hp).
  bind_inv H status Hs. rewrite (get_getOpt _ _ _ Hs).
  bind_inv H sty Hsty. rewrite (get_getOpt _ _ _ Hsty).
  destruct (eqStr sty "idle") eqn:E2; [|discriminate].
  bind_inv H sid Hsid. rewrite (get_getOpt _ _ _ Hsid).
  destruct sid as [| | | |s'| |]; try discriminate.
  destruct (Hooks.isSubagentSession client s') eqn:E3; [discriminate|].
  destruct onIdle as [callback|]; [|discriminate].
  destruct (callback s'); inv_ok H; repeat split; auto; discriminate.
Qed.

(** X24. The handler of session events calls the idle callback at most once,
    and with a session identifier [s] exactly when a callback was given,
    the event is an idle-status event of [s] and the host does not report
    a parent for [s]; a rejected session lookup counts as no parent, so
    the callback then runs.  Whatever the callback raises is swallowed: the
    handler raises nothing but a TypeError, on a malformed event. *)
Theorem createEventHandler_calls_onIdle
        (client : Hooks.Client) (onIdle : option (string -> result unit))
        (arg : value) (s : string) :
  (forall rest,
      createEventHandler client onIdle arg = Ok (s :: rest)
      <-> rest = [] /\ onIdle <> None /\ idleEventOf s arg
          /\ Hooks.isSubagentSession client s = false)
  /\ (forall e callback,
        Hooks.sessionGet client s = Throw e ->
        idleEventOf s arg ->
        createEventHandler client (Some callback) arg = Ok [s])
  /\ (forall e, createEventHandler client onIdle arg = Throw e -> e = TypeError).
Proof.
  split; [|split].
  - intros rest. split; [apply createEventHandler_called|].
    intros (-> & Hcb & Hidle & Hsub).
    rewrite (createEventHandler_idle _ _ _ _ Hidle), Hsub.
    destruct onIdle; [reflexivity | now elim Hcb].
  - intros e callback Hrej Hidle.
    now rewrite (createEventHandler_idle _ _ _ _ Hidle),
                (isSubagentSession_rejected _ _ _ Hrej).
  - intros e H. unfold createEventHandler in H.
    repeat match type of H with
           | bind (get ?v ?k) _ = _ =>
               destruct v; simpl in H; try (inv_ok H; reflexivity)
           | (if ?b then _ else _) = _ => destruct b
           | match ?v with _ => _ end = _ => destruct v
           end;
      try discriminate; try (inv_ok H; reflexivity).
Qed.

Example createEventHandler_swallows_callback_error :
  createEventHandler (transcriptClient []) (Some (fun _ => Throw HostError))
    (VObj [("event",
            VObj [("type", VStr "session.status");
                  ("properties", VObj [("sessionID", VStr "ses_a");
                                       ("status", VObj [("type", VStr "idle")])])])])
  = Ok ["ses_a"].
Proof. reflexivity. Qed.

(* ================================================================== *)
(** * The logger *)

Lemma formatParts_app (a b : list (string * value)) :
  Logger.formatParts (a ++ b) = (Logger.formatParts a ++ Logger.formatParts b)%list.
Proof.
  apply flat_map_app.
Qed.

(** X27. The formatted data mention no field whose value is [null],
    [undefined], an empty array, or an object whose JSON text has 50
    characters or more: the text is the one of the data without the
    field. *)
Theorem formatData_skips_field
        (before after : list (string * value)) (key : string) (v : value) :
  isNullish v = true
  \/ v = VArr []
  \/ (exists fs, v = VObj fs /\ 50 <= String.length (stringifyDefined v)) ->
  Logger.formatData (VObj (before ++ (key, v) :: after))
  = Logger.formatData (VObj (before ++ after)).
Proof.
  intros Hv.
  assert (Hnone : Logger.formatEntry key v = None).
  { destruct Hv as [Hn | [-> | (fs & -> & Hlen)]].
    - destruct v; try discriminate; reflexivity.
    - reflexivity.
    - unfold Logger.formatEntry.
      destruct (Nat.ltb_spec (String.length (stringifyDefined (VObj fs))) 50);
        [lia | reflexivity]. }
  unfold Logger.formatData; simpl.
  rewrite !formatParts_app.
  change ((key, v) :: after) with ([(key, v)] ++ after)%list.
  rewrite formatParts_app. unfold Logger.formatParts at 2; simpl.
  now rewrite Hnone.
Qed.

Lemma formatData_skips_field_witness :
  Logger.formatData (VObj ([("url", VStr "u")] ++ ("error", VUndefined)
                           :: [("toolCount", VNum 2)]))
  = Logger.formatData (VObj ([("url", VStr "u")] ++ [("toolCount", VNum 2)])).
Proof.
  apply (formatData_skips_field [("url", VStr "u")] [("toolCount", VNum 2)]
           "error" VUndefined).
  left; reflexivity.
Defined.

Example formatData_example :
  Logger.formatData
    (VObj [("url", VStr "u"); ("error", VNull);
           ("ids", VArr [VStr "a"; VStr "b"; VStr "c"; VStr "d"; VStr "e"]);
           ("model", VObj [("id", VStr "m")]); ("count", VNum 2)])
  = "url=u ids=[a,b,c...+2] model={" ++ quote "id" ++ ":" ++ quote "m" ++ "} count=2".
Proof. reflexivity. Qed.

(* ================================================================== *)
(** * Gemini: extraction after a replacement *)

Lemma kept_refl (tl c : string) (o : ToolOutput) : kept tl c o o.
Proof.
  repeat split; auto.
Qed.

Lemma Forall2_kept_refl (tl c : string) (l : list ToolOutput) : Forall2 (kept tl c) l l.
Proof.
  induction l; constructor; auto using kept_refl.
Qed.

Lemma showsNew_app_l (tl c : string) (a b : list ToolOutput) :
  showsNew tl c a -> showsNew tl c (a ++ b).
Proof.
  intros (o & Ho & H). exists o. split; [apply in_or_app; now left | exact H].
Qed.

Lemma showsNew_app_r (tl c : string) (a b : list ToolOutput) :
  showsNew tl c b -> showsNew tl c (a ++ b).
Proof.
  intros (o & Ho & H). exists o. split; [apply in_or_app; now right | exact H].
Qed.

Lemma stretchOk_nil (tl c : string) : stretchOk tl c [] [] false.
Proof.
  split; [constructor | discriminate].
Qed.

Lemma stretchOk_same (tl c : string) (l : list ToolOutput) : stretchOk tl c l l false.
Proof.
  split; [apply Forall2_kept_refl | discriminate].
Qed.

Lemma stretchOk_app (tl c : string) (l1 l1' l2 l2' : list ToolOutput) (h1 h2 : bool) :
  stretchOk tl c l1 l1' h1 -> stretchOk tl c l2 l2' h2 ->
  stretchOk tl c (l1 ++ l2) (l1' ++ l2') (h1 || h2).
Proof.
  intros [F1 S1] [F2 S2]. split; [now apply Forall2_app|].
  intros H. apply orb_prop in H. destruct H as [H | H].
  - apply showsNew_app_l; auto.
  - apply showsNew_app_r; auto.
Qed.

Section GeminiRoundTrip.
Variable tl : string.
Variable newContent : string.
Variable table : JSMap.t string.
Hypothesis tl_nonempty : tl <> "".
Hypothesis new_nonempty : newContent <> "".

Lemma gemini_part_roundtrip (part : value) (outs outs1 : list ToolOutput)
      (cs cs1 cs1' : JSMap.t nat) (np np1 : list value) (cm cm1 : bool) :
  Gemini.correlatedPart table (outs, cs) part = Ok (outs1, cs1) ->
  Replace.geminiPart tl newContent table (np, cm, cs) part = Ok (np1, cm1, cs1') ->
  exists part' hit l l',
    np1 = (np ++ [part'])%list /\ cm1 = cm || hit /\ cs1' = cs1
    /\ (hit = false -> part' = part)
    /\ outs1 = (outs ++ l)%list
    /\ (forall outs0,
          Gemini.correlatedPart table (outs0, cs) part' = Ok ((outs0 ++ l')%list, cs1))
    /\ stretchOk tl newContent l l' hit.
Proof.
  intros Hx Hr.
  assert (Hskip : (forall outs0, Gemini.correlatedPart table (outs0, cs) part
                                 = Ok (outs0, cs)) ->
                  outs1 = outs -> cs1 = cs ->
                  np1 = (np ++ [part])%list -> cm1 = cm -> cs1' = cs ->
                  exists part' hit l l',
                    np1 = (np ++ [part'])%list /\ cm1 = cm || hit /\ cs1' = cs1
                    /\ (hit = false -> part' = part)
                    /\ outs1 = (outs ++ l)%list
                    /\ (forall outs0,
                          Gemini.correlatedPart table (outs0, cs) part'
                          = Ok ((outs0 ++ l')%list, cs1))
                    /\ stretchOk tl newContent l l' hit).
  { intros Hsame -> -> -> -> ->. exists part, false, [], [].
    rewrite orb_false_r, app_nil_r.
    split; [reflexivity|]. split; [reflexivity|]. split; [reflexivity|].
    split; [auto|]. split; [reflexivity|].
    split; [intros outs0; rewrite app_nil_r; apply Hsame | apply stretchOk_nil]. }
  unfold Gemini.correlatedPart in Hx, Hskip. unfold Replace.geminiPart in Hr.
  bind_inv Hx fr Hfr. rewrite Hfr in Hr, Hskip; cbn [bind] in Hr, Hskip.
  destruct (truthy fr) eqn:Tfr.
  2:{ inv_ok Hx. inv_ok Hr. apply Hskip; auto. }
  bind_inv Hx name0 Hn. rewrite Hn in Hr, Hskip; cbn [bind] in Hr, Hskip.
  bind_inv Hx funcName Hl. rewrite Hl in Hr, Hskip; cbn [bind] in Hr, Hskip.
  destruct funcName as [| | | |fn| |];
    try solve [inv_ok Hx; inv_ok Hr; apply Hskip; auto].
  destruct (truthy (VStr fn)) eqn:Tfn.
  2:{ inv_ok Hx. inv_ok Hr. apply Hskip; auto. }
  clear Hskip.
  bind_inv Hx response Hresp. inv_ok Hx.
  set (idx := Gemini.counterOf cs fn) in *.
  set (o := {| id := Gemini.correlatedId
                       (JSMap.get (Gemini.positionKey fn idx) table) (VStr fn) idx;
               toolName := VStr fn;
               content := Gemini.responseContent response |}).
  assert (Hsame : forall outs0,
             Gemini.correlatedPart table (outs0, cs) part
             = Ok ((outs0 ++ [o])%list, JSMap.set fn (idx + 1) cs)).
  { intros outs0. unfold Gemini.correlatedPart.
    rewrite Hfr; cbn [bind]. rewrite Tfr, Hn; cbn [bind]. rewrite Hl; cbn [bind].
    rewrite Tfn, Hresp; cbn [bind]. reflexivity. }
  destruct (JSMap.get (Gemini.positionKey fn idx) table) as [s|] eqn:Eg.
  - destruct (String.eqb (toLowerCase s) tl) eqn:E; inv_ok Hr.
    + apply String.eqb_eq in E.
      set (fr' := spreadSet fr "response"
                    (VObj [("name", name0); ("content", VStr newContent)])).
      exists (Replace.geminiRewrite newContent part fr name0), true, [o],
             [{| id := id o; toolName := VStr fn; content := VStr newContent |}].
      rewrite orb_true_r. split; [reflexivity|]. split; [reflexivity|].
      split; [reflexivity|]. split; [discriminate|]. split; [reflexivity|].
      split.
      * intros outs0. unfold Gemini.correlatedPart, Replace.geminiRewrite.
        fold fr'. rewrite get_spreadSet_same; cbn [bind].
        unfold fr' at 1. rewrite truthy_spreadSet.
        assert (Hn' : get fr' "name" = Ok name0).
        { unfold fr'. rewrite get_spreadSet_other;
            [exact Hn | now apply truthy_not_nullish | discriminate]. }
        rewrite Hn'; cbn [bind]. rewrite Hl; cbn [bind]. rewrite Tfn.
        unfold fr' at 1. rewrite get_spreadSet_same; cbn [bind].
        fold idx. rewrite Eg. unfold push. do 3 f_equal.
        unfold Gemini.responseContent, orElse; simpl.
        apply String.eqb_neq in new_nonempty. now rewrite new_nonempty.
      * assert (Hid : id o = tl).
        { unfold o; simpl. unfold Gemini.correlatedId. rewrite E. simpl.
          apply String.eqb_neq in tl_nonempty. now rewrite tl_nonempty. }
        split.
        -- constructor; [|constructor]. repeat split; auto.
        -- intros _. eexists. split; [now left|]. split; [exact Hid | reflexivity].
    + exists part, false, [o], [o]. rewrite orb_false_r.
      split; [reflexivity|]. split; [reflexivity|]. split; [reflexivity|].
      split; [auto|]. split; [reflexivity|].
      split; [exact Hsame | apply stretchOk_same].
  - inv_ok Hr. exists part, false, [o], [o]. rewrite orb_false_r.
    split; [reflexivity|]. split; [reflexivity|]. split; [reflexivity|].
    split; [auto|]. split; [reflexivity|].
    split; [exact Hsame | apply stretchOk_same].
Qed.

Lemma gemini_parts_roundtrip (ps : list value) (outs outs1 : list ToolOutput)
      (cs cs1 cs1' : JSMap.t nat) (np np1 : list value) (cm cm1 : bool) :
  forOf ps (outs, cs) (Gemini.correlatedPart table) = Ok (outs1, cs1) ->
  forOf ps (np, cm, cs) (Replace.geminiPart tl newContent table) = Ok (np1, cm1, cs1') ->
  exists ps' hit l l',
    np1 = (np ++ ps')%list /\ cm1 = cm || hit /\ cs1' = cs1
    /\ (hit = false -> ps' = ps)
    /\ outs1 = (outs ++ l)%list
    /\ (forall outs0,
          forOf ps' (outs0, cs) (Gemini.correlatedPart table) = Ok ((outs0 ++ l')%list, cs1))
    /\ stretchOk tl newContent l l' hit.
Proof.
  revert outs cs np cm; induction ps as [|p ps IH]; intros outs cs np cm Hx Hr.
  - simpl in Hx, Hr. inv_ok Hx. inv_ok Hr. exists [], false, [], [].
    rewrite orb_false_r, !app_nil_r.
    split; [reflexivity|]. split; [reflexivity|]. split; [reflexivity|].
    split; [auto|]. split; [reflexivity|].
    split; [intros outs0; simpl; now rewrite app_nil_r | apply stretchOk_nil].
  - rewrite forOf_cons in Hx. rewrite forOf_cons in Hr.
    bind_inv Hx a Hx1. destruct a as [outs2 cs2].
    bind_inv Hr a Hr1. destruct a as [[np2 cm2] cs2'].
    destruct (gemini_part_roundtrip _ _ _ _ _ _ _ _ _ _ Hx1 Hr1)
      as (p' & h1 & l1 & l1' & -> & -> & -> & Hs1 & -> & Hx1' & Hl1).
    destruct (IH _ _ _ _ Hx Hr)
      as (ps' & h2 & l2 & l2' & -> & -> & -> & Hs2 & -> & Hx2' & Hl2).
    exists (p' :: ps'), (h1 || h2), (l1 ++ l2)%list, (l1' ++ l2')%list.
    split; [now rewrite <- app_assoc|]. split; [now rewrite orb_assoc|].
    split; [reflexivity|]. split.
    { intros H. apply orb_false_elim in H. destruct H as [H1 H2].
      now rewrite (Hs1 H1), (Hs2 H2). }
    split; [now rewrite app_assoc|]. split.
    { intros outs0. rewrite forOf_cons, Hx1'; cbn [bind].
      rewrite Hx2'. now rewrite app_assoc. }
    now apply stretchOk_app.
Qed.

Lemma gemini_content_roundtrip (c : value) (outs outs1 : list ToolOutput)
      (cs cs1 cs1' : JSMap.t nat) (o : option value) :
  Gemini.correlatedContent table (outs, cs) c = Ok (outs1, cs1) ->
  Replace.geminiStep tl newContent table cs c = Ok (cs1', o) ->
  exists l l',
    cs1' = cs1 /\ outs1 = (outs ++ l)%list
    /\ (forall outs0,
          Gemini.correlatedContent table (outs0, cs) (assigned c o)
          = Ok ((outs0 ++ l')%list, cs1))
    /\ stretchOk tl newContent l l' (isAssigned o).
Proof.
  unfold Gemini.correlatedContent, Replace.geminiStep. intros Hx Hr.
  bind_inv Hx parts Hp. rewrite Hp in Hr; cbn [bind] in Hr.
  destruct parts as [| | | | |ps|];
    try (inv_ok Hx; inv_ok Hr; exists [], []; rewrite app_nil_r;
         split; [reflexivity|]; split; [reflexivity|];
         split; [intros outs0; cbn [assigned]; rewrite Hp; cbn [bind];
                 now rewrite app_nil_r
                | apply stretchOk_nil]).
  bind_inv Hr a Hloop. destruct a as [[newParts cm] cs2].
  destruct (gemini_parts_roundtrip _ _ _ _ _ _ _ _ _ _ Hx Hloop)
    as (ps' & hit & l & l' & Enp & Ecm & -> & Hsame & -> & Hx' & Hl).
  simpl in Enp, Ecm. subst newParts cm.
  exists l, l'. destruct hit; inv_ok Hr; cbn [assigned isAssigned].
  - split; [reflexivity|]. split; [reflexivity|]. split; [|exact Hl].
    intros outs0. rewrite get_spreadSet_same; cbn [bind]. apply Hx'.
  - split; [reflexivity|]. split; [reflexivity|]. split; [|exact Hl].
    intros outs0. rewrite Hp; cbn [bind]. rewrite <- (Hsame eq_refl). apply Hx'.
Qed.

Lemma gemini_data_roundtrip (data : list value) (outs outs1 : list ToolOutput)
      (cs cs1 : JSMap.t nat) (b b' : bool) (data' : list value) :
  forOf data (outs, cs) (Gemini.correlatedContent table) = Ok (outs1, cs1) ->
  assignLoop (Replace.geminiStep tl newContent table) cs b data = (data', Ok b') ->
  exists hit l l',
    b' = b || hit /\ outs1 = (outs ++ l)%list
    /\ (forall outs0,
          forOf data' (outs0, cs) (Gemini.correlatedContent table)
          = Ok ((outs0 ++ l')%list, cs1))
    /\ stretchOk tl newContent l l' hit.
Proof.
  revert outs cs b data'; induction data as [|c data IH]; intros outs cs b data' Hx Ha.
  - simpl in Hx, Ha. inv_ok Hx. inv_ok Ha. exists false, [], [].
    rewrite orb_false_r, app_nil_r.
    split; [reflexivity|]. split; [reflexivity|].
    split; [intros outs0; simpl; now rewrite app_nil_r | apply stretchOk_nil].
  - rewrite forOf_cons in Hx. bind_inv Hx a Hx1. destruct a as [outs2 cs2].
    cbn [assignLoop] in Ha.
    destruct (Replace.geminiStep tl newContent table cs c) as [[cs2' o]|e] eqn:Hr;
      [|inv_ok Ha].
    destruct (gemini_content_roundtrip _ _ _ _ _ _ _ Hx1 Hr)
      as (l1 & l1' & -> & -> & Hx1' & Hl1).
    destruct o as [c'|]; cbn [assigned isAssigned] in *.
    + destruct (assignLoop (Replace.geminiStep tl newContent table) cs2 true data)
        as [ys r] eqn:Hrest. inv_ok Ha.
      destruct (IH _ _ _ _ Hx Hrest) as (h2 & l2 & l2' & -> & -> & Hx2' & Hl2).
      exists true, (l1 ++ l2)%list, (l1' ++ l2')%list.
      split; [now rewrite orb_true_r|]. split; [now rewrite app_assoc|]. split.
      { intros outs0. rewrite forOf_cons, Hx1'; cbn [bind]. rewrite Hx2'.
        now rewrite app_assoc. }
      apply (stretchOk_app tl newContent _ _ _ _ true h2); assumption.
    + destruct (assignLoop (Replace.geminiStep tl newContent table) cs2 b data)
        as [ys r] eqn:Hrest. inv_ok Ha.
      destruct (IH _ _ _ _ Hx Hrest) as (h2 & l2 & l2' & -> & -> & Hx2' & Hl2).
      exists h2, (l1 ++ l2)%list, (l1' ++ l2')%list.
      split; [reflexivity|]. split; [now rewrite app_assoc|]. split.
      { intros outs0. rewrite forOf_cons, Hx1'; cbn [bind]. rewrite Hx2'.
        now rewrite app_assoc. }
      apply (stretchOk_app tl newContent _ _ _ _ false h2); assumption.
Qed.

End GeminiRoundTrip.

(** X25. In the Gemini format, with a non-empty identifier and a non-empty new
    content: after a replacement that returns, the body still holds a turn
    array, and the extraction on it returns as many outputs as before,
    each with the identifier and the tool name it had; an output is as it
    was unless it carries the case-folded identifier and now shows the new
    content; and when the call returned [true], at least one output
    carries the identifier and shows the new content. *)
Theorem gemini_replaceToolOutput_then_extract
        (body : value) (toolId newContent : string) (state : PluginState)
        (data : list value) (outputs : list ToolOutput) (body' : value) (replaced : bool) :
  toolId <> "" ->
  newContent <> "" ->
  getDataArray geminiFormat body = Ok (VArr data) ->
  extractToolOutputs geminiFormat data state = Ok outputs ->
  replaceToolOutput body geminiFormat toolId newContent state = (body', Ok replaced) ->
  exists data' outputs',
    getDataArray geminiFormat body' = Ok (VArr data')
    /\ extractToolOutputs geminiFormat data' state = Ok outputs'
    /\ Forall2 (kept (toLowerCase toolId) newContent) outputs outputs'
    /\ (replaced = true -> showsNew (toLowerCase toolId) newContent outputs').
Proof.
  intros Hid Hnew Hd Hx Hr.
  assert (Hf : In geminiFormat formats) by (simpl; auto).
  assert (Htl : toLowerCase toolId <> "") by now rewrite toLowerCase_empty_iff.
  unfold replaceToolOutput in Hr. rewrite Hd in Hr. simpl in Hr.
  simpl in Hx. unfold Gemini.extractToolOutputs in Hx |- *.
  destruct (Gemini.findPositionMapping (googleToolCallMapping state)) as [t|] eqn:Et.
  - destruct (assignLoop (Replace.geminiStep (toLowerCase toolId) newContent t)
                JSMap.empty false data) as [data' r] eqn:Ha.
    inv_ok Hr. bind_inv Hx acc Hloop. destruct acc as [outs cs]. inv_ok Hx.
    destruct (gemini_data_roundtrip (toLowerCase toolId) newContent t Htl Hnew
                _ _ _ _ _ _ _ _ Hloop Ha) as (hit & l & l' & -> & El & Hx' & [HF HS]).
    simpl in El. subst l.
    exists data', l'. split; [|split; [|split]].
    + apply (getDataArray_storeData geminiFormat _ _ _ Hf Hd).
    + simpl. unfold Gemini.extractToolOutputs. rewrite Et.
      rewrite (Hx' []). reflexivity.
    + exact HF.
    + exact HS.
  - inv_ok Hr. exists data, outputs. split; [exact Hd|]. split.
    + simpl. unfold Gemini.extractToolOutputs. now rewrite Et.
    + split; [apply Forall2_kept_refl | discriminate].
Qed.

Lemma gemini_replaceToolOutput_then_extract_witness :
  exists data' outputs',
    getDataArray geminiFormat
      (VObj [("contents",
              VArr [VObj [("role", VStr "user");
                          ("parts",
                           VArr [VObj [("functionResponse",
                                        VObj [("name", VStr "read");
                                              ("response",
                                               VObj [("name", VStr "read");
                                                     ("content", VStr "[pruned]")])])]])]])])
    = Ok (VArr data')
    /\ extractToolOutputs geminiFormat data'
         (stateWith [("ses", [("read:0", "Call_1")])] None) = Ok outputs'
    /\ Forall2 (kept (toLowerCase "CALL_1") "[pruned]")
               [{| id := "call_1"; toolName := VStr "read"; content := VStr "ok" |}]
               outputs'
    /\ (true = true -> showsNew (toLowerCase "CALL_1") "[pruned]" outputs').
Proof.
  apply (gemini_replaceToolOutput_then_extract
           (VObj [("contents",
                   VArr [VObj [("role", VStr "user");
                               ("parts", VArr [functionResponsePart "read"])]])])
           "CALL_1" "[pruned]"
           (stateWith [("ses", [("read:0", "Call_1")])] None)
           [VObj [("role", VStr "user"); ("parts", VArr [functionResponsePart "read"])]]
           [{| id := "call_1"; toolName := VStr "read"; content := VStr "ok" |}]);
    try discriminate; reflexivity.
Defined.

(* ================================================================== *)
(** * Replacing twice *)

Lemma spreadSet_idem (o v : value) (k : string) :
  spreadSet (spreadSet o k v) k v = spreadSet o k v.
Proof.
  destruct o; simpl; try (now rewrite String.eqb_refl).
  now rewrite setField_setField.
Qed.

(** A rewriting loop whose steps, run again on what they left, decide as
    before and leave it as it is, is idempotent. *)
Lemma assignLoop_again {S : Type} (step : S -> value -> result (S * option value)) :
  (forall s x s' o, step s x = Ok (s', o) -> step s (assigned x o) = Ok (s', o)) ->
  forall data s b data' b',
    assignLoop step s b data = (data', Ok b') ->
    assignLoop step s b data' = (data', Ok b').
Proof.
  intros Hstep data; induction data as [|x data IH]; intros s b data' b' H.
  - simpl in H. inv_ok H. reflexivity.
  - cbn [assignLoop] in H.
    destruct (step s x) as [[s' o]|e] eqn:Hx; [|inv_ok H].
    pose proof (Hstep _ _ _ _ Hx) as Hx'.
    destruct o as [x'|]; cbn [assigned] in Hx'.
    + destruct (assignLoop step s' true data) as [ys r] eqn:Hrest. inv_ok H.
      cbn [assignLoop]. rewrite Hx'. now rewrite (IH _ _ _ _ Hrest).
    + destruct (assignLoop step s' b data) as [ys r] eqn:Hrest. inv_ok H.
      cbn [assignLoop]. rewrite Hx'. now rewrite (IH _ _ _ _ Hrest).
Qed.

(** The same for a [map] whose callback raises a flag and threads a
    state. *)
Lemma flagged_map_again_state {S : Type}
      (pstep : list value * bool * S -> value -> result (list value * bool * S)) :
  (forall np md s part np' md' s',
      pstep (np, md, s) part = Ok (np', md', s') ->
      exists part' hit,
        np' = (np ++ [part'])%list /\ md' = md || hit
        /\ forall np2 md2,
             pstep (np2, md2, s) part' = Ok ((np2 ++ [part'])%list, md2 || hit, s')) ->
  forall parts np md s np' md' s',
    forOf parts (np, md, s) pstep = Ok (np', md', s') ->
    exists ps' hit,
      np' = (np ++ ps')%list /\ md' = md || hit
      /\ forall np2 md2,
           forOf ps' (np2, md2, s) pstep = Ok ((np2 ++ ps')%list, md2 || hit, s').
Proof.
  intros Hleaf parts; induction parts as [|p parts IH]; intros np md s np' md' s' H.
  - simpl in H. inv_ok H. exists [], false. rewrite app_nil_r, orb_false_r.
    split; [reflexivity|]. split; [reflexivity|].
    intros np2 md2. simpl. now rewrite app_nil_r, orb_false_r.
  - rewrite forOf_cons in H. bind_inv H a H1. destruct a as [[np1 md1] s1].
    destruct (Hleaf _ _ _ _ _ _ _ H1) as (p' & h1 & -> & -> & Hp').
    destruct (IH _ _ _ _ _ _ H) as (ps' & h2 & -> & -> & Hps').
    exists (p' :: ps'), (h1 || h2).
    split; [now rewrite <- app_assoc|]. split; [now rewrite orb_assoc|].
    intros np2 md2. rewrite forOf_cons, Hp'; cbn [bind].
    rewrite Hps'. now rewrite <- app_assoc, orb_assoc.
Qed.

Lemma flagged_map_again
      (pstep : list value * bool -> value -> result (list value * bool)) :
  (forall np md part np' md',
      pstep (np, md) part = Ok (np', md') ->
      exists part' hit,
        np' = (np ++ [part'])%list /\ md' = md || hit
        /\ forall np2 md2, pstep (np2, md2) part' = Ok ((np2 ++ [part'])%list, md2 || hit)) ->
  forall parts np md np' md',
    forOf parts (np, md) pstep = Ok (np', md') ->
    exists ps' hit,
      np' = (np ++ ps')%list /\ md' = md || hit
      /\ forall np2 md2, forOf ps' (np2, md2) pstep = Ok ((np2 ++ ps')%list, md2 || hit).
Proof.
  intros Hleaf parts; induction parts as [|p parts IH]; intros np md np' md' H.
  - simpl in H. inv_ok H. exists [], false. rewrite app_nil_r, orb_false_r.
    split; [reflexivity|]. split; [reflexivity|].
    intros np2 md2. simpl. now rewrite app_nil_r, orb_false_r.
  - rewrite forOf_cons in H. bind_inv H a H1. destruct a as [np1 md1].
    destruct (Hleaf _ _ _ _ _ H1) as (p' & h1 & -> & -> & Hp').
    destruct (IH _ _ _ _ H) as (ps' & h2 & -> & -> & Hps').
    exists (p' :: ps'), (h1 || h2).
    split; [now rewrite <- app_assoc|]. split; [now rewrite orb_assoc|].
    intros np2 md2. rewrite forOf_cons, Hp'; cbn [bind].
    rewrite Hps'. now rewrite <- app_assoc, orb_assoc.
Qed.

Lemma spreadSet_spreadSet (o v w : value) (k : string) :
  spreadSet (spreadSet o k v) k w = spreadSet o k w.
Proof.
  destruct o; simpl; try (now rewrite String.eqb_refl).
  now rewrite setField_setField.
Qed.

Section Again.
Variable tl : string.
Variable newContent : string.

(** *** openai-responses *)

Lemma responsesStep_again (s : unit) (item : value) (s' : unit) (o : option value) :
  Replace.responsesStep tl newContent s item = Ok (s', o) ->
  Replace.responsesStep tl newContent s (assigned item o) = Ok (s', o).
Proof.
  intros H. destruct o as [item'|]; [|exact H]. cbn [assigned].
  unfold Replace.responsesStep in H |- *.
  bind_inv H ty Hty. pose proof (get_Ok_not_nullish _ _ _ Hty) as Hobj.
  destruct (eqStr ty "function_call_output") eqn:Ety; [|discriminate].
  bind_inv H cid Hcid. bind_inv H hit Hhit. destruct hit; inv_ok H.
  rewrite !get_spreadSet_other by (auto; discriminate).
  rewrite Hty; cbn [bind]. rewrite Ety, Hcid; cbn [bind]. rewrite Hhit; cbn [bind].
  now rewrite spreadSet_idem.
Qed.

(** *** openai-chat *)

Lemma chatPart_again (np : list value) (md : bool) (part : value)
      (np' : list value) (md' : bool) :
  Replace.chatPart tl newContent (np, md) part = Ok (np', md') ->
  exists part' hit,
    np' = (np ++ [part'])%list /\ md' = md || hit
    /\ forall np2 md2,
         Replace.chatPart tl newContent (np2, md2) part'
         = Ok ((np2 ++ [part'])%list, md2 || hit).
Proof.
  intros H. unfold Replace.chatPart in H.
  bind_inv H ty Hty. pose proof (get_Ok_not_nullish _ _ _ Hty) as Hobj.
  destruct (eqStr ty "tool_result") eqn:Ety.
  - bind_inv H uid Huid. bind_inv H hit Hhit. destruct hit; inv_ok H.
    + exists (spreadSet part "content" (VStr newContent)), true.
      split; [reflexivity|]. split; [now rewrite orb_true_r|].
      intros np2 md2. unfold Replace.chatPart.
      rewrite !get_spreadSet_other by (auto; discriminate).
      rewrite Hty; cbn [bind]. rewrite Ety, Huid; cbn [bind]. rewrite Hhit; cbn [bind].
      now rewrite spreadSet_idem, orb_true_r.
    + exists part, false. split; [reflexivity|]. split; [now rewrite orb_false_r|].
      intros np2 md2. unfold Replace.chatPart.
      rewrite Hty; cbn [bind]. rewrite Ety, Huid; cbn [bind]. rewrite Hhit; cbn [bind].
      now rewrite orb_false_r.
  - inv_ok H. exists part, false. split; [reflexivity|]. split; [now rewrite orb_false_r|].
    intros np2 md2. unfold Replace.chatPart.
    rewrite Hty; cbn [bind]. rewrite Ety. now rewrite orb_false_r.
Qed.

Lemma chatStep_again (s : unit) (m : value) (s' : unit) (o : option value) :
  Replace.chatStep tl newContent s m = Ok (s', o) ->
  Replace.chatStep tl newContent s (assigned m o) = Ok (s', o).
Proof.
  intros H. destruct o as [m'|]; [|exact H]. cbn [assigned].
  unfold Replace.chatStep, Replace.chatNative, Replace.chatAnthropic in H |- *.
  bind_inv H a1 Ha1. bind_inv H a2 Ha2.
  assert (Ho : match a2 with Some x => Some x | None => a1 end = Some m')
    by (inversion H; reflexivity).
  destruct s, s'. clear H.
  bind_inv Ha1 role Hrole. rewrite Hrole in Ha2; cbn [bind] in Ha2.
  pose proof (get_Ok_not_nullish _ _ _ Hrole) as Hobj.
  assert (Hnew : forall v k, k <> "content" ->
            get (spreadSet m "content" v) k = get m k).
  { intros v k Hk. now apply get_spreadSet_other. }
  destruct (eqStr role "tool") eqn:Et.
  - pose proof (role_tool_not_user _ Et) as Eu. rewrite Eu in Ha2. inv_ok Ha2.
    bind_inv Ha1 cid Hcid. bind_inv Ha1 hit Hhit.
    subst a1. destruct hit; inv_ok Ha1.
    rewrite !Hnew by discriminate. rewrite Hrole; cbn [bind].
    rewrite Et, Eu, Hcid; cbn [bind]. rewrite Hhit; cbn [bind].
    now rewrite spreadSet_idem.
  - inv_ok Ha1. destruct a2 as [x|]; [|discriminate]. inv_ok Ho.
    destruct (eqStr role "user") eqn:Eu; [|discriminate].
    bind_inv Ha2 c Hc.
    destruct c as [| | | | |parts|]; try discriminate.
    bind_inv Ha2 acc Hloop. destruct acc as [newParts modified].
    destruct modified; inv_ok Ha2.
    destruct (flagged_map_again _ chatPart_again _ _ _ _ _ Hloop)
      as (ps' & hit & Enp & Emd & Hagain).
    simpl in Enp, Emd. subst newParts hit.
    rewrite !Hnew by discriminate. rewrite Hrole; cbn [bind].
    rewrite Et, Eu. rewrite get_spreadSet_same; cbn [bind].
    rewrite Hagain; cbn [bind]. simpl.
    now rewrite spreadSet_spreadSet.
Qed.

(** *** bedrock *)

Lemma bedrockBlock_again (np : list value) (md : bool) (block : value)
      (np' : list value) (md' : bool) :
  Replace.bedrockBlock tl newContent (np, md) block = Ok (np', md') ->
  exists block' hit,
    np' = (np ++ [block'])%list /\ md' = md || hit
    /\ forall np2 md2,
         Replace.bedrockBlock tl newContent (np2, md2) block'
         = Ok ((np2 ++ [block'])%list, md2 || hit).
Proof.
  intros H. unfold Replace.bedrockBlock in H.
  bind_inv H tr Htr. pose proof (get_Ok_not_nullish _ _ _ Htr) as Hobj.
  destruct (truthy tr) eqn:Ttr.
  - bind_inv H uid Huid. bind_inv H hit Hhit. destruct hit; inv_ok H.
    + eexists _, true.
      split; [reflexivity|]. split; [now rewrite orb_true_r|].
      intros np2 md2. unfold Replace.bedrockBlock.
      rewrite get_spreadSet_same; cbn [bind]. rewrite truthy_spreadSet.
      rewrite get_spreadSet_other by (auto using truthy_not_nullish; discriminate).
      rewrite Huid; cbn [bind]. rewrite Hhit; cbn [bind].
      now rewrite spreadSet_idem, spreadSet_idem, orb_true_r.
    + exists block, false. split; [reflexivity|]. split; [now rewrite orb_false_r|].
      intros np2 md2. unfold Replace.bedrockBlock.
      rewrite Htr; cbn [bind]. rewrite Ttr, Huid; cbn [bind]. rewrite Hhit; cbn [bind].
      now rewrite orb_false_r.
  - inv_ok H. exists block, false. split; [reflexivity|]. split; [now rewrite orb_false_r|].
    intros np2 md2. unfold Replace.bedrockBlock.
    rewrite Htr; cbn [bind]. rewrite Ttr. now rewrite orb_false_r.
Qed.

Lemma bedrockStep_again (s : unit) (m : value) (s' : unit) (o : option value) :
  Replace.bedrockStep tl newContent s m = Ok (s', o) ->
  Replace.bedrockStep tl newContent s (assigned m o) = Ok (s', o).
Proof.
  intros H. destruct o as [m'|]; [|exact H]. cbn [assigned].
  unfold Replace.bedrockStep in H |- *.
  bind_inv H role Hrole. pose proof (get_Ok_not_nullish _ _ _ Hrole) as Hobj.
  destruct (eqStr role "user") eqn:Eu; [|discriminate].
  bind_inv H c Hc.
  destruct c as [| | | | |blocks|]; try discriminate.
  bind_inv H acc Hloop. destruct acc as [newBlocks modified].
  destruct modified; inv_ok H.
  destruct (flagged_map_again _ bedrockBlock_again _ _ _ _ _ Hloop)
    as (ps' & hit & Enp & Emd & Hagain).
  simpl in Enp, Emd. subst newBlocks hit.
  rewrite get_spreadSet_other by (auto; discriminate).
  rewrite Hrole; cbn [bind]. rewrite Eu. rewrite get_spreadSet_same; cbn [bind].
  rewrite Hagain; cbn [bind]. simpl.
  now rewrite spreadSet_spreadSet.
Qed.

(** *** gemini *)

Variable positionMapping : JSMap.t string.

Lemma geminiPart_again (np : list value) (md : bool) (counters : JSMap.t nat)
      (part : value) (np' : list value) (md' : bool) (counters' : JSMap.t nat) :
  Replace.geminiPart tl newContent positionMapping (np, md, counters) part
  = Ok (np', md', counters') ->
  exists part' hit,
    np' = (np ++ [part'])%list /\ md' = md || hit
    /\ forall np2 md2,
         Replace.geminiPart tl newContent positionMapping (np2, md2, counters) part'
         = Ok ((np2 ++ [part'])%list, md2 || hit, counters').
Proof.
  intros H. unfold Replace.geminiPart in H.
  bind_inv H fr Hfr. pose proof (get_Ok_not_nullish _ _ _ Hfr) as Hobj.
  destruct (truthy fr) eqn:Tfr.
  - bind_inv H name0 Hname. bind_inv H funcName Hfn.
    destruct funcName as [| | | |fn| |];
      try (inv_ok H; exists part, false;
           split; [reflexivity|]; split; [now rewrite orb_false_r|];
           intros np2 md2; unfold Replace.geminiPart;
           rewrite Hfr; cbn [bind]; rewrite Tfr, Hname; cbn [bind];
           rewrite Hfn; cbn [bind]; now rewrite orb_false_r).
    destruct (truthy (VStr fn)) eqn:Tfn.
    + destruct (match JSMap.get (Gemini.positionKey fn (Gemini.counterOf counters fn))
                        positionMapping with
                | Some s => String.eqb (toLowerCase s) tl
                | None => false
                end) eqn:Ehit; inv_ok H.
      * exists (Replace.geminiRewrite newContent part fr name0), true.
        split; [reflexivity|]. split; [now rewrite orb_true_r|].
        intros np2 md2. unfold Replace.geminiPart, Replace.geminiRewrite.
        rewrite get_spreadSet_same; cbn [bind]. rewrite truthy_spreadSet.
        rewrite get_spreadSet_other by (auto using truthy_not_nullish; discriminate).
        rewrite Hname; cbn [bind]. rewrite Hfn; cbn [bind]. rewrite Tfn, Ehit.
        now rewrite spreadSet_idem, spreadSet_idem, orb_true_r.
      * exists part, false. split; [reflexivity|]. split; [now rewrite orb_false_r|].
        intros np2 md2. unfold Replace.geminiPart.
        rewrite Hfr; cbn [bind]. rewrite Tfr, Hname; cbn [bind].
        rewrite Hfn; cbn [bind]. rewrite Tfn, Ehit. now rewrite orb_false_r.
    + inv_ok H. exists part, false. split; [reflexivity|]. split; [now rewrite orb_false_r|].
      intros np2 md2. unfold Replace.geminiPart.
      rewrite Hfr; cbn [bind]. rewrite Tfr, Hname; cbn [bind].
      rewrite Hfn; cbn [bind]. rewrite Tfn. now rewrite orb_false_r.
  - inv_ok H. exists part, false. split; [reflexivity|]. split; [now rewrite orb_false_r|].
    intros np2 md2. unfold Replace.geminiPart.
    rewrite Hfr; cbn [bind]. rewrite Tfr. now rewrite orb_false_r.
Qed.

Lemma geminiStep_again (counters : JSMap.t nat) (c : value)
      (counters' : JSMap.t nat) (o : option value) :
  Replace.geminiStep tl newContent positionMapping counters c = Ok (counters', o) ->
  Replace.geminiStep tl newContent positionMapping counters (assigned c o)
  = Ok (counters', o).
Proof.
  intros H. destruct o as [c'|]; [|exact H]. cbn [assigned].
  unfold Replace.geminiStep in H |- *.
  bind_inv H parts Hparts. pose proof (get_Ok_not_nullish _ _ _ Hparts) as Hobj.
  destruct parts as [| | | | |ps|]; try discriminate.
  bind_inv H acc Hloop. destruct acc as [[newParts modified] cs].
  destruct modified; inv_ok H.
  destruct (flagged_map_again_state _ geminiPart_again _ _ _ _ _ _ _ Hloop)
    as (ps' & hit & Enp & Emd & Hagain).
  simpl in Enp, Emd. subst newParts hit.
  rewrite get_spreadSet_same; cbn [bind].
  rewrite Hagain; cbn [bind]. simpl.
  now rewrite spreadSet_spreadSet.
Qed.

End Again.

(** X26. Replacing is idempotent in each of the four formats: when a call
    returns, a second call with the same identifier, the same content and
    the same state, on the body the first call left, leaves that body as
    it is and returns what the first call returned. *)
Theorem replaceToolOutput_idempotent
        (format : FormatDescriptor) (body : value) (toolId newContent : string)
        (state : PluginState) (body1 : value) (replaced : bool) :
  In format formats ->
  replaceToolOutput body format toolId newContent state = (body1, Ok replaced) ->
  replaceToolOutput body1 format toolId newContent state = (body1, Ok replaced).
Proof.
  intros Hf H. pose proof H as Hkeep.
  unfold replaceToolOutput in H.
  destruct (getDataArray format body) as [dataArray|e] eqn:Hd; [|inv_ok H].
  destruct (negb (truthy dataArray)) eqn:Tr; [inv_ok H; exact Hkeep|].
  destruct dataArray as [| | | | |data|]; try (inv_ok H; exact Hkeep).
  assert (Hagain : forall {S : Type} (step : S -> value -> result (S * option value)) s0 data' r,
             (forall s x s' o, step s x = Ok (s', o) -> step s (assigned x o) = Ok (s', o)) ->
             assignLoop step s0 false data = (data', r) ->
             (storeData body (dataKey (name format)) data', r) = (body1, Ok replaced) ->
             getDataArray format body1 = Ok (VArr data')
             /\ assignLoop step s0 false data' = (data', Ok replaced)
             /\ storeData body1 (dataKey (name format)) data' = body1).
  { intros S step s0 data' r Hstep Ha E. inv_ok E.
    split; [apply (getDataArray_storeData format body data _ Hf Hd)|].
    split; [now apply (assignLoop_again step Hstep data)|]. apply storeData_storeData. }
  unfold formats in Hf. simpl in Hf.
  destruct Hf as [<- | [<- | [<- | [<- | []]]]]; simpl in H.
  - destruct (assignLoop (Replace.responsesStep (toLowerCase toolId) newContent)
                tt false data) as [data' r] eqn:Ha.
    destruct (Hagain _ _ _ _ _ (responsesStep_again _ _) Ha H) as (Hd' & Ha' & Hs').
    unfold replaceToolOutput. rewrite Hd'. simpl. rewrite Ha'.
    f_equal. exact Hs'.
  - destruct (assignLoop (Replace.bedrockStep (toLowerCase toolId) newContent)
                tt false data) as [data' r] eqn:Ha.
    destruct (Hagain _ _ _ _ _ (bedrockStep_again _ _) Ha H) as (Hd' & Ha' & Hs').
    unfold replaceToolOutput. rewrite Hd'. simpl. rewrite Ha'.
    f_equal. exact Hs'.
  - destruct (assignLoop (Replace.chatStep (toLowerCase toolId) newContent)
                tt false data) as [data' r] eqn:Ha.
    destruct (Hagain _ _ _ _ _ (chatStep_again _ _) Ha H) as (Hd' & Ha' & Hs').
    unfold replaceToolOutput. rewrite Hd'. simpl. rewrite Ha'.
    f_equal. exact Hs'.
  - destruct (Gemini.findPositionMapping (googleToolCallMapping state))
      as [positionMapping|] eqn:Hm; [|inv_ok H; exact Hkeep].
    destruct (assignLoop (Replace.geminiStep (toLowerCase toolId) newContent
                            positionMapping) JSMap.empty false data)
      as [data' r] eqn:Ha.
    destruct (Hagain _ _ _ _ _ (geminiStep_again _ _ _) Ha H) as (Hd' & Ha' & Hs').
    unfold replaceToolOutput. rewrite Hd'. simpl. rewrite Hm, Ha'.
    f_equal. exact Hs'.
Qed.

Lemma replaceToolOutput_idempotent_witness :
  replaceToolOutput
    (VObj [("model", VStr "gpt");
           ("messages", VArr [chatUserTurn; chatAssistantTurn;
                              VObj [("role", VStr "tool"); ("tool_call_id", VStr "Call_1");
                                    ("content", VStr "[pruned]")]])])
    openaiChatFormat "CALL_1" "[pruned]" createPluginState
  = (VObj [("model", VStr "gpt");
           ("messages", VArr [chatUserTurn; chatAssistantTurn;
                              VObj [("role", VStr "tool"); ("tool_call_id", VStr "Call_1");
                                    ("content", VStr "[pruned]")]])],
     Ok true).
Proof.
  apply (replaceToolOutput_idempotent openaiChatFormat chatBody "CALL_1" "[pruned]"
           createPluginState).
  - unfold formats; simpl; auto.
  - reflexivity.
Defined.
